(** * Markdown <-> ADF conversion core of the Jira MCP server

    A shallow embedding of the conversion functions of the server
    ([parseInlineContent], [addBulletItem], [addOrderedItem],
    [createADFDocument], [inlineNodesToText], [blockNodeToText],
    [adfToText]) together with the properties the design document states
    about them.

    JavaScript strings are sequences of UTF-16 code units; a code unit is
    modelled by a number in [N] and a string by a list of code units.
    JavaScript values are modelled by the JSON fragment of the language
    (the documents handled by the server are JSON values): [undefined],
    [null], booleans, integral numbers, strings, arrays and plain objects.
    An object is the list of its own properties in insertion order; a
    read finds the first property of the name.

    The file goes on with the rest of the server: the validators of the
    arguments, the constants read from the environment, [handleError]
    and the handler of tool calls with its tools.  A tool is a [task]:
    it finishes, or it sends a request to Jira and goes on with the
    reply.  The tool calls of the older [index.js] are in
    [LegacyTools]. *)

From Stdlib Require Import Ascii String.
From Stdlib Require Import List NArith ZArith Bool Lia DecimalPos.
Import ListNotations.

Set Warnings "-register-all".

(* ================================================================== *)
(** * Strings *)
(* ================================================================== *)

Definition str := list N.

(** [js "abc"] is the JavaScript string literal ['abc']. *)
Definition js (s : string) : str := map N_of_ascii (list_ascii_of_string s).

Definition LF : N := 10.
Definition SPACE : N := 32.
Definition HASH : N := 35.
Definition LPAREN : N := 40.
Definition RPAREN : N := 41.
Definition STAR : N := 42.
Definition DASH : N := 45.
Definition DOT : N := 46.
Definition GT : N := 62.
Definition LBRACKET : N := 91.
Definition RBRACKET : N := 93.
Definition BACKTICK : N := 96.
Definition LOWER_H : N := 104.
Definition PIPE : N := 124.
Definition TILDE : N := 126.

Fixpoint str_eqb (a b : str) : bool :=
  match a, b with
  | [], [] => true
  | x :: a', y :: b' => N.eqb x y && str_eqb a' b'
  | _, _ => false
  end.

Definition is_empty (s : str) : bool :=
  match s with [] => true | _ => false end.

(** ECMAScript LineTerminator: LF, CR, U+2028, U+2029. *)
Definition is_lt (c : N) : bool :=
  N.eqb c 10 || N.eqb c 13 || N.eqb c 8232 || N.eqb c 8233.

(** ECMAScript WhiteSpace and LineTerminator code units: the set stripped
    by [String.prototype.trim] and matched by [\s]. *)
Definition is_ws (c : N) : bool :=
  N.eqb c 9 || N.eqb c 11 || N.eqb c 12 || N.eqb c 32 || N.eqb c 160
  || N.eqb c 5760 || (N.leb 8192 c && N.leb c 8202) || N.eqb c 8239
  || N.eqb c 8287 || N.eqb c 12288 || N.eqb c 65279 || is_lt c.

(** [\d] *)
Definition is_digit (c : N) : bool := N.leb 48 c && N.leb c 57.

Definition is_not (d : N) (c : N) : bool := negb (N.eqb c d).

(** Longest prefix whose code units satisfy [p], and the rest: the part
    consumed by a greedy [[class]*]. *)
Fixpoint span (p : N -> bool) (s : str) : str * str :=
  match s with
  | [] => ([], [])
  | c :: s' =>
      if p c then let (a, b) := span p s' in (c :: a, b) else ([], s)
  end.

Fixpoint dropWhile (p : N -> bool) (s : str) : str :=
  match s with
  | [] => []
  | c :: s' => if p c then dropWhile p s' else s
  end.

(** [s.trim()] *)
Definition trim (s : str) : str :=
  rev (dropWhile is_ws (rev (dropWhile is_ws s))).

(** [s.startsWith(p)] *)
Fixpoint startsWith (p s : str) : bool :=
  match p, s with
  | [], _ => true
  | x :: p', y :: s' => N.eqb x y && startsWith p' s'
  | _ :: _, [] => false
  end.

(** [s.substring(n)] *)
Definition substring (n : nat) (s : str) : str := skipn n s.

(** [s.split('\n')]: the result is never empty. *)
Fixpoint split_lines (s : str) : list str :=
  match s with
  | [] => [[]]
  | c :: s' =>
      if N.eqb c LF then [] :: split_lines s'
      else match split_lines s' with
           | l :: ls => (c :: l) :: ls
           | [] => [[c]]
           end
  end.

(** [l.join(sep)] on an array of strings *)
Fixpoint join (sep : str) (l : list str) : str :=
  match l with
  | [] => []
  | [a] => a
  | a :: l' => a ++ sep ++ join sep l'
  end.

(** ['c'.repeat(n)] for a one-unit string *)
Definition repeat_unit (c : N) (n : nat) : str := repeat c n.

(** Decimal digits of a natural number, as [Number::toString] prints an
    integer. *)
Fixpoint uint_digits (d : Decimal.uint) : str :=
  match d with
  | Decimal.Nil => []
  | Decimal.D0 d' => 48%N :: uint_digits d'
  | Decimal.D1 d' => 49%N :: uint_digits d'
  | Decimal.D2 d' => 50%N :: uint_digits d'
  | Decimal.D3 d' => 51%N :: uint_digits d'
  | Decimal.D4 d' => 52%N :: uint_digits d'
  | Decimal.D5 d' => 53%N :: uint_digits d'
  | Decimal.D6 d' => 54%N :: uint_digits d'
  | Decimal.D7 d' => 55%N :: uint_digits d'
  | Decimal.D8 d' => 56%N :: uint_digits d'
  | Decimal.D9 d' => 57%N :: uint_digits d'
  end.

Definition decimal (n : N) : str := uint_digits (N.to_uint n).

(* ================================================================== *)
(** * Values *)
(* ================================================================== *)

Inductive value : Type :=
| VUndefined
| VNull
| VBool (b : bool)
| VNum (z : Z)
| VStr (s : str)
| VArr (items : list value)
| VObj (fields : list (str * value)).

(** ToBoolean *)
Definition truthy (v : value) : bool :=
  match v with
  | VUndefined | VNull => false
  | VBool b => b
  | VNum z => negb (Z.eqb z 0)
  | VStr s => negb (is_empty s)
  | VArr _ | VObj _ => true
  end.

(** [a || b] *)
Definition or_else (a b : value) : value := if truthy a then a else b.

(** [v === 'lit'] *)
Definition is_str (lit : str) (v : value) : bool :=
  match v with VStr s => str_eqb s lit | _ => false end.

Definition isArray (v : value) : bool :=
  match v with VArr _ => true | _ => false end.

Inductive error : Type := TypeError | RangeError.

(** Result of running a piece of the renderer: a value, a thrown
    exception, or [Unmodelled] for the two coercions this development
    does not cover (printing a number of magnitude 1e21 or more, and
    converting a string or an array to a repeat count). *)
Inductive outcome (A : Type) : Type :=
| Ok (a : A)
| Throw (e : error)
| Unmodelled.

Arguments Ok {A} a.
Arguments Throw {A} e.
Arguments Unmodelled {A}.

Definition bind {A B} (m : outcome A) (f : A -> outcome B) : outcome B :=
  match m with
  | Ok a => f a
  | Throw e => Throw e
  | Unmodelled => Unmodelled
  end.

Notation "x <- m ;; k" := (bind m (fun x => k))
  (at level 61, m at next level, right associativity).

(** Property reads are written in continuation style so that the values
    they return are visibly parts of the object they are read from.  The
    property names read by the program ([type], [content], [marks],
    [attrs], [text], [href], [id], [url], [shortName], [level],
    [language]) are defined on no built-in prototype, so reading them
    from a primitive or from an array yields [undefined]; reading from
    [null] or [undefined] throws. *)
Section Get.
Context {A : Type}.
Variable k : str.
Variable f : value -> outcome A.

Fixpoint lookup (l : list (str * value)) : outcome A :=
  match l with
  | [] => f VUndefined
  | (k', x) :: l' => if str_eqb k' k then f x else lookup l'
  end.

(** [node.k] *)
Definition get (node : value) : outcome A :=
  match node with
  | VUndefined | VNull => Throw TypeError
  | VObj fs => lookup fs
  | _ => f VUndefined
  end.

(** [node?.k] *)
Definition get_opt (node : value) : outcome A :=
  match node with
  | VUndefined | VNull => f VUndefined
  | _ => get node
  end.
End Get.

Notation "'let*' x ':=' node '.[' k ']' 'in' body" :=
  (get (js k) (fun x => body) node)
  (at level 61, x name, node at next level, right associativity).
Notation "'let*' x ':=' node '?.[' k ']' 'in' body" :=
  (get_opt (js k) (fun x => body) node)
  (at level 61, x name, node at next level, right associativity).

(** [arr.map(f)] with a callback that may throw *)
Section MapM.
Context {A B : Type}.
Variable f : A -> outcome B.
Fixpoint mapM (l : list A) : outcome (list B) :=
  match l with
  | [] => Ok []
  | a :: l' => b <- f a ;; r <- mapM l' ;; Ok (b :: r)
  end.
End MapM.

(** [arr.map((x, i) => f(x, i))], [i] counted from [start] *)
Section MapiM.
Context {A B : Type}.
Variable f : nat -> A -> outcome B.
Fixpoint mapiM (start : nat) (l : list A) : outcome (list B) :=
  match l with
  | [] => Ok []
  | a :: l' => b <- f start a ;; r <- mapiM (S start) l' ;; Ok (b :: r)
  end.
End MapiM.

(** Own-property test on an object *)
Fixpoint has_key (k : str) (l : list (str * value)) : bool :=
  match l with
  | [] => false
  | (k', _) :: l' => str_eqb k' k || has_key k l'
  end.

(** ToString on JSON values.  A number prints its decimal digits when
    it is a safe integer, at most 2^53 - 1 in absolute value: up to
    there every integer is a number of the language and the digits
    printed are its exact decimal expansion.  Beyond, the language
    prints the shortest digits that read back as the same number,
    followed by zeros, or an exponent; those are not modelled.  An array
    prints its elements joined by commas ([null] and [undefined] print
    as nothing); a plain object prints as [[object Object]] unless it
    shadows [toString] with a (necessarily non-callable) own property,
    in which case the conversion throws. *)
Fixpoint toString (v : value) : outcome str :=
  match v with
  | VUndefined => Ok (js "undefined")
  | VNull => Ok (js "null")
  | VBool true => Ok (js "true")
  | VBool false => Ok (js "false")
  | VNum z =>
      if Z.leb (Z.abs z) 9007199254740991
      then Ok ((if Z.ltb z 0 then [DASH] else []) ++ decimal (Z.to_N (Z.abs z)))
      else Unmodelled
  | VStr s => Ok s
  | VArr items =>
      l <- mapM (fun x => match x with
                          | VUndefined | VNull => Ok []
                          | _ => toString x
                          end) items ;;
      Ok (join (js ",") l)
  | VObj fs =>
      if has_key (js "toString") fs then Throw TypeError
      else Ok (js "[object Object]")
  end.

(** [arr.join(sep)] on an array of arbitrary values *)
Definition join_values (sep : str) (l : list value) : outcome str :=
  ss <- mapM (fun x => match x with
                       | VUndefined | VNull => Ok []
                       | _ => toString x
                       end) l ;;
  Ok (join sep ss).

(* ================================================================== *)
(** * Parsing: text to document *)
(* ================================================================== *)

(** ** Inline tokenizer *)

(** Object literals built by the parser, fields in source order. *)
Definition mark (ty : string) : value := VObj [(js "type", VStr (js ty))].

Definition link_mark (href : str) : value :=
  VObj [(js "type", VStr (js "link"));
        (js "attrs", VObj [(js "href", VStr href)])].

Definition plain_text (text : str) : value :=
  VObj [(js "type", VStr (js "text")); (js "text", VStr text)].

Definition marked_text (text : str) (m : value) : value :=
  VObj [(js "type", VStr (js "text")); (js "text", VStr text);
        (js "marks", VArr [m])].

(** [dd([^d]+)dd] at the start of [s]: the captured group and the length
    of the match.  The class excludes the delimiter, so the greedy group
    is the whole run up to the next delimiter and no shorter group can be
    followed by one. *)
Definition double_delimited (d : N) (s : str) : option (str * nat) :=
  match s with
  | d1 :: d2 :: r =>
      if N.eqb d1 d && N.eqb d2 d then
        match span (is_not d) r with
        | ((_ :: _) as body, e1 :: e2 :: _) =>
            if N.eqb e1 d && N.eqb e2 d
            then Some (body, length body + 4) else None
        | _ => None
        end
      else None
  | _ => None
  end.

(** [d([^d]+)d] at the start of [s] *)
Definition single_delimited (d : N) (s : str) : option (str * nat) :=
  match s with
  | d1 :: r =>
      if N.eqb d1 d then
        match span (is_not d) r with
        | ((_ :: _) as body, e1 :: _) =>
            if N.eqb e1 d then Some (body, length body + 2) else None
        | _ => None
        end
      else None
  | _ => None
  end.

(** [\[([^\]]+)\]\(([^)]+)\)] at the start of [s] *)
Definition md_link (s : str) : option (str * str * nat) :=
  match s with
  | b :: r =>
      if N.eqb b LBRACKET then
        match span (is_not RBRACKET) r with
        | ((_ :: _) as text, _ :: p :: r') =>
            if N.eqb p LPAREN then
              match span (is_not RPAREN) r' with
              | ((_ :: _) as href, _ :: _) =>
                  Some (text, href, length text + length href + 4)
              | _ => None
              end
            else None
        | _ => None
        end
      else None
  | _ => None
  end.

(** Split [w] at its last [|] that leaves a non-empty right part: the
    split a greedy left group backtracks to.  The left part may be
    empty. *)
Fixpoint split_pipe (w : str) : option (str * str) :=
  match w with
  | [] => None
  | c :: w' =>
      match split_pipe w' with
      | Some (t, u) => Some (c :: t, u)
      | None =>
          if N.eqb c PIPE && negb (is_empty w') then Some ([], w') else None
      end
  end.

(** [\[([^\]]+)\|([^\]]+)\]] at the start of [s] *)
Definition pipe_link (s : str) : option (str * str * nat) :=
  match s with
  | b :: r =>
      if N.eqb b LBRACKET then
        match span (is_not RBRACKET) r with
        | (c :: w, _ :: _) =>
            match split_pipe w with
            | Some (t, href) =>
                Some (c :: t, href, length (c :: w) + 2)
            | None => None
            end
        | _ => None
        end
      else None
  | _ => None
  end.

(** One attempt of the inline regular expression at the start of [s]:
    the alternatives in their source order, with the node pushed for the
    first that matches and the length of the match. *)
Definition match_at (s : str) : option (value * nat) :=
  match double_delimited STAR s with
  | Some (t, n) => Some (marked_text t (mark "strong"), n)
  | None =>
  match double_delimited TILDE s with
  | Some (t, n) => Some (marked_text t (mark "strike"), n)
  | None =>
  match single_delimited STAR s with
  | Some (t, n) => Some (marked_text t (mark "em"), n)
  | None =>
  match md_link s with
  | Some (t, h, n) => Some (marked_text t (link_mark h), n)
  | None =>
  match pipe_link s with
  | Some (t, h, n) => Some (marked_text t (link_mark h), n)
  | None =>
  match single_delimited BACKTICK s with
  | Some (t, n) => Some (marked_text t (mark "code"), n)
  | None => None
  end end end end end end.

(** The literal text between two matches, pushed when non-empty. *)
Definition flush (pending : str) : list value :=
  if is_empty pending then [] else [plain_text pending].

(** The [while ((match = regex.exec(text)) !== null)] loop and the push
    of the trailing text.  [exec] tries the expression at each position
    from [lastIndex] on; [pending] is [text.substring(lastIndex, here)]
    and [skip] counts the code units of the last match still to pass. *)
Fixpoint scan (s : str) (skip : nat) (pending : str) : list value :=
  match s with
  | [] => flush pending
  | c :: s' =>
      match skip with
      | S k => scan s' k pending
      | O =>
          match match_at s with
          | Some (node, len) => flush pending ++ node :: scan s' (len - 1) []
          | None => scan s' 0 (pending ++ [c])
          end
      end
  end.

Definition parseInlineContent (text : str) : list value :=
  if is_empty text then [] else
  let parts := scan text 0 [] in
  match parts with
  | _ :: _ => parts
  | [] => if is_empty text then [] else [plain_text text]
  end.

(** ** Block builder *)

Definition paragraph (content : list value) : value :=
  VObj [(js "type", VStr (js "paragraph")); (js "content", VArr content)].

Definition heading (level : Z) (content : list value) : value :=
  VObj [(js "type", VStr (js "heading"));
        (js "attrs", VObj [(js "level", VNum level)]);
        (js "content", VArr content)].

Definition listItem (content : list value) : value :=
  VObj [(js "type", VStr (js "listItem"));
        (js "content", VArr [paragraph content])].

Definition list_node (ty : string) (items : list value) : value :=
  VObj [(js "type", VStr (js ty)); (js "content", VArr items)].

Definition rule : value := VObj [(js "type", VStr (js "rule"))].

(** The [codeBlock] object after the two conditional assignments. *)
Definition codeBlock (codeText : str) (lang : option str) : value :=
  VObj ([(js "type", VStr (js "codeBlock"))]
        ++ (if is_empty codeText then []
            else [(js "content", VArr [plain_text codeText])])
        ++ (match lang with
            | Some l => if is_empty l then []
                        else [(js "attrs", VObj [(js "language", VStr l)])]
            | None => []
            end)).

Definition doc (nodes : list value) : value :=
  VObj [(js "type", VStr (js "doc")); (js "version", VNum 1);
        (js "content", VArr nodes)].

Fixpoint last_non_lt (w : str) : option N :=
  match w with
  | [] => None
  | c :: w' =>
      match last_non_lt w' with
      | Some x => Some x
      | None => if is_lt c then None else Some c
      end
  end.

(** [\s+(.+)] at the start of [s]: the captured group.  The greedy
    [\s+] takes the whole whitespace run; [.] matches anything but a line
    terminator, so the group runs to the next line terminator.  When the
    whitespace run reaches the end of the string, [\s+] gives back code
    units until the group can start, on the last code unit of the run
    that is not a line terminator. *)
Definition ws_then_text (s : str) : option str :=
  match span is_ws s with
  | ([], _) => None
  | (_ :: _, ((_ :: _) as r)) => Some (fst (span (fun c => negb (is_lt c)) r))
  | (_ :: w, []) =>
      match last_non_lt w with
      | Some c => Some [c]
      | None => None
      end
  end.

(** [line.match(/^h([1-6])\.\s+(.+)/)]: [parseInt] of the first group
    and the second group *)
Definition jiraHeading (line : str) : option (Z * str) :=
  match line with
  | h :: d :: p :: r =>
      if N.eqb h LOWER_H && (N.leb 49 d && N.leb d 54) && N.eqb p DOT then
        match ws_then_text r with
        | Some text => Some (Z.of_N (d - 48), text)
        | None => None
        end
      else None
  | _ => None
  end.

(** [line.match(/^(#{1,6})\s+(.+)/)]: the length of the first group and
    the second group.  With more than six [#] the first group cannot be
    followed by whitespace. *)
Definition mdHeading (line : str) : option (Z * str) :=
  let (hs, r) := span (N.eqb HASH) line in
  if (1 <=? length hs) && (length hs <=? 6) then
    match ws_then_text r with
    | Some text => Some (Z.of_nat (length hs), text)
    | None => None
    end
  else None.

(** [/^\d+\.\s+/] at the start of [line]: what is left after the match,
    that is [line.replace(/^\d+\.\s+/, '')] when the test succeeds *)
Definition ordered_marker (line : str) : option str :=
  match span is_digit line with
  | (_ :: _, p :: r) =>
      if N.eqb p DOT then
        match span is_ws r with
        | (_ :: _, rest) => Some rest
        | _ => None
        end
      else None
  | _ => None
  end.

Fixpoint last_node (nodes : list value) : value :=
  match nodes with
  | [] => VUndefined
  | [n] => n
  | _ :: l => last_node l
  end.

(** [node.type === ty] on a node that is not [null] *)
Definition has_type (ty : string) (node : value) : bool :=
  match node with
  | VObj fs =>
      match lookup (js "type") (fun v => Ok (is_str (js ty) v)) fs with
      | Ok b => b
      | _ => false
      end
  | _ => false
  end.

(** [node.content.push(item)] on a node whose [content] is an array, as
    it is for every node this parser has pushed. *)
Definition push_content (node item : value) : value :=
  match node with
  | VObj fs =>
      VObj (map (fun kv : str * value =>
                   let (k, v) := kv in
                   if str_eqb k (js "content") then
                     match v with
                     | VArr l => (k, VArr (l ++ [item]))
                     | _ => kv
                     end
                   else kv) fs)
  | _ => node
  end.

(** The shape [addBulletItem], [addOrderedItem] and the blockquote case
    of the loop share: look at the last pushed node; append the item to
    its content when it has type [ty], else push a new node of that type
    holding the item. *)
Definition add_to_run (ty : string) (nodes : list value) (item : value)
  : list value :=
  let lastNode := last_node nodes in
  if truthy lastNode && has_type ty lastNode
  then removelast nodes ++ [push_content lastNode item]
  else nodes ++ [list_node ty [item]].

Definition addBulletItem (nodes : list value) (content : list value)
  : list value :=
  add_to_run "bulletList" nodes (listItem content).

Definition addOrderedItem (nodes : list value) (content : list value)
  : list value :=
  add_to_run "orderedList" nodes (listItem content).

Definition is_empty_list {A} (l : list A) : bool :=
  match l with [] => true | _ => false end.

Definition FENCE : str := js "```".

(** [line.length > 3 ? line.substring(3).trim() : null] *)
Definition fence_lang (line : str) : option str :=
  if 3 <? length line then Some (trim (substring 3 line)) else None.

(** The body of the [for] loop over [lines], with [nodes] the array built
    so far.  The inner loop of the fence case runs over the lines that
    follow and hands the lines after the closing fence back to the outer
    loop. *)
Fixpoint parseLines (lines : list str) (nodes : list value) : list value :=
  match lines with
  | [] => nodes
  | raw :: rest =>
      let line := trim raw in
      if is_empty line then parseLines rest nodes else
      match jiraHeading line with
      | Some (level, text) =>
          parseLines rest (nodes ++ [heading level (parseInlineContent text)])
      | None =>
      match mdHeading line with
      | Some (level, text) =>
          parseLines rest (nodes ++ [heading level (parseInlineContent text)])
      | None =>
      if startsWith (js "* ") line || startsWith (js "- ") line then
        parseLines rest
          (addBulletItem nodes (parseInlineContent (substring 2 line)))
      else
      match ordered_marker line with
      | Some text =>
          parseLines rest (addOrderedItem nodes (parseInlineContent text))
      | None =>
      if startsWith (js "> ") line then
        parseLines rest
          (add_to_run "blockquote" nodes
             (paragraph (parseInlineContent (substring 2 line))))
      else if str_eqb line (js "----") || str_eqb line (js "---") then
        parseLines rest (nodes ++ [rule])
      else if str_eqb line FENCE || startsWith FENCE line then
        let lang := fence_lang line in
        (fix capture (ls : list str) (codeLines : list str) : list value :=
           match ls with
           | [] => nodes ++ [codeBlock (join [LF] codeLines) lang]
           | l :: ls' =>
               if str_eqb (trim l) FENCE
               then parseLines ls'
                      (nodes ++ [codeBlock (join [LF] codeLines) lang])
               else capture ls' (codeLines ++ [l])
           end) rest []
      else
        parseLines rest (nodes ++ [paragraph (parseInlineContent line)])
      end end end
  end.

Definition empty_doc : value := doc [paragraph []].

Definition createADFDocument (content : value) : value :=
  match content with
  | VStr ((_ :: _) as s) =>
      let nodes := parseLines (split_lines s) [] in
      doc (if is_empty_list nodes then [paragraph []] else nodes)
  | _ => empty_doc
  end.

(* ================================================================== *)
(** * Rendering: document to text *)
(* ================================================================== *)

(** The body of the [switch (mark.type)] inside the loop over
    [node.marks], for one mark: the new value of [text]. *)
Definition apply_mark (text : value) (m : value) : outcome value :=
  let* ty := m.["type"] in
  if is_str (js "strong") ty then
    t <- toString text ;; Ok (VStr (js "**" ++ t ++ js "**"))
  else if is_str (js "em") ty then
    t <- toString text ;; Ok (VStr (js "*" ++ t ++ js "*"))
  else if is_str (js "strike") ty then
    t <- toString text ;; Ok (VStr (js "~~" ++ t ++ js "~~"))
  else if is_str (js "code") ty then
    t <- toString text ;; Ok (VStr (js "`" ++ t ++ js "`"))
  else if is_str (js "link") ty then
    t <- toString text ;;
    let* attrs := m.["attrs"] in
    let* href := attrs?.["href"] in
    h <- toString (or_else href (VStr [])) ;;
    Ok (VStr (js "[" ++ t ++ js "](" ++ h ++ js ")"))
  else Ok text.

(** [for (const mark of marks)] over an array *)
Fixpoint apply_marks (text : value) (marks : list value) : outcome value :=
  match marks with
  | [] => Ok text
  | m :: ms => t <- apply_mark text m ;; apply_marks t ms
  end.

(** The callback of [nodes.map] in [inlineNodesToText].  A string is
    iterable too: its elements are strings, whose [type] is [undefined],
    so the loop leaves [text] as it is; any other truthy [marks] is not
    iterable. *)
Definition inline_node (node : value) : outcome value :=
  let* ty := node.["type"] in
  if is_str (js "text") ty then
    let* t := node.["text"] in
    let text := or_else t (VStr []) in
    let* marks := node.["marks"] in
    if truthy marks then
      match marks with
      | VArr l => apply_marks text l
      | VStr _ => Ok text
      | _ => Throw TypeError
      end
    else Ok text
  else if is_str (js "hardBreak") ty then Ok (VStr [LF])
  else if is_str (js "mention") ty then
    let* attrs := node.["attrs"] in
    let* label := attrs?.["text"] in
    let* id := attrs?.["id"] in
    s <- toString (or_else (or_else label id) (VStr [])) ;;
    Ok (VStr (js "@" ++ s))
  else if is_str (js "inlineCard") ty then
    let* attrs := node.["attrs"] in
    let* url := attrs?.["url"] in
    Ok (or_else url (VStr []))
  else if is_str (js "emoji") ty then
    let* attrs := node.["attrs"] in
    let* shortName := attrs?.["shortName"] in
    Ok (or_else shortName (VStr []))
  else Ok (VStr []).

Definition inlineNodesToText (nodes : value) : outcome str :=
  match nodes with
  | VArr l => vs <- mapM inline_node l ;; join_values [] vs
  | _ => Ok []
  end.

(** [(v || []).map(f)]: a truthy [v] that is not an array has no [map]
    method. *)
Definition map_or_empty {B} (f : value -> outcome B) (v : value)
  : outcome (list B) :=
  match v with
  | VArr l => mapM f l
  | _ => if truthy v then Throw TypeError else Ok []
  end.

(** [(v || []).map((x, i) => f(i, x))] *)
Definition mapi_or_empty {B} (f : nat -> value -> outcome B) (v : value)
  : outcome (list B) :=
  match v with
  | VArr l => mapiM f 0 l
  | _ => if truthy v then Throw TypeError else Ok []
  end.

(** ['#'.repeat(count)] for a truthy [count]: the count is converted to
    a number and truncated; a negative count is a RangeError.  An object
    converts to NaN, hence to 0, unless the conversion itself throws.
    The limit an engine puts on the length of a string is not
    modelled. *)
Definition repeat_hash (count : value) : outcome str :=
  match count with
  | VNum z => if Z.ltb z 0 then Throw RangeError
              else Ok (repeat_unit HASH (Z.to_nat z))
  | VBool true => Ok [HASH]
  | VBool false | VNull | VUndefined => Ok []
  | VObj fs => if has_key (js "toString") fs then Throw TypeError else Ok []
  | VStr _ | VArr _ => Unmodelled
  end.

Fixpoint blockNodeToText (node : value) {struct node} : outcome str :=
  if negb (truthy node) then Ok [] else
  let* ty := node.["type"] in
  if is_str (js "paragraph") ty then
    let* content := node.["content"] in
    inlineNodesToText content
  else if is_str (js "heading") ty then
    let* attrs := node.["attrs"] in
    let* lv := attrs?.["level"] in
    let level := or_else lv (VNum 1) in
    hashes <- repeat_hash level ;;
    let* content := node.["content"] in
    text <- inlineNodesToText content ;;
    Ok (hashes ++ js " " ++ text)
  else if is_str (js "bulletList") ty then
    let* content := node.["content"] in
    items <- map_or_empty (fun item =>
               let* ic := item.["content"] in
               parts <- map_or_empty (fun c => blockNodeToText c) ic ;;
               Ok (js "- " ++ join [LF] parts)) content ;;
    Ok (join [LF] items)
  else if is_str (js "orderedList") ty then
    let* content := node.["content"] in
    items <- mapi_or_empty (fun i item =>
               let* ic := item.["content"] in
               parts <- map_or_empty (fun c => blockNodeToText c) ic ;;
               Ok (decimal (N.of_nat (i + 1)) ++ js ". " ++ join [LF] parts))
               content ;;
    Ok (join [LF] items)
  else if is_str (js "blockquote") ty then
    let* content := node.["content"] in
    items <- map_or_empty (fun c =>
               t <- blockNodeToText c ;; Ok (js "> " ++ t)) content ;;
    Ok (join [LF] items)
  else if is_str (js "codeBlock") ty then
    let* attrs := node.["attrs"] in
    let* language := attrs?.["language"] in
    let lang := or_else language (VStr []) in
    let* content := node.["content"] in
    code <- inlineNodesToText content ;;
    l <- toString lang ;;
    Ok (js "```" ++ l ++ [LF] ++ code ++ LF :: js "```")
  else if is_str (js "rule") ty then Ok (js "---")
  else if is_str (js "table") ty then
    let* content := node.["content"] in
    rows <- map_or_empty (fun row =>
              let* rc := row.["content"] in
              cells <- map_or_empty (fun cell =>
                         let* cc := cell.["content"] in
                         parts <- map_or_empty (fun c => blockNodeToText c) cc ;;
                         Ok (join (js " ") parts)) rc ;;
              Ok (js "| " ++ join (js " | ") cells ++ js " |")) content ;;
    Ok (join [LF] rows)
  else if is_str (js "mediaSingle") ty || is_str (js "mediaGroup") ty then
    Ok (js "[media]")
  else
    let* content := node.["content"] in
    inlineNodesToText content.

Definition adfToText (d : value) : outcome str :=
  let fallback := Ok (match d with VStr s => s | _ => [] end) in
  if negb (truthy d) then fallback else
  let* ty := d.["type"] in
  let* content := d.["content"] in
  match content with
  | VArr l =>
      if is_str (js "doc") ty then
        parts <- mapM blockNodeToText l ;; Ok (join [LF; LF] parts)
      else fallback
  | _ => fallback
  end.

(* ================================================================== *)
(** * The older [createADFDocument] of [index.js] *)
(* ================================================================== *)

Module Legacy.

(** [s.includes(c)] for a one-unit string *)
Definition includes (c : N) (s : str) : bool := existsb (N.eqb c) s.

(** [s.endsWith(c)] for a one-unit string *)
Definition endsWith (c : N) (s : str) : bool :=
  match rev s with
  | x :: _ => N.eqb x c
  | [] => false
  end.

(** [s.substring(a, b)]: both indices are clamped to the length and
    swapped when the first is the greater. *)
Definition substring2 (a b : nat) (s : str) : str :=
  let a' := Nat.min a (length s) in
  let b' := Nat.min b (length s) in
  firstn (Nat.max a' b' - Nat.min a' b') (skipn (Nat.min a' b') s).

(** [- \[([^\]]+)\|([^\]]+)\] (.+)] at the start of [s]: the three
    groups.  The two bracket groups lie between the bracket and the
    first closing bracket after it, whatever the split. *)
Definition issue_link_at (s : str) : option (str * str * str) :=
  match s with
  | d :: sp :: b :: r =>
      if N.eqb d DASH && N.eqb sp SPACE && N.eqb b LBRACKET then
        match span (is_not RBRACKET) r with
        | (c :: w, _ :: sp' :: ((_ :: _) as rest)) =>
            if N.eqb sp' SPACE then
              match split_pipe w, span (fun x => negb (is_lt x)) rest with
              | Some (t, href), ((_ :: _) as tail, _) =>
                  Some (c :: t, href, tail)
              | _, _ => None
              end
            else None
        | _ => None
        end
      else None
  | _ => None
  end.

(** [line.match(re)] for an expression without anchor: the first
    position from the left at which it matches. *)
Fixpoint search {A} (f : str -> option A) (s : str) : option A :=
  match f s with
  | Some a => Some a
  | None =>
      match s with
      | [] => None
      | _ :: s' => search f s'
      end
  end.

(** The loop over [/\*([^*]+)\*/g] and the push of the trailing text *)
Fixpoint scan_bold (s : str) (skip : nat) (pending : str) : list value :=
  match s with
  | [] => flush pending
  | c :: s' =>
      match skip with
      | S k => scan_bold s' k pending
      | O =>
          match single_delimited STAR s with
          | Some (t, len) =>
              flush pending ++ marked_text t (mark "strong")
                :: scan_bold s' (len - 1) []
          | None => scan_bold s' 0 (pending ++ [c])
          end
      end
  end.

Definition text_heading (level : Z) (line : str) : value :=
  heading level [plain_text (substring 4 line)].

Definition single_bullet (content : list value) : value :=
  list_node "bulletList" [listItem content].

Definition code (codeText : str) : value :=
  VObj [(js "type", VStr (js "codeBlock"));
        (js "content", VArr [plain_text codeText])].

Fixpoint parseLines (lines : list str) (nodes : list value) : list value :=
  match lines with
  | [] => nodes
  | raw :: rest =>
      let line := trim raw in
      if is_empty line then parseLines rest nodes
      else if startsWith (js "h1. ") line then
        parseLines rest (nodes ++ [text_heading 1 line])
      else if startsWith (js "h2. ") line then
        parseLines rest (nodes ++ [text_heading 2 line])
      else if startsWith (js "h3. ") line then
        parseLines rest (nodes ++ [text_heading 3 line])
      else if startsWith (js "- [") line && includes PIPE line then
        match search issue_link_at line with
        | Some (key, href, tail) =>
            parseLines rest
              (nodes ++ [single_bullet
                           [marked_text key (link_mark href);
                            plain_text (js " " ++ tail)]])
        | None => parseLines rest nodes
        end
      else if startsWith (js "* ") line then
        parseLines rest
          (nodes ++ [single_bullet [plain_text (substring 2 line)]])
      else if str_eqb line (js "----") then
        parseLines rest (nodes ++ [rule])
      else if str_eqb line FENCE || startsWith FENCE line then
        (fix capture (ls : list str) (codeLines : list str) : list value :=
           match ls with
           | [] => nodes ++ [code (join [LF] codeLines)]
           | l :: ls' =>
               if str_eqb (trim l) FENCE
               then parseLines ls' (nodes ++ [code (join [LF] codeLines)])
               else capture ls' (codeLines ++ [l])
           end) rest []
      else if includes STAR line && includes 58%N line then
        parseLines rest (nodes ++ [paragraph (scan_bold line 0 [])])
      else if startsWith [STAR] line && endsWith STAR line then
        parseLines rest
          (nodes ++ [paragraph
                       [marked_text (substring2 1 (length line - 1) line)
                          (mark "strong")]])
      else
        parseLines rest (nodes ++ [paragraph [plain_text line]])
  end.

(** [content.split] exists on strings only. *)
Definition createADFDocument (content : value) : outcome value :=
  match content with
  | VStr s => Ok (doc (parseLines (split_lines s) []))
  | _ => Throw TypeError
  end.

End Legacy.

(* ================================================================== *)
(** * Vocabulary of the statements *)
(* ================================================================== *)

(** A text of several lines: the lines joined by line feeds. *)
Definition unlines (l : list string) : str := join [LF] (map js l).

(** The value of the own property [k], [undefined] when there is none *)
Fixpoint assoc (k : str) (l : list (str * value)) : value :=
  match l with
  | [] => VUndefined
  | (k', x) :: l' => if str_eqb k' k then x else assoc k l'
  end.

(** [v.k] as a value, for a [v] that is not [null] *)
Definition field (k : string) (v : value) : value :=
  match v with
  | VObj fs => assoc (js k) fs
  | _ => VUndefined
  end.

Definition not_nullish (v : value) : bool :=
  match v with VUndefined | VNull => false | _ => true end.

(** The marks of the data model and the objects that carry them. *)
Inductive mark_kind : Type :=
| Strong | Emphasis | Strike | Code | Link (href : str).

Definition mark_value (k : mark_kind) : value :=
  match k with
  | Strong => mark "strong"
  | Emphasis => mark "em"
  | Strike => mark "strike"
  | Code => mark "code"
  | Link href => link_mark href
  end.

(** A text run with the given marks, in the given order. *)
Definition run (text : str) (marks : list mark_kind) : value :=
  VObj [(js "type", VStr (js "text")); (js "text", VStr text);
        (js "marks", VArr (map mark_value marks))].

(** The delimiters of one mark put around a text. *)
Definition wrap (k : mark_kind) (t : str) : str :=
  match k with
  | Strong => js "**" ++ t ++ js "**"
  | Emphasis => js "*" ++ t ++ js "*"
  | Strike => js "~~" ++ t ++ js "~~"
  | Code => js "`" ++ t ++ js "`"
  | Link href => js "[" ++ t ++ js "](" ++ href ++ js ")"
  end.

(** Nested wrapping, the first mark of the list innermost. *)
Definition wrap_all (marks : list mark_kind) (t : str) : str :=
  fold_left (fun acc k => wrap k acc) marks t.

(** A node of type [text] that has no [marks] property or whose [marks]
    is an array of exactly one element. *)
Definition single_mark_text (node : value) : bool :=
  is_str (js "text") (field "type" node)
  && match field "marks" node with
     | VUndefined => true
     | VArr [_] => true
     | _ => false
     end.

(** A value the render entry point treats as a document. *)
Definition is_document (v : value) : bool :=
  truthy v && is_str (js "doc") (field "type" v) && isArray (field "content" v).

(** What the chain of tests in the loop body decides for one raw line. *)
Inductive line_kind : Type :=
| KBlank
| KHeading (level : Z) (text : str)
| KBullet (text : str)
| KOrdered (text : str)
| KQuote (text : str)
| KRule
| KFence (lang : option str)
| KParagraph (line : str).

Definition classify (raw : str) : line_kind :=
  let line := trim raw in
  if is_empty line then KBlank else
  match jiraHeading line with
  | Some (level, text) => KHeading level text
  | None =>
  match mdHeading line with
  | Some (level, text) => KHeading level text
  | None =>
  if startsWith (js "* ") line || startsWith (js "- ") line
  then KBullet (substring 2 line) else
  match ordered_marker line with
  | Some text => KOrdered text
  | None =>
  if startsWith (js "> ") line then KQuote (substring 2 line)
  else if str_eqb line (js "----") || str_eqb line (js "---") then KRule
  else if str_eqb line FENCE || startsWith FENCE line
       then KFence (fence_lang line)
  else KParagraph line
  end end end.

(** The effect on the array of nodes of a line that opens no fence. *)
Definition emit (k : line_kind) (nodes : list value) : list value :=
  match k with
  | KBlank | KFence _ => nodes
  | KHeading level text => nodes ++ [heading level (parseInlineContent text)]
  | KBullet text => addBulletItem nodes (parseInlineContent text)
  | KOrdered text => addOrderedItem nodes (parseInlineContent text)
  | KQuote text =>
      add_to_run "blockquote" nodes (paragraph (parseInlineContent text))
  | KRule => nodes ++ [rule]
  | KParagraph line => nodes ++ [paragraph (parseInlineContent line)]
  end.

(** The lines captured after a fence opens, and the lines left after the
    closing fence. *)
Fixpoint fence_body (ls : list str) : list str :=
  match ls with
  | [] => []
  | l :: ls' => if str_eqb (trim l) FENCE then [] else l :: fence_body ls'
  end.

Fixpoint fence_rest (ls : list str) : list str :=
  match ls with
  | [] => []
  | l :: ls' => if str_eqb (trim l) FENCE then ls' else fence_rest ls'
  end.

(** The string contains no code unit [c]. *)
Definition no_char (c : N) (s : str) : bool := forallb (is_not c) s.


(** The text a span is written as: the delimiters of its mark around its
    text, or the pipe form of a link. *)
Definition pipe_form (t href : str) : str :=
  js "[" ++ t ++ js "|" ++ href ++ js "]".

(** [inlineNodesToText] on an array given by its elements *)
Definition render_nodes (l : list value) : outcome str :=
  inlineNodesToText (VArr l).

(** The first code unit, if any, is not whitespace. *)
Definition head_ok (s : str) : bool :=
  match s with [] => true | c :: _ => negb (is_ws c) end.

(** Neither the first nor the last code unit is whitespace. *)
Definition trimmed (s : str) : bool := head_ok s && head_ok (rev s).



(** ** The document format as a checker on values

    The shapes of section 3 of the design document: a document holds at
    least one block; a heading has a level from 1 to 6; a list holds at
    least one item and an item holds exactly one paragraph; a blockquote
    holds paragraphs only; a text run has a non-empty text and at most
    one mark. *)

Definition key_is (k : str) (name : string) : bool := str_eqb k (js name).

Definition check_mark (m : value) : bool :=
  match m with
  | VObj [(k, VStr ty)] =>
      key_is k "type"
      && (key_is ty "strong" || key_is ty "strike" || key_is ty "em"
          || key_is ty "code")
  | VObj [(k, VStr ty); (k', VObj [(k'', VStr href)])] =>
      key_is k "type" && key_is ty "link" && key_is k' "attrs"
      && key_is k'' "href" && negb (is_empty href)
  | _ => false
  end.

Definition check_inline (n : value) : bool :=
  match n with
  | VObj [(k, VStr ty); (k', VStr t)] =>
      key_is k "type" && key_is ty "text" && key_is k' "text"
      && negb (is_empty t)
  | VObj [(k, VStr ty); (k', VStr t); (k'', VArr [m])] =>
      key_is k "type" && key_is ty "text" && key_is k' "text"
      && negb (is_empty t) && key_is k'' "marks" && check_mark m
  | _ => false
  end.

Definition check_paragraph (p : value) : bool :=
  match p with
  | VObj [(k, VStr ty); (k', VArr c)] =>
      key_is k "type" && key_is ty "paragraph" && key_is k' "content"
      && forallb check_inline c
  | _ => false
  end.

Definition check_item (i : value) : bool :=
  match i with
  | VObj [(k, VStr ty); (k', VArr [p])] =>
      key_is k "type" && key_is ty "listItem" && key_is k' "content"
      && check_paragraph p
  | _ => false
  end.

Definition check_code_text (c : list value) : bool :=
  match c with
  | [VObj [(k, VStr ty); (k', VStr t)]] =>
      key_is k "type" && key_is ty "text" && key_is k' "text"
      && negb (is_empty t)
  | _ => false
  end.

Definition check_language (a : value) : bool :=
  match a with
  | VObj [(k, VStr l)] => key_is k "language" && negb (is_empty l)
  | _ => false
  end.

Definition check_block (b : value) : bool :=
  match b with
  | VObj [(k, VStr ty)] =>
      key_is k "type" && (key_is ty "rule" || key_is ty "codeBlock")
  | VObj [(k, VStr ty); (k', VArr c)] =>
      key_is k "type" && key_is k' "content"
      && (if key_is ty "paragraph" then forallb check_inline c
          else if key_is ty "bulletList" || key_is ty "orderedList"
               then negb (is_empty_list c) && forallb check_item c
          else if key_is ty "blockquote"
               then negb (is_empty_list c) && forallb check_paragraph c
          else if key_is ty "codeBlock" then check_code_text c
          else false)
  | VObj [(k, VStr ty); (k', VObj a)] =>
      key_is k "type" && key_is ty "codeBlock" && key_is k' "attrs"
      && check_language (VObj a)
  | VObj [(k, VStr ty); (k', VObj [(ka, VNum level)]); (k'', VArr c)] =>
      key_is k "type" && key_is ty "heading" && key_is k' "attrs"
      && key_is ka "level" && Z.leb 1 level && Z.leb level 6
      && key_is k'' "content" && forallb check_inline c
  | VObj [(k, VStr ty); (k', VArr c); (k'', VObj a)] =>
      key_is k "type" && key_is ty "codeBlock" && key_is k' "content"
      && check_code_text c && key_is k'' "attrs" && check_language (VObj a)
  | _ => false
  end.

Definition check_doc (d : value) : bool :=
  match d with
  | VObj [(k, VStr ty); (k', VNum v); (k'', VArr nodes)] =>
      key_is k "type" && key_is ty "doc" && key_is k' "version"
      && Z.eqb v 1 && key_is k'' "content"
      && negb (is_empty_list nodes) && forallb check_block nodes
  | _ => false
  end.

(** No attempt of the inline expression succeeds anywhere in the text. *)
Fixpoint no_span (t : str) : bool :=
  match t with
  | [] => true
  | _ :: t' =>
      match match_at t with
      | None => no_span t'
      | Some _ => false
      end
  end.

(** ** The array of nodes described by the source text of its blocks

    Every node the loop pushes is determined by the kind of the line and
    the text handed to the tokenizer.  A run is a bullet list, an ordered
    list or a blockquote, with the texts of its lines. *)

Inductive run_kind : Type := RBullet | ROrdered | RQuote.

Inductive sblock : Type :=
| SParagraph (t : str)
| SHeading (level : Z) (t : str)
| SRun (r : run_kind) (ts : list str)
| SCode (text : str) (lang : option str)
| SRule.

Definition run_type (r : run_kind) : string :=
  match r with
  | RBullet => "bulletList"
  | ROrdered => "orderedList"
  | RQuote => "blockquote"
  end.

Definition run_item (r : run_kind) (t : str) : value :=
  match r with
  | RBullet | ROrdered => listItem (parseInlineContent t)
  | RQuote => paragraph (parseInlineContent t)
  end.

Definition to_node (b : sblock) : value :=
  match b with
  | SParagraph t => paragraph (parseInlineContent t)
  | SHeading level t => heading level (parseInlineContent t)
  | SRun r ts => list_node (run_type r) (map (run_item r) ts)
  | SCode text lang => codeBlock text lang
  | SRule => rule
  end.

Definition run_eqb (a b : run_kind) : bool :=
  match a, b with
  | RBullet, RBullet | ROrdered, ROrdered | RQuote, RQuote => true
  | _, _ => false
  end.

(** The blocks are kept with the last pushed one first. *)
Definition nodes_of (rbs : list sblock) : list value := map to_node (rev rbs).

Definition add_run (r : run_kind) (t : str) (rbs : list sblock) : list sblock :=
  match rbs with
  | SRun r' ts :: rest =>
      if run_eqb r r' then SRun r' (ts ++ [t]) :: rest
      else SRun r [t] :: rbs
  | _ => SRun r [t] :: rbs
  end.

Definition semit (k : line_kind) (rbs : list sblock) : list sblock :=
  match k with
  | KBlank | KFence _ => rbs
  | KHeading level text => SHeading level text :: rbs
  | KBullet text => add_run RBullet text rbs
  | KOrdered text => add_run ROrdered text rbs
  | KQuote text => add_run RQuote text rbs
  | KRule => SRule :: rbs
  | KParagraph line => SParagraph line :: rbs
  end.

Fixpoint sparse (fuel : nat) (ls : list str) (rbs : list sblock)
  : list sblock :=
  match fuel, ls with
  | S f, raw :: rest =>
      match classify raw with
      | KFence lang =>
          sparse f (fence_rest rest)
            (SCode (join [LF] (fence_body rest)) lang :: rbs)
      | k => sparse f rest (semit k rbs)
      end
  | _, _ => rbs
  end.

(** The shape conditions the checker needs of a block. *)
Definition sblock_ok (b : sblock) : bool :=
  match b with
  | SHeading level _ => Z.leb 1 level && Z.leb level 6
  | SRun _ ts => negb (is_empty_list ts)
  | _ => true
  end.

(** ** Trees the renderer is safe on

    A node is an object; its [content] and its [marks], where present,
    are arrays of nodes; its [text], where present, is a string; the
    members of an [attrs] object the renderer reads are strings, and
    [level] is a number from 0 to 6.  Other properties are free. *)

Definition attr_ok (kv : str * value) : bool :=
  let (k, x) := kv in
  if key_is k "level" then
    match x with VNum z => Z.leb 0 z && Z.leb z 6 | _ => false end
  else if key_is k "href" || key_is k "text" || key_is k "id"
          || key_is k "url" || key_is k "shortName" || key_is k "language"
  then match x with VStr _ => true | _ => false end
  else true.

Definition attrs_ok (a : value) : bool :=
  match a with VObj fs => forallb attr_ok fs | _ => true end.

Fixpoint shaped (v : value) : bool :=
  match v with
  | VObj fs =>
      forallb (fun kv : str * value =>
                 let (k, x) := kv in
                 if key_is k "content" || key_is k "marks" then
                   match x with VArr l => forallb shaped l | _ => false end
                 else if key_is k "attrs" then attrs_ok x
                 else if key_is k "text" then
                   match x with VStr _ => true | _ => false end
                 else true) fs
  | _ => false
  end.

(** The block types [blockNodeToText] has a case for. *)
Definition known_block_type (ty : value) : bool :=
  is_str (js "paragraph") ty || is_str (js "heading") ty
  || is_str (js "bulletList") ty || is_str (js "orderedList") ty
  || is_str (js "blockquote") ty || is_str (js "codeBlock") ty
  || is_str (js "rule") ty || is_str (js "table") ty
  || is_str (js "mediaSingle") ty || is_str (js "mediaGroup") ty.

Definition list_sum (l : list nat) : nat := fold_right plus 0 l.

Fixpoint size (v : value) : nat :=
  match v with
  | VArr l => S (list_sum (map size l))
  | VObj fs => S (list_sum (map (fun kv : str * value => size (snd kv)) fs))
  | _ => 1
  end.

(** ** Texts on which one pass of parsing and rendering is stable *)

(** No line terminator at all. *)
Definition no_lt (s : str) : bool := forallb (fun c => negb (is_lt c)) s.

(** No vertical bar, and no line terminator other than the line feed. *)
Definition stable_input (x : str) : bool :=
  forallb (fun c => negb (N.eqb c PIPE) && (negb (is_lt c) || N.eqb c LF)) x.

(** A line of such a text. *)
Definition line_ok (l : str) : bool := no_char PIPE l && no_lt l.

(** The text of a block: not empty, no vertical bar, no line terminator,
    and its last code unit is not whitespace. *)
Definition text_ok (t : str) : bool :=
  negb (is_empty t) && no_char PIPE t && no_lt t && head_ok (rev t).

Definition is_paragraph_line (t : str) : bool :=
  match classify t with
  | KParagraph t' => str_eqb t' t
  | _ => false
  end.

Definition good (b : sblock) : bool :=
  match b with
  | SParagraph t => text_ok t && head_ok t && is_paragraph_line t
  | SHeading level t =>
      Z.leb 1 level && Z.leb level 6 && text_ok t && head_ok t
  | SRun r ts =>
      negb (is_empty_list ts)
      && forallb (fun t => text_ok t
                           && match r with
                              | ROrdered => head_ok t
                              | _ => true
                              end) ts
  | SCode text lang =>
      forallb (fun l => negb (str_eqb (trim l) FENCE)) (split_lines text)
      && match lang with
         | None => true
         | Some tag => negb (is_empty tag) && trimmed tag && no_lt tag
         end
  | SRule => true
  end.

(** No two neighbouring blocks are runs of the same kind. *)
Fixpoint no_adjacent_runs (rbs : list sblock) : bool :=
  match rbs with
  | [] => true
  | b :: rest =>
      match b, rest with
      | SRun r _, SRun r' _ :: _ => negb (run_eqb r r')
      | _, _ => true
      end && no_adjacent_runs rest
  end.

Definition fence_tag (lang : option str) : str :=
  match lang with Some l => l | None => [] end.

(** The lines of an ordered list, numbered from [start + 1]. *)
Fixpoint numbered (start : nat) (ts : list str) : list str :=
  match ts with
  | [] => []
  | t :: ts' =>
      (decimal (N.of_nat (start + 1)) ++ js ". " ++ t) :: numbered (S start) ts'
  end.

Definition run_lines (r : run_kind) (ts : list str) : list str :=
  match r with
  | RBullet => map (fun t => js "- " ++ t) ts
  | ROrdered => numbered 0 ts
  | RQuote => map (fun t => js "> " ++ t) ts
  end.

(** The lines a block is rendered as. *)
Definition block_lines (b : sblock) : list str :=
  match b with
  | SParagraph t => [t]
  | SHeading level t => [repeat_unit HASH (Z.to_nat level) ++ js " " ++ t]
  | SRun r ts => run_lines r ts
  | SCode text lang =>
      (js "```" ++ fence_tag lang) :: split_lines text ++ [js "```"]
  | SRule => [js "---"]
  end.

Definition block_text (b : sblock) : str := join [LF] (block_lines b).

(** The lines of a rendered document: the lines of its blocks with one
    empty line between two blocks. *)
Fixpoint doc_lines (bs : list sblock) : list str :=
  match bs with
  | [] => []
  | [b] => block_lines b
  | b :: bs' => block_lines b ++ [] :: doc_lines bs'
  end.

(** The kind of the line a run of kind [r] has for the text [t]. *)
Definition line_kind_of (r : run_kind) (t : str) : line_kind :=
  match r with
  | RBullet => KBullet t
  | ROrdered => KOrdered t
  | RQuote => KQuote t
  end.

(** What a good block needs of the line it comes from. *)
Definition kind_good (k : line_kind) : bool :=
  match k with
  | KBlank | KRule => true
  | KHeading level t =>
      Z.leb 1 level && Z.leb level 6 && text_ok t && head_ok t
  | KBullet t | KQuote t => text_ok t
  | KOrdered t => text_ok t && head_ok t
  | KFence lang =>
      match lang with
      | None => true
      | Some tag => negb (is_empty tag) && trimmed tag && no_lt tag
      end
  | KParagraph t => text_ok t && head_ok t && is_paragraph_line t
  end.

(** One pass: parse a string and render the document. *)
Definition render_parse (x : str) : outcome str :=
  adfToText (createADFDocument (VStr x)).

(* ================================================================== *)
(** * What one pass makes of a text *)
(* ================================================================== *)

(** The inline expression matches at the start of [s] by its pipe-form
    alternative [\[([^\]]+)\|([^\]]+)\]]: the alternatives before it in
    the expression fail there and this one succeeds. *)
Definition pipe_at (s : str) : bool :=
  match double_delimited STAR s, double_delimited TILDE s,
        single_delimited STAR s, md_link s, pipe_link s with
  | None, None, None, None, Some _ => true
  | _, _, _, _, _ => false
  end.

(** The number of pipe-form links the tokenizer finds in a text: the
    loop of [scan], counting the matches of that alternative. *)
Fixpoint pipe_links (s : str) (skip : nat) : nat :=
  match s with
  | [] => 0
  | c :: s' =>
      match skip with
      | S k => pipe_links s' k
      | O =>
          match match_at s with
          | Some (_, len) =>
              (if pipe_at s then 1 else 0) + pipe_links s' (len - 1)
          | None => pipe_links s' 0
          end
      end
  end.

(** The text [inlineNodesToText] gives for the nodes the tokenizer makes
    of [t]; it always gives one. *)
Definition rendered (t : str) : str :=
  match render_nodes (parseInlineContent t) with
  | Ok s => s
  | _ => []
  end.

(** The blocks of a text: for each node of its document, the kind and
    the texts handed to the tokenizer, the last block first. *)
Definition blocks_of (x : str) : list sblock :=
  let ls := split_lines x in sparse (length ls) ls [].

(** The text, as the first pass renders it, holds no pipe-form link for
    the tokenizer to find. *)
Definition settled_text (t : str) : bool :=
  Nat.eqb (pipe_links (rendered t) 0) 0.

(** A block the second pass leaves as it is: its texts are settled, and
    the text of a heading does not end in white space. *)
Definition settled_block (b : sblock) : bool :=
  match b with
  | SParagraph t => settled_text t
  | SHeading _ t => head_ok (rev t) && settled_text t
  | SRun _ ts => forallb settled_text ts
  | SCode _ _ | SRule => true
  end.

Definition settled (x : str) : bool := forallb settled_block (blocks_of x).

(** [spans s r n]: the tokenizer goes through [s] and the renderer writes
    [r] for its nodes, [n] of which are pipe-form links.  A code unit
    where the expression does not match is written as it is, a match of
    another alternative is written as it was matched, and a pipe-form
    link [[t|h]] is written in the bracket form. *)
Inductive spans : str -> str -> nat -> Prop :=
| spans_nil : spans [] [] 0
| spans_unit (c : N) (s r : str) (n : nat) :
    match_at (c :: s) = None -> spans s r n -> spans (c :: s) (c :: r) n
| spans_kept (m rest r : str) (n : nat) :
    m <> [] -> pipe_at (m ++ rest) = false ->
    (exists node, match_at (m ++ rest) = Some (node, length m)) ->
    spans rest r n -> spans (m ++ rest) (m ++ r) n
| spans_pipe (t h rest r : str) (n : nat) :
    t <> [] -> h <> [] -> pipe_at (pipe_form t h ++ rest) = true ->
    spans rest r n ->
    spans (pipe_form t h ++ rest) (wrap (Link h) t ++ r) (S n).

(** The text of a block that can be read again from the line it is
    written on: not empty, on one line, and its last code unit is not
    whitespace. *)
Definition fair_text (t : str) : bool :=
  negb (is_empty t) && no_char LF t && head_ok (rev t).

(** What every block of a document of the parser satisfies, and every
    block rendered from it. *)
Definition fair (b : sblock) : bool :=
  match b with
  | SParagraph t => fair_text t && head_ok t && is_paragraph_line t
  | SHeading level t =>
      Z.leb 1 level && Z.leb level 6
      && negb (is_empty t) && no_lt t && head_ok t
  | SRun r ts =>
      negb (is_empty_list ts)
      && forallb (fun t => fair_text t
                           && match r with
                              | ROrdered => head_ok t
                              | _ => true
                              end) ts
  | SCode text lang =>
      forallb (fun l => negb (str_eqb (trim l) FENCE)) (split_lines text)
      && match lang with
         | None => true
         | Some tag => negb (is_empty tag) && trimmed tag && no_char LF tag
         end
  | SRule => true
  end.

Definition kind_fair (k : line_kind) : bool :=
  match k with
  | KBlank | KRule => true
  | KHeading level t =>
      Z.leb 1 level && Z.leb level 6
      && negb (is_empty t) && no_lt t && head_ok t
  | KBullet t | KQuote t => fair_text t
  | KOrdered t => fair_text t && head_ok t
  | KFence lang =>
      match lang with
      | None => true
      | Some tag => negb (is_empty tag) && trimmed tag && no_char LF tag
      end
  | KParagraph t => fair_text t && head_ok t && is_paragraph_line t
  end.

(** The block as the renderer writes it: each text as rendered. *)
Definition render_block (b : sblock) : sblock :=
  match b with
  | SParagraph t => SParagraph (rendered t)
  | SHeading level t => SHeading level (rendered t)
  | SRun r ts => SRun r (map rendered ts)
  | SCode text lang => SCode text lang
  | SRule => SRule
  end.

(** The block as the parser reads it from its lines: the line of a
    heading is trimmed. *)
Definition reread (b : sblock) : sblock :=
  match b with
  | SHeading level t => SHeading level (trim t)
  | _ => b
  end.

(* ================================================================== *)
(** * Input validation *)
(* ================================================================== *)

(** A call that returns or throws [new Error(message)]. *)
Inductive result (A : Type) : Type :=
| Return (a : A)
| Raise (message : str).

Arguments Return {A} a.
Arguments Raise {A} message.

Definition and_then {A B} (m : result A) (f : A -> result B) : result B :=
  match m with
  | Return a => f a
  | Raise message => Raise message
  end.

(** [typeof v === 'string'] *)
Definition typeof_string (v : value) : bool :=
  match v with VStr _ => true | _ => false end.

(** The code units of a value that is a string. *)
Definition string_of (v : value) : str :=
  match v with VStr s => s | _ => [] end.

(** [[A-Z]] *)
Definition is_upper (c : N) : bool := N.leb 65 c && N.leb c 90.

(** [[A-Z0-9_]] *)
Definition is_key_unit (c : N) : bool :=
  is_upper c || is_digit c || N.eqb c 95.

(** [/^[A-Z]+-\d+$/.test(key)].  The dash is not a capital letter, so the
    greedy group is the whole run of capitals and no shorter group can be
    followed by the dash; without the [m] flag the [$] holds at the end
    of the string only. *)
Definition issue_key_format (key : str) : bool :=
  match span is_upper key with
  | (_ :: _, d :: digits) =>
      N.eqb d DASH && negb (is_empty digits) && forallb is_digit digits
  | _ => false
  end.

(** [/^[A-Z][A-Z0-9_]{1,9}$/.test(key)] *)
Definition project_key_format (key : str) : bool :=
  match key with
  | c :: r =>
      is_upper c && (1 <=? length r) && (length r <=? 9)
      && forallb is_key_unit r
  | [] => false
  end.

(** [/[\/\\]/.test(s)] *)
Definition has_slash (s : str) : bool :=
  existsb (fun c => N.eqb c 47 || N.eqb c 92) s.

Definition validateIssueKey (key : value) : result str :=
  if negb (truthy key) || negb (typeof_string key) then
    Raise (js "Invalid issue key: must be a string")
  else if negb (issue_key_format (string_of key)) then
    Raise (js "Invalid issue key format: " ++ string_of key
           ++ js ". Expected format: PROJECT-123")
  else Return (string_of key).

Definition validateProjectKey (key : value) : result str :=
  if negb (truthy key) || negb (typeof_string key) then
    Raise (js "Invalid project key: must be a string")
  else if negb (project_key_format (string_of key)) then
    Raise (js "Invalid project key format: " ++ string_of key
           ++ js ". Expected 2-10 uppercase alphanumeric characters")
  else Return (string_of key).

Definition validateJQL (jql : value) : result str :=
  if negb (truthy jql) || negb (typeof_string jql) then
    Raise (js "Invalid JQL query: must be a string")
  else if 5000 <? length (string_of jql) then
    Raise (js "JQL query too long: maximum 5000 characters")
  else Return (string_of jql).

(** [sanitizeString(str, maxLength = 1000, fieldName = 'input')].  An
    omitted argument is [None].  [maxLength] is a count, which the
    callers write as a literal; the message prints it in decimal, as a
    number below 1e21 is printed. *)
Definition sanitizeString (s : value) (maxLength : option nat)
  (fieldName : option str) : result str :=
  let maxLength := match maxLength with Some n => n | None => 1000 end in
  let fieldName :=
    match fieldName with Some f => f | None => js "input" end in
  if negb (truthy s) || negb (typeof_string s) then
    Raise (js "Invalid " ++ fieldName ++ js ": must be a string")
  else if maxLength <? length (string_of s) then
    Raise (fieldName ++ js " exceeds maximum length of "
           ++ decimal (N.of_nat maxLength) ++ js " characters")
  else Return (trim (string_of s)).

(** [validateSafeParam(str, fieldName, maxLength = 100)] *)
Definition validateSafeParam (s : value) (fieldName : str)
  (maxLength : option nat) : result str :=
  let maxLength := match maxLength with Some n => n | None => 100 end in
  if negb (truthy s) || negb (typeof_string s) then
    Raise (js "Invalid " ++ fieldName ++ js ": must be a non-empty string")
  else if maxLength <? length (string_of s) then
    Raise (fieldName ++ js " exceeds maximum length of "
           ++ decimal (N.of_nat maxLength) ++ js " characters")
  else if has_slash (string_of s) then
    Raise (js "Invalid " ++ fieldName ++ js ": contains unsafe characters")
  else Return (trim (string_of s)).

(** ** Numbers

    [value] holds the integral numbers.  The two validators of numbers
    test for the others too, so their argument is a value or one of the
    numbers [value] leaves out: a finite number given as a ratio, NaN,
    or an infinity. *)
Inductive arg : Type :=
| Json (v : value)
| Ratio (numerator : Z) (denominator : positive)
| NaN
| Infinity (negative : bool).

(** [typeof a === 'number'] *)
Definition typeof_number (a : arg) : bool :=
  match a with
  | Json (VNum _) | Ratio _ _ | NaN | Infinity _ => true
  | Json _ => false
  end.

(** [Number.isInteger(a)] *)
Definition isInteger (a : arg) : bool :=
  match a with
  | Json (VNum _) => true
  | Ratio n d => Z.eqb (n mod Z.pos d) 0
  | _ => false
  end.

(** [a < k] for a number [a]: false on NaN *)
Definition less (a : arg) (k : Z) : bool :=
  match a with
  | Json (VNum z) => Z.ltb z k
  | Ratio n d => Z.ltb n (k * Z.pos d)
  | Infinity negative => negative
  | _ => false
  end.

(** [a > k] for a number [a]: false on NaN *)
Definition greater (a : arg) (k : Z) : bool :=
  match a with
  | Json (VNum z) => Z.ltb k z
  | Ratio n d => Z.ltb (k * Z.pos d) n
  | Infinity negative => negb negative
  | _ => false
  end.

(** [Math.min(a, k)] for a number [a] *)
Definition math_min (a : arg) (k : Z) : arg :=
  match a with
  | NaN => NaN
  | _ => if less a k then a else Json (VNum k)
  end.

Definition validateMaxResults (maxResults : arg) : result arg :=
  if negb (typeof_number maxResults) || negb (isInteger maxResults)
     || less maxResults 1
  then Raise (js "maxResults must be a positive integer")
  else Return (math_min maxResults 100).

Definition validateStoryPoints (points : arg) : result arg :=
  if negb (typeof_number points) || less points 0 || greater points 1000
  then Raise (js "Story points must be a number between 0 and 1000")
  else Return points.

(** The callback of [labels.map] run over the array from [index] on: the
    labels kept, or the error of the first label that is refused. *)
Fixpoint check_labels (index : nat) (labels : list value)
  : result (list value) :=
  match labels with
  | [] => Return []
  | label :: rest =>
      if negb (typeof_string label) then
        Raise (js "Label at index " ++ decimal (N.of_nat index)
               ++ js " must be a string")
      else if 255 <? length (string_of label) then
        Raise (js "Label at index " ++ decimal (N.of_nat index)
               ++ js " exceeds maximum length of 255 characters")
      else and_then (check_labels (S index) rest)
             (fun kept => Return (label :: kept))
  end.

Definition validateLabels (labels : value) : result value :=
  if negb (isArray labels) then Raise (js "Labels must be an array")
  else
    and_then
      (check_labels 0 (match labels with VArr l => l | _ => [] end))
      (fun kept => Return (VArr kept)).

(* ================================================================== *)
(** * Configuration *)
(* ================================================================== *)

(** [process.env]: names and values are strings; a name that is not set
    reads as [undefined]. *)
Definition environment := list (str * str).

Fixpoint getenv (name : str) (env : environment) : value :=
  match env with
  | [] => VUndefined
  | (n, v) :: env' => if str_eqb n name then VStr v else getenv name env'
  end.

(** [v !== 'lit'] and the like are written with [is_str]; [v !== null]
    and [v !== undefined]: *)
Definition is_null (v : value) : bool :=
  match v with VNull => true | _ => false end.

Definition is_undefined (v : value) : bool :=
  match v with VUndefined => true | _ => false end.

Definition not_set (name : str) : str :=
  js "Required environment variable " ++ name
  ++ js " is not set. Please check your .env file.".

(** [getRequiredEnv(name, fallback = null)]: the default replaces an
    [undefined] argument. *)
Definition getRequiredEnv (env : environment) (name : str) (fallback : value)
  : result value :=
  let fallback := if is_undefined fallback then VNull else fallback in
  let value := getenv name env in
  if negb (is_undefined value) && negb (is_str [] value) then Return value
  else if negb (is_null fallback) && negb (is_undefined fallback)
          && negb (is_str [] fallback)
  then Return fallback
  else Raise (not_set name).

(** The constants the module computes when it is loaded. *)
Record config : Type := {
  JIRA_URL : str;
  JIRA_EMAIL : str;
  JIRA_API_TOKEN : str;
  JIRA_PROJECT_KEY : str;
  STORY_POINTS_FIELD : str
}.

(** The top-level statements that set the constants, in their order.
    Every value read from the environment is a string. *)
Definition load_config (env : environment) : result config :=
  and_then (getRequiredEnv env (js "JIRA_HOST") (getenv (js "JIRA_URL") env))
    (fun url =>
  and_then (getRequiredEnv env (js "JIRA_EMAIL") VUndefined) (fun email =>
  and_then (getRequiredEnv env (js "JIRA_API_TOKEN") VUndefined) (fun token =>
  and_then (validateProjectKey
              (or_else (getenv (js "JIRA_PROJECT_KEY") env) (VStr (js "PROJ"))))
    (fun project =>
  let field := or_else (getenv (js "JIRA_STORY_POINTS_FIELD") env)
                 (VStr (js "customfield_10016")) in
  if negb (startsWith (js "https://") (string_of url)) then
    Raise (js "JIRA_HOST must use HTTPS protocol for security")
  else Return {| JIRA_URL := string_of url;
                 JIRA_EMAIL := string_of email;
                 JIRA_API_TOKEN := string_of token;
                 JIRA_PROJECT_KEY := project;
                 STORY_POINTS_FIELD := string_of field |})))).

(** The same statements in the older [index.js]. *)
Module LegacyServer.

(** [getRequiredEnv(name, fallback = null)] *)
Definition getRequiredEnv (env : environment) (name : str) (fallback : value)
  : result value :=
  let fallback := if is_undefined fallback then VNull else fallback in
  let value := or_else (getenv name env) fallback in
  if negb (truthy value) then Raise (not_set name) else Return value.

Definition load_config (env : environment) : result config :=
  and_then (getRequiredEnv env (js "JIRA_HOST") (getenv (js "JIRA_URL") env))
    (fun url =>
  and_then (getRequiredEnv env (js "JIRA_EMAIL") VUndefined) (fun email =>
  and_then (getRequiredEnv env (js "JIRA_API_TOKEN") VUndefined) (fun token =>
  let project := or_else (getenv (js "JIRA_PROJECT_KEY") env)
                   (VStr (js "PROJ")) in
  let field := or_else (getenv (js "JIRA_STORY_POINTS_FIELD") env)
                 (VStr (js "customfield_10016")) in
  if negb (startsWith (js "https://") (string_of url)) then
    Raise (js "JIRA_HOST must use HTTPS protocol for security")
  else Return {| JIRA_URL := string_of url;
                 JIRA_EMAIL := string_of email;
                 JIRA_API_TOKEN := string_of token;
                 JIRA_PROJECT_KEY := string_of project;
                 STORY_POINTS_FIELD := string_of field |}))).

End LegacyServer.

(* ================================================================== *)
(** * Vocabulary of the statements on validation *)
(* ================================================================== *)

(** What a path segment may hold without changing the path it is put
    in: capital letters, digits, dash and underscore. *)
Definition is_segment_unit (c : N) : bool :=
  is_upper c || is_digit c || N.eqb c DASH || N.eqb c 95.

(** The integer a number argument stands for, when it is one. *)
Definition integer_of (a : arg) : option Z :=
  match a with
  | Json (VNum z) => Some z
  | Ratio n d => if Z.eqb (n mod Z.pos d)%Z 0 then Some (n / Z.pos d)%Z else None
  | _ => None
  end.

(** The number lies between two integers, bounds included. *)
Definition between (lo hi : Z) (a : arg) : Prop :=
  match a with
  | Json (VNum z) => (lo <= z <= hi)%Z
  | Ratio n d => (lo * Z.pos d <= n <= hi * Z.pos d)%Z
  | _ => False
  end.

(** The length limit in force: the one given, or the default. *)
Definition limit (maxLength : option nat) (default : nat) : nat :=
  match maxLength with Some n => n | None => default end.

(** The value is a string, [null] or [undefined]: what a fallback read
    from the environment or left out can be. *)
Definition string_or_nullish (v : value) : bool :=
  match v with VStr _ | VNull | VUndefined => true | _ => false end.

(** The value a name has in the environment when it is set to a
    non-empty string. *)
Definition setting (name : string) (env : environment) : option str :=
  match getenv (js name) env with
  | VStr ((_ :: _) as s) => Some s
  | _ => None
  end.

(** A label [validateLabels] keeps. *)
Definition label_ok (label : value) : bool :=
  typeof_string label && (length (string_of label) <=? 255).

(* ================================================================== *)
(** * Vocabulary of the further statements on the conversion *)
(* ================================================================== *)

(** A numbered line as a writer types it: any number, a dot, a space
    and the text of the item. *)
Definition ordered_line (item : N * str) : str :=
  decimal (fst item) ++ js ". " ++ snd item.

(** The texts of the lines of kind [r] among [lines]. *)
Definition run_texts (r : run_kind) (lines : list str) : list str :=
  flat_map (fun l =>
              match classify l, r with
              | KBullet t, RBullet | KOrdered t, ROrdered
              | KQuote t, RQuote => [t]
              | _, _ => []
              end) lines.

(** The line is blank or a line of kind [r]. *)
Definition blank_or_run (r : run_kind) (l : str) : bool :=
  match classify l, r with
  | KBlank, _ => true
  | KBullet _, RBullet | KOrdered _, ROrdered | KQuote _, RQuote => true
  | _, _ => false
  end.

(** The line opens no code fence. *)
Definition opens_no_fence (l : str) : bool :=
  match classify l with KFence _ => false | _ => true end.

(* ================================================================== *)
(** * Tool calls *)
(* ================================================================== *)

(** What a statement can throw: an [Error] the program creates, an
    exception the language raises, or the reason of a rejected
    request. *)
Inductive thrown : Type :=
| Error (message : str)
| Native (e : error)
| Reason (v : value).

(** The run of statements that send nothing: a value, a throw, or
    [NotModelled] where the values of this development do not reach (a
    number that is not integral, a property inherited from a
    prototype, and what [outcome] leaves out). *)
Inductive attempt (A : Type) : Type :=
| Got (a : A)
| Threw (t : thrown)
| NotModelled.

Arguments Got {A} a.
Arguments Threw {A} t.
Arguments NotModelled {A}.

Definition and_also {A B} (m : attempt A) (k : A -> attempt B) : attempt B :=
  match m with
  | Got a => k a
  | Threw t => Threw t
  | NotModelled => NotModelled
  end.

Notation "x <~ m ;; k" := (and_also m (fun x => k))
  (at level 61, m at next level, right associativity).

Definition of_result {A} (r : result A) : attempt A :=
  match r with
  | Return a => Got a
  | Raise message => Threw (Error message)
  end.

Definition of_outcome {A} (o : outcome A) : attempt A :=
  match o with
  | Ok a => Got a
  | Throw e => Threw (Native e)
  | Unmodelled => NotModelled
  end.

(** ** The HTTP client

    A call of [jiraApi.get], [.post], [.put] or [.delete]: the path and
    the second argument, which is the body of a POST or PUT and the
    configuration of a GET ([undefined] when there is none). *)
Inductive method : Type := GET | POST | PUT | DELETE.

Record request : Type := {
  verb : method;
  path : str;
  payload : value
}.

(** The promise of a request is resolved with a response or rejected
    with a reason. *)
Inductive reply : Type :=
| Resolved (response : value)
| Rejected (reason : value).

(** An [async] function body: it finishes, or it waits for a request
    and goes on with the reply. *)
Inductive task (A : Type) : Type :=
| Finish (r : attempt A)
| Await (r : request) (k : reply -> task A).

Arguments Finish {A} r.
Arguments Await {A} r k.

Definition after {A B} (m : attempt A) (k : A -> task B) : task B :=
  match m with
  | Got a => k a
  | Threw t => Finish (Threw t)
  | NotModelled => Finish NotModelled
  end.

Notation "x <~~ m ;; k" := (after m (fun x => k))
  (at level 61, m at next level, right associativity).

(** [await jiraApi.verb(path, payload)]: a rejection is thrown. *)
Definition await {A} (v : method) (p : str) (d : value)
  (k : value -> task A) : task A :=
  Await {| verb := v; path := p; payload := d |}
    (fun r => match r with
              | Resolved response => k response
              | Rejected reason => Finish (Threw (Reason reason))
              end).

(** [try { m } catch (e) { h(e) }] *)
Fixpoint catch {A} (m : task A) (h : thrown -> task A) : task A :=
  match m with
  | Finish (Threw t) => h t
  | Finish r => Finish r
  | Await r k => Await r (fun x => catch (k x) h)
  end.

(** ** Reading values *)

(** [v.k] for a name [k] that no prototype defines: reading from [null]
    or [undefined] throws, and a value that is not an object has no such
    property.  [v?.k] is [field k v]. *)
Definition read (k : string) (v : value) : attempt value :=
  if not_nullish v then Got (field k v) else Threw (Native TypeError).

(** [const { ... } = v]: only [null] and [undefined] cannot be
    destructured. *)
Definition destructure (v : value) : attempt value :=
  if not_nullish v then Got v else Threw (Native TypeError).

(** [k = d] in a pattern: the default replaces [undefined]. *)
Definition or_default (d v : value) : value :=
  if is_undefined v then d else v.

(** The names [Object.prototype] defines. *)
Definition inherited (k : str) : bool :=
  existsb (fun n => str_eqb k (js n))
    ["constructor"; "__defineGetter__"; "__defineSetter__";
     "hasOwnProperty"; "__lookupGetter__"; "__lookupSetter__";
     "isPrototypeOf"; "propertyIsEnumerable"; "toString"; "valueOf";
     "__proto__"; "toLocaleString"]%string.

(** [v[k]] for a name known at run time only, on a [v] that is not
    [null]: an own property of an object, [undefined] when the object
    has none and inherits none. *)
Definition read_key (k : str) (v : value) : attempt value :=
  match v with
  | VObj fs =>
      if has_key k fs then Got (assoc k fs)
      else if inherited k then NotModelled else Got VUndefined
  | _ => NotModelled
  end.

(** [o[k] = x] on the fields of a fresh object literal: an own property
    is replaced where it stands, a new one is added last. *)
Fixpoint assign (k : str) (x : value) (fs : list (str * value))
  : list (str * value) :=
  match fs with
  | [] => [(k, x)]
  | (k', y) :: fs' =>
      if str_eqb k' k then (k', x) :: fs' else (k', y) :: assign k x fs'
  end.

(** An object literal, the properties in source order. *)
Definition obj (fields : list (string * value)) : value :=
  VObj (map (fun kv : string * value => (js (fst kv), snd kv)) fields).

Notation "k =: v" := (pair k%string v)
  (at level 70, no associativity, only parsing).

(** [`${v}`] *)
Definition to_text (v : value) : attempt str := of_outcome (toString v).

(** [a === b]: primitives by value; two objects or arrays that come
    from different places are different objects. *)
Definition strict_eq (a b : value) : bool :=
  match a, b with
  | VUndefined, VUndefined | VNull, VNull => true
  | VBool x, VBool y => Bool.eqb x y
  | VNum x, VNum y => Z.eqb x y
  | VStr x, VStr y => str_eqb x y
  | _, _ => false
  end.

(** [arr.map(f)] with a callback that may throw; a value that is not an
    array has no callable [map]. *)
Section MapA.
Context {B : Type}.
Variable f : value -> attempt B.
Fixpoint mapA (l : list value) : attempt (list B) :=
  match l with
  | [] => Got []
  | a :: l' => b <~ f a ;; r <~ mapA l' ;; Got (b :: r)
  end.

Definition map_array (v : value) : attempt (list B) :=
  match v with
  | VArr l => mapA l
  | _ => Threw (Native TypeError)
  end.
End MapA.

(** [arr.find(t => t.name === wanted)]: the first element with that
    name, [undefined] when there is none; the callback throws on an
    element that is [null] or [undefined]. *)
Fixpoint find_named (wanted : value) (l : list value) : attempt value :=
  match l with
  | [] => Got VUndefined
  | t :: l' =>
      name <~ read "name" t ;;
      if strict_eq name wanted then Got t else find_named wanted l'
  end.

(** [s.includes(p)] on strings *)
Fixpoint contains (p s : str) : bool :=
  startsWith p s
  || match s with
     | [] => false
     | _ :: s' => contains p s'
     end.

(** [v?.includes(lit)] for a string [lit]: a member of an array, a part
    of a string; another value that is not [null] has no callable
    [includes]. *)
Definition includes_opt (lit : str) (v : value) : attempt value :=
  match v with
  | VUndefined | VNull => Got VUndefined
  | VArr l => Got (VBool (existsb (strict_eq (VStr lit)) l))
  | VStr s => Got (VBool (contains lit s))
  | _ => Threw (Native TypeError)
  end.

(** [v?.length] as a condition *)
Definition has_length (v : value) : bool :=
  match v with
  | VStr s => negb (is_empty s)
  | VArr l => negb (is_empty_list l)
  | VObj fs => truthy (assoc (js "length") fs)
  | _ => false
  end.

(** [Object.keys(v).length > 0] *)
Definition has_keys (v : value) : bool :=
  match v with
  | VStr s => negb (is_empty s)
  | VArr l => negb (is_empty_list l)
  | VObj fs => negb (is_empty_list fs)
  | _ => false
  end.

(** What a validator of numbers returns, as a value. *)
Definition number_value (r : result arg) : attempt value :=
  match r with
  | Return (Json v) => Got v
  | Return _ => NotModelled
  | Raise message => Threw (Error message)
  end.

(** What the statements leave open: [JSON.stringify(data, null, 2)],
    taken as any function of the data, and the texts the engine
    chooses, which are the message of an exception the language raises
    and the [stack] of an error the program or the language creates. *)
Record engine : Type := {
  stringify : value -> value;
  native_message : error -> value;
  stack_trace : thrown -> value
}.

Section Server.

(** The engine, [process.env] when a tool is called, and the constants
    of the module. *)
Variable host : engine.
Variable env : environment.
Variable cfg : config.

Definition createSuccessResponse (data : value) : value :=
  obj ["content" =:
        VArr [obj ["type" =: VStr (js "text"); "text" =: stringify host data]]].

Definition createIssueUrl (issueKey : value) : attempt str :=
  key <~ to_text issueKey ;;
  Got (JIRA_URL cfg ++ js "/browse/" ++ key).

(** [error.message], [error.stack] and [error.response] on what was
    thrown.  An error the program or the language creates has no
    [response]. *)
Definition message_of (error : thrown) : value :=
  match error with
  | Error message => VStr message
  | Native e => native_message host e
  | Reason v => field "message" v
  end.

Definition stack_of (error : thrown) : value :=
  match error with
  | Reason v => field "stack" v
  | _ => stack_trace host error
  end.

Definition response_of (error : thrown) : attempt value :=
  match error with
  | Reason v => read "response" v
  | _ => Got VUndefined
  end.

Definition handleError (error : thrown) : attempt value :=
  let isDevelopment :=
    is_str (js "development") (getenv (js "NODE_ENV") env) in
  response <~ response_of error ;;
  let jiraErrors := field "errorMessages" (field "data" response) in
  let jiraFieldErrors := field "errors" (field "data" response) in
  let errorResponse :=
    ["error" =: VStr (js "Operation failed");
     "message" =:
      or_else (message_of error) (VStr (js "An unexpected error occurred"))]
    ++ (if has_length jiraErrors then ["jiraErrors" =: jiraErrors] else [])
    ++ (if truthy jiraFieldErrors && has_keys jiraFieldErrors
        then ["fieldErrors" =: jiraFieldErrors] else [])
    ++ (if isDevelopment then ["stack" =: stack_of error] else []) in
  Got (obj ["content" =:
             VArr [obj ["type" =: VStr (js "text");
                        "text" =: stringify host (obj errorResponse)]];
            "isError" =: VBool true]).

(** [args.projectKey ? validateProjectKey(args.projectKey)
                     : JIRA_PROJECT_KEY] *)
Definition project_of (args : value) : attempt str :=
  projectKey <~ read "projectKey" args ;;
  if truthy projectKey then of_result (validateProjectKey projectKey)
  else Got (JIRA_PROJECT_KEY cfg).

(** [x ? { displayName: x.displayName, accountId: x.accountId } : null] *)
Definition person (x : value) : value :=
  if truthy x then
    obj ["displayName" =: field "displayName" x;
         "accountId" =: field "accountId" x]
  else VNull.

Definition jira_create_issue (args : value) : task value :=
  args <~~ destructure args ;;
  let summary := field "summary" args in
  let description := field "description" args in
  let issueType := or_default (VStr (js "Task")) (field "issueType" args) in
  let priority := or_default (VStr (js "Medium")) (field "priority" args) in
  let labels := or_default (VArr []) (field "labels" args) in
  let storyPoints := field "storyPoints" args in
  projectKey <~~ project_of args ;;
  checked <~~ of_result (validateSafeParam issueType (js "issueType") None) ;;
  checked <~~ of_result (validateSafeParam priority (js "priority") None) ;;
  validatedLabels <~~ of_result (validateLabels labels) ;;
  summary <~~ of_result
    (sanitizeString summary (Some 500) (Some (js "summary"))) ;;
  let fields :=
    [(js "project", obj ["key" =: VStr projectKey]);
     (js "summary", VStr summary);
     (js "description", createADFDocument description);
     (js "issuetype", obj ["name" =: issueType]);
     (js "priority", obj ["name" =: priority]);
     (js "labels", validatedLabels)] in
  fields <~~
    (if not_nullish storyPoints then
       points <~ number_value (validateStoryPoints (Json storyPoints)) ;;
       if str_eqb (STORY_POINTS_FIELD cfg) (js "__proto__") then NotModelled
       else Got (assign (STORY_POINTS_FIELD cfg) points fields)
     else Got fields) ;;
  await POST (js "/issue") (obj ["fields" =: VObj fields]) (fun response =>
  Finish (
    data <~ read "data" response ;;
    key <~ read "key" data ;;
    url <~ createIssueUrl key ;;
    Got (createSuccessResponse
           (obj ["success" =: VBool true; "key" =: key;
                 "id" =: field "id" data; "url" =: VStr url])))).

Definition jira_get_issue (args : value) : task value :=
  args <~~ destructure args ;;
  let issueKey := field "issueKey" args in
  checked <~~ of_result (validateIssueKey issueKey) ;;
  key <~~ to_text issueKey ;;
  await GET (js "/issue/" ++ key) VUndefined (fun response =>
  Finish (
    data <~ read "data" response ;;
    f <~ read "fields" data ;;
    summary <~ read "summary" f ;;
    description <~ of_outcome (adfToText (field "description" f)) ;;
    storyPoints <~ read_key (STORY_POINTS_FIELD cfg) f ;;
    url <~ createIssueUrl (field "key" data) ;;
    Got (createSuccessResponse
           (obj ["key" =: field "key" data;
                 "summary" =: summary;
                 "description" =: VStr description;
                 "status" =: field "name" (field "status" f);
                 "assignee" =: person (field "assignee" f);
                 "reporter" =: field "displayName" (field "reporter" f);
                 "priority" =: field "name" (field "priority" f);
                 "issueType" =: field "name" (field "issuetype" f);
                 "labels" =: or_else (field "labels" f) (VArr []);
                 "storyPoints" =: storyPoints;
                 "parent" =: field "key" (field "parent" f);
                 "created" =: field "created" f;
                 "updated" =: field "updated" f;
                 "url" =: VStr url])))).

(** The callback of [response.data.issues.map] *)
Definition found_issue (issue : value) : attempt value :=
  key <~ read "key" issue ;;
  f <~ read "fields" issue ;;
  summary <~ read "summary" f ;;
  url <~ createIssueUrl key ;;
  Got (obj ["key" =: key;
            "summary" =: summary;
            "status" =: field "name" (field "status" f);
            "assignee" =: person (field "assignee" f);
            "priority" =: field "name" (field "priority" f);
            "issueType" =: field "name" (field "issuetype" f);
            "labels" =: or_else (field "labels" f) (VArr []);
            "parent" =: field "key" (field "parent" f);
            "url" =: VStr url]).

Definition search_fields : value :=
  VArr (map (fun n => VStr (js n))
          ["summary"; "status"; "assignee"; "priority"; "created";
           "updated"; "issuetype"; "parent"; "labels"]%string).

Definition jira_search_issues (args : value) : task value :=
  args <~~ destructure args ;;
  let jql := field "jql" args in
  let maxResults := or_default (VNum 50) (field "maxResults" args) in
  checked <~~ of_result (validateJQL jql) ;;
  validatedMaxResults <~~
    number_value (validateMaxResults (Json maxResults)) ;;
  await POST (js "/search")
    (obj ["jql" =: jql; "maxResults" =: validatedMaxResults;
          "fields" =: search_fields]) (fun response =>
  Finish (
    data <~ read "data" response ;;
    issues <~ map_array found_issue (field "issues" data) ;;
    Got (createSuccessResponse
           (obj ["total" =: field "total" data;
                 "issues" =: VArr issues])))).

(** The statements of [jira_update_issue] after the transition part:
    [warnings] holds at most one message. *)
Definition update_result (issueKey : value) (key : str)
  (hasFieldUpdates : bool) (status : value) (warnings : list value)
  : attempt value :=
  if negb hasFieldUpdates && negb (truthy status) then
    Got (createSuccessResponse
           (obj ["success" =: VBool false;
                 "message" =: VStr (js "No updates provided for " ++ key)]))
  else
    url <~ createIssueUrl issueKey ;;
    Got (createSuccessResponse
           (obj (["success" =: VBool (is_empty_list warnings);
                  "message" =:
                   VStr (js "Issue " ++ key ++ js " updated"
                         ++ (if is_empty_list warnings
                             then js " successfully"
                             else js " with warnings"));
                  "url" =: VStr url]
                 ++ (if is_empty_list warnings then []
                     else ["warnings" =: VArr warnings])))).

(** The statements of [jira_update_issue] from [if (status)] on. *)
Definition update_status (issueKey : value) (key : str)
  (hasFieldUpdates : bool) (status : value) : task value :=
  if truthy status then
    await GET (js "/issue/" ++ key ++ js "/transitions") VUndefined
      (fun transitions =>
    data <~~ read "data" transitions ;;
    list <~~ match field "transitions" data with
             | VArr l => Got l
             | _ => Threw (Native TypeError)
             end ;;
    transition <~~ find_named status list ;;
    if truthy transition then
      await POST (js "/issue/" ++ key ++ js "/transitions")
        (obj ["transition" =: obj ["id" =: field "id" transition]])
        (fun _ => Finish (update_result issueKey key hasFieldUpdates status []))
    else
      Finish (
        names <~ mapA (read "name") list ;;
        available <~ of_outcome (join_values (js ", ") names) ;;
        wanted <~ to_text status ;;
        update_result issueKey key hasFieldUpdates status
          [VStr (js "Transition " ++ [34%N] ++ wanted ++ [34%N]
                 ++ js " not found. Available transitions: "
                 ++ available)]))
  else Finish (update_result issueKey key hasFieldUpdates status []).

Definition jira_update_issue (args : value) : task value :=
  args <~~ destructure args ;;
  let issueKey := field "issueKey" args in
  let summary := field "summary" args in
  let description := field "description" args in
  let status := field "status" args in
  checked <~~ of_result (validateIssueKey issueKey) ;;
  fields <~~
    (if truthy summary then
       s <~ of_result
         (sanitizeString summary (Some 500) (Some (js "summary"))) ;;
       Got ["summary" =: VStr s]
     else Got []) ;;
  let fields :=
    fields ++ (if truthy description
               then ["description" =: createADFDocument description]
               else []) in
  let hasFieldUpdates := truthy summary || truthy description in
  key <~~ to_text issueKey ;;
  if hasFieldUpdates then
    await PUT (js "/issue/" ++ key) (obj ["fields" =: obj fields])
      (fun _ => update_status issueKey key hasFieldUpdates status)
  else update_status issueKey key hasFieldUpdates status.

Definition jira_add_comment (args : value) : task value :=
  args <~~ destructure args ;;
  let issueKey := field "issueKey" args in
  let comment := field "comment" args in
  checked <~~ of_result (validateIssueKey issueKey) ;;
  key <~~ to_text issueKey ;;
  await POST (js "/issue/" ++ key ++ js "/comment")
    (obj ["body" =: createADFDocument comment]) (fun _ =>
  Finish (
    Got (createSuccessResponse
           (obj ["success" =: VBool true;
                 "message" =: VStr (js "Comment added to " ++ key)])))).

(** The [catch (linkError)] block of [jira_link_issues] *)
Definition link_failed (inward outward : str) (linkError : value)
  : attempt value :=
  response <~ read "response" linkError ;;
  known <~
    (if strict_eq (field "status" response) (VNum 400) then
       includes_opt (js "link already exists")
         (field "errorMessages" (field "data" response))
     else Got (VBool false)) ;;
  if truthy known then
    Got (createSuccessResponse
           (obj ["success" =: VBool true;
                 "message" =:
                  VStr (js "Link between " ++ inward ++ js " and " ++ outward
                        ++ js " already exists");
                 "alreadyLinked" =: VBool true]))
  else Threw (Reason linkError).

Definition jira_link_issues (args : value) : task value :=
  args <~~ destructure args ;;
  let inwardIssue := field "inwardIssue" args in
  let outwardIssue := field "outwardIssue" args in
  let linkType := or_default (VStr (js "Relates")) (field "linkType" args) in
  checked <~~ of_result (validateIssueKey inwardIssue) ;;
  checked <~~ of_result (validateIssueKey outwardIssue) ;;
  checked <~~ of_result (validateSafeParam linkType (js "linkType") None) ;;
  Await {| verb := POST; path := js "/issueLink";
           payload := obj ["type" =: obj ["name" =: linkType];
                           "inwardIssue" =: obj ["key" =: inwardIssue];
                           "outwardIssue" =: obj ["key" =: outwardIssue]] |}
    (fun r =>
       match r with
       | Resolved _ =>
           Finish (
             inward <~ to_text inwardIssue ;;
             outward <~ to_text outwardIssue ;;
             type <~ to_text linkType ;;
             Got (createSuccessResponse
                    (obj ["success" =: VBool true;
                          "message" =:
                           VStr (js "Linked " ++ inward ++ js " to "
                                 ++ outward ++ js " with type "
                                 ++ [34%N] ++ type ++ [34%N])])))
       | Rejected linkError =>
           Finish (
             inward <~ to_text inwardIssue ;;
             outward <~ to_text outwardIssue ;;
             link_failed inward outward linkError)
       end).

Definition jira_get_project_info (args : value) : task value :=
  args <~~ destructure args ;;
  let projectKey :=
    or_default (VStr (JIRA_PROJECT_KEY cfg)) (field "projectKey" args) in
  checked <~~ of_result (validateProjectKey projectKey) ;;
  key <~~ to_text projectKey ;;
  await GET (js "/project/" ++ key) VUndefined (fun response =>
  Finish (
    data <~ read "data" response ;;
    key <~ read "key" data ;;
    Got (createSuccessResponse
           (obj ["key" =: key;
                 "name" =: field "name" data;
                 "description" =: field "description" data;
                 "lead" =: field "displayName" (field "lead" data);
                 "url" =: field "url" data])))).

Definition jira_delete_issue (args : value) : task value :=
  args <~~ destructure args ;;
  let issueKey := field "issueKey" args in
  checked <~~ of_result (validateIssueKey issueKey) ;;
  key <~~ to_text issueKey ;;
  await DELETE (js "/issue/" ++ key) VUndefined (fun _ =>
  Finish (
    Got (createSuccessResponse
           (obj ["success" =: VBool true;
                 "message" =:
                  VStr (js "Issue " ++ key ++ js " deleted successfully")])))).

Definition jira_create_subtask (args : value) : task value :=
  args <~~ destructure args ;;
  let parentKey := field "parentKey" args in
  let summary := field "summary" args in
  let description := field "description" args in
  let priority := or_default (VStr (js "Medium")) (field "priority" args) in
  checked <~~ of_result (validateIssueKey parentKey) ;;
  checked <~~ of_result (validateSafeParam priority (js "priority") None) ;;
  projectKey <~~ project_of args ;;
  summary <~~ of_result
    (sanitizeString summary (Some 500) (Some (js "summary"))) ;;
  await POST (js "/issue")
    (obj ["fields" =:
           obj ["project" =: obj ["key" =: VStr projectKey];
                "summary" =: VStr summary;
                "description" =: createADFDocument description;
                "issuetype" =: obj ["name" =: VStr (js "Subtask")];
                "priority" =: obj ["name" =: priority];
                "parent" =: obj ["key" =: parentKey]]]) (fun response =>
  Finish (
    data <~ read "data" response ;;
    key <~ read "key" data ;;
    url <~ createIssueUrl key ;;
    Got (createSuccessResponse
           (obj ["success" =: VBool true; "key" =: key;
                 "id" =: field "id" data; "parent" =: parentKey;
                 "url" =: VStr url])))).

Definition jira_assign_issue (args : value) : task value :=
  args <~~ destructure args ;;
  let issueKey := field "issueKey" args in
  let accountId := field "accountId" args in
  checked <~~ of_result (validateIssueKey issueKey) ;;
  key <~~ to_text issueKey ;;
  await PUT (js "/issue/" ++ key ++ js "/assignee")
    (obj ["accountId" =:
           if negb (is_undefined accountId) then accountId else VNull])
    (fun _ =>
  Finish (
    message <~
      (if truthy accountId then
         account <~ to_text accountId ;;
         Got (js "Issue " ++ key ++ js " assigned to " ++ account)
       else Got (js "Issue " ++ key ++ js " unassigned")) ;;
    url <~ createIssueUrl issueKey ;;
    Got (createSuccessResponse
           (obj ["success" =: VBool true; "message" =: VStr message;
                 "url" =: VStr url])))).

(** The callback of [response.data.transitions.map] *)
Definition listed_transition (t : value) : attempt value :=
  id <~ read "id" t ;;
  to <~ read "id" (field "to" t) ;;
  Got (obj ["id" =: id;
            "name" =: field "name" t;
            "to" =: obj ["id" =: to;
                        "name" =: field "name" (field "to" t);
                        "category" =:
                         field "name"
                           (field "statusCategory" (field "to" t))]]).

Definition jira_list_transitions (args : value) : task value :=
  args <~~ destructure args ;;
  let issueKey := field "issueKey" args in
  checked <~~ of_result (validateIssueKey issueKey) ;;
  key <~~ to_text issueKey ;;
  await GET (js "/issue/" ++ key ++ js "/transitions") VUndefined
    (fun response =>
  Finish (
    data <~ read "data" response ;;
    transitions <~ map_array listed_transition (field "transitions" data) ;;
    Got (createSuccessResponse
           (obj ["issueKey" =: issueKey;
                 "transitions" =: VArr transitions])))).

Definition jira_add_worklog (args : value) : task value :=
  args <~~ destructure args ;;
  let issueKey := field "issueKey" args in
  let timeSpent := field "timeSpent" args in
  let comment := field "comment" args in
  let started := field "started" args in
  checked <~~ of_result (validateIssueKey issueKey) ;;
  checked <~~ of_result
    (sanitizeString timeSpent (Some 50) (Some (js "timeSpent"))) ;;
  let worklogData :=
    ["timeSpent" =: timeSpent]
    ++ (if truthy comment then ["comment" =: createADFDocument comment]
        else [])
    ++ (if truthy started then ["started" =: started] else []) in
  key <~~ to_text issueKey ;;
  await POST (js "/issue/" ++ key ++ js "/worklog") (obj worklogData)
    (fun response =>
  Finish (
    data <~ read "data" response ;;
    id <~ read "id" data ;;
    Got (createSuccessResponse
           (obj ["success" =: VBool true;
                 "id" =: id;
                 "issueKey" =: issueKey;
                 "timeSpent" =: field "timeSpent" data;
                 "author" =: field "displayName" (field "author" data)])))).

(** The callback of [response.data.comments.map] *)
Definition listed_comment (c : value) : attempt value :=
  id <~ read "id" c ;;
  body <~ of_outcome (adfToText (field "body" c)) ;;
  Got (obj ["id" =: id;
            "author" =: field "displayName" (field "author" c);
            "body" =: VStr body;
            "created" =: field "created" c;
            "updated" =: field "updated" c]).

Definition jira_get_comments (args : value) : task value :=
  args <~~ destructure args ;;
  let issueKey := field "issueKey" args in
  let maxResults := or_default (VNum 50) (field "maxResults" args) in
  let orderBy := or_default (VStr (js "-created")) (field "orderBy" args) in
  checked <~~ of_result (validateIssueKey issueKey) ;;
  validatedMaxResults <~~
    number_value (validateMaxResults (Json maxResults)) ;;
  key <~~ to_text issueKey ;;
  await GET (js "/issue/" ++ key ++ js "/comment")
    (obj ["params" =: obj ["maxResults" =: validatedMaxResults;
                          "orderBy" =: orderBy]]) (fun response =>
  Finish (
    data <~ read "data" response ;;
    comments <~ map_array listed_comment (field "comments" data) ;;
    Got (createSuccessResponse
           (obj ["issueKey" =: issueKey;
                 "total" =: field "total" data;
                 "comments" =: VArr comments])))).

(** The callback of [response.data.worklogs.map] *)
Definition listed_worklog (w : value) : attempt value :=
  id <~ read "id" w ;;
  comment <~ of_outcome (adfToText (field "comment" w)) ;;
  Got (obj ["id" =: id;
            "author" =: field "displayName" (field "author" w);
            "timeSpent" =: field "timeSpent" w;
            "timeSpentSeconds" =: field "timeSpentSeconds" w;
            "started" =: field "started" w;
            "comment" =: VStr comment]).

Definition jira_get_worklogs (args : value) : task value :=
  args <~~ destructure args ;;
  let issueKey := field "issueKey" args in
  checked <~~ of_result (validateIssueKey issueKey) ;;
  key <~~ to_text issueKey ;;
  await GET (js "/issue/" ++ key ++ js "/worklog") VUndefined (fun response =>
  Finish (
    data <~ read "data" response ;;
    worklogs <~ map_array listed_worklog (field "worklogs" data) ;;
    Got (createSuccessResponse
           (obj ["issueKey" =: issueKey;
                 "total" =: field "total" data;
                 "worklogs" =: VArr worklogs])))).

(** A callback of [map] that copies properties: it throws on an element
    that is [null] or [undefined], where its first read fails. *)
Definition copy_of (names : list string) (x : value) : attempt value :=
  checked <~ destructure x ;;
  Got (obj (map (fun n => (n, field n x)) names)).

Definition listed_project (p : value) : attempt value :=
  checked <~ destructure p ;;
  Got (obj ["key" =: field "key" p;
            "name" =: field "name" p;
            "projectTypeKey" =: field "projectTypeKey" p;
            "style" =: field "style" p;
            "lead" =: field "displayName" (field "lead" p)]).

Definition jira_list_projects (args : value) : task value :=
  args <~~ destructure args ;;
  let maxResults := or_default (VNum 50) (field "maxResults" args) in
  let query := field "query" args in
  validatedMaxResults <~~
    number_value (validateMaxResults (Json maxResults)) ;;
  params <~~
    (if truthy query then
       q <~ of_result (sanitizeString query (Some 200) (Some (js "query"))) ;;
       Got ["maxResults" =: validatedMaxResults; "query" =: VStr q]
     else Got ["maxResults" =: validatedMaxResults]) ;;
  await GET (js "/project/search") (obj ["params" =: obj params])
    (fun response =>
  Finish (
    data <~ read "data" response ;;
    projects <~ map_array listed_project (field "values" data) ;;
    Got (createSuccessResponse
           (obj ["total" =: field "total" data;
                 "projects" =: VArr projects])))).

Definition listed_component (c : value) : attempt value :=
  checked <~ destructure c ;;
  Got (obj ["id" =: field "id" c;
            "name" =: field "name" c;
            "description" =: field "description" c;
            "lead" =: field "displayName" (field "lead" c);
            "assigneeType" =: field "assigneeType" c]).

Definition jira_get_project_components (args : value) : task value :=
  projectKey <~~ project_of args ;;
  await GET (js "/project/" ++ projectKey ++ js "/components") VUndefined
    (fun response =>
  Finish (
    data <~ read "data" response ;;
    components <~ map_array listed_component data ;;
    Got (createSuccessResponse
           (obj ["projectKey" =: VStr projectKey;
                 "components" =: VArr components])))).

Definition jira_get_project_versions (args : value) : task value :=
  projectKey <~~ project_of args ;;
  await GET (js "/project/" ++ projectKey ++ js "/versions") VUndefined
    (fun response =>
  Finish (
    data <~ read "data" response ;;
    versions <~
      map_array
        (copy_of ["id"; "name"; "description"; "released"; "archived";
                  "releaseDate"; "startDate"]%string) data ;;
    Got (createSuccessResponse
           (obj ["projectKey" =: VStr projectKey;
                 "versions" =: VArr versions])))).

Definition jira_get_fields : task value :=
  await GET (js "/field") VUndefined (fun response =>
  Finish (
    data <~ read "data" response ;;
    fields <~
      map_array (copy_of ["id"; "name"; "custom"; "schema"]%string) data ;;
    Got (createSuccessResponse (obj ["fields" =: VArr fields])))).

Definition jira_get_issue_types (args : value) : task value :=
  projectKey <~~ project_of args ;;
  await GET (js "/issue/createmeta/" ++ projectKey ++ js "/issuetypes")
    VUndefined (fun response =>
  Finish (
    data <~ read "data" response ;;
    issueTypes <~
      map_array
        (copy_of ["id"; "name"; "subtask"; "description"]%string)
        (field "issueTypes" data) ;;
    Got (createSuccessResponse
           (obj ["projectKey" =: VStr projectKey;
                 "issueTypes" =: VArr issueTypes])))).

Definition jira_get_priorities : task value :=
  await GET (js "/priority") VUndefined (fun response =>
  Finish (
    data <~ read "data" response ;;
    priorities <~
      map_array
        (copy_of ["id"; "name"; "description"; "iconUrl"]%string) data ;;
    Got (createSuccessResponse (obj ["priorities" =: VArr priorities])))).

Definition jira_get_link_types : task value :=
  await GET (js "/issueLinkType") VUndefined (fun response =>
  Finish (
    data <~ read "data" response ;;
    linkTypes <~
      map_array (copy_of ["id"; "name"; "inward"; "outward"]%string)
        (field "issueLinkTypes" data) ;;
    Got (createSuccessResponse (obj ["linkTypes" =: VArr linkTypes])))).

Definition jira_search_users (args : value) : task value :=
  args <~~ destructure args ;;
  let query := field "query" args in
  let maxResults := or_default (VNum 10) (field "maxResults" args) in
  checked <~~ of_result (sanitizeString query (Some 200) (Some (js "query"))) ;;
  validatedMaxResults <~~
    number_value (validateMaxResults (Json maxResults)) ;;
  await GET (js "/user/search")
    (obj ["params" =: obj ["query" =: query;
                          "maxResults" =: validatedMaxResults]])
    (fun response =>
  Finish (
    data <~ read "data" response ;;
    users <~
      map_array
        (copy_of ["accountId"; "displayName"; "emailAddress"; "active";
                  "accountType"]%string) data ;;
    Got (createSuccessResponse (obj ["users" =: VArr users])))).

(** The [switch (name)] *)
Definition tool (name args : value) : task value :=
  if is_str (js "jira_create_issue") name then jira_create_issue args
  else if is_str (js "jira_get_issue") name then jira_get_issue args
  else if is_str (js "jira_search_issues") name then jira_search_issues args
  else if is_str (js "jira_update_issue") name then jira_update_issue args
  else if is_str (js "jira_add_comment") name then jira_add_comment args
  else if is_str (js "jira_link_issues") name then jira_link_issues args
  else if is_str (js "jira_get_project_info") name
  then jira_get_project_info args
  else if is_str (js "jira_delete_issue") name then jira_delete_issue args
  else if is_str (js "jira_create_subtask") name then jira_create_subtask args
  else if is_str (js "jira_assign_issue") name then jira_assign_issue args
  else if is_str (js "jira_list_transitions") name
  then jira_list_transitions args
  else if is_str (js "jira_add_worklog") name then jira_add_worklog args
  else if is_str (js "jira_get_comments") name then jira_get_comments args
  else if is_str (js "jira_get_worklogs") name then jira_get_worklogs args
  else if is_str (js "jira_list_projects") name then jira_list_projects args
  else if is_str (js "jira_get_project_components") name
  then jira_get_project_components args
  else if is_str (js "jira_get_project_versions") name
  then jira_get_project_versions args
  else if is_str (js "jira_get_fields") name then jira_get_fields
  else if is_str (js "jira_get_issue_types") name
  then jira_get_issue_types args
  else if is_str (js "jira_get_priorities") name then jira_get_priorities
  else if is_str (js "jira_get_link_types") name then jira_get_link_types
  else if is_str (js "jira_search_users") name then jira_search_users args
  else
    Finish (n <~ to_text name ;; Threw (Error (js "Unknown tool: " ++ n))).

(** The handler of [CallToolRequestSchema]: the destructuring of
    [request.params] stands before the [try]. *)
Definition callTool (request : value) : task value :=
  params <~~ read "params" request ;;
  params <~~ destructure params ;;
  catch (tool (field "name" params) (field "arguments" params))
    (fun error => Finish (handleError error)).

End Server.

(* ================================================================== *)
(** * The tool calls of the older [index.js] *)
(* ================================================================== *)

Module LegacyTools.

Section Server.

Variable host : engine.
Variable env : environment.
Variable cfg : config.

(** [error.response?.data] on what was thrown *)
Definition details_of (error : thrown) : value :=
  match error with
  | Reason v => field "data" (field "response" v)
  | _ => VUndefined
  end.

Definition handleError (error : thrown) : attempt value :=
  let isDevelopment :=
    is_str (js "development") (getenv (js "NODE_ENV") env) in
  message <~ match error with
             | Reason v => read "message" v
             | _ => Got (message_of host error)
             end ;;
  let errorResponse :=
    ["error" =: VStr (js "Operation failed");
     "message" =: or_else message (VStr (js "An unexpected error occurred"))]
    ++ (if isDevelopment
        then ["details" =: details_of error; "stack" =: stack_of host error]
        else []) in
  Got (obj ["content" =:
             VArr [obj ["type" =: VStr (js "text");
                        "text" =: stringify host (obj errorResponse)]];
            "isError" =: VBool true]).

Definition jira_create_issue (args : value) : task value :=
  args <~~ destructure args ;;
  let summary := field "summary" args in
  let description := field "description" args in
  let issueType := or_default (VStr (js "Task")) (field "issueType" args) in
  let priority := or_default (VStr (js "Medium")) (field "priority" args) in
  let labels := or_default (VArr []) (field "labels" args) in
  let storyPoints := field "storyPoints" args in
  summary <~~ of_result
    (sanitizeString summary (Some 500) (Some (js "summary"))) ;;
  description <~~ of_outcome (Legacy.createADFDocument description) ;;
  let fields :=
    [(js "project", obj ["key" =: VStr (JIRA_PROJECT_KEY cfg)]);
     (js "summary", VStr summary);
     (js "description", description);
     (js "issuetype", obj ["name" =: issueType]);
     (js "priority", obj ["name" =: priority]);
     (js "labels", labels)] in
  fields <~~
    (if truthy storyPoints then
       if str_eqb (STORY_POINTS_FIELD cfg) (js "__proto__") then NotModelled
       else Got (assign (STORY_POINTS_FIELD cfg) storyPoints fields)
     else Got fields) ;;
  await POST (js "/issue") (obj ["fields" =: VObj fields]) (fun response =>
  Finish (
    data <~ read "data" response ;;
    key <~ read "key" data ;;
    url <~ createIssueUrl cfg key ;;
    Got (createSuccessResponse host
           (obj ["success" =: VBool true; "key" =: key;
                 "id" =: field "id" data; "url" =: VStr url])))).

Definition jira_get_issue (args : value) : task value :=
  args <~~ destructure args ;;
  let issueKey := field "issueKey" args in
  checked <~~ of_result (validateIssueKey issueKey) ;;
  key <~~ to_text issueKey ;;
  await GET (js "/issue/" ++ key) VUndefined (fun response =>
  Finish (
    data <~ read "data" response ;;
    f <~ read "fields" data ;;
    summary <~ read "summary" f ;;
    status <~ read "name" (field "status" f) ;;
    url <~ createIssueUrl cfg (field "key" data) ;;
    Got (createSuccessResponse host
           (obj ["key" =: field "key" data;
                 "summary" =: summary;
                 "description" =: field "description" f;
                 "status" =: status;
                 "assignee" =: field "displayName" (field "assignee" f);
                 "reporter" =: field "displayName" (field "reporter" f);
                 "priority" =: field "name" (field "priority" f);
                 "issueType" =: field "name" (field "issuetype" f);
                 "parent" =: field "key" (field "parent" f);
                 "created" =: field "created" f;
                 "updated" =: field "updated" f;
                 "url" =: VStr url])))).

(** The callback of [response.data.issues.map] *)
Definition found_issue (issue : value) : attempt value :=
  key <~ read "key" issue ;;
  f <~ read "fields" issue ;;
  summary <~ read "summary" f ;;
  status <~ read "name" (field "status" f) ;;
  url <~ createIssueUrl cfg key ;;
  Got (obj ["key" =: key;
            "summary" =: summary;
            "status" =: status;
            "assignee" =: field "displayName" (field "assignee" f);
            "priority" =: field "name" (field "priority" f);
            "issueType" =: field "name" (field "issuetype" f);
            "parent" =: field "key" (field "parent" f);
            "url" =: VStr url]).

Definition jira_search_issues (args : value) : task value :=
  args <~~ destructure args ;;
  let jql := field "jql" args in
  let maxResults := or_default (VNum 50) (field "maxResults" args) in
  checked <~~ of_result (validateJQL jql) ;;
  await GET (js "/search/jql")
    (obj ["params" =:
           obj ["jql" =: jql;
                "maxResults" =: maxResults;
                "fields" =:
                 VStr (js "summary,status,assignee,priority,created,updated,issuetype,parent")]])
    (fun response =>
  Finish (
    data <~ read "data" response ;;
    issues <~ map_array found_issue (field "issues" data) ;;
    Got (createSuccessResponse host
           (obj ["total" =: field "total" data;
                 "issues" =: VArr issues])))).

(** The [return] of [jira_update_issue] *)
Definition updated (issueKey : value) (key : str) : attempt value :=
  url <~ createIssueUrl cfg issueKey ;;
  Got (createSuccessResponse host
         (obj ["success" =: VBool true;
               "message" =:
                VStr (js "Issue " ++ key ++ js " updated successfully");
               "url" =: VStr url])).

Definition jira_update_issue (args : value) : task value :=
  args <~~ destructure args ;;
  let issueKey := field "issueKey" args in
  let summary := field "summary" args in
  let description := field "description" args in
  let status := field "status" args in
  checked <~~ of_result (validateIssueKey issueKey) ;;
  fields <~~
    (if truthy summary then
       s <~ of_result
         (sanitizeString summary (Some 500) (Some (js "summary"))) ;;
       Got ["summary" =: VStr s]
     else Got []) ;;
  fields <~~
    (if truthy description then
       d <~ of_outcome (Legacy.createADFDocument description) ;;
       Got (fields ++ ["description" =: d])
     else Got fields) ;;
  key <~~ to_text issueKey ;;
  await PUT (js "/issue/" ++ key) (obj ["fields" =: obj fields]) (fun _ =>
  if truthy status then
    await GET (js "/issue/" ++ key ++ js "/transitions") VUndefined
      (fun transitions =>
    data <~~ read "data" transitions ;;
    list <~~ match field "transitions" data with
             | VArr l => Got l
             | _ => Threw (Native TypeError)
             end ;;
    transition <~~ find_named status list ;;
    if truthy transition then
      await POST (js "/issue/" ++ key ++ js "/transitions")
        (obj ["transition" =: obj ["id" =: field "id" transition]])
        (fun _ => Finish (updated issueKey key))
    else Finish (updated issueKey key))
  else Finish (updated issueKey key)).

Definition jira_add_comment (args : value) : task value :=
  args <~~ destructure args ;;
  let issueKey := field "issueKey" args in
  let comment := field "comment" args in
  checked <~~ of_result (validateIssueKey issueKey) ;;
  key <~~ to_text issueKey ;;
  body <~~ of_outcome (Legacy.createADFDocument comment) ;;
  await POST (js "/issue/" ++ key ++ js "/comment") (obj ["body" =: body])
    (fun _ =>
  Finish (
    Got (createSuccessResponse host
           (obj ["success" =: VBool true;
                 "message" =: VStr (js "Comment added to " ++ key)])))).

Definition jira_link_issues (args : value) : task value :=
  args <~~ destructure args ;;
  let inwardIssue := field "inwardIssue" args in
  let outwardIssue := field "outwardIssue" args in
  let linkType := or_default (VStr (js "Relates")) (field "linkType" args) in
  checked <~~ of_result (validateIssueKey inwardIssue) ;;
  checked <~~ of_result (validateIssueKey outwardIssue) ;;
  Await {| verb := POST; path := js "/issueLink";
           payload := obj ["type" =: obj ["name" =: linkType];
                           "inwardIssue" =: obj ["key" =: inwardIssue];
                           "outwardIssue" =: obj ["key" =: outwardIssue]] |}
    (fun r =>
       match r with
       | Resolved _ =>
           Finish (
             inward <~ to_text inwardIssue ;;
             outward <~ to_text outwardIssue ;;
             type <~ to_text linkType ;;
             Got (createSuccessResponse host
                    (obj ["success" =: VBool true;
                          "message" =:
                           VStr (js "Linked " ++ inward ++ js " to "
                                 ++ outward ++ js " with type "
                                 ++ [34%N] ++ type ++ [34%N])])))
       | Rejected linkError =>
           Finish (
             inward <~ to_text inwardIssue ;;
             outward <~ to_text outwardIssue ;;
             link_failed host inward outward linkError)
       end).

Definition jira_get_project_info (args : value) : task value :=
  args <~~ destructure args ;;
  let projectKey :=
    or_default (VStr (JIRA_PROJECT_KEY cfg)) (field "projectKey" args) in
  key <~~ to_text projectKey ;;
  await GET (js "/project/" ++ key) VUndefined (fun response =>
  Finish (
    data <~ read "data" response ;;
    key <~ read "key" data ;;
    Got (createSuccessResponse host
           (obj ["key" =: key;
                 "name" =: field "name" data;
                 "description" =: field "description" data;
                 "lead" =: field "displayName" (field "lead" data);
                 "url" =: field "url" data])))).

Definition jira_delete_issue (args : value) : task value :=
  args <~~ destructure args ;;
  let issueKey := field "issueKey" args in
  checked <~~ of_result (validateIssueKey issueKey) ;;
  key <~~ to_text issueKey ;;
  await DELETE (js "/issue/" ++ key) VUndefined (fun _ =>
  Finish (
    Got (createSuccessResponse host
           (obj ["success" =: VBool true;
                 "message" =:
                  VStr (js "Issue " ++ key ++ js " deleted successfully")])))).

Definition jira_create_subtask (args : value) : task value :=
  args <~~ destructure args ;;
  let parentKey := field "parentKey" args in
  let summary := field "summary" args in
  let description := field "description" args in
  let priority := or_default (VStr (js "Medium")) (field "priority" args) in
  checked <~~ of_result (validateIssueKey parentKey) ;;
  summary <~~ of_result
    (sanitizeString summary (Some 500) (Some (js "summary"))) ;;
  description <~~ of_outcome (Legacy.createADFDocument description) ;;
  await POST (js "/issue")
    (obj ["fields" =:
           obj ["project" =: obj ["key" =: VStr (JIRA_PROJECT_KEY cfg)];
                "summary" =: VStr summary;
                "description" =: description;
                "issuetype" =: obj ["name" =: VStr (js "Subtask")];
                "priority" =: obj ["name" =: priority];
                "parent" =: obj ["key" =: parentKey]]]) (fun response =>
  Finish (
    data <~ read "data" response ;;
    key <~ read "key" data ;;
    url <~ createIssueUrl cfg key ;;
    Got (createSuccessResponse host
           (obj ["success" =: VBool true; "key" =: key;
                 "id" =: field "id" data; "parent" =: parentKey;
                 "url" =: VStr url])))).

(** The [switch (name)] *)
Definition tool (name args : value) : task value :=
  if is_str (js "jira_create_issue") name then jira_create_issue args
  else if is_str (js "jira_get_issue") name then jira_get_issue args
  else if is_str (js "jira_search_issues") name then jira_search_issues args
  else if is_str (js "jira_update_issue") name then jira_update_issue args
  else if is_str (js "jira_add_comment") name then jira_add_comment args
  else if is_str (js "jira_link_issues") name then jira_link_issues args
  else if is_str (js "jira_get_project_info") name
  then jira_get_project_info args
  else if is_str (js "jira_delete_issue") name then jira_delete_issue args
  else if is_str (js "jira_create_subtask") name then jira_create_subtask args
  else
    Finish (n <~ to_text name ;; Threw (Error (js "Unknown tool: " ++ n))).

Definition callTool (request : value) : task value :=
  params <~~ read "params" request ;;
  params <~~ destructure params ;;
  catch (tool (field "name" params) (field "arguments" params))
    (fun error => Finish (handleError error)).

End Server.

End LegacyTools.

(* ================================================================== *)
(** * Vocabulary of the statements on tool calls *)
(* ================================================================== *)

(** Every request the task sends, whatever the replies are, satisfies
    [P]. *)
Fixpoint always {A} (P : request -> Prop) (t : task A) : Prop :=
  match t with
  | Finish _ => True
  | Await r k => P r /\ forall x, always P (k x)
  end.

(** The task as it runs against given replies: the requests sent, and
    how it finished if the replies sufficed. *)
Fixpoint run_task {A} (t : task A) (replies : list reply)
  : list request * option (attempt A) :=
  match t with
  | Finish r => ([], Some r)
  | Await r k =>
      match replies with
      | [] => ([r], None)
      | x :: rest =>
          let (sent, result) := run_task (k x) rest in (r :: sent, result)
      end
  end.

(** Every way the task can finish, whatever the replies are as long as
    no request is rejected with [null] or [undefined], satisfies [Q]. *)
Fixpoint ends {A} (Q : attempt A -> Prop) (t : task A) : Prop :=
  match t with
  | Finish r => Q r
  | Await r k =>
      (forall response, ends Q (k (Resolved response)))
      /\ (forall reason, not_nullish reason = true ->
                         ends Q (k (Rejected reason)))
  end.

(** The attempt ends in no throw. *)
Definition no_throw {A} (r : attempt A) : Prop :=
  match r with Threw _ => False | _ => True end.

(** What is thrown is not a rejection with [null] or [undefined]. *)
Definition no_empty_reason {A} (r : attempt A) : Prop :=
  match r with
  | Threw (Reason v) => not_nullish v = true
  | _ => True
  end.

(** The request of a tool call as the protocol hands it over. *)
Definition call (name args : value) : value :=
  obj ["params" =: obj ["name" =: name; "arguments" =: args]].

(** The result of a failed tool call with the given text. *)
Definition error_result (text : value) : value :=
  obj ["content" =: VArr [obj ["type" =: VStr (js "text"); "text" =: text]];
       "isError" =: VBool true].

(** The names the [switch] has a case for. *)
Definition tool_names : list string :=
  ["jira_create_issue"; "jira_get_issue"; "jira_search_issues";
   "jira_update_issue"; "jira_add_comment"; "jira_link_issues";
   "jira_get_project_info"; "jira_delete_issue"; "jira_create_subtask";
   "jira_assign_issue"; "jira_list_transitions"; "jira_add_worklog";
   "jira_get_comments"; "jira_get_worklogs"; "jira_list_projects";
   "jira_get_project_components"; "jira_get_project_versions";
   "jira_get_fields"; "jira_get_issue_types"; "jira_get_priorities";
   "jira_get_link_types"; "jira_search_users"]%string.

(** An engine and a configuration to run examples with: the text of a
    response is taken to be the data itself. *)
Definition sample_engine : engine :=
  {| stringify := fun data => data;
     native_message := fun _ => VStr (js "TypeError");
     stack_trace := fun _ => VStr (js "at callTool") |}.

Definition sample_config : config :=
  {| JIRA_URL := js "https://x.atlassian.net";
     JIRA_EMAIL := js "me@x.org";
     JIRA_API_TOKEN := js "secret";
     JIRA_PROJECT_KEY := js "PROJ";
     STORY_POINTS_FIELD := js "customfield_10016" |}.

(** An environment that gives these constants. *)
Definition sample_environment : environment :=
  [(js "JIRA_HOST", js "https://x.atlassian.net");
   (js "JIRA_EMAIL", js "me@x.org");
   (js "JIRA_API_TOKEN", js "secret")].

(** The object has an own property of that name. *)
Definition has_property (k : string) (v : value) : bool :=
  match v with VObj fs => has_key (js k) fs | _ => false end.

(** The error messages of Jira a rejection carries. *)
Definition jira_errors (error : thrown) : value :=
  match error with
  | Reason v => field "errorMessages" (field "data" (field "response" v))
  | _ => VUndefined
  end.

(** What is thrown is not a rejection with [null] or [undefined]. *)
Definition proper (error : thrown) : bool :=
  match error with Reason v => not_nullish v | _ => true end.

(** The attempt throws no rejection at all. *)
Definition own_throw {A} (r : attempt A) : Prop :=
  match r with Threw (Reason _) => False | _ => True end.

(** Letters, digits, slash, dash and underscore: what a request path
    holds when nothing was put into it. *)
Definition is_path_unit (c : N) : bool :=
  is_upper c || (N.leb 97 c && N.leb c 122) || is_digit c
  || N.eqb c 47 || N.eqb c DASH || N.eqb c 95.

Definition plain_path (r : request) : Prop :=
  forallb is_path_unit (path r) = true.

(** The arguments a tool validates as issue keys. *)
Definition key_arguments (name : string) : list string :=
  if existsb (String.eqb name)
       ["jira_get_issue"; "jira_update_issue"; "jira_add_comment";
        "jira_delete_issue"; "jira_assign_issue"; "jira_list_transitions";
        "jira_add_worklog"; "jira_get_comments"; "jira_get_worklogs"]%string
  then ["issueKey"]%string
  else if String.eqb name "jira_link_issues"
  then ["inwardIssue"; "outwardIssue"]%string
  else if String.eqb name "jira_create_subtask" then ["parentKey"]%string
  else [].

(** The arguments the older tools hand to the parser. *)
Definition text_arguments : list (string * string) :=
  [("jira_create_issue", "description"); ("jira_add_comment", "comment");
   ("jira_create_subtask", "description")]%string.

(** Where a request carries a document, as [body], as
    [fields.description] or as [comment], the document is well formed. *)
Definition is_document_or_absent (v : value) : bool :=
  is_undefined v || check_doc v.

Definition documents_ok (r : request) : Prop :=
  is_document_or_absent (field "body" (payload r)) = true
  /\ is_document_or_absent (field "description" (field "fields" (payload r)))
     = true
  /\ is_document_or_absent (field "comment" (payload r)) = true.

(* ================================================================== *)
(** * Basic facts about strings *)
(* ================================================================== *)

Lemma str_eqb_eq (a b : str) : str_eqb a b = true <-> a = b.
Proof.
  revert b; induction a as [|x a IH]; intros [|y b]; simpl; split;
    try congruence; try reflexivity.
  - intros H. apply andb_true_iff in H as [Hx Hab].
    apply N.eqb_eq in Hx. apply IH in Hab. congruence.
  - intros H. injection H as -> ->. rewrite N.eqb_refl. simpl.
    now apply IH.
Qed.

Lemma str_eqb_refl (a : str) : str_eqb a a = true.
Proof. now apply str_eqb_eq. Qed.

Lemma dropWhile_all (p : N -> bool) (s : str) :
  forallb p s = true -> dropWhile p s = [].
Proof.
  induction s as [|c s IH]; simpl; [reflexivity|].
  intros H. apply andb_true_iff in H as [Hc Hs]. rewrite Hc. auto.
Qed.

Lemma trim_all_ws (s : str) : forallb is_ws s = true -> trim s = [].
Proof.
  intros H. unfold trim. rewrite (dropWhile_all _ _ H). reflexivity.
Qed.

Lemma split_lines_all_ws (s : str) :
  forallb is_ws s = true ->
  Forall (fun l => forallb is_ws l = true) (split_lines s).
Proof.
  induction s as [|c s IH]; simpl; intros H.
  - repeat constructor.
  - apply andb_true_iff in H as [Hc Hs]. specialize (IH Hs).
    destruct (N.eqb c LF).
    + constructor; [reflexivity | assumption].
    + destruct (split_lines s) as [|l ls].
      * repeat constructor. simpl. now rewrite Hc.
      * inversion IH; subst. constructor; [|assumption].
        simpl. now rewrite Hc.
Qed.

(** Blank lines leave the array of nodes as it is. *)
Lemma parseLines_blank (raw : str) (rest : list str) (nodes : list value) :
  trim raw = [] -> parseLines (raw :: rest) nodes = parseLines rest nodes.
Proof. intros H. simpl. rewrite H. reflexivity. Qed.

Lemma parseLines_all_blank (ls : list str) (nodes : list value) :
  Forall (fun l => trim l = []) ls -> parseLines ls nodes = nodes.
Proof.
  induction 1 as [|l ls Hl _ IH]; [reflexivity|].
  rewrite parseLines_blank by assumption. exact IH.
Qed.

(** Property reads in continuation style agree with [field]. *)
Lemma lookup_assoc {A} (k : str) (f : value -> outcome A) fs :
  lookup k f fs = f (assoc k fs).
Proof.
  induction fs as [|[k' x] fs IH]; simpl; [reflexivity|].
  destruct (str_eqb k' k); [reflexivity | exact IH].
Qed.

Lemma get_field {A} (k : string) (f : value -> outcome A) (v : value) :
  not_nullish v = true -> get (js k) f v = f (field k v).
Proof.
  destruct v; simpl; try discriminate; try reflexivity.
  intros _. apply lookup_assoc.
Qed.

Lemma get_opt_field {A} (k : string) (f : value -> outcome A) (v : value) :
  get_opt (js k) f v = f (field k v).
Proof.
  destruct v; simpl; try reflexivity. apply lookup_assoc.
Qed.

Lemma truthy_not_nullish (v : value) : truthy v = true -> not_nullish v = true.
Proof. destruct v; simpl; congruence. Qed.

(* ================================================================== *)
(** * The inline renderer and the order of marks *)
(* ================================================================== *)

Lemma apply_mark_wrap (t : str) (k : mark_kind) :
  apply_mark (VStr t) (mark_value k) = Ok (VStr (wrap k t)).
Proof.
  destruct k; try reflexivity.
  cbn. unfold or_else. simpl.
  destruct href as [|c href]; reflexivity.
Qed.

Lemma apply_marks_wrap_all (marks : list mark_kind) (t : str) :
  apply_marks (VStr t) (map mark_value marks) = Ok (VStr (wrap_all marks t)).
Proof.
  revert t; induction marks as [|k marks IH]; intros t; [reflexivity|].
  cbn [map apply_marks]. rewrite apply_mark_wrap. cbn [bind].
  apply IH.
Qed.

Lemma inline_node_run (text : str) (marks : list mark_kind) :
  inline_node (run text marks) = Ok (VStr (wrap_all marks text)).
Proof.
  cbn. replace (or_else (VStr text) (VStr [])) with (VStr text)
    by (destruct text; reflexivity).
  apply apply_marks_wrap_all.
Qed.

Lemma inlineNodesToText_run (text : str) (marks : list mark_kind) :
  inlineNodesToText (VArr [run text marks]) = Ok (wrap_all marks text).
Proof.
  unfold inlineNodesToText. cbn [mapM]. rewrite inline_node_run.
  reflexivity.
Qed.

(** C1 (as stated, refuted): a run whose marks array lists the link
    before the strong mark is rendered with the link delimiters inside the
    strong delimiters, not as [[**text**](href)]. *)
Lemma marks_fixed_order_counterexample :
  inlineNodesToText (VArr [run (js "text") [Link (js "href"); Strong]])
    = Ok (js "**[text](href)**")
  /\ inlineNodesToText (VArr [run (js "text") [Link (js "href"); Strong]])
    <> Ok (js "[**text**](href)").
Proof. split; [reflexivity | discriminate]. Qed.

(** C1 (amended): the inline renderer applies the delimiters of the marks
    of a run in the order in which the marks array lists them, the first
    mark innermost; a run whose marks are strong then link renders as
    [[**text**](href)]. *)
Theorem marks_applied_in_array_order :
  (forall (text : str) (marks : list mark_kind),
      inlineNodesToText (VArr [run text marks]) = Ok (wrap_all marks text))
  /\ (forall (text href : str),
      inlineNodesToText (VArr [run text [Strong; Link href]])
      = Ok (js "[**" ++ text ++ js "**](" ++ href ++ js ")")).
Proof.
  split.
  - apply inlineNodesToText_run.
  - intros text href. rewrite inlineNodesToText_run. unfold wrap_all.
    simpl. rewrite <- !app_assoc. reflexivity.
Qed.

(* ================================================================== *)
(** * The render entry point on values that are not documents *)
(* ================================================================== *)

(** C10: a string handed to [adfToText] comes back unchanged, and every
    other value that is not an object of type [doc] with an array
    [content] renders as the empty string. *)
Theorem adfToText_non_document (v : value) :
  is_document v = false ->
  adfToText v = Ok (match v with VStr s => s | _ => [] end)
  /\ (forall s : str, adfToText (VStr s) = Ok s)
  /\ adfToText VNull = Ok []
  /\ adfToText VUndefined = Ok []
  /\ (forall z : Z, adfToText (VNum z) = Ok []).
Proof.
  intros H. split; [|split; [|split; [|split]]].
  - destruct v as [| |b|z|s|l|fs]; try reflexivity.
    + destruct b; reflexivity.
    + destruct z; reflexivity.
    + destruct s; reflexivity.
    + unfold is_document in H. unfold adfToText.
      cbn [truthy negb andb] in *.
      rewrite !get_field by reflexivity.
      destruct (field "content" (VObj fs)); try reflexivity.
      destruct (is_str (js "doc") (field "type" (VObj fs)));
        [discriminate | reflexivity].
  - intros [|c s]; reflexivity.
  - reflexivity.
  - reflexivity.
  - intros [| |]; reflexivity.
Qed.

Lemma adfToText_non_document_witness :
  adfToText (VObj [(js "type", VStr (js "paragraph"))]) = Ok [].
Proof.
  apply (adfToText_non_document (VObj [(js "type", VStr (js "paragraph"))])).
  reflexivity.
Defined.

(* ================================================================== *)
(** * The line loop, one line at a time *)
(* ================================================================== *)

Lemma parseLines_step (raw : str) (rest : list str) (nodes : list value) :
  parseLines (raw :: rest) nodes =
  match classify raw with
  | KFence lang =>
      parseLines (fence_rest rest)
        (nodes ++ [codeBlock (join [LF] (fence_body rest)) lang])
  | k => parseLines rest (emit k nodes)
  end.
Proof.
  unfold classify. cbn [parseLines]. cbv zeta.
  destruct (is_empty (trim raw)); [reflexivity|].
  destruct (jiraHeading (trim raw)) as [[level text]|]; [reflexivity|].
  destruct (mdHeading (trim raw)) as [[level text]|]; [reflexivity|].
  destruct (startsWith (js "* ") (trim raw) || startsWith (js "- ") (trim raw));
    [reflexivity|].
  destruct (ordered_marker (trim raw)) as [text|]; [reflexivity|].
  destruct (startsWith (js "> ") (trim raw)); [reflexivity|].
  destruct (str_eqb (trim raw) (js "----") || str_eqb (trim raw) (js "---"));
    [reflexivity|].
  destruct (str_eqb (trim raw) FENCE || startsWith FENCE (trim raw));
    [|reflexivity].
  generalize (fence_lang (trim raw)) as lang. intros lang.
  assert (Hcap : forall ls acc,
    (fix capture (ls : list str) (codeLines : list str) : list value :=
       match ls with
       | [] => nodes ++ [codeBlock (join [LF] codeLines) lang]
       | l :: ls' =>
           if str_eqb (trim l) FENCE
           then parseLines ls'
                  (nodes ++ [codeBlock (join [LF] codeLines) lang])
           else capture ls' (codeLines ++ [l])
       end) ls acc
    = parseLines (fence_rest ls)
        (nodes ++ [codeBlock (join [LF] (acc ++ fence_body ls)) lang])).
  { induction ls as [|l ls IH]; intros acc.
    - simpl. rewrite app_nil_r. reflexivity.
    - cbn [fence_body fence_rest]. destruct (str_eqb (trim l) FENCE).
      + rewrite app_nil_r. reflexivity.
      + rewrite IH. rewrite <- app_assoc. reflexivity. }
  apply (Hcap rest []).
Qed.

Lemma fence_body_app (body : list str) (closing : str) (rest : list str) :
  Forall (fun l => trim l <> FENCE) body -> trim closing = FENCE ->
  fence_body (body ++ closing :: rest) = body
  /\ fence_rest (body ++ closing :: rest) = rest.
Proof.
  intros Hb Hc. induction Hb as [|l body Hl _ [IH1 IH2]]; simpl.
  - rewrite Hc. simpl. auto.
  - destruct (str_eqb (trim l) FENCE) eqn:E.
    + apply str_eqb_eq in E. contradiction.
    + rewrite IH1, IH2. auto.
Qed.

Lemma fence_body_open (body : list str) :
  Forall (fun l => trim l <> FENCE) body ->
  fence_body body = body /\ fence_rest body = [].
Proof.
  intros Hb. induction Hb as [|l body Hl _ [IH1 IH2]]; simpl; [auto|].
  destruct (str_eqb (trim l) FENCE) eqn:E.
  - apply str_eqb_eq in E. contradiction.
  - rewrite IH1, IH2. auto.
Qed.

(** A trimmed line that starts with three backticks opens a fence: none
    of the earlier tests of the chain accepts a line that starts with a
    backtick. *)
Lemma startsWith_app (p s : str) :
  startsWith p s = true <-> exists r, s = p ++ r.
Proof.
  revert s; induction p as [|x p IH]; intros s; simpl.
  - split; [intros _; now exists s | reflexivity].
  - destruct s as [|y s].
    + split; [discriminate | intros [r Hr]; discriminate].
    + rewrite andb_true_iff, N.eqb_eq, IH. split.
      * intros [-> [r ->]]. now exists r.
      * intros [r Hr]. injection Hr as -> ->. split; [reflexivity|].
        now exists r.
Qed.

Lemma classify_fence (raw : str) :
  startsWith FENCE (trim raw) = true ->
  classify raw = KFence (fence_lang (trim raw)).
Proof.
  intros H. unfold classify. cbv zeta.
  destruct (proj1 (startsWith_app _ _) H) as [r Hr].
  rewrite H, Hr. cbn. rewrite orb_true_r. reflexivity.
Qed.

(* ================================================================== *)
(** * Empty and blank input *)
(* ================================================================== *)

(** C7: the empty string, [null] and every string made of whitespace
    only are converted to a document whose content is exactly one
    paragraph with empty content; and whatever the input, the document
    returned holds at least one block. *)
Theorem blank_input_gives_one_empty_paragraph (s : str) :
  forallb is_ws s = true ->
  createADFDocument (VStr s) = doc [paragraph []]
  /\ createADFDocument (VStr []) = doc [paragraph []]
  /\ createADFDocument VNull = doc [paragraph []]
  /\ (forall content : value,
        exists block blocks, createADFDocument content = doc (block :: blocks)).
Proof.
  intros H. split; [|split; [|split]]; try reflexivity.
  - destruct s as [|c s]; [reflexivity|].
    unfold createADFDocument.
    rewrite parseLines_all_blank; [reflexivity|].
    eapply Forall_impl; [|apply split_lines_all_ws; exact H].
    intros l Hl. now apply trim_all_ws.
  - intros content.
    destruct content as [| | | |[|c t]| |];
      try (exists (paragraph []), []; reflexivity).
    unfold createADFDocument. cbv zeta.
    destruct (parseLines (split_lines (c :: t)) []) as [|b bs];
      [exists (paragraph []), [] | exists b, bs]; reflexivity.
Qed.

Lemma blank_input_gives_one_empty_paragraph_witness :
  createADFDocument (VStr (SPACE :: 9%N :: LF :: 160%N :: [SPACE]))
  = doc [paragraph []].
Proof.
  apply (blank_input_gives_one_empty_paragraph
           (SPACE :: 9%N :: LF :: 160%N :: [SPACE])).
  reflexivity.
Defined.

(* ================================================================== *)
(** * The tokenizer emits single-mark runs *)
(* ================================================================== *)

Lemma match_at_single_mark (s : str) (node : value) (n : nat) :
  match_at s = Some (node, n) -> single_mark_text node = true.
Proof.
  unfold match_at.
  destruct (double_delimited STAR s) as [[t k]|];
    [intros H; injection H as <- _; reflexivity|].
  destruct (double_delimited TILDE s) as [[t k]|];
    [intros H; injection H as <- _; reflexivity|].
  destruct (single_delimited STAR s) as [[t k]|];
    [intros H; injection H as <- _; reflexivity|].
  destruct (md_link s) as [[[t h] k]|];
    [intros H; injection H as <- _; reflexivity|].
  destruct (pipe_link s) as [[[t h] k]|];
    [intros H; injection H as <- _; reflexivity|].
  destruct (single_delimited BACKTICK s) as [[t k]|];
    [intros H; injection H as <- _; reflexivity|].
  discriminate.
Qed.

Lemma flush_single_mark (pending : str) :
  Forall (fun n => single_mark_text n = true) (flush pending).
Proof.
  unfold flush. destruct (is_empty pending); repeat constructor.
Qed.

Lemma scan_single_mark (s : str) :
  forall skip pending,
    Forall (fun n => single_mark_text n = true) (scan s skip pending).
Proof.
  induction s as [|c s IH]; intros skip pending; cbn [scan].
  - apply flush_single_mark.
  - destruct skip as [|k]; [|apply IH].
    destruct (match_at (c :: s)) as [[node len]|] eqn:E; [|apply IH].
    apply Forall_app. split; [apply flush_single_mark|].
    constructor; [|apply IH].
    eapply match_at_single_mark; eassumption.
Qed.

(** C9: every node the tokenizer emits for a line is a text node with no
    marks or with exactly one mark. *)
Theorem tokenizer_emits_single_mark_runs (text : str) :
  Forall (fun node => single_mark_text node = true) (parseInlineContent text).
Proof.
  unfold parseInlineContent.
  destruct (is_empty text) eqn:E; [constructor|].
  pose proof (scan_single_mark text 0 []) as H.
  destruct (scan text 0 []); [|exact H].
  repeat constructor.
Qed.

(* ================================================================== *)
(** * Run merging *)
(* ================================================================== *)

Lemma last_node_snoc (nodes : list value) (n : value) :
  last_node (nodes ++ [n]) = n.
Proof.
  induction nodes as [|m nodes IH]; [reflexivity|].
  simpl. destruct (nodes ++ [n]) eqn:E; [|exact IH].
  destruct nodes; discriminate.
Qed.

Lemma has_type_list_node (ty ty' : string) (items : list value) :
  has_type ty (list_node ty' items) = str_eqb (js ty') (js ty).
Proof. reflexivity. Qed.

(** The last pushed node has the type of the run: the item is appended
    to its content. *)
Lemma add_to_run_same (ty : string) (nodes items : list value) (item : value) :
  add_to_run ty (nodes ++ [list_node ty items]) item
  = nodes ++ [list_node ty (items ++ [item])].
Proof.
  unfold add_to_run. rewrite last_node_snoc, removelast_last.
  rewrite has_type_list_node, str_eqb_refl. reflexivity.
Qed.

(** The last pushed node is absent or of another type: a new node is
    pushed. *)
Lemma add_to_run_other (ty : string) (nodes : list value) (item : value) :
  has_type ty (last_node nodes) = false ->
  add_to_run ty nodes item = nodes ++ [list_node ty [item]].
Proof.
  intros H. unfold add_to_run. rewrite H, andb_false_r. reflexivity.
Qed.

Lemma parseLines_blanks_then (blanks : list str) (ls : list str) nodes :
  Forall (fun l => trim l = []) blanks ->
  parseLines (blanks ++ ls) nodes = parseLines ls nodes.
Proof.
  induction 1 as [|l blanks Hl _ IH]; [reflexivity|].
  simpl app. rewrite parseLines_blank by assumption. exact IH.
Qed.

Lemma parseLines_two (a b : str) (blanks : list str) :
  Forall (fun l => trim l = []) blanks ->
  (forall lang, classify a <> KFence lang) ->
  (forall lang, classify b <> KFence lang) ->
  parseLines (a :: blanks ++ [b]) [] = emit (classify b) (emit (classify a) []).
Proof.
  intros Hbl Ha Hb.
  rewrite parseLines_step.
  destruct (classify a) eqn:Ea; try (exfalso; eapply Ha; reflexivity);
    rewrite parseLines_blanks_then by assumption;
    rewrite parseLines_step;
    destruct (classify b) eqn:Eb; try (exfalso; eapply Hb; reflexivity);
    reflexivity.
Qed.

(** C4: whether a list line extends the current list depends on the type
    of the last pushed node only.  Two list lines of one kind, with any
    number of blank lines between them, give one list node of two items;
    two list lines of different kinds give two list nodes; an item of
    one kind is never appended to a list of the other kind. *)
Theorem list_runs_merge_by_last_block
  (a b ta tb : str) (blanks : list str) :
  Forall (fun l => trim l = []) blanks ->
  (classify a = KBullet ta -> classify b = KBullet tb ->
   parseLines (a :: blanks ++ [b]) []
   = [list_node "bulletList" [listItem (parseInlineContent ta);
                              listItem (parseInlineContent tb)]])
  /\ (classify a = KOrdered ta -> classify b = KOrdered tb ->
   parseLines (a :: blanks ++ [b]) []
   = [list_node "orderedList" [listItem (parseInlineContent ta);
                               listItem (parseInlineContent tb)]])
  /\ (classify a = KBullet ta -> classify b = KOrdered tb ->
   parseLines (a :: blanks ++ [b]) []
   = [list_node "bulletList" [listItem (parseInlineContent ta)];
      list_node "orderedList" [listItem (parseInlineContent tb)]])
  /\ (classify a = KOrdered ta -> classify b = KBullet tb ->
   parseLines (a :: blanks ++ [b]) []
   = [list_node "orderedList" [listItem (parseInlineContent ta)];
      list_node "bulletList" [listItem (parseInlineContent tb)]])
  /\ (forall nodes items content,
       addBulletItem (nodes ++ [list_node "bulletList" items]) content
       = nodes ++ [list_node "bulletList" (items ++ [listItem content])])
  /\ (forall nodes items content,
       addOrderedItem (nodes ++ [list_node "orderedList" items]) content
       = nodes ++ [list_node "orderedList" (items ++ [listItem content])])
  /\ (forall nodes content,
       has_type "bulletList" (last_node nodes) = false ->
       addBulletItem nodes content
       = nodes ++ [list_node "bulletList" [listItem content]])
  /\ (forall nodes content,
       has_type "orderedList" (last_node nodes) = false ->
       addOrderedItem nodes content
       = nodes ++ [list_node "orderedList" [listItem content]])
  /\ createADFDocument (VStr (unlines ["- a"; "- b"]%string))
     = doc [list_node "bulletList"
              [listItem [plain_text (js "a")]; listItem [plain_text (js "b")]]]
  /\ createADFDocument (VStr (unlines ["- a"; ""; "- b"]%string))
     = doc [list_node "bulletList"
              [listItem [plain_text (js "a")]; listItem [plain_text (js "b")]]]
  /\ createADFDocument (VStr (unlines ["- a"; "1. b"]%string))
     = doc [list_node "bulletList" [listItem [plain_text (js "a")]];
            list_node "orderedList" [listItem [plain_text (js "b")]]].
Proof.
  intros Hbl.
  assert (Htwo : forall ka kb, classify a = ka -> classify b = kb ->
            (forall lang, ka <> KFence lang) ->
            (forall lang, kb <> KFence lang) ->
            parseLines (a :: blanks ++ [b]) [] = emit kb (emit ka [])).
  { intros ka kb <- <-. now apply parseLines_two. }
  repeat split.
  - intros Ha Hb. rewrite (Htwo _ _ Ha Hb) by discriminate. reflexivity.
  - intros Ha Hb. rewrite (Htwo _ _ Ha Hb) by discriminate. reflexivity.
  - intros Ha Hb. rewrite (Htwo _ _ Ha Hb) by discriminate. reflexivity.
  - intros Ha Hb. rewrite (Htwo _ _ Ha Hb) by discriminate. reflexivity.
  - intros. apply add_to_run_same.
  - intros. apply add_to_run_same.
  - intros. now apply add_to_run_other.
  - intros. now apply add_to_run_other.
Qed.

Lemma list_runs_merge_by_last_block_witness :
  parseLines [js "- a"; js ""; js "  "; js "* b"] []
  = [list_node "bulletList" [listItem (parseInlineContent (js "a"));
                             listItem (parseInlineContent (js "b"))]].
Proof.
  refine (proj1 (list_runs_merge_by_last_block
                   (js "- a") (js "* b") (js "a") (js "b") [js ""; js "  "] _)
            _ _).
  - repeat constructor.
  - reflexivity.
  - reflexivity.
Defined.

(* ================================================================== *)
(** * Fence capture *)
(* ================================================================== *)

(** C5 (as stated, refuted): a line that is not exactly three backticks
    but trims to them closes the fence; the lines after it are not
    captured. *)
Lemma fence_closed_by_indented_fence_counterexample :
  createADFDocument (VStr (unlines ["```"; "a"; " ```"; "b"]%string))
  = doc [codeBlock (js "a") None; paragraph [plain_text (js "b")]]
  /\ createADFDocument (VStr (unlines ["```"; "a"; " ```"; "b"]%string))
     <> doc [codeBlock (unlines ["a"; " ```"; "b"]%string) None].
Proof. split; [reflexivity | discriminate]. Qed.

(** C5 (amended): after a line that opens a fence, the lines that follow
    are captured as they are, up to a line that trims to exactly three
    backticks or to the end of the input, and one codeBlock is pushed;
    its text is absent when the captured text is empty and its language
    is the tag of the opening line when there is one. *)
Theorem fence_capture
  (raw closing : str) (body rest : list str) (nodes : list value) :
  startsWith FENCE (trim raw) = true ->
  Forall (fun l => trim l <> FENCE) body ->
  trim closing = FENCE ->
  let text := join [LF] body in
  let block := codeBlock text (fence_lang (trim raw)) in
  parseLines (raw :: body ++ closing :: rest) nodes
  = parseLines rest (nodes ++ [block])
  /\ parseLines (raw :: body) nodes = nodes ++ [block]
  /\ field "type" block = VStr (js "codeBlock")
  /\ field "content" block
     = (if is_empty text then VUndefined else VArr [plain_text text])
  /\ field "attrs" block
     = match fence_lang (trim raw) with
       | Some ((_ :: _) as tag) => VObj [(js "language", VStr tag)]
       | _ => VUndefined
       end
  /\ createADFDocument (VStr (unlines ["```js"; "x=1"; "```"]%string))
     = doc [codeBlock (js "x=1") (Some (js "js"))]
  /\ createADFDocument (VStr (unlines ["```"; "unterminated"]%string))
     = doc [codeBlock (js "unterminated") None].
Proof.
  intros Hopen Hbody Hclose text block.
  pose proof (classify_fence raw Hopen) as Hk.
  repeat split.
  - rewrite parseLines_step, Hk.
    destruct (fence_body_app body closing rest Hbody Hclose) as [-> ->].
    reflexivity.
  - rewrite parseLines_step, Hk.
    destruct (fence_body_open body Hbody) as [-> ->]. reflexivity.
  - subst block. unfold codeBlock.
    destruct (is_empty text); [|reflexivity].
    destruct (fence_lang (trim raw)) as [[|c l]|]; reflexivity.
  - subst block. unfold codeBlock.
    destruct (is_empty text);
      destruct (fence_lang (trim raw)) as [[|c l]|]; reflexivity.
Qed.

Lemma fence_capture_witness :
  parseLines (js "``` js " :: [js "  x = 1"; js ""] ++ js "  ```" :: [js "tail"]) []
  = parseLines [js "tail"]
      ([] ++ [codeBlock (join [LF] [js "  x = 1"; js ""]) (Some (js "js"))]).
Proof.
  refine (proj1 (fence_capture (js "``` js ") (js "  ```")
                   [js "  x = 1"; js ""] [js "tail"] [] _ _ _)).
  - reflexivity.
  - repeat constructor; discriminate.
  - reflexivity.
Defined.

(* ================================================================== *)
(** * The tokenizer covers its input *)
(* ================================================================== *)

Lemma span_spec (p : N -> bool) (s : str) :
  s = fst (span p s) ++ snd (span p s)
  /\ forallb p (fst (span p s)) = true
  /\ match snd (span p s) with [] => True | c :: _ => p c = false end.
Proof.
  induction s as [|c s IH]; simpl; [auto|].
  destruct (p c) eqn:E.
  - destruct (span p s) as [a b]. simpl in *.
    destruct IH as (H1 & H2 & H3). rewrite E, H2. repeat split; auto.
    congruence.
  - simpl. auto.
Qed.

Lemma span_eq (p : N -> bool) (s a b : str) :
  span p s = (a, b) ->
  s = a ++ b /\ forallb p a = true
  /\ match b with [] => True | c :: _ => p c = false end.
Proof.
  intros H. pose proof (span_spec p s) as S. rewrite H in S. exact S.
Qed.

Lemma skipn_length_app {A} (m r : list A) : skipn (length m) (m ++ r) = r.
Proof. induction m; simpl; auto. Qed.

Lemma double_delimited_spec (d : N) (s body : str) (n : nat) :
  double_delimited d s = Some (body, n) ->
  body <> [] /\ exists rest,
    s = ([d; d] ++ body ++ [d; d]) ++ rest
    /\ n = length ([d; d] ++ body ++ [d; d]).
Proof.
  unfold double_delimited.
  destruct s as [|d1 [|d2 r]]; try discriminate.
  destruct (N.eqb d1 d && N.eqb d2 d) eqn:E; [|discriminate].
  apply andb_true_iff in E as [E1 E2]. apply N.eqb_eq in E1, E2. subst.
  destruct (span (is_not d) r) as [a b] eqn:S.
  apply span_eq in S as (Hr & _ & _).
  destruct a as [|x a]; [discriminate|].
  destruct b as [|e1 [|e2 b]]; try discriminate.
  destruct (N.eqb e1 d && N.eqb e2 d) eqn:E; [|discriminate].
  apply andb_true_iff in E as [E1 E2]. apply N.eqb_eq in E1, E2. subst.
  intros H. injection H as <- <-. split; [discriminate|].
  exists b. split.
  - simpl. rewrite <- app_assoc. reflexivity.
  - simpl. rewrite !length_app. simpl. lia.
Qed.

Lemma single_delimited_spec (d : N) (s body : str) (n : nat) :
  single_delimited d s = Some (body, n) ->
  body <> [] /\ exists rest,
    s = ([d] ++ body ++ [d]) ++ rest /\ n = length ([d] ++ body ++ [d]).
Proof.
  unfold single_delimited.
  destruct s as [|d1 r]; try discriminate.
  destruct (N.eqb d1 d) eqn:E; [|discriminate].
  apply N.eqb_eq in E. subst.
  destruct (span (is_not d) r) as [a b] eqn:S.
  apply span_eq in S as (Hr & _ & _).
  destruct a as [|x a]; [discriminate|].
  destruct b as [|e1 b]; try discriminate.
  destruct (N.eqb e1 d) eqn:E; [|discriminate].
  apply N.eqb_eq in E. subst.
  intros H. injection H as <- <-. split; [discriminate|].
  exists b. split.
  - simpl. rewrite <- app_assoc. reflexivity.
  - simpl. rewrite !length_app. simpl. lia.
Qed.

Lemma md_link_spec (s t h : str) (n : nat) :
  md_link s = Some (t, h, n) ->
  t <> [] /\ h <> [] /\ exists rest,
    s = wrap (Link h) t ++ rest /\ n = length (wrap (Link h) t).
Proof.
  unfold md_link.
  destruct s as [|b r]; try discriminate.
  destruct (N.eqb b LBRACKET) eqn:E; [|discriminate].
  apply N.eqb_eq in E. subst.
  destruct (span (is_not RBRACKET) r) as [a b] eqn:S.
  apply span_eq in S as (Hr & _ & Hb).
  destruct a as [|x a]; [discriminate|].
  destruct b as [|e1 [|e2 b]]; try discriminate.
  destruct (N.eqb e2 LPAREN) eqn:E; [|discriminate].
  apply N.eqb_eq in E. subst e2.
  assert (e1 = RBRACKET) as ->.
  { unfold is_not in Hb. apply negb_false_iff, N.eqb_eq in Hb. exact Hb. }
  destruct (span (is_not RPAREN) b) as [a' b'] eqn:S'.
  apply span_eq in S' as (Hr' & _ & Hb').
  destruct a' as [|y a']; [discriminate|].
  destruct b' as [|e3 b']; try discriminate.
  assert (e3 = RPAREN) as ->.
  { unfold is_not in Hb'. apply negb_false_iff, N.eqb_eq in Hb'. exact Hb'. }
  intros H. injection H as <- <- <-. split; [discriminate|].
  split; [discriminate|]. subst r b.
  exists b'. split.
  - unfold wrap. simpl. rewrite <- !app_assoc. simpl.
    rewrite <- !app_assoc. reflexivity.
  - unfold wrap. simpl. rewrite !length_app. simpl.
    rewrite !length_app. simpl. lia.
Qed.

Lemma split_pipe_spec (w t u : str) :
  split_pipe w = Some (t, u) -> u <> [] /\ w = t ++ [PIPE] ++ u.
Proof.
  revert t u; induction w as [|c w IH]; intros t u; simpl; [discriminate|].
  destruct (split_pipe w) as [[t' u']|].
  - intros H. injection H as <- <-. destruct (IH _ _ eq_refl) as [Hu Hw].
    split; [exact Hu|]. rewrite Hw. reflexivity.
  - destruct (N.eqb c PIPE) eqn:E; simpl; [|discriminate].
    destruct w as [|x w]; simpl; [discriminate|].
    intros H. injection H as <- <-. apply N.eqb_eq in E. subst.
    split; [discriminate | reflexivity].
Qed.

Lemma pipe_link_spec (s t h : str) (n : nat) :
  pipe_link s = Some (t, h, n) ->
  t <> [] /\ h <> [] /\ exists rest,
    s = pipe_form t h ++ rest /\ n = length (pipe_form t h).
Proof.
  unfold pipe_link.
  destruct s as [|b r]; try discriminate.
  destruct (N.eqb b LBRACKET) eqn:E; [|discriminate].
  apply N.eqb_eq in E. subst.
  destruct (span (is_not RBRACKET) r) as [a b] eqn:S.
  apply span_eq in S as (Hr & _ & Hb).
  destruct a as [|c w]; [discriminate|].
  destruct b as [|e1 b]; try discriminate.
  assert (e1 = RBRACKET) as ->.
  { unfold is_not in Hb. apply negb_false_iff, N.eqb_eq in Hb. exact Hb. }
  destruct (split_pipe w) as [[t' u]|] eqn:P; [|discriminate].
  apply split_pipe_spec in P as [Hu Hw].
  intros H. injection H as <- <- <-. split; [discriminate|].
  split; [exact Hu|]. subst r.
  exists b. split.
  - unfold pipe_form. rewrite Hw. simpl. rewrite <- !app_assoc. simpl.
    rewrite <- !app_assoc. reflexivity.
  - unfold pipe_form. rewrite Hw. simpl. rewrite !length_app. simpl.
    rewrite !length_app. simpl. lia.
Qed.

(** What a successful attempt of the inline expression gives: a text run
    with one mark, whose text is not empty, for a prefix of the input
    that is the run written with its delimiters, or a link written in
    the pipe form. *)
Lemma match_at_spec (s : str) (node : value) (n : nat) :
  match_at s = Some (node, n) ->
  exists t k m rest,
    node = marked_text t (mark_value k)
    /\ t <> []
    /\ (forall h, k = Link h -> h <> [])
    /\ s = m ++ rest /\ n = length m
    /\ (m = wrap k t \/ exists h, k = Link h /\ m = pipe_form t h).
Proof.
  unfold match_at.
  destruct (double_delimited STAR s) as [[t k]|] eqn:E1.
  { intros H. injection H as <- <-.
    apply double_delimited_spec in E1 as (Ht & rest & Hs & Hn).
    exists t, Strong, ([STAR; STAR] ++ t ++ [STAR; STAR]), rest.
    repeat split; auto; try discriminate. }
  destruct (double_delimited TILDE s) as [[t k]|] eqn:E2.
  { intros H. injection H as <- <-.
    apply double_delimited_spec in E2 as (Ht & rest & Hs & Hn).
    exists t, Strike, ([TILDE; TILDE] ++ t ++ [TILDE; TILDE]), rest.
    repeat split; auto; try discriminate. }
  destruct (single_delimited STAR s) as [[t k]|] eqn:E3.
  { intros H. injection H as <- <-.
    apply single_delimited_spec in E3 as (Ht & rest & Hs & Hn).
    exists t, Emphasis, ([STAR] ++ t ++ [STAR]), rest.
    repeat split; auto; try discriminate. }
  destruct (md_link s) as [[[t h] k]|] eqn:E4.
  { intros H. injection H as <- <-.
    apply md_link_spec in E4 as (Ht & Hh & rest & Hs & Hn).
    exists t, (Link h), (wrap (Link h) t), rest.
    repeat split; auto. intros h' Hk. injection Hk as <-. exact Hh. }
  destruct (pipe_link s) as [[[t h] k]|] eqn:E5.
  { intros H. injection H as <- <-.
    apply pipe_link_spec in E5 as (Ht & Hh & rest & Hs & Hn).
    exists t, (Link h), (pipe_form t h), rest.
    repeat split; auto.
    - intros h' Hk. injection Hk as <-. exact Hh.
    - right. exists h. auto. }
  destruct (single_delimited BACKTICK s) as [[t k]|] eqn:E6.
  { intros H. injection H as <- <-.
    apply single_delimited_spec in E6 as (Ht & rest & Hs & Hn).
    exists t, Code, ([BACKTICK] ++ t ++ [BACKTICK]), rest.
    repeat split; auto; try discriminate. }
  discriminate.
Qed.

Lemma wrap_not_nil (k : mark_kind) (t : str) : wrap k t <> [].
Proof. destruct k; discriminate. Qed.

Lemma no_char_app (c : N) (a b : str) :
  no_char c (a ++ b) = no_char c a && no_char c b.
Proof. apply forallb_app. Qed.

(** Without a vertical bar in the input no match is a pipe-form link. *)
Lemma match_at_no_pipe (s : str) (node : value) (n : nat) :
  no_char PIPE s = true ->
  match_at s = Some (node, n) ->
  exists t k rest,
    node = marked_text t (mark_value k)
    /\ s = wrap k t ++ rest /\ n = length (wrap k t).
Proof.
  intros Hp H. apply match_at_spec in H
    as (t & k & m & rest & Hnode & _ & _ & Hs & Hn & [Hm | (h & Hk & Hm)]).
  - subst m. now exists t, k, rest.
  - exfalso. unfold no_char in Hp. rewrite forallb_forall in Hp.
    specialize (Hp PIPE). unfold is_not in Hp. rewrite N.eqb_refl in Hp.
    enough (In PIPE s) by (specialize (Hp H); discriminate).
    subst s m. unfold pipe_form. rewrite !in_app_iff.
    left. right. right. left. left. reflexivity.
Qed.

(** The skip counter of [scan] passes over the code units of the last
    match. *)
Lemma scan_skip (s : str) :
  forall k pending, scan s k pending = scan (skipn k s) 0 pending.
Proof.
  induction s as [|c s IH]; intros k pending.
  - destruct k; reflexivity.
  - destruct k as [|k]; [reflexivity|]. simpl skipn. cbn [scan]. apply IH.
Qed.

Lemma scan_match (s : str) (pending : str) (node : value) (m rest : str) :
  s = m ++ rest -> m <> [] ->
  match_at s = Some (node, length m) ->
  scan s 0 pending = flush pending ++ node :: scan rest 0 [].
Proof.
  intros Hs Hm H. destruct s as [|c s'].
  - destruct m; [contradiction | discriminate].
  - cbn [scan]. rewrite H. f_equal. f_equal.
    rewrite scan_skip. f_equal.
    destruct m as [|x m]; [contradiction|].
    simpl in Hs. injection Hs as -> ->. simpl.
    rewrite Nat.sub_0_r. apply skipn_length_app.
Qed.

Lemma scan_no_match (c : N) (s pending : str) :
  match_at (c :: s) = None ->
  scan (c :: s) 0 pending = scan s 0 (pending ++ [c]).
Proof. intros H. cbn [scan]. rewrite H. reflexivity. Qed.

Lemma join_nil_cons (a : str) (l : list str) : join [] (a :: l) = a ++ join [] l.
Proof. destruct l; simpl; [now rewrite app_nil_r | reflexivity]. Qed.

Lemma render_nodes_nil : render_nodes [] = Ok [].
Proof. reflexivity. Qed.

Lemma render_nodes_cons (n : value) (l : list value) (m r : str) :
  inline_node n = Ok (VStr m) -> render_nodes l = Ok r ->
  render_nodes (n :: l) = Ok (m ++ r).
Proof.
  unfold render_nodes, inlineNodesToText. intros Hn Hl.
  cbn [mapM]. rewrite Hn. cbn [bind].
  destruct (mapM inline_node l) as [vs| |]; try discriminate.
  cbn [bind] in *. unfold join_values in *. cbn [mapM toString bind].
  destruct (mapM _ vs) as [ss| |]; try discriminate.
  cbn [bind] in *. injection Hl as <-. now rewrite join_nil_cons.
Qed.

Lemma inline_node_plain (t : str) : inline_node (plain_text t) = Ok (VStr t).
Proof. destruct t; reflexivity. Qed.

Lemma inline_node_marked (t : str) (k : mark_kind) :
  inline_node (marked_text t (mark_value k)) = Ok (VStr (wrap k t)).
Proof. apply (inline_node_run t [k]). Qed.

Lemma render_nodes_flush (pending : str) (l : list value) (r : str) :
  render_nodes l = Ok r ->
  render_nodes (flush pending ++ l) = Ok (pending ++ r).
Proof.
  intros H. unfold flush. destruct pending as [|c p]; [exact H|].
  cbn [is_empty app]. change (c :: p ++ r) with ((c :: p) ++ r).
  apply render_nodes_cons; [apply inline_node_plain | exact H].
Qed.

(** Rendering the nodes the scan pushes gives back the scanned text, when
    the text has no vertical bar. *)
Lemma scan_render (n : nat) :
  forall s pending,
    length s <= n -> no_char PIPE s = true ->
    render_nodes (scan s 0 pending) = Ok (pending ++ s).
Proof.
  induction n as [|n IH]; intros s pending Hlen Hp.
  - destruct s; [|simpl in Hlen; lia].
    simpl. rewrite <- (app_nil_r (flush pending)).
    now apply render_nodes_flush.
  - destruct s as [|c s'].
    + simpl. rewrite <- (app_nil_r (flush pending)).
      now apply render_nodes_flush.
    + destruct (match_at (c :: s')) as [[node len]|] eqn:E.
      * destruct (match_at_no_pipe _ _ _ Hp E) as (t & k & rest & Hnode & Hs & Hl).
        subst len. rewrite (scan_match _ pending _ _ _ Hs (wrap_not_nil k t) E).
        rewrite Hs. apply render_nodes_flush.
        subst node. apply render_nodes_cons; [apply inline_node_marked|].
        apply (IH rest []).
        -- apply (f_equal (@length N)) in Hs. rewrite length_app in Hs.
           pose proof (wrap_not_nil k t) as Hw.
           destruct (wrap k t); [contradiction|]. simpl in *. lia.
        -- rewrite Hs, no_char_app in Hp.
           now apply andb_true_iff in Hp as [_ Hp].
      * rewrite (scan_no_match _ _ _ E).
        rewrite (IH s' (pending ++ [c])).
        -- now rewrite <- app_assoc.
        -- simpl in Hlen. lia.
        -- simpl in Hp. now apply andb_true_iff in Hp as [_ Hp].
Qed.

Lemma parseInlineContent_render (s : str) :
  no_char PIPE s = true -> render_nodes (parseInlineContent s) = Ok s.
Proof.
  intros Hp. unfold parseInlineContent.
  destruct (is_empty s) eqn:E; [destruct s; [reflexivity | discriminate]|].
  pose proof (scan_render (length s) s [] (le_n _) Hp) as H.
  destruct (scan s 0 []); [|exact H].
  rewrite <- (app_nil_r s) at 2.
  apply render_nodes_cons; [apply inline_node_plain | reflexivity].
Qed.




(* ================================================================== *)
(** * Trimming and splitting *)
(* ================================================================== *)

Lemma dropWhile_head (s : str) : head_ok (dropWhile is_ws s) = true.
Proof.
  induction s as [|c s IH]; simpl; [reflexivity|].
  destruct (is_ws c) eqn:E; [exact IH | simpl; now rewrite E].
Qed.

Lemma dropWhile_id (s : str) : head_ok s = true -> dropWhile is_ws s = s.
Proof.
  destruct s as [|c s]; simpl; [reflexivity|].
  intros H. apply negb_true_iff in H. now rewrite H.
Qed.

Lemma dropWhile_suffix (p : N -> bool) (s : str) :
  exists w, s = w ++ dropWhile p s.
Proof.
  induction s as [|c s [w IH]]; simpl; [now exists []|].
  destruct (p c); [|now exists []].
  exists (c :: w). simpl. now rewrite <- IH.
Qed.

Lemma trim_id (s : str) : trimmed s = true -> trim s = s.
Proof.
  unfold trimmed, trim. intros H. apply andb_true_iff in H as [H1 H2].
  rewrite (dropWhile_id s H1), (dropWhile_id _ H2). apply rev_involutive.
Qed.

Lemma trim_trimmed (s : str) : trimmed (trim s) = true.
Proof.
  unfold trimmed, trim. rewrite rev_involutive.
  set (d := dropWhile is_ws s).
  rewrite (dropWhile_head (rev d)), andb_true_r.
  destruct (dropWhile_suffix is_ws (rev d)) as [w Hw].
  destruct (dropWhile is_ws (rev d)) as [|x e] eqn:E; [reflexivity|].
  assert (Hd : d = rev (x :: e) ++ rev w).
  { rewrite <- rev_app_distr, <- Hw. symmetry. apply rev_involutive. }
  pose proof (dropWhile_head s) as Hh. fold d in Hh. rewrite Hd in Hh.
  destruct (rev (x :: e)) as [|y r] eqn:R.
  - apply (f_equal (@length N)) in R. rewrite length_rev in R. discriminate.
  - exact Hh.
Qed.

Lemma trim_idem (s : str) : trim (trim s) = trim s.
Proof. apply trim_id, trim_trimmed. Qed.

Lemma split_lines_single (s : str) : no_char LF s = true -> split_lines s = [s].
Proof.
  induction s as [|c s IH]; simpl; [reflexivity|].
  intros H. apply andb_true_iff in H as [Hc Hs].
  unfold is_not in Hc. apply negb_true_iff in Hc. rewrite Hc.
  now rewrite IH.
Qed.

(* ================================================================== *)
(** * Rendering the nodes the parser builds *)
(* ================================================================== *)

Lemma blockNodeToText_paragraph (content : list value) :
  blockNodeToText (paragraph content) = render_nodes content.
Proof. reflexivity. Qed.

Lemma adfToText_doc (nodes : list value) :
  adfToText (doc nodes)
  = (parts <- mapM blockNodeToText nodes ;; Ok (join [LF; LF] parts)).
Proof. reflexivity. Qed.

(* ================================================================== *)
(** * A plain line *)
(* ================================================================== *)




(* ================================================================== *)
(** * The array of nodes in terms of source blocks *)
(* ================================================================== *)

Lemma nodes_of_cons (b : sblock) (rbs : list sblock) :
  nodes_of (b :: rbs) = nodes_of rbs ++ [to_node b].
Proof. unfold nodes_of. simpl. now rewrite map_app. Qed.

Lemma has_type_run_to_node (r : run_kind) (b : sblock) :
  has_type (run_type r) (to_node b)
  = match b with SRun r' _ => run_eqb r r' | _ => false end.
Proof.
  destruct b as [t|level t|r' ts|text lang|]; destruct r;
    try reflexivity; destruct r'; reflexivity.
Qed.

Lemma add_to_run_nodes_of (r : run_kind) (t : str) (rbs : list sblock) :
  add_to_run (run_type r) (nodes_of rbs) (run_item r t)
  = nodes_of (add_run r t rbs).
Proof.
  destruct rbs as [|b rest]; [reflexivity|].
  rewrite nodes_of_cons.
  assert (Hother :
    has_type (run_type r) (to_node b) = false ->
    add_to_run (run_type r) (nodes_of rest ++ [to_node b]) (run_item r t)
    = nodes_of (SRun r [t] :: b :: rest)).
  { intros H. rewrite add_to_run_other by (now rewrite last_node_snoc).
    now rewrite !nodes_of_cons. }
  pose proof (has_type_run_to_node r b) as Hty.
  destruct b as [t'|level t'|r' ts|text lang|]; cbn [add_run];
    try (rewrite Hother by exact Hty; reflexivity).
  destruct (run_eqb r r') eqn:E.
  - assert (r = r') as <- by (destruct r, r'; try discriminate; reflexivity).
    cbn [to_node]. rewrite add_to_run_same, nodes_of_cons.
    cbn [to_node]. now rewrite map_app.
  - rewrite Hother by exact Hty. reflexivity.
Qed.

Lemma emit_nodes_of (k : line_kind) (rbs : list sblock) :
  emit k (nodes_of rbs) = nodes_of (semit k rbs).
Proof.
  destruct k; cbn [emit semit]; try reflexivity;
    try (now rewrite nodes_of_cons).
  - apply (add_to_run_nodes_of RBullet).
  - apply (add_to_run_nodes_of ROrdered).
  - apply (add_to_run_nodes_of RQuote).
Qed.

Lemma fence_rest_length (ls : list str) : length (fence_rest ls) <= length ls.
Proof.
  induction ls as [|l ls IH]; simpl; [lia|].
  destruct (str_eqb (trim l) FENCE); lia.
Qed.

(** The loop builds the nodes of the source blocks [sparse] collects. *)
Lemma parseLines_sparse (fuel : nat) :
  forall ls rbs,
    length ls <= fuel ->
    parseLines ls (nodes_of rbs) = nodes_of (sparse fuel ls rbs).
Proof.
  induction fuel as [|f IH]; intros ls rbs Hlen.
  - destruct ls; [reflexivity | simpl in Hlen; lia].
  - destruct ls as [|raw rest]; [reflexivity|].
    rewrite parseLines_step. cbn [sparse]. simpl in Hlen.
    pose proof (fence_rest_length rest) as Hf.
    destruct (classify raw) eqn:E;
      try (rewrite <- IH by lia; f_equal;
           rewrite <- emit_nodes_of; reflexivity).
    rewrite <- IH by lia. now rewrite nodes_of_cons.
Qed.

Lemma createADFDocument_sparse (s : str) :
  s <> [] ->
  createADFDocument (VStr s)
  = let nodes := nodes_of (sparse (length (split_lines s)) (split_lines s) [])
    in doc (if is_empty_list nodes then [paragraph []] else nodes).
Proof.
  intros H. destruct s as [|c s]; [contradiction|].
  unfold createADFDocument.
  change (parseLines (split_lines (c :: s)) [])
    with (parseLines (split_lines (c :: s)) (nodes_of [])).
  now rewrite (parseLines_sparse _ (split_lines (c :: s)) [] (le_n _)).
Qed.

(* ================================================================== *)
(** * The parser returns a well-formed document *)
(* ================================================================== *)

Lemma jiraHeading_level (line : str) (level : Z) (text : str) :
  jiraHeading line = Some (level, text) -> (1 <= level <= 6)%Z.
Proof.
  unfold jiraHeading. destruct line as [|h [|d [|p r]]]; try discriminate.
  destruct (N.eqb h LOWER_H && (N.leb 49 d && N.leb d 54) && N.eqb p DOT)
    eqn:E; [|discriminate].
  destruct (ws_then_text r); [|discriminate].
  intros H. injection H as <- _.
  apply andb_true_iff in E as [E _]. apply andb_true_iff in E as [_ E].
  apply andb_true_iff in E as [E1 E2].
  apply N.leb_le in E1, E2. lia.
Qed.

Lemma mdHeading_level (line : str) (level : Z) (text : str) :
  mdHeading line = Some (level, text) -> (1 <= level <= 6)%Z.
Proof.
  unfold mdHeading. destruct (span (N.eqb HASH) line) as [hs r].
  destruct ((1 <=? length hs) && (length hs <=? 6)) eqn:E; [|discriminate].
  destruct (ws_then_text r); [|discriminate].
  intros H. injection H as <- _.
  apply andb_true_iff in E as [E1 E2].
  apply Nat.leb_le in E1, E2. lia.
Qed.

Lemma classify_heading_level (raw : str) (level : Z) (text : str) :
  classify raw = KHeading level text -> (1 <= level <= 6)%Z.
Proof.
  unfold classify. cbv zeta.
  destruct (is_empty (trim raw)); [discriminate|].
  destruct (jiraHeading (trim raw)) as [[l t]|] eqn:J.
  { intros H. injection H as <- _. eapply jiraHeading_level; eassumption. }
  destruct (mdHeading (trim raw)) as [[l t]|] eqn:M.
  { intros H. injection H as <- _. eapply mdHeading_level; eassumption. }
  destruct (startsWith (js "* ") (trim raw) || startsWith (js "- ") (trim raw));
    [discriminate|].
  destruct (ordered_marker (trim raw)); [discriminate|].
  destruct (startsWith (js "> ") (trim raw)); [discriminate|].
  destruct (str_eqb (trim raw) (js "----") || str_eqb (trim raw) (js "---"));
    [discriminate|].
  destruct (str_eqb (trim raw) FENCE || startsWith FENCE (trim raw));
    discriminate.
Qed.

Lemma add_run_ok (r : run_kind) (t : str) (rbs : list sblock) :
  forallb sblock_ok rbs = true -> forallb sblock_ok (add_run r t rbs) = true.
Proof.
  intros H. destruct rbs as [|b rest]; [reflexivity|].
  destruct b as [t'|level t'|r' ts|text lang|]; cbn [add_run];
    try (cbn [forallb sblock_ok is_empty_list negb andb]; exact H).
  destruct (run_eqb r r').
  - simpl in *. apply andb_true_iff in H as [_ H].
    destruct ts; simpl; exact H.
  - cbn [forallb sblock_ok is_empty_list negb andb]. exact H.
Qed.

Lemma semit_ok (raw : str) (rbs : list sblock) :
  forallb sblock_ok rbs = true ->
  forallb sblock_ok (semit (classify raw) rbs) = true.
Proof.
  intros H. destruct (classify raw) eqn:E; cbn [semit];
    try exact H; try (now apply add_run_ok).
  apply classify_heading_level in E.
  cbn [forallb sblock_ok]. rewrite H, andb_true_r.
  apply andb_true_iff. split; apply Z.leb_le; lia.
Qed.

Lemma sparse_ok (fuel : nat) :
  forall ls rbs,
    forallb sblock_ok rbs = true ->
    forallb sblock_ok (sparse fuel ls rbs) = true.
Proof.
  induction fuel as [|f IH]; intros ls rbs H; [exact H|].
  destruct ls as [|raw rest]; [exact H|]. cbn [sparse].
  pose proof (semit_ok raw rbs H) as Hs.
  destruct (classify raw); apply IH; exact Hs.
Qed.

Lemma check_inline_plain (t : str) :
  t <> [] -> check_inline (plain_text t) = true.
Proof. destruct t; [contradiction | reflexivity]. Qed.

Lemma check_inline_marked (t : str) (k : mark_kind) :
  t <> [] -> (forall h, k = Link h -> h <> []) ->
  check_inline (marked_text t (mark_value k)) = true.
Proof.
  intros Ht Hk. destruct t; [contradiction|].
  destruct k as [| | | |h]; try reflexivity.
  destruct h; [now specialize (Hk [] eq_refl) | reflexivity].
Qed.

Lemma check_inline_flush (pending : str) :
  forallb check_inline (flush pending) = true.
Proof. destruct pending; reflexivity. Qed.

Lemma check_inline_scan (s : str) :
  forall skip pending, forallb check_inline (scan s skip pending) = true.
Proof.
  induction s as [|c s IH]; intros skip pending; cbn [scan].
  - apply check_inline_flush.
  - destruct skip as [|k]; [|apply IH].
    destruct (match_at (c :: s)) as [[node len]|] eqn:E; [|apply IH].
    rewrite forallb_app, check_inline_flush. cbn [forallb andb].
    rewrite IH, andb_true_r.
    apply match_at_spec in E as (t & k & m & rest & -> & Ht & Hk & _).
    now apply check_inline_marked.
Qed.

Lemma check_inline_parseInlineContent (t : str) :
  forallb check_inline (parseInlineContent t) = true.
Proof.
  unfold parseInlineContent. destruct (is_empty t) eqn:E; [reflexivity|].
  pose proof (check_inline_scan t 0 []) as H.
  destruct (scan t 0 []); [|exact H].
  destruct t; [discriminate | reflexivity].
Qed.

Lemma check_block_to_node (b : sblock) :
  sblock_ok b = true -> check_block (to_node b) = true.
Proof.
  destruct b as [t|level t|r ts|text lang|]; cbn [sblock_ok to_node]; intros H.
  - apply check_inline_parseInlineContent.
  - change (check_block (heading level (parseInlineContent t)))
      with (Z.leb 1 level && Z.leb level 6
            && true && forallb check_inline (parseInlineContent t)).
    now rewrite H, check_inline_parseInlineContent.
  - destruct ts as [|t ts]; [discriminate|].
    assert (Hitems : forall l,
      forallb check_item (map (run_item RBullet) l) = true
      /\ forallb check_paragraph (map (run_item RQuote) l) = true).
    { induction l as [|x l [IH1 IH2]]; [split; reflexivity|].
      cbn [map forallb]. rewrite IH1, IH2, !andb_true_r.
      split; apply check_inline_parseInlineContent. }
    destruct (Hitems (t :: ts)) as [H1 H2].
    destruct r; [exact H1 | exact H1 | exact H2].
  - unfold codeBlock.
    destruct text as [|c text]; destruct lang as [[|l lang]|]; reflexivity.
  - reflexivity.
Qed.

Lemma check_block_nodes_of (rbs : list sblock) :
  forallb sblock_ok rbs = true -> forallb check_block (nodes_of rbs) = true.
Proof.
  intros H. unfold nodes_of. rewrite forallb_forall in *.
  intros v Hv. apply in_map_iff in Hv as (b & <- & Hb).
  apply check_block_to_node, H. now apply in_rev.
Qed.

Lemma scan_no_span (t : str) :
  forall pending, no_span t = true -> scan t 0 pending = flush (pending ++ t).
Proof.
  induction t as [|c t IH]; intros pending H.
  - simpl. now rewrite app_nil_r.
  - cbn [no_span] in H.
    destruct (match_at (c :: t)) eqn:E; [discriminate|].
    rewrite (scan_no_match _ _ _ E), IH by exact H.
    now rewrite <- app_assoc.
Qed.

(** C8 on the current [createADFDocument]: for every input string the
    parser returns a well-formed document (at least one block, every
    block of a shape of the document format); a line that falls through
    every block test becomes a paragraph, and a text in which the inline
    expression matches nowhere becomes one plain text node. *)
Theorem parse_total (s : str) :
  check_doc (createADFDocument (VStr s)) = true
  /\ (forall raw rest nodes,
        classify raw = KParagraph (trim raw) ->
        parseLines (raw :: rest) nodes
        = parseLines rest
            (nodes ++ [paragraph (parseInlineContent (trim raw))]))
  /\ (forall t, t <> [] -> no_span t = true ->
        parseInlineContent t = [plain_text t]).
Proof.
  repeat split.
  - destruct s as [|c s]; [reflexivity|].
    rewrite createADFDocument_sparse by discriminate. cbv zeta.
    set (rbs := sparse _ _ _).
    assert (H : forallb check_block (nodes_of rbs) = true).
    { apply check_block_nodes_of. subst rbs. now apply sparse_ok. }
    destruct (nodes_of rbs) as [|n ns]; [reflexivity|].
    cbn [is_empty_list]. unfold doc, check_doc.
    now rewrite H.
  - intros raw rest nodes H. rewrite parseLines_step, H. reflexivity.
  - intros t Ht H. unfold parseInlineContent.
    destruct t as [|c t]; [contradiction|]. cbn [is_empty].
    now rewrite scan_no_span.
Qed.

Lemma parse_total_witness :
  parseLines [js "  2 * 3 [x] "] [] = [paragraph [plain_text (js "2 * 3 [x]")]].
Proof.
  pose proof (parse_total (js "2 * 3 [x]")) as (_ & Hline & Htext).
  rewrite (Hline (js "  2 * 3 [x] ") [] []) by reflexivity.
  rewrite (Htext (trim (js "  2 * 3 [x] "))) by (discriminate || reflexivity).
  reflexivity.
Defined.

(* ================================================================== *)
(** * The renderer on arbitrary trees *)
(* ================================================================== *)

Lemma size_in_arr (x : value) (l : list value) :
  In x l -> size x < size (VArr l).
Proof.
  intros H. cbn [size]. apply Nat.lt_succ_r.
  induction l as [|y l IH]; [contradiction|].
  destruct H as [-> | H]; simpl; [lia | specialize (IH H); lia].
Qed.

Lemma size_obj_cons (k : str) (x : value) (fs : list (str * value)) :
  size (VObj ((k, x) :: fs)) = size x + size (VObj fs).
Proof. cbn [size map snd]. unfold list_sum. cbn [fold_right]. lia. Qed.

Lemma size_assoc (k : str) (fs : list (str * value)) :
  assoc k fs = VUndefined \/ size (assoc k fs) < size (VObj fs).
Proof.
  induction fs as [|[k' x] fs IH]; [now left|].
  rewrite size_obj_cons. cbn [assoc]. destruct (str_eqb k' k).
  - right. assert (0 < size (VObj fs)) by (cbn [size]; lia). lia.
  - destruct IH as [IH | IH]; [now left | right]. lia.
Qed.

(** A property every member of an object has holds of the member read
    under a name, when there is one. *)
Lemma assoc_forallb (P : str * value -> bool) (k : str) fs :
  forallb P fs = true ->
  assoc k fs = VUndefined \/ P (k, assoc k fs) = true.
Proof.
  induction fs as [|[k' x] fs IH]; [now left|].
  cbn [forallb assoc]. intros H. apply andb_true_iff in H as [Hx Hfs].
  destruct (str_eqb k' k) eqn:E; [|now apply IH].
  apply str_eqb_eq in E. subst k'. now right.
Qed.

Lemma shaped_array (name : string) (fs : list (str * value)) :
  name = "content"%string \/ name = "marks"%string ->
  shaped (VObj fs) = true ->
  assoc (js name) fs = VUndefined
  \/ exists l, assoc (js name) fs = VArr l /\ forallb shaped l = true.
Proof.
  intros Hname H. cbn [shaped] in H.
  destruct (assoc_forallb _ (js name) fs H) as [Hu | Hp]; [now left|].
  right. destruct Hname as [-> | ->]; cbn in Hp;
    destruct (assoc _ fs) as [| | | | |l|]; try discriminate;
    now exists l.
Qed.

Lemma shaped_text (fs : list (str * value)) :
  shaped (VObj fs) = true ->
  exists t, or_else (assoc (js "text") fs) (VStr []) = VStr t.
Proof.
  intros H. cbn [shaped] in H.
  destruct (assoc_forallb _ (js "text") fs H) as [Hu | Hp].
  - rewrite Hu. now exists [].
  - cbn in Hp. destruct (assoc _ fs) as [| | | |t| |]; try discriminate.
    destruct t as [|c t]; [now exists [] | now exists (c :: t)].
Qed.

Lemma shaped_attrs (fs : list (str * value)) :
  shaped (VObj fs) = true -> attrs_ok (assoc (js "attrs") fs) = true.
Proof.
  intros H. cbn [shaped] in H.
  destruct (assoc_forallb _ (js "attrs") fs H) as [Hu | Hp].
  - now rewrite Hu.
  - exact Hp.
Qed.

Lemma attrs_string (name : string) (a : value) :
  In name ["href"; "text"; "id"; "url"; "shortName"; "language"]%string ->
  attrs_ok a = true ->
  field name a = VUndefined \/ exists t, field name a = VStr t.
Proof.
  intros Hname H. destruct a as [| | | | | |fs]; try (now left).
  cbn [attrs_ok field] in *.
  destruct (assoc_forallb _ (js name) fs H) as [Hu | Hp]; [now left|].
  right. simpl in Hname.
  destruct Hname as [<-|[<-|[<-|[<-|[<-|[<-|[]]]]]]]; cbn in Hp;
    destruct (assoc _ fs) as [| | | |t| |]; try discriminate; now exists t.
Qed.

Lemma attrs_string_or (name : string) (a : value) :
  In name ["href"; "text"; "id"; "url"; "shortName"; "language"]%string ->
  attrs_ok a = true ->
  exists t, or_else (field name a) (VStr []) = VStr t.
Proof.
  intros Hname H.
  destruct (attrs_string name a Hname H) as [-> | [t ->]]; [now exists []|].
  destruct t as [|c t]; [now exists [] | now exists (c :: t)].
Qed.

Lemma attrs_level (a : value) :
  attrs_ok a = true ->
  exists hashes, repeat_hash (or_else (field "level" a) (VNum 1)) = Ok hashes.
Proof.
  intros H. destruct a as [| | | | | |fs]; try (now exists [HASH]).
  cbn [attrs_ok field] in *.
  destruct (assoc_forallb _ (js "level") fs H) as [-> | Hp];
    [now exists [HASH]|].
  cbn in Hp. destruct (assoc _ fs) as [| | |z| | |]; try discriminate.
  apply andb_true_iff in Hp as [H0 _]. apply Z.leb_le in H0.
  unfold or_else. cbn [truthy].
  destruct (Z.eqb z 0); cbn [negb]; [now exists [HASH]|].
  cbn [repeat_hash]. destruct (Z.ltb z 0) eqn:E.
  - apply Z.ltb_lt in E. lia.
  - eexists. reflexivity.
Qed.

Lemma mapM_ok {A B} (f : A -> outcome B) (l : list A) :
  (forall x, In x l -> exists b, f x = Ok b) -> exists r, mapM f l = Ok r.
Proof.
  induction l as [|a l IH]; intros H; [now exists []|].
  destruct (H a (or_introl eq_refl)) as [b Hb].
  destruct IH as [r Hr]; [intros x Hx; apply H; now right|].
  exists (b :: r). cbn [mapM]. now rewrite Hb, Hr.
Qed.

Lemma mapiM_ok {A B} (f : nat -> A -> outcome B) (l : list A) :
  (forall i x, In x l -> exists b, f i x = Ok b) ->
  forall start, exists r, mapiM f start l = Ok r.
Proof.
  induction l as [|a l IH]; intros H start; [now exists []|].
  destruct (H start a (or_introl eq_refl)) as [b Hb].
  destruct (IH (fun i x Hx => H i x (or_intror Hx)) (S start)) as [r Hr].
  exists (b :: r). cbn [mapiM]. now rewrite Hb, Hr.
Qed.

Lemma apply_mark_shaped (t : str) (m : value) :
  shaped m = true -> exists t', apply_mark (VStr t) m = Ok (VStr t').
Proof.
  intros H. destruct m as [| | | | | |fs]; try discriminate.
  unfold apply_mark. cbn [get]. rewrite lookup_assoc.
  destruct (is_str (js "strong") _); [eexists; reflexivity|].
  destruct (is_str (js "em") _); [eexists; reflexivity|].
  destruct (is_str (js "strike") _); [eexists; reflexivity|].
  destruct (is_str (js "code") _); [eexists; reflexivity|].
  destruct (is_str (js "link") _); [|eexists; reflexivity].
  cbn [toString bind]. rewrite lookup_assoc, get_opt_field.
  destruct (attrs_string_or "href" _ (or_introl eq_refl) (shaped_attrs fs H))
    as [h ->].
  eexists. reflexivity.
Qed.

Lemma apply_marks_shaped (l : list value) :
  forallb shaped l = true ->
  forall t, exists t', apply_marks (VStr t) l = Ok (VStr t').
Proof.
  induction l as [|m l IH]; intros H t; [now exists t|].
  cbn [forallb] in H. apply andb_true_iff in H as [Hm Hl].
  destruct (apply_mark_shaped t m Hm) as [t1 H1].
  destruct (IH Hl t1) as [t2 H2].
  exists t2. cbn [apply_marks]. now rewrite H1.
Qed.

Lemma inline_node_shaped (n : value) :
  shaped n = true -> exists t, inline_node n = Ok (VStr t).
Proof.
  intros H. destruct n as [| | | | | |fs]; try discriminate.
  unfold inline_node. cbn [get]. rewrite lookup_assoc.
  pose proof (shaped_attrs fs H) as Ha.
  destruct (is_str (js "text") _).
  { rewrite !lookup_assoc. destruct (shaped_text fs H) as [t ->].
    destruct (shaped_array "marks" fs (or_intror eq_refl) H)
      as [-> | (l & -> & Hl)]; [now exists t|].
    cbn [truthy]. now apply apply_marks_shaped. }
  destruct (is_str (js "hardBreak") _); [eexists; reflexivity|].
  destruct (is_str (js "mention") _).
  { rewrite lookup_assoc, !get_opt_field.
    destruct (attrs_string "text" _ (or_intror (or_introl eq_refl)) Ha)
      as [-> | [label ->]];
    destruct (attrs_string_or "id" _
                (or_intror (or_intror (or_introl eq_refl))) Ha) as [i Hi].
    - unfold or_else at 2. cbn [truthy]. rewrite Hi. eexists. reflexivity.
    - destruct label as [|c label].
      + unfold or_else at 2. cbn [truthy is_empty negb]. rewrite Hi.
        eexists. reflexivity.
      + eexists. reflexivity. }
  destruct (is_str (js "inlineCard") _).
  { rewrite lookup_assoc, !get_opt_field.
    destruct (attrs_string_or "url" _
      (or_intror (or_intror (or_intror (or_introl eq_refl)))) Ha) as [u ->].
    now exists u. }
  destruct (is_str (js "emoji") _).
  { rewrite lookup_assoc, !get_opt_field.
    destruct (attrs_string_or "shortName" _
      (or_intror (or_intror (or_intror (or_intror (or_introl eq_refl))))) Ha)
      as [u ->].
    now exists u. }
  now exists [].
Qed.

Lemma join_values_strs (sep : str) (ss : list str) :
  join_values sep (map VStr ss) = Ok (join sep ss).
Proof.
  unfold join_values.
  assert (H : mapM (fun x => match x with
                             | VUndefined | VNull => Ok []
                             | _ => toString x
                             end) (map VStr ss) = Ok ss).
  { induction ss as [|a ss IH]; [reflexivity|].
    cbn [map mapM toString bind]. now rewrite IH. }
  now rewrite H.
Qed.

Lemma mapM_inline_shaped (l : list value) :
  forallb shaped l = true ->
  exists ss, mapM inline_node l = Ok (map VStr ss).
Proof.
  induction l as [|n l IH]; intros H; [now exists []|].
  cbn [forallb] in H. apply andb_true_iff in H as [Hn Hl].
  destruct (inline_node_shaped n Hn) as [t Ht].
  destruct (IH Hl) as [ss Hss].
  exists (t :: ss). cbn [mapM map]. now rewrite Ht, Hss.
Qed.

Lemma inlineNodesToText_shaped (node : value) :
  shaped node = true ->
  exists s, inlineNodesToText (field "content" node) = Ok s.
Proof.
  intros H. destruct node as [| | | | | |fs]; try discriminate.
  cbn [field].
  destruct (shaped_array "content" fs (or_introl eq_refl) H)
    as [-> | (l & -> & Hl)]; [now exists []|].
  destruct (mapM_inline_shaped l Hl) as [ss Hss].
  exists (join [] ss). unfold inlineNodesToText. rewrite Hss. cbn [bind].
  apply join_values_strs.
Qed.

Lemma shaped_not_nullish (v : value) : shaped v = true -> not_nullish v = true.
Proof. destruct v; try discriminate; reflexivity. Qed.

(** Mapping over the [content] of a node succeeds when the callback
    succeeds on every smaller node. *)
Lemma get_content_map {B C} (node : value) (f : value -> outcome B)
      (g : list B -> C) :
  shaped node = true ->
  (forall x, size x < size node -> shaped x = true -> exists b, f x = Ok b) ->
  exists r,
    get (js "content")
        (fun c => parts <- map_or_empty f c ;; Ok (g parts)) node = Ok r.
Proof.
  intros H IH. rewrite get_field by now apply shaped_not_nullish.
  destruct node as [| | | | | |fs]; try discriminate. cbn [field].
  pose proof (size_assoc (js "content") fs) as Hsz.
  destruct (shaped_array "content" fs (or_introl eq_refl) H)
    as [Hu | (l & Hl & Hsh)]; rewrite ?Hu, ?Hl in *.
  - eexists. reflexivity.
  - destruct Hsz as [Hsz | Hsz]; [discriminate|].
    destruct (mapM_ok f l) as [r Hr].
    { intros x Hx. apply IH.
      - pose proof (size_in_arr x l Hx). lia.
      - rewrite forallb_forall in Hsh. now apply Hsh. }
    cbn [map_or_empty]. rewrite Hr. eexists. reflexivity.
Qed.

Lemma get_content_mapi {B C} (node : value) (f : nat -> value -> outcome B)
      (g : list B -> C) :
  shaped node = true ->
  (forall i x, size x < size node -> shaped x = true ->
               exists b, f i x = Ok b) ->
  exists r,
    get (js "content")
        (fun c => parts <- mapi_or_empty f c ;; Ok (g parts)) node = Ok r.
Proof.
  intros H IH. rewrite get_field by now apply shaped_not_nullish.
  destruct node as [| | | | | |fs]; try discriminate. cbn [field].
  pose proof (size_assoc (js "content") fs) as Hsz.
  destruct (shaped_array "content" fs (or_introl eq_refl) H)
    as [Hu | (l & Hl & Hsh)]; rewrite ?Hu, ?Hl in *.
  - eexists. reflexivity.
  - destruct Hsz as [Hsz | Hsz]; [discriminate|].
    destruct (mapiM_ok f l) with (start := 0) as [r Hr].
    { intros i x Hx. apply IH.
      - pose proof (size_in_arr x l Hx). lia.
      - rewrite forallb_forall in Hsh. now apply Hsh. }
    cbn [mapi_or_empty]. rewrite Hr. eexists. reflexivity.
Qed.

(** On a shaped tree the block renderer returns a string. *)
Lemma blockNodeToText_shaped (n : nat) :
  forall v, size v < n -> shaped v = true ->
            exists s, blockNodeToText v = Ok s.
Proof.
  induction n as [|n IH]; intros v Hsz Hs; [lia|].
  assert (IHc : forall x, size x < size v -> shaped x = true ->
                          exists s, blockNodeToText x = Ok s).
  { intros x Hx. apply IH. lia. }
  pose proof (inlineNodesToText_shaped v Hs) as [txt Htxt].
  pose proof (shaped_not_nullish v Hs) as Hnn.
  destruct v as [| | | | | |fs]; try discriminate.
  cbn [blockNodeToText truthy negb].
  rewrite get_field by reflexivity.
  destruct (is_str (js "paragraph") _).
  { rewrite get_field by reflexivity. now exists txt. }
  destruct (is_str (js "heading") _).
  { rewrite get_field by reflexivity. rewrite get_opt_field.
    destruct (attrs_level _ (shaped_attrs fs Hs)) as [hashes Hh].
    cbv zeta. cbn [field] in *. rewrite Hh. cbn [bind].
    rewrite get_field by reflexivity. cbn [field]. rewrite Htxt.
    eexists. reflexivity. }
  destruct (is_str (js "bulletList") _).
  { apply get_content_map; [exact Hs|]. intros item Hi Hsi.
    apply get_content_map; [exact Hsi|]. intros c Hc Hsc.
    apply IHc; [lia | exact Hsc]. }
  destruct (is_str (js "orderedList") _).
  { apply get_content_mapi; [exact Hs|]. intros i item Hi Hsi.
    apply get_content_map; [exact Hsi|]. intros c Hc Hsc.
    apply IHc; [lia | exact Hsc]. }
  destruct (is_str (js "blockquote") _).
  { apply get_content_map; [exact Hs|]. intros c Hc Hsc.
    destruct (IHc c Hc Hsc) as [t Ht]. rewrite Ht. eexists. reflexivity. }
  destruct (is_str (js "codeBlock") _).
  { rewrite get_field by reflexivity. rewrite get_opt_field.
    cbv zeta. rewrite get_field by reflexivity.
    cbn [field] in *. rewrite Htxt. cbn [bind].
    destruct (attrs_string_or "language" _
      (or_intror (or_intror (or_intror (or_intror (or_intror
         (or_introl eq_refl)))))) (shaped_attrs fs Hs)) as [l Hl].
    cbn [field] in Hl. rewrite Hl. eexists. reflexivity. }
  destruct (is_str (js "rule") _); [eexists; reflexivity|].
  destruct (is_str (js "table") _).
  { apply get_content_map; [exact Hs|]. intros row Hr Hsr.
    apply get_content_map; [exact Hsr|]. intros cell Hce Hsce.
    apply get_content_map; [exact Hsce|]. intros c Hc Hsc.
    apply IHc; [lia | exact Hsc]. }
  destruct (is_str (js "mediaSingle") _ || is_str (js "mediaGroup") _);
    [eexists; reflexivity|].
  rewrite get_field by reflexivity. now exists txt.
Qed.

Lemma adfToText_shaped (v : value) :
  shaped v = true -> exists s, adfToText v = Ok s.
Proof.
  intros Hs. destruct v as [| | | | | |fs]; try discriminate.
  unfold adfToText. cbn [truthy negb].
  rewrite !get_field by reflexivity. cbn [field].
  pose proof (size_assoc (js "content") fs) as Hsz.
  destruct (shaped_array "content" fs (or_introl eq_refl) Hs)
    as [-> | (l & -> & Hl)]; [eexists; reflexivity|].
  destruct (is_str (js "doc") _); [|eexists; reflexivity].
  destruct (mapM_ok blockNodeToText l) as [r Hr].
  { intros x Hx. apply (blockNodeToText_shaped (S (size x))); [lia|].
    rewrite forallb_forall in Hl. now apply Hl. }
  rewrite Hr. eexists. reflexivity.
Qed.

Lemma blockNodeToText_unknown (node : value) :
  truthy node = true -> known_block_type (field "type" node) = false ->
  blockNodeToText node = inlineNodesToText (field "content" node).
Proof.
  intros Ht Hk. pose proof (truthy_not_nullish node Ht) as Hnn.
  unfold known_block_type in Hk.
  repeat (apply orb_false_iff in Hk as [Hk ?]).
  destruct node as [| |b|z|s|l|fs]; try discriminate;
    try (cbn [blockNodeToText]; rewrite Ht; reflexivity);
    try reflexivity.
  cbn [blockNodeToText truthy negb].
  rewrite (get_field "type") by reflexivity.
  repeat match goal with
         | H : ?b = false |- context [?b] => rewrite H
         end.
  cbn [orb]. now rewrite get_field by reflexivity.
Qed.

(** C3 (as stated, refuted): a [null] among the inline nodes of a
    paragraph, a list whose [content] is a string and a heading with a
    negative level each make the renderer throw. *)
Lemma render_throws_counterexample :
  adfToText (doc [paragraph [VNull]]) = Throw TypeError
  /\ blockNodeToText
       (VObj [(js "type", VStr (js "bulletList"));
              (js "content", VStr (js "x"))]) = Throw TypeError
  /\ blockNodeToText (heading (-1) []) = Throw RangeError.
Proof. repeat split; reflexivity. Qed.

(** C3 (amended): on a shaped tree (nodes are objects, [content] and
    [marks] where present are arrays of nodes, [text] and the attributes
    read are strings, [level] is a number from 0 to 6) no function of
    the render direction throws.  On any tree, inline content that is
    not an array renders as the empty string, a falsy block renders as
    the empty string, and a block of a type without a case renders its
    [content] as inline nodes. *)
Theorem render_safe_on_shaped_trees (v : value) :
  shaped v = true ->
  (exists s, adfToText v = Ok s)
  /\ (exists s, blockNodeToText v = Ok s)
  /\ (exists s, inlineNodesToText (field "content" v) = Ok s)
  /\ (forall nodes, isArray nodes = false -> inlineNodesToText nodes = Ok [])
  /\ (forall node, truthy node = false -> blockNodeToText node = Ok [])
  /\ (forall node,
        truthy node = true -> known_block_type (field "type" node) = false ->
        blockNodeToText node = inlineNodesToText (field "content" node)).
Proof.
  intros Hs. repeat split.
  - now apply adfToText_shaped.
  - apply (blockNodeToText_shaped (S (size v))); [lia | exact Hs].
  - now apply inlineNodesToText_shaped.
  - intros nodes H. destruct nodes; try reflexivity. discriminate.
  - intros node H. destruct node; try discriminate; try reflexivity;
      cbn [blockNodeToText]; rewrite H; reflexivity.
  - apply blockNodeToText_unknown.
Qed.

Lemma render_safe_on_shaped_trees_witness :
  exists s,
    adfToText
      (doc [VObj [(js "type", VStr (js "panel"));
                  (js "attrs", VObj [(js "panelType", VStr (js "info"))]);
                  (js "content", VArr [run (js "note") [Strong]])];
            VObj [(js "type", VStr (js "bulletList"))];
            heading 2 [VObj [(js "type", VStr (js "emoji"))]]]) = Ok s.
Proof.
  refine (proj1 (render_safe_on_shaped_trees _ _)). reflexivity.
Defined.

(* ================================================================== *)
(** * Rendering the blocks the parser builds *)
(* ================================================================== *)

Lemma text_ok_parts (t : str) :
  text_ok t = true ->
  t <> [] /\ no_char PIPE t = true /\ no_lt t = true
  /\ head_ok (rev t) = true.
Proof.
  unfold text_ok. intros H.
  apply andb_true_iff in H as [H H4]. apply andb_true_iff in H as [H H3].
  apply andb_true_iff in H as [H1 H2].
  repeat split; auto. destruct t; [discriminate | discriminate].
Qed.

Lemma render_text_ok (t : str) :
  text_ok t = true -> render_nodes (parseInlineContent t) = Ok t.
Proof.
  intros H. apply parseInlineContent_render.
  now apply text_ok_parts in H as (_ & H & _).
Qed.

Lemma blockNodeToText_heading (level : Z) (content : list value) :
  (1 <= level <= 6)%Z ->
  blockNodeToText (heading level content)
  = (text <- render_nodes content ;;
     Ok (repeat_unit HASH (Z.to_nat level) ++ js " " ++ text)).
Proof.
  intros H.
  change (blockNodeToText (heading level content))
    with (hashes <- repeat_hash (or_else (VNum level) (VNum 1)) ;;
          text <- render_nodes content ;;
          Ok (hashes ++ js " " ++ text)).
  unfold or_else. cbn [truthy].
  destruct (Z.eqb level 0) eqn:E; [apply Z.eqb_eq in E; lia|].
  cbn [negb repeat_hash].
  destruct (Z.ltb level 0) eqn:E'; [apply Z.ltb_lt in E'; lia|].
  reflexivity.
Qed.

Lemma blockNodeToText_listItem_paragraph (c : list value) (t : str) :
  render_nodes c = Ok t ->
  mapM (fun x => blockNodeToText x) [paragraph c] = Ok [t].
Proof.
  intros H. cbn [mapM]. rewrite blockNodeToText_paragraph, H. reflexivity.
Qed.

Lemma blockNodeToText_bullets (ts : list str) :
  forallb text_ok ts = true ->
  blockNodeToText (list_node "bulletList" (map (run_item RBullet) ts))
  = Ok (join [LF] (run_lines RBullet ts)).
Proof.
  intros H.
  change (blockNodeToText (list_node "bulletList" (map (run_item RBullet) ts)))
    with (items <- mapM (fun item =>
             let* ic := item.["content"] in
             parts <- map_or_empty (fun c => blockNodeToText c) ic ;;
             Ok (js "- " ++ join [LF] parts)) (map (run_item RBullet) ts) ;;
          Ok (join [LF] items)).
  set (f := fun item : value => _).
  assert (E : mapM f (map (run_item RBullet) ts) = Ok (run_lines RBullet ts)).
  { induction ts as [|t ts IH]; [reflexivity|].
    cbn [forallb] in H. apply andb_true_iff in H as [Ht Hts].
    cbn [map mapM run_lines]. rewrite (IH Hts).
    assert (Ef : f (run_item RBullet t) = Ok (js "- " ++ t)).
    { subst f. cbn [run_item].
      change (get (js "content") ?k (listItem ?c)) with (k (VArr [paragraph c])).
      cbn beta. cbn [map_or_empty].
      rewrite (blockNodeToText_listItem_paragraph _ t (render_text_ok t Ht)).
      reflexivity. }
    rewrite Ef. reflexivity. }
  rewrite E. reflexivity.
Qed.

Lemma blockNodeToText_ordered (ts : list str) :
  forallb text_ok ts = true ->
  blockNodeToText (list_node "orderedList" (map (run_item ROrdered) ts))
  = Ok (join [LF] (run_lines ROrdered ts)).
Proof.
  intros H.
  change (blockNodeToText
            (list_node "orderedList" (map (run_item ROrdered) ts)))
    with (items <- mapiM (fun i item =>
             let* ic := item.["content"] in
             parts <- map_or_empty (fun c => blockNodeToText c) ic ;;
             Ok (decimal (N.of_nat (i + 1)) ++ js ". " ++ join [LF] parts))
             0 (map (run_item ROrdered) ts) ;;
          Ok (join [LF] items)).
  set (f := fun (i : nat) (item : value) => _).
  assert (E : forall start,
             mapiM f start (map (run_item ROrdered) ts)
             = Ok (numbered start ts)).
  { induction ts as [|t ts IH]; intros start; [reflexivity|].
    cbn [forallb] in H. apply andb_true_iff in H as [Ht Hts].
    cbn [map mapiM numbered]. rewrite (IH Hts).
    assert (Ef : f start (run_item ROrdered t)
                 = Ok (decimal (N.of_nat (start + 1)) ++ js ". " ++ t)).
    { subst f. cbn [run_item].
      change (get (js "content") ?k (listItem ?c)) with (k (VArr [paragraph c])).
      cbn beta. cbn [map_or_empty].
      rewrite (blockNodeToText_listItem_paragraph _ t (render_text_ok t Ht)).
      reflexivity. }
    rewrite Ef. reflexivity. }
  unfold run_lines. rewrite E. reflexivity.
Qed.

Lemma blockNodeToText_quote (ts : list str) :
  forallb text_ok ts = true ->
  blockNodeToText (list_node "blockquote" (map (run_item RQuote) ts))
  = Ok (join [LF] (run_lines RQuote ts)).
Proof.
  intros H.
  change (blockNodeToText (list_node "blockquote" (map (run_item RQuote) ts)))
    with (items <- mapM (fun c =>
             t <- blockNodeToText c ;; Ok (js "> " ++ t))
             (map (run_item RQuote) ts) ;;
          Ok (join [LF] items)).
  set (f := fun c : value => _).
  assert (E : mapM f (map (run_item RQuote) ts) = Ok (run_lines RQuote ts)).
  { induction ts as [|t ts IH]; [reflexivity|].
    cbn [forallb] in H. apply andb_true_iff in H as [Ht Hts].
    cbn [map mapM run_lines]. rewrite (IH Hts).
    assert (Ef : f (run_item RQuote t) = Ok (js "> " ++ t)).
    { subst f. cbn [run_item].
      rewrite blockNodeToText_paragraph, (render_text_ok t Ht). reflexivity. }
    rewrite Ef. reflexivity. }
  rewrite E. reflexivity.
Qed.

Lemma split_lines_nonempty (s : str) : split_lines s <> [].
Proof.
  induction s as [|c s IH]; simpl; [discriminate|].
  destruct (N.eqb c LF); [discriminate|].
  destruct (split_lines s); discriminate.
Qed.

Lemma join_cons (sep a : str) (l : list str) :
  l <> [] -> join sep (a :: l) = a ++ sep ++ join sep l.
Proof. destruct l; [contradiction | reflexivity]. Qed.

Lemma join_snoc (sep z : str) (l : list str) :
  l <> [] -> join sep (l ++ [z]) = join sep l ++ sep ++ z.
Proof.
  induction l as [|a l IH]; [contradiction|]. intros _.
  destruct l as [|b l]; [reflexivity|].
  change ((a :: b :: l) ++ [z]) with (a :: ((b :: l) ++ [z])).
  rewrite join_cons by (destruct l; discriminate).
  rewrite IH by discriminate.
  rewrite (join_cons sep a (b :: l)) by discriminate.
  now rewrite <- !app_assoc.
Qed.

Lemma join_split (s : str) : join [LF] (split_lines s) = s.
Proof.
  induction s as [|c s IH]; [reflexivity|].
  cbn [split_lines]. destruct (N.eqb c LF) eqn:E.
  - apply N.eqb_eq in E. subst c.
    rewrite join_cons by apply split_lines_nonempty. now rewrite IH.
  - destruct (split_lines s) as [|l ls] eqn:S; [now apply split_lines_nonempty in S|].
    rewrite <- IH. destruct ls; reflexivity.
Qed.

Lemma blockNodeToText_codeBlock (text : str) (lang : option str) :
  blockNodeToText (codeBlock text lang)
  = Ok (js "```" ++ fence_tag lang ++ [LF] ++ text ++ LF :: js "```").
Proof.
  destruct text as [|c text]; destruct lang as [[|l lang]|]; reflexivity.
Qed.

Lemma block_text_code (text : str) (lang : option str) :
  block_text (SCode text lang)
  = js "```" ++ fence_tag lang ++ [LF] ++ text ++ LF :: js "```".
Proof.
  unfold block_text. cbn [block_lines].
  rewrite join_cons.
  2:{ pose proof (split_lines_nonempty text). destruct (split_lines text);
      [contradiction | discriminate]. }
  rewrite join_snoc by apply split_lines_nonempty.
  rewrite join_split, <- !app_assoc. reflexivity.
Qed.

(** A good block is rendered as its lines joined by line feeds. *)
Lemma blockNodeToText_good (b : sblock) :
  good b = true -> blockNodeToText (to_node b) = Ok (block_text b).
Proof.
  destruct b as [t|level t|r ts|text lang|]; cbn [good to_node]; intros H.
  - apply andb_true_iff in H as [H _]. apply andb_true_iff in H as [H _].
    rewrite blockNodeToText_paragraph. now apply render_text_ok.
  - apply andb_true_iff in H as [H _]. apply andb_true_iff in H as [H Ht].
    apply andb_true_iff in H as [H1 H6]. apply Z.leb_le in H1, H6.
    rewrite blockNodeToText_heading by lia.
    rewrite (render_text_ok t Ht). reflexivity.
  - apply andb_true_iff in H as [_ H].
    assert (Hts : forallb text_ok ts = true).
    { rewrite forallb_forall in *. intros t Ht. specialize (H t Ht).
      now apply andb_true_iff in H as [H _]. }
    destruct r.
    + now apply blockNodeToText_bullets.
    + now apply blockNodeToText_ordered.
    + now apply blockNodeToText_quote.
  - rewrite blockNodeToText_codeBlock. now rewrite block_text_code.
  - reflexivity.
Qed.

Lemma adfToText_nodes_of (rbs : list sblock) :
  forallb good rbs = true ->
  adfToText (doc (nodes_of rbs))
  = Ok (join [LF; LF] (map block_text (rev rbs))).
Proof.
  intros H. rewrite adfToText_doc. unfold nodes_of.
  assert (Hr : forallb good (rev rbs) = true).
  { rewrite forallb_forall in *. intros b Hb. apply H. now apply in_rev. }
  assert (E : mapM blockNodeToText (map to_node (rev rbs))
              = Ok (map block_text (rev rbs))).
  { induction (rev rbs) as [|b bs IH]; [reflexivity|].
    cbn [forallb] in Hr. apply andb_true_iff in Hr as [Hb Hbs].
    cbn [map mapM]. rewrite (blockNodeToText_good b Hb), (IH Hbs).
    reflexivity. }
  rewrite E. reflexivity.
Qed.

(* ================================================================== *)
(** * The lines of a rendered document *)
(* ================================================================== *)

Lemma split_lines_app (a b : str) :
  split_lines (a ++ LF :: b) = split_lines a ++ split_lines b.
Proof.
  induction a as [|c a IH]; [reflexivity|].
  cbn [app split_lines]. rewrite IH.
  destruct (N.eqb c LF); [reflexivity|].
  pose proof (split_lines_nonempty a) as Hne.
  destruct (split_lines a); [contradiction | reflexivity].
Qed.

Lemma split_lines_join (ls : list str) :
  forallb (no_char LF) ls = true -> ls <> [] ->
  split_lines (join [LF] ls) = ls.
Proof.
  induction ls as [|a ls IH]; [contradiction|]. intros H _.
  cbn [forallb] in H. apply andb_true_iff in H as [Ha Hls].
  destruct ls as [|b ls]; [now apply split_lines_single|].
  rewrite join_cons by discriminate.
  change ([LF] ++ join [LF] (b :: ls)) with (LF :: join [LF] (b :: ls)).
  rewrite split_lines_app, (split_lines_single a Ha), IH by
      (assumption || discriminate).
  reflexivity.
Qed.

Lemma split_lines_no_lf (s : str) :
  forallb (no_char LF) (split_lines s) = true.
Proof.
  induction s as [|c s IH]; [reflexivity|].
  cbn [split_lines]. destruct (N.eqb c LF) eqn:E; [exact IH|].
  destruct (split_lines s) as [|l ls]; cbn [forallb no_char] in *;
    unfold is_not; rewrite E; [reflexivity | exact IH].
Qed.

Lemma no_lt_no_lf (s : str) : no_lt s = true -> no_char LF s = true.
Proof.
  unfold no_lt, no_char. rewrite !forallb_forall. intros H c Hc.
  specialize (H c Hc). unfold is_not.
  destruct (N.eqb c LF) eqn:E; [|reflexivity].
  apply N.eqb_eq in E. subst c. discriminate H.
Qed.

Lemma uint_digits_digits (d : Decimal.uint) :
  forallb is_digit (uint_digits d) = true.
Proof. induction d; simpl; auto. Qed.

Lemma decimal_digits (n : N) : forallb is_digit (decimal n) = true.
Proof. apply uint_digits_digits. Qed.

Lemma decimal_nonempty (n : N) : decimal n <> [].
Proof.
  unfold decimal. destruct n as [|p]; [discriminate|].
  pose proof (DecimalPos.Unsigned.to_uint_nonnil p) as H.
  cbn [N.to_uint]. destruct (Pos.to_uint p); try discriminate.
  contradiction.
Qed.

Lemma digits_no_lf (s : str) : forallb is_digit s = true -> no_char LF s = true.
Proof.
  unfold no_char. rewrite !forallb_forall. intros H c Hc.
  specialize (H c Hc). unfold is_not, is_digit in *.
  destruct (N.eqb c LF) eqn:E; [|reflexivity].
  apply N.eqb_eq in E. subst c. discriminate H.
Qed.

Lemma text_ok_no_lf (t : str) : text_ok t = true -> no_char LF t = true.
Proof.
  intros H. apply text_ok_parts in H as (_ & _ & H & _).
  now apply no_lt_no_lf.
Qed.

Lemma numbered_no_lf (ts : list str) :
  forallb text_ok ts = true ->
  forall start, forallb (no_char LF) (numbered start ts) = true.
Proof.
  induction ts as [|t ts IH]; intros H start; [reflexivity|].
  cbn [forallb] in H. apply andb_true_iff in H as [Ht Hts].
  cbn [numbered forallb]. rewrite (IH Hts), andb_true_r.
  rewrite !no_char_app, (text_ok_no_lf t Ht).
  rewrite (digits_no_lf _ (decimal_digits _)). reflexivity.
Qed.

Lemma run_lines_no_lf (r : run_kind) (ts : list str) :
  forallb text_ok ts = true -> forallb (no_char LF) (run_lines r ts) = true.
Proof.
  intros H. destruct r; cbn [run_lines].
  - rewrite forallb_forall in *. intros l Hl.
    apply in_map_iff in Hl as (t & <- & Ht).
    rewrite no_char_app, (text_ok_no_lf t (H t Ht)). reflexivity.
  - now apply numbered_no_lf.
  - rewrite forallb_forall in *. intros l Hl.
    apply in_map_iff in Hl as (t & <- & Ht).
    rewrite no_char_app, (text_ok_no_lf t (H t Ht)). reflexivity.
Qed.

Lemma good_run_texts (r : run_kind) (ts : list str) :
  good (SRun r ts) = true -> ts <> [] /\ forallb text_ok ts = true.
Proof.
  cbn [good]. intros H. apply andb_true_iff in H as [Hne H].
  split; [destruct ts; [discriminate | discriminate]|].
  rewrite forallb_forall in *. intros t Ht. specialize (H t Ht).
  now apply andb_true_iff in H as [H _].
Qed.

Lemma run_lines_nonempty (r : run_kind) (ts : list str) :
  ts <> [] -> run_lines r ts <> [].
Proof. destruct ts; [contradiction|]. destruct r; discriminate. Qed.

Lemma repeat_no_lf (n : nat) : no_char LF (repeat_unit HASH n) = true.
Proof. induction n; simpl; auto. Qed.

Lemma block_lines_no_lf (b : sblock) :
  good b = true ->
  forallb (no_char LF) (block_lines b) = true /\ block_lines b <> [].
Proof.
  destruct b as [t|level t|r ts|text lang|]; intros H.
  - cbn [good] in H. apply andb_true_iff in H as [H _].
    apply andb_true_iff in H as [H _].
    split; [|discriminate]. cbn [block_lines forallb].
    now rewrite (text_ok_no_lf t H).
  - cbn [good] in H. apply andb_true_iff in H as [H _].
    apply andb_true_iff in H as [_ H].
    split; [|discriminate]. cbn [block_lines forallb].
    rewrite !no_char_app, repeat_no_lf, (text_ok_no_lf t H). reflexivity.
  - apply good_run_texts in H as [Hne H]. split.
    + now apply run_lines_no_lf.
    + now apply run_lines_nonempty.
  - split; [|discriminate]. cbn [block_lines forallb].
    rewrite forallb_app, split_lines_no_lf. cbn [forallb].
    rewrite no_char_app. cbn [good] in H.
    apply andb_true_iff in H as [_ H].
    destruct lang as [tag|]; [|reflexivity]. cbn [fence_tag].
    apply andb_true_iff in H as [_ H]. now rewrite (no_lt_no_lf tag H).
  - split; [reflexivity | discriminate].
Qed.

Lemma split_lines_doc (bs : list sblock) :
  forallb good bs = true -> bs <> [] ->
  split_lines (join [LF; LF] (map block_text bs)) = doc_lines bs.
Proof.
  induction bs as [|b bs IH]; [contradiction|]. intros H _.
  cbn [forallb] in H. apply andb_true_iff in H as [Hb Hbs].
  destruct (block_lines_no_lf b Hb) as [Hlf Hne].
  assert (Eb : split_lines (block_text b) = block_lines b)
    by now apply split_lines_join.
  destruct bs as [|b' bs]; [exact Eb|].
  cbn [map]. rewrite join_cons by discriminate.
  change ([LF; LF] ++ ?j) with (LF :: LF :: j).
  rewrite split_lines_app, Eb.
  change (LF :: ?j) with ([] ++ LF :: j).
  rewrite split_lines_app. cbn [split_lines app].
  change (doc_lines (b :: b' :: bs))
    with (block_lines b ++ [] :: doc_lines (b' :: bs)).
  rewrite <- IH by (assumption || discriminate). reflexivity.
Qed.

(* ================================================================== *)
(** * Parsing the lines of a rendered document *)
(* ================================================================== *)

Lemma span_app_stop (p : N -> bool) (a : str) (c : N) (b : str) :
  forallb p a = true -> p c = false -> span p (a ++ c :: b) = (a, c :: b).
Proof.
  intros Ha Hc. induction a as [|x a IH]; simpl.
  - now rewrite Hc.
  - simpl in Ha. apply andb_true_iff in Ha as [Hx Ha].
    now rewrite Hx, (IH Ha).
Qed.

Lemma span_all (p : N -> bool) (s : str) :
  forallb p s = true -> span p s = (s, []).
Proof.
  induction s as [|c s IH]; simpl; [reflexivity|].
  intros H. apply andb_true_iff in H as [Hc Hs]. now rewrite Hc, (IH Hs).
Qed.

Lemma span_stop (p : N -> bool) (c : N) (s : str) :
  p c = false -> span p (c :: s) = ([], c :: s).
Proof. intros H. simpl. now rewrite H. Qed.

Lemma head_ok_rev_app (a b : str) :
  b <> [] -> head_ok (rev (a ++ b)) = head_ok (rev b).
Proof.
  intros Hb. rewrite rev_app_distr.
  destruct (rev b) as [|x r] eqn:E; [|reflexivity].
  apply (f_equal (@length N)) in E. rewrite length_rev in E.
  destruct b; [contradiction | discriminate].
Qed.

(** A line made of a prefix that starts with a code unit that is not
    whitespace and of a text that ends with one is its own trimmed
    form. *)
Lemma trim_prefixed (c : N) (a t : str) :
  is_ws c = false -> t <> [] -> head_ok (rev t) = true ->
  trim ((c :: a) ++ t) = (c :: a) ++ t.
Proof.
  intros Hc Ht Hl. apply trim_id. unfold trimmed.
  rewrite head_ok_rev_app by assumption. rewrite Hl.
  cbn [app head_ok]. now rewrite Hc.
Qed.

Lemma startsWith_head (x c : N) (p s : str) :
  N.eqb x c = false -> startsWith (x :: p) (c :: s) = false.
Proof. intros H. cbn [startsWith]. now rewrite H. Qed.

Lemma jiraHeading_first (c : N) (s : str) :
  N.eqb c LOWER_H = false -> jiraHeading (c :: s) = None.
Proof.
  intros H. unfold jiraHeading. destruct s as [|d [|p r]]; try reflexivity.
  now rewrite H.
Qed.

Lemma mdHeading_first (c : N) (s : str) :
  N.eqb HASH c = false -> mdHeading (c :: s) = None.
Proof. intros H. unfold mdHeading. now rewrite (span_stop _ _ _ H). Qed.

Lemma ordered_marker_first (c : N) (s : str) :
  is_digit c = false -> ordered_marker (c :: s) = None.
Proof. intros H. unfold ordered_marker. now rewrite (span_stop _ _ _ H). Qed.

Lemma ws_then_text_space (t : str) :
  t <> [] -> head_ok t = true -> no_lt t = true ->
  ws_then_text (SPACE :: t) = Some t.
Proof.
  intros Hne Hh Hlt. unfold ws_then_text.
  destruct t as [|c t]; [contradiction|].
  cbn [head_ok] in Hh. apply negb_true_iff in Hh.
  cbn [span]. change (is_ws SPACE) with true. cbv iota.
  rewrite Hh. now rewrite (span_all _ _ Hlt).
Qed.

Lemma classify_unfold (line : str) :
  trim line = line -> line <> [] ->
  classify line =
  match jiraHeading line with
  | Some (level, text) => KHeading level text
  | None =>
  match mdHeading line with
  | Some (level, text) => KHeading level text
  | None =>
  if startsWith (js "* ") line || startsWith (js "- ") line
  then KBullet (substring 2 line) else
  match ordered_marker line with
  | Some text => KOrdered text
  | None =>
  if startsWith (js "> ") line then KQuote (substring 2 line)
  else if str_eqb line (js "----") || str_eqb line (js "---") then KRule
  else if str_eqb line FENCE || startsWith FENCE line
       then KFence (fence_lang line)
  else KParagraph line
  end end end.
Proof.
  intros Ht Hne. unfold classify. rewrite Ht. cbv zeta.
  destruct line; [contradiction | reflexivity].
Qed.

Lemma classify_heading_line (level : Z) (t : str) :
  (1 <= level <= 6)%Z -> text_ok t = true -> head_ok t = true ->
  classify (repeat_unit HASH (Z.to_nat level) ++ js " " ++ t)
  = KHeading level t.
Proof.
  intros Hl Ht Hh. apply text_ok_parts in Ht as (Hne & _ & Hlt & Hlast).
  destruct (Z.to_nat level) as [|n] eqn:En; [lia|].
  assert (Hline : repeat_unit HASH (S n) ++ js " " ++ t
                  = (HASH :: repeat_unit HASH n ++ js " ") ++ t).
  { cbn [repeat_unit repeat app]. unfold repeat_unit.
    now rewrite <- app_assoc. }
  rewrite classify_unfold.
  2:{ rewrite Hline. now apply trim_prefixed. }
  2:{ discriminate. }
  cbn [repeat_unit repeat app]. rewrite jiraHeading_first by reflexivity.
  unfold mdHeading.
  change (HASH :: repeat HASH n ++ js " " ++ t)
    with (repeat HASH (S n) ++ SPACE :: t).
  rewrite span_app_stop; [| |reflexivity].
  2:{ clear. induction (S n); simpl; auto. }
  rewrite repeat_length.
  assert (Hn : (1 <=? S n) && (S n <=? 6) = true).
  { apply andb_true_iff. split; apply Nat.leb_le; lia. }
  rewrite Hn, ws_then_text_space by assumption.
  rewrite <- En, Z2Nat.id by lia. reflexivity.
Qed.

Lemma classify_bullet_line (t : str) :
  text_ok t = true -> classify (js "- " ++ t) = KBullet t.
Proof.
  intros Ht. apply text_ok_parts in Ht as (Hne & _ & _ & Hlast).
  rewrite classify_unfold.
  2:{ now apply (trim_prefixed DASH [SPACE] t). }
  2:{ discriminate. }
  change (js "- " ++ t) with (DASH :: SPACE :: t).
  rewrite jiraHeading_first, mdHeading_first by reflexivity.
  reflexivity.
Qed.

Lemma classify_quote_line (t : str) :
  text_ok t = true -> classify (js "> " ++ t) = KQuote t.
Proof.
  intros Ht. apply text_ok_parts in Ht as (Hne & _ & _ & Hlast).
  rewrite classify_unfold.
  2:{ now apply (trim_prefixed GT [SPACE] t). }
  2:{ discriminate. }
  change (js "> " ++ t) with (GT :: SPACE :: t).
  rewrite jiraHeading_first, mdHeading_first, ordered_marker_first
    by reflexivity.
  reflexivity.
Qed.

Lemma digit_facts (c : N) :
  is_digit c = true ->
  is_ws c = false /\ N.eqb c LOWER_H = false /\ N.eqb HASH c = false
  /\ N.eqb STAR c = false /\ N.eqb DASH c = false /\ N.eqb GT c = false
  /\ N.eqb c DOT = false.
Proof.
  unfold is_digit. intros H. apply andb_true_iff in H as [H1 H2].
  apply N.leb_le in H1, H2.
  assert (Hc : (c = 48 \/ c = 49 \/ c = 50 \/ c = 51 \/ c = 52 \/ c = 53
                \/ c = 54 \/ c = 55 \/ c = 56 \/ c = 57)%N) by lia.
  repeat destruct Hc as [-> | Hc]; try subst c; repeat split; reflexivity.
Qed.

Lemma classify_ordered_line (n : N) (t : str) :
  text_ok t = true -> head_ok t = true ->
  classify (decimal n ++ js ". " ++ t) = KOrdered t.
Proof.
  intros Ht Hh. apply text_ok_parts in Ht as (Hne & _ & _ & Hlast).
  pose proof (decimal_digits n) as Hd.
  pose proof (decimal_nonempty n) as Hdn.
  destruct (decimal n) as [|d ds] eqn:E; [contradiction|].
  cbn [forallb] in Hd. apply andb_true_iff in Hd as [Hd Hds].
  destruct (digit_facts d Hd) as (Hws & Hh' & Hhash & Hstar & Hdash & _ & _).
  assert (Hline : (d :: ds) ++ js ". " ++ t = (d :: ds ++ js ". ") ++ t).
  { cbn [app]. now rewrite <- app_assoc. }
  rewrite classify_unfold.
  2:{ rewrite Hline. now apply trim_prefixed. }
  2:{ discriminate. }
  cbn [app]. rewrite jiraHeading_first, mdHeading_first by assumption.
  change (js "* ") with [STAR; SPACE]. change (js "- ") with [DASH; SPACE].
  rewrite !startsWith_head by assumption. cbn [orb].
  unfold ordered_marker.
  change (d :: ds ++ js ". " ++ t) with ((d :: ds) ++ DOT :: SPACE :: t).
  rewrite span_app_stop; [| |reflexivity].
  2:{ cbn [forallb]. now rewrite Hd, Hds. }
  rewrite N.eqb_refl.
  destruct t as [|c t]; [contradiction|].
  cbn [head_ok] in Hh. apply negb_true_iff in Hh.
  cbn [span]. change (is_ws SPACE) with true. cbv iota.
  rewrite Hh. reflexivity.
Qed.

Lemma classify_code_open (text : str) (lang : option str) :
  good (SCode text lang) = true ->
  classify (js "```" ++ fence_tag lang) = KFence lang.
Proof.
  cbn [good]. intros H. apply andb_true_iff in H as [_ H].
  destruct lang as [tag|]; [|reflexivity].
  apply andb_true_iff in H as [H _]. apply andb_true_iff in H as [Hne Htr].
  cbn [fence_tag].
  assert (Hne' : tag <> []) by (destruct tag; [discriminate | discriminate]).
  assert (Hlast : head_ok (rev tag) = true).
  { unfold trimmed in Htr. now apply andb_true_iff in Htr as [_ Htr]. }
  assert (Htrim : trim (js "```" ++ tag) = js "```" ++ tag).
  { now apply (trim_prefixed BACKTICK [BACKTICK; BACKTICK] tag). }
  rewrite classify_fence by (rewrite Htrim; reflexivity).
  rewrite Htrim. unfold fence_lang.
  destruct tag as [|c tag]; [contradiction|].
  cbn [js map list_ascii_of_string app length Nat.ltb Nat.leb substring skipn].
  now rewrite (trim_id _ Htr).
Qed.

Lemma parse_line_plain (line : str) (rest : list str) (rbs : list sblock) :
  (forall lang, classify line <> KFence lang) ->
  parseLines (line :: rest) (nodes_of rbs)
  = parseLines rest (nodes_of (semit (classify line) rbs)).
Proof.
  intros H. rewrite parseLines_step.
  destruct (classify line) eqn:E; try (now rewrite emit_nodes_of).
  exfalso. now apply (H lang).
Qed.

Lemma parse_line_kind (line : str) (k : line_kind) rest rbs :
  classify line = k -> (forall lang, k <> KFence lang) ->
  parseLines (line :: rest) (nodes_of rbs)
  = parseLines rest (nodes_of (semit k rbs)).
Proof. intros <- H. now apply parse_line_plain. Qed.

Lemma line_kind_of_not_fence (r : run_kind) (t : str) (lang : option str) :
  line_kind_of r t <> KFence lang.
Proof. destruct r; discriminate. Qed.

Lemma semit_run_next (r : run_kind) (t : str) (acc : list str) rbs :
  semit (line_kind_of r t) (SRun r acc :: rbs) = SRun r (acc ++ [t]) :: rbs.
Proof. destruct r; reflexivity. Qed.

Lemma semit_run_first (r : run_kind) (t : str) (ts : list str) rbs :
  no_adjacent_runs (SRun r ts :: rbs) = true ->
  semit (line_kind_of r t) rbs = SRun r [t] :: rbs.
Proof.
  intros H. cbn [no_adjacent_runs] in H. apply andb_true_iff in H as [H _].
  destruct rbs as [|b rbs]; [destruct r; reflexivity|].
  destruct b as [t'|level t'|r' ts'|text lang|]; try (destruct r; reflexivity).
  apply negb_true_iff in H.
  destruct r; cbn [line_kind_of semit add_run]; now rewrite H.
Qed.

Lemma reparse_run_rest (r : run_kind) (lines ts : list str) :
  Forall2 (fun l t => classify l = line_kind_of r t) lines ts ->
  forall acc rbs rest,
    parseLines (lines ++ rest) (nodes_of (SRun r acc :: rbs))
    = parseLines rest (nodes_of (SRun r (acc ++ ts) :: rbs)).
Proof.
  induction 1 as [|l t lines ts Hl _ IH]; intros acc rbs rest.
  - now rewrite app_nil_r.
  - cbn [app].
    rewrite (parse_line_kind l _ _ _ Hl (line_kind_of_not_fence r t)).
    rewrite semit_run_next, IH, <- app_assoc. reflexivity.
Qed.

Lemma numbered_classify (ts : list str) :
  forallb (fun t => text_ok t && head_ok t) ts = true ->
  forall start,
    Forall2 (fun l t => classify l = KOrdered t) (numbered start ts) ts.
Proof.
  induction ts as [|t ts IH]; intros H start; [constructor|].
  cbn [forallb] in H. apply andb_true_iff in H as [Ht Hts].
  apply andb_true_iff in Ht as [Ht Hh].
  cbn [numbered]. constructor; [|now apply IH].
  now apply classify_ordered_line.
Qed.

Lemma run_lines_classify (r : run_kind) (ts : list str) :
  good (SRun r ts) = true ->
  Forall2 (fun l t => classify l = line_kind_of r t) (run_lines r ts) ts.
Proof.
  cbn [good]. intros H. apply andb_true_iff in H as [_ H].
  destruct r; cbn [run_lines line_kind_of].
  - induction ts as [|t ts IH]; [constructor|].
    cbn [forallb] in H. apply andb_true_iff in H as [Ht Hts].
    rewrite andb_true_r in Ht.
    cbn [map]. constructor; [now apply classify_bullet_line | now apply IH].
  - now apply numbered_classify.
  - induction ts as [|t ts IH]; [constructor|].
    cbn [forallb] in H. apply andb_true_iff in H as [Ht Hts].
    rewrite andb_true_r in Ht.
    cbn [map]. constructor; [now apply classify_quote_line | now apply IH].
Qed.

Lemma fence_closing : trim (js "```") = FENCE.
Proof. reflexivity. Qed.

(** Parsing the lines a good block is rendered as pushes the block
    again. *)
Lemma reparse_block (b : sblock) (rbs : list sblock) (rest : list str) :
  good b = true -> no_adjacent_runs (b :: rbs) = true ->
  parseLines (block_lines b ++ rest) (nodes_of rbs)
  = parseLines rest (nodes_of (b :: rbs)).
Proof.
  intros Hg Hadj. destruct b as [t|level t|r ts|text lang|].
  - cbn [block_lines app]. cbn [good] in Hg.
    apply andb_true_iff in Hg as [_ Hp]. unfold is_paragraph_line in Hp.
    destruct (classify t) as [| | | | | | |t'] eqn:E; try discriminate.
    apply str_eqb_eq in Hp. subst t'.
    now rewrite (parse_line_kind t _ _ _ E) by discriminate.
  - cbn [block_lines app]. cbn [good] in Hg.
    apply andb_true_iff in Hg as [Hg Hh]. apply andb_true_iff in Hg as [Hg Ht].
    apply andb_true_iff in Hg as [H1 H6]. apply Z.leb_le in H1, H6.
    rewrite (parse_line_kind _ (KHeading level t)); try discriminate;
      [reflexivity|].
    apply classify_heading_line; [lia | assumption | assumption].
  - pose proof (run_lines_classify r ts Hg) as Hc.
    cbn [block_lines]. destruct Hc as [|l t lines ts' Hl Hrest].
    + cbn [good is_empty_list negb andb] in Hg. discriminate.
    + cbn [app].
      rewrite (parse_line_kind l _ _ _ Hl (line_kind_of_not_fence r t)).
      rewrite (semit_run_first r t (t :: ts') rbs Hadj).
      now rewrite (reparse_run_rest r lines ts' Hrest [t] rbs rest).
  - cbn [block_lines app]. rewrite parseLines_step.
    rewrite (classify_code_open text lang Hg).
    cbn [good] in Hg. apply andb_true_iff in Hg as [Hbody _].
    assert (Hb : Forall (fun l => trim l <> FENCE) (split_lines text)).
    { apply Forall_forall. intros l Hl. rewrite forallb_forall in Hbody.
      specialize (Hbody l Hl). apply negb_true_iff in Hbody.
      intros E. rewrite E, str_eqb_refl in Hbody. discriminate. }
    rewrite <- app_assoc. cbn [app].
    destruct (fence_body_app (split_lines text) (js "```") rest Hb
                fence_closing) as [-> ->].
    now rewrite join_split, nodes_of_cons.
  - cbn [block_lines app].
    now rewrite (parse_line_kind (js "---") KRule) by
        (reflexivity || discriminate).
Qed.

Lemma no_adjacent_runs_tail (b : sblock) (rbs : list sblock) :
  no_adjacent_runs (b :: rbs) = true -> no_adjacent_runs rbs = true.
Proof.
  cbn [no_adjacent_runs]. intros H. now apply andb_true_iff in H as [_ H].
Qed.

Lemma no_adjacent_runs_app (a rbs : list sblock) :
  no_adjacent_runs (a ++ rbs) = true -> no_adjacent_runs rbs = true.
Proof.
  induction a as [|b a IH]; [auto|].
  intros H. apply IH. now apply no_adjacent_runs_tail in H.
Qed.

Lemma reparse_doc (bs : list sblock) :
  forall rbs,
    forallb good bs = true -> no_adjacent_runs (rev bs ++ rbs) = true ->
    parseLines (doc_lines bs) (nodes_of rbs) = nodes_of (rev bs ++ rbs).
Proof.
  induction bs as [|b bs IH]; intros rbs Hg Hadj; [reflexivity|].
  cbn [forallb] in Hg. apply andb_true_iff in Hg as [Hb Hbs].
  cbn [rev] in Hadj. rewrite <- app_assoc in Hadj. cbn [app] in Hadj.
  pose proof (no_adjacent_runs_app _ _ Hadj) as Hadj'.
  cbn [rev]. rewrite <- app_assoc. cbn [app].
  destruct bs as [|b' bs].
  - cbn [doc_lines]. rewrite <- (app_nil_r (block_lines b)).
    now rewrite reparse_block.
  - change (doc_lines (b :: b' :: bs))
      with (block_lines b ++ [] :: doc_lines (b' :: bs)).
    rewrite reparse_block by assumption.
    rewrite parseLines_blank by reflexivity.
    now apply IH.
Qed.

(* ================================================================== *)
(** * The blocks of a stable input are good *)
(* ================================================================== *)

Lemma forallb_dropWhile (P p : N -> bool) (s : str) :
  forallb P s = true -> forallb P (dropWhile p s) = true.
Proof.
  induction s as [|c s IH]; [auto|]. intros H. cbn [dropWhile].
  destruct (p c); [|exact H].
  cbn [forallb] in H. apply andb_true_iff in H as [_ H]. auto.
Qed.

Lemma forallb_rev (P : N -> bool) (s : str) :
  forallb P s = true -> forallb P (rev s) = true.
Proof.
  rewrite !forallb_forall. intros H c Hc. apply H. now apply in_rev.
Qed.

Lemma forallb_trim (P : N -> bool) (s : str) :
  forallb P s = true -> forallb P (trim s) = true.
Proof.
  intros H. unfold trim.
  apply forallb_rev, forallb_dropWhile, forallb_rev, forallb_dropWhile, H.
Qed.

Lemma forallb_skipn (P : N -> bool) (n : nat) (s : str) :
  forallb P s = true -> forallb P (skipn n s) = true.
Proof.
  revert s; induction n as [|n IH]; intros s H; [exact H|].
  destruct s as [|c s]; [reflexivity|].
  cbn [forallb] in H. apply andb_true_iff in H as [_ H]. cbn [skipn]. auto.
Qed.

Lemma line_ok_parts (l : str) :
  line_ok l = true -> no_char PIPE l = true /\ no_lt l = true.
Proof. unfold line_ok. intros H. now apply andb_true_iff in H. Qed.

Lemma dropWhile_nil (p : N -> bool) (s : str) :
  dropWhile p s = [] -> forallb p s = true.
Proof.
  induction s as [|c s IH]; [reflexivity|]. cbn [dropWhile forallb].
  destruct (p c); [auto | discriminate].
Qed.

Lemma all_ws_last (w : str) :
  forallb is_ws w = true -> w <> [] -> head_ok (rev w) = false.
Proof.
  intros H Hne. apply forallb_rev in H.
  destruct (rev w) as [|c r] eqn:E.
  - apply (f_equal (@length N)) in E. rewrite length_rev in E.
    destruct w; [contradiction | discriminate].
  - cbn [forallb] in H. apply andb_true_iff in H as [H _].
    cbn [head_ok]. now rewrite H.
Qed.

Lemma trim_nonempty (r : str) :
  r <> [] -> head_ok (rev r) = true -> trim r <> [].
Proof.
  intros Hne Hl Ht. unfold trim in Ht.
  apply (f_equal (@rev N)) in Ht. rewrite rev_involutive in Ht. cbn in Ht.
  apply dropWhile_nil, forallb_rev in Ht. rewrite rev_involutive in Ht.
  pose proof (dropWhile_head r) as Hh.
  destruct (dropWhile is_ws r) as [|c d] eqn:E.
  - apply dropWhile_nil in E. rewrite (all_ws_last r E Hne) in Hl.
    discriminate.
  - cbn [forallb] in Ht. apply andb_true_iff in Ht as [Hc _].
    cbn [head_ok] in Hh. rewrite Hc in Hh. discriminate.
Qed.

Lemma trimmed_parts (s : str) :
  trimmed s = true -> head_ok s = true /\ head_ok (rev s) = true.
Proof. unfold trimmed. intros H. now apply andb_true_iff in H. Qed.

(** The text after the whitespace of a heading or list marker, on a
    line that ends with a code unit that is not whitespace and holds no
    line terminator. *)
Lemma ws_then_text_good (r t : str) :
  ws_then_text r = Some t -> no_lt r = true -> head_ok (rev r) = true ->
  t <> [] /\ head_ok t = true /\ exists w, r = w ++ t.
Proof.
  unfold ws_then_text. intros H Hlt Hlast.
  destruct (span is_ws r) as [w r'] eqn:S.
  apply span_eq in S as (Hr & Hw & Hr').
  destruct w as [|x w]; [discriminate|].
  destruct r' as [|c r'].
  - exfalso. rewrite app_nil_r in Hr. subst r.
    rewrite (all_ws_last _ Hw) in Hlast by discriminate. discriminate.
  - assert (Hlt' : no_lt (c :: r') = true).
    { rewrite Hr in Hlt. unfold no_lt in Hlt. rewrite forallb_app in Hlt.
      now apply andb_true_iff in Hlt as [_ Hlt]. }
    rewrite (span_all _ _ Hlt') in H. cbn [fst] in H. injection H as <-.
    split; [discriminate|]. split; [cbn [head_ok]; now rewrite Hr'|].
    now exists (x :: w).
Qed.

Lemma text_ok_suffix (line a t : str) :
  line = a ++ t -> t <> [] ->
  no_char PIPE line = true -> no_lt line = true ->
  head_ok (rev line) = true ->
  text_ok t = true.
Proof.
  intros -> Hne Hp Hlt Hlast. unfold text_ok.
  rewrite no_char_app in Hp. apply andb_true_iff in Hp as [_ Hp].
  unfold no_lt in Hlt. rewrite forallb_app in Hlt.
  apply andb_true_iff in Hlt as [_ Hlt].
  rewrite head_ok_rev_app in Hlast by assumption.
  unfold no_lt. rewrite Hp, Hlt, Hlast.
  destruct t; [contradiction | reflexivity].
Qed.

Lemma jiraHeading_good (line : str) (level : Z) (t : str) :
  jiraHeading line = Some (level, t) ->
  no_char PIPE line = true -> no_lt line = true ->
  head_ok (rev line) = true ->
  text_ok t = true /\ head_ok t = true.
Proof.
  unfold jiraHeading. intros H Hp Hlt Hlast.
  destruct line as [|h [|d [|p r]]]; try discriminate.
  destruct (N.eqb h LOWER_H && (N.leb 49 d && N.leb d 54) && N.eqb p DOT);
    [|discriminate].
  destruct (ws_then_text r) as [t'|] eqn:W; [|discriminate].
  injection H as _ <-.
  assert (Hr : r <> []) by (intros ->; discriminate W).
  destruct (ws_then_text_good r t' W) as (Hne & Hh & w & Hw).
  { unfold no_lt in *. cbn [forallb] in Hlt.
    repeat (apply andb_true_iff in Hlt as [_ Hlt]). exact Hlt. }
  { now rewrite <- (head_ok_rev_app [h; d; p] r Hr). }
  split; [|exact Hh].
  apply (text_ok_suffix (h :: d :: p :: r) (h :: d :: p :: w) t');
    try assumption.
  cbn [app]. now rewrite Hw.
Qed.

Lemma mdHeading_good (line : str) (level : Z) (t : str) :
  mdHeading line = Some (level, t) ->
  no_char PIPE line = true -> no_lt line = true ->
  head_ok (rev line) = true ->
  text_ok t = true /\ head_ok t = true.
Proof.
  unfold mdHeading. intros H Hp Hlt Hlast.
  destruct (span (N.eqb HASH) line) as [hs r] eqn:S.
  apply span_eq in S as (Hline & _ & _).
  destruct ((1 <=? length hs) && (length hs <=? 6)); [|discriminate].
  destruct (ws_then_text r) as [t'|] eqn:W; [|discriminate].
  injection H as _ <-.
  assert (Hr : r <> []) by (intros ->; discriminate W).
  destruct (ws_then_text_good r t' W) as (Hne & Hh & w & Hw).
  { rewrite Hline in Hlt. unfold no_lt in *. rewrite forallb_app in Hlt.
    now apply andb_true_iff in Hlt as [_ Hlt]. }
  { rewrite <- (head_ok_rev_app hs r Hr). now rewrite <- Hline. }
  split; [|exact Hh].
  apply (text_ok_suffix line (hs ++ w) t'); try assumption.
  now rewrite <- app_assoc, <- Hw.
Qed.

Lemma marker_text_good (line p : str) :
  startsWith p line = true -> length p = 2 ->
  forallb is_ws (skipn 1 p) = true ->
  no_char PIPE line = true -> no_lt line = true ->
  head_ok (rev line) = true ->
  text_ok (substring 2 line) = true.
Proof.
  intros Hs Hlen Hws Hp Hlt Hlast.
  apply startsWith_app in Hs as [t ->].
  destruct p as [|x [|y [|z p]]]; try discriminate.
  cbn [app substring skipn].
  assert (Hne : t <> []).
  { intros ->. cbn [app rev] in Hlast. cbn [skipn forallb] in Hws.
    apply andb_true_iff in Hws as [Hy _]. cbn [head_ok] in Hlast.
    rewrite Hy in Hlast. discriminate. }
  now apply (text_ok_suffix ([x; y] ++ t) [x; y] t).
Qed.

Lemma ordered_marker_good (line t : str) :
  ordered_marker line = Some t ->
  no_char PIPE line = true -> no_lt line = true ->
  head_ok (rev line) = true ->
  text_ok t = true /\ head_ok t = true.
Proof.
  unfold ordered_marker. intros H Hp Hlt Hlast.
  destruct (span is_digit line) as [ds r] eqn:S.
  apply span_eq in S as (Hline & _ & _).
  destruct ds as [|d ds]; [discriminate|].
  destruct r as [|p r]; [discriminate|].
  destruct (N.eqb p DOT); [|discriminate].
  destruct (span is_ws r) as [w r'] eqn:S'.
  apply span_eq in S' as (Hr & Hw & Hr').
  destruct w as [|x w]; [discriminate|].
  injection H as <-.
  assert (Hl : line = ((d :: ds) ++ p :: x :: w) ++ r').
  { rewrite Hline, Hr, <- app_assoc. reflexivity. }
  assert (Hne : r' <> []).
  { intros ->. rewrite app_nil_r in Hl. rewrite Hl in Hlast.
    replace ((d :: ds) ++ p :: x :: w) with (((d :: ds) ++ [p]) ++ x :: w)
      in Hlast by (now rewrite <- app_assoc).
    rewrite head_ok_rev_app in Hlast by discriminate.
    rewrite (all_ws_last _ Hw) in Hlast by discriminate. discriminate. }
  split.
  - now apply (text_ok_suffix line _ r' Hl).
  - destruct r' as [|c r']; [contradiction|]. cbn [head_ok]. now rewrite Hr'.
Qed.

Lemma classify_inv (raw : str) :
  match classify raw with
  | KBlank => trim raw = []
  | KHeading level t =>
      jiraHeading (trim raw) = Some (level, t)
      \/ mdHeading (trim raw) = Some (level, t)
  | KBullet t =>
      t = substring 2 (trim raw)
      /\ (startsWith (js "* ") (trim raw) = true
          \/ startsWith (js "- ") (trim raw) = true)
  | KOrdered t => ordered_marker (trim raw) = Some t
  | KQuote t =>
      t = substring 2 (trim raw) /\ startsWith (js "> ") (trim raw) = true
  | KRule => True
  | KFence lang =>
      lang = fence_lang (trim raw) /\ startsWith FENCE (trim raw) = true
  | KParagraph t => t = trim raw /\ t <> []
  end.
Proof.
  unfold classify. cbv zeta.
  destruct (is_empty (trim raw)) eqn:E0.
  { destruct (trim raw); [reflexivity | discriminate]. }
  destruct (jiraHeading (trim raw)) as [[l t]|] eqn:J; [now left|].
  destruct (mdHeading (trim raw)) as [[l t]|] eqn:M; [now right|].
  destruct (startsWith (js "* ") (trim raw)) eqn:B1; [cbn [orb]; auto|].
  destruct (startsWith (js "- ") (trim raw)) eqn:B2; [cbn [orb]; auto|].
  cbn [orb].
  destruct (ordered_marker (trim raw)) as [t|] eqn:O; [reflexivity|].
  destruct (startsWith (js "> ") (trim raw)) eqn:Q; [auto|].
  destruct (str_eqb (trim raw) (js "----") || str_eqb (trim raw) (js "---"));
    [exact I|].
  destruct (str_eqb (trim raw) FENCE) eqn:F1.
  { cbn [orb]. apply str_eqb_eq in F1. rewrite F1. split; reflexivity. }
  destruct (startsWith FENCE (trim raw)) eqn:F2; [cbn [orb]; auto|].
  cbn [orb]. split; [reflexivity|]. destruct (trim raw); discriminate.
Qed.

Lemma classify_trim (raw : str) : classify (trim raw) = classify raw.
Proof. unfold classify. now rewrite trim_idem. Qed.

Lemma fence_lang_good (line : str) :
  startsWith FENCE line = true -> no_lt line = true ->
  head_ok (rev line) = true ->
  kind_good (KFence (fence_lang line)) = true.
Proof.
  intros Hs Hlt Hlast. apply startsWith_app in Hs as [r ->].
  unfold fence_lang. cbn [kind_good].
  destruct (3 <? length (FENCE ++ r)) eqn:L; [|reflexivity].
  change (substring 3 (FENCE ++ r)) with r.
  assert (Hr : r <> []).
  { intros ->. discriminate L. }
  rewrite head_ok_rev_app in Hlast by assumption.
  rewrite trim_trimmed, andb_true_r.
  apply andb_true_iff. split.
  - pose proof (trim_nonempty r Hr Hlast) as Hn.
    destruct (trim r); [contradiction | reflexivity].
  - apply forallb_trim. unfold no_lt in Hlt. rewrite forallb_app in Hlt.
    now apply andb_true_iff in Hlt as [_ Hlt].
Qed.

Lemma classify_kind_good (raw : str) :
  line_ok raw = true -> kind_good (classify raw) = true.
Proof.
  intros Hok. apply line_ok_parts in Hok as [Hp Hlt].
  pose proof (forallb_trim _ raw Hp) as Hp'.
  pose proof (forallb_trim _ raw Hlt) as Hlt'.
  destruct (trimmed_parts _ (trim_trimmed raw)) as [Hhead Hlast].
  pose proof (classify_inv raw) as Hinv.
  pose proof (classify_trim raw) as Htrim.
  destruct (classify raw) as [|level t|t|t|t| |lang|t] eqn:E; cbn [kind_good].
  - reflexivity.
  - pose proof (classify_heading_level raw level t E) as Hl.
    assert (Hg : text_ok t = true /\ head_ok t = true).
    { destruct Hinv as [J | M];
        [eapply jiraHeading_good | eapply mdHeading_good]; eassumption. }
    destruct Hg as [-> ->].
    destruct Hl as [H1 H6]. apply Z.leb_le in H1, H6. now rewrite H1, H6.
  - destruct Hinv as [-> [B | B]];
      eapply marker_text_good; try eassumption; reflexivity.
  - apply andb_true_iff. eapply ordered_marker_good; eassumption.
  - destruct Hinv as [-> Q].
    eapply marker_text_good; try eassumption; reflexivity.
  - reflexivity.
  - destruct Hinv as [-> F]. now apply fence_lang_good.
  - destruct Hinv as [-> Hne].
    unfold is_paragraph_line. rewrite Htrim, str_eqb_refl, Hhead.
    rewrite andb_true_r, andb_true_r. unfold text_ok.
    unfold no_char, no_lt in *. rewrite Hp', Hlt', Hlast.
    destruct (trim raw); [contradiction | reflexivity].
Qed.

Lemma add_run_good (r : run_kind) (t : str) (rbs : list sblock) :
  text_ok t && match r with ROrdered => head_ok t | _ => true end = true ->
  forallb good rbs = true -> forallb good (add_run r t rbs) = true.
Proof.
  intros Ht H.
  assert (Hnew : good (SRun r [t]) = true).
  { cbn [good is_empty_list negb forallb andb]. now rewrite Ht. }
  destruct rbs as [|b rest]; [cbn [add_run forallb]; now rewrite Hnew|].
  destruct b as [t'|level t'|r' ts|text lang|]; cbn [add_run];
    try (cbn [forallb]; rewrite Hnew; exact H).
  destruct (run_eqb r r') eqn:E; [|cbn [forallb]; rewrite Hnew; exact H].
  assert (r = r') as <- by (destruct r, r'; try discriminate; reflexivity).
  cbn [forallb] in *. apply andb_true_iff in H as [Hb Hrest].
  rewrite Hrest, andb_true_r. cbn [good] in *.
  apply andb_true_iff in Hb as [_ Hts].
  rewrite forallb_app, Hts. cbn [forallb]. rewrite Ht.
  destruct ts; reflexivity.
Qed.

Lemma semit_good (k : line_kind) (rbs : list sblock) :
  kind_good k = true -> forallb good rbs = true ->
  forallb good (semit k rbs) = true.
Proof.
  intros Hk H. destruct k; cbn [semit kind_good] in *; try exact H.
  - cbn [forallb good]. now rewrite Hk.
  - apply add_run_good; [now rewrite andb_true_r | exact H].
  - now apply add_run_good.
  - apply add_run_good; [now rewrite andb_true_r | exact H].
  - cbn [forallb good]. now rewrite Hk.
Qed.

Lemma add_run_adjacent (r : run_kind) (t : str) (rbs : list sblock) :
  no_adjacent_runs rbs = true -> no_adjacent_runs (add_run r t rbs) = true.
Proof.
  intros H. destruct rbs as [|b rest]; [reflexivity|].
  destruct b as [t'|level t'|r' ts|text lang|]; cbn [add_run];
    try (cbn [no_adjacent_runs] in *; exact H).
  destruct (run_eqb r r') eqn:E.
  - exact H.
  - cbn [no_adjacent_runs] in *. now rewrite E.
Qed.

Lemma semit_adjacent (k : line_kind) (rbs : list sblock) :
  no_adjacent_runs rbs = true -> no_adjacent_runs (semit k rbs) = true.
Proof.
  intros H. destruct k; cbn [semit]; try exact H;
    try (now apply add_run_adjacent).
Qed.

Lemma fence_body_lines (ls : list str) :
  forallb line_ok ls = true ->
  forallb (no_char LF) (fence_body ls) = true
  /\ forallb (fun l => negb (str_eqb (trim l) FENCE)) (fence_body ls) = true.
Proof.
  induction ls as [|l ls IH]; [split; reflexivity|]. intros H.
  cbn [forallb] in H. apply andb_true_iff in H as [Hl Hls].
  cbn [fence_body]. destruct (str_eqb (trim l) FENCE) eqn:E;
    [split; reflexivity|].
  destruct (IH Hls) as [IH1 IH2]. cbn [forallb]. rewrite IH1, IH2, E.
  apply line_ok_parts in Hl as [_ Hl]. rewrite (no_lt_no_lf l Hl).
  split; reflexivity.
Qed.

Lemma fence_rest_lines (ls : list str) :
  forallb line_ok ls = true -> forallb line_ok (fence_rest ls) = true.
Proof.
  induction ls as [|l ls IH]; [reflexivity|]. intros H.
  cbn [forallb] in H. apply andb_true_iff in H as [_ Hls].
  cbn [fence_rest]. destruct (str_eqb (trim l) FENCE); auto.
Qed.

Lemma fence_text_good (ls : list str) :
  forallb line_ok ls = true ->
  forallb (fun l => negb (str_eqb (trim l) FENCE))
          (split_lines (join [LF] (fence_body ls))) = true.
Proof.
  intros H. destruct (fence_body_lines ls H) as [H1 H2].
  destruct (fence_body ls) as [|b body] eqn:E; [reflexivity|].
  rewrite split_lines_join by (assumption || discriminate). exact H2.
Qed.

Lemma sparse_good (fuel : nat) :
  forall ls rbs,
    forallb line_ok ls = true ->
    forallb good rbs = true -> no_adjacent_runs rbs = true ->
    forallb good (sparse fuel ls rbs) = true
    /\ no_adjacent_runs (sparse fuel ls rbs) = true.
Proof.
  induction fuel as [|f IH]; intros ls rbs Hls Hg Hadj; [now split|].
  destruct ls as [|raw rest]; [now split|].
  cbn [forallb] in Hls. apply andb_true_iff in Hls as [Hraw Hrest].
  pose proof (classify_kind_good raw Hraw) as Hk.
  pose proof (semit_good _ rbs Hk Hg) as Hsg.
  pose proof (semit_adjacent (classify raw) rbs Hadj) as Hsa.
  cbn [sparse].
  destruct (classify raw) as [|level t|t|t|t| |lang|t] eqn:E;
    try (apply IH; assumption).
  apply IH.
  - now apply fence_rest_lines.
  - cbn [forallb good]. rewrite (fence_text_good rest Hrest), Hg.
    cbn [kind_good] in Hk. now rewrite Hk.
  - cbn [no_adjacent_runs]. exact Hadj.
Qed.

Lemma stable_input_lines (x : str) :
  stable_input x = true -> forallb line_ok (split_lines x) = true.
Proof.
  induction x as [|c x IH]; [reflexivity|]. intros H.
  cbn [stable_input forallb] in H. apply andb_true_iff in H as [Hc Hx].
  specialize (IH Hx). cbn [split_lines].
  destruct (N.eqb c LF) eqn:E; [cbn [forallb]; exact IH|].
  apply andb_true_iff in Hc as [Hpipe Hlt]. rewrite orb_false_r in Hlt.
  destruct (split_lines x) as [|l ls]; cbn [forallb] in *.
  - unfold line_ok. cbn [no_char no_lt forallb]. unfold is_not.
    now rewrite Hpipe, Hlt.
  - apply andb_true_iff in IH as [Hl Hls]. rewrite Hls, andb_true_r.
    unfold line_ok in *. cbn [no_char no_lt forallb]. unfold is_not.
    rewrite Hpipe, Hlt. exact Hl.
Qed.

(* ================================================================== *)
(** * One pass of parsing and rendering *)
(* ================================================================== *)

Lemma nodes_of_nil_iff (rbs : list sblock) :
  is_empty_list (nodes_of rbs) = is_empty_list rbs.
Proof.
  unfold nodes_of. destruct rbs as [|b rbs]; [reflexivity|].
  cbn [rev]. rewrite map_app. destruct (map to_node (rev rbs)); reflexivity.
Qed.

Lemma forallb_good_rev (rbs : list sblock) :
  forallb good rbs = true -> forallb good (rev rbs) = true.
Proof.
  rewrite !forallb_forall. intros H b Hb. apply H. now apply in_rev.
Qed.

(** Parsing the rendering of good blocks gives the same nodes again. *)
Lemma reparse_rendered (rbs : list sblock) :
  rbs <> [] ->
  forallb good rbs = true -> no_adjacent_runs rbs = true ->
  parseLines (split_lines (join [LF; LF] (map block_text (rev rbs)))) []
  = nodes_of rbs.
Proof.
  intros Hne Hg Hadj.
  rewrite split_lines_doc.
  - change (@nil value) with (nodes_of []).
    rewrite reparse_doc.
    + now rewrite rev_involutive, app_nil_r.
    + now apply forallb_good_rev.
    + now rewrite rev_involutive, app_nil_r.
  - now apply forallb_good_rev.
  - intros E. apply (f_equal (@rev sblock)) in E.
    rewrite rev_involutive in E. now apply Hne.
Qed.

(** C2 (as stated, refuted): a pipe-form link whose target holds a
    closing parenthesis is rendered as a bracket form that parses
    differently, so the second pass changes the text again; and so does
    a heading whose text is cut at a carriage return after a space. *)
Lemma fixed_point_counterexample :
  render_parse (js "[a|b)[c]|d]") = Ok (js "[a](b)[c)|d]")
  /\ render_parse (js "[a](b)[c)|d]") = Ok (js "[a](b)[c)](d)")
  /\ render_parse (js "# a " ++ [13%N] ++ js "b") = Ok (js "# a ")
  /\ render_parse (js "# a ") = Ok (js "# a").
Proof. repeat split; reflexivity. Qed.

(* ================================================================== *)
(** * The older parser of [index.js] *)
(* ================================================================== *)

(** On a string the older parser returns a document node too. *)
Lemma legacy_returns_document (s : str) :
  exists nodes, Legacy.createADFDocument (VStr s) = Ok (doc nodes).
Proof. eexists. reflexivity. Qed.

(** C8 on the older [createADFDocument] of [index.js]: a line that
    starts with [- [] and holds a vertical bar, but on which the issue
    link expression does not match, is pushed nowhere; the text is lost
    and the document returned has no block.  The line [**] gives a text
    node with an empty text, and an empty fence gives a codeBlock with an
    empty text node. *)
Theorem legacy_parse_drops_line :
  Legacy.createADFDocument (VStr (js "- [x] ship it | today")) = Ok (doc [])
  /\ check_doc (doc []) = false
  /\ createADFDocument (VStr (js "- [x] ship it | today"))
     = doc [list_node "bulletList"
              [listItem [plain_text (js "[x] ship it | today")]]]
  /\ Legacy.createADFDocument (VStr (js "**"))
     = Ok (doc [paragraph [marked_text [] (mark "strong")]])
  /\ Legacy.createADFDocument (VStr (unlines ["```"; "```"]%string))
     = Ok (doc [Legacy.code []]).
Proof. repeat split; reflexivity. Qed.

(* ================================================================== *)
(** * The text one pass writes for a text *)
(* ================================================================== *)

(** A match of the inline expression is written as it was matched,
    unless it is a match of the pipe-form alternative, which is written
    in the bracket form. *)
Lemma match_at_cases (s : str) (node : value) (len : nat) :
  match_at s = Some (node, len) ->
  exists m rest,
    s = m ++ rest /\ len = length m /\ m <> []
    /\ ((pipe_at s = false /\ inline_node node = Ok (VStr m))
        \/ (pipe_at s = true
            /\ exists t h, t <> [] /\ h <> [] /\ m = pipe_form t h
                           /\ inline_node node = Ok (VStr (wrap (Link h) t)))).
Proof.
  unfold match_at, pipe_at.
  destruct (double_delimited STAR s) as [[t k]|] eqn:E1.
  { intros H. injection H as <- <-.
    apply double_delimited_spec in E1 as (Ht & rest & Hs & Hn).
    exists ([STAR; STAR] ++ t ++ [STAR; STAR]), rest.
    repeat split; auto; try discriminate.
    left. split; [reflexivity|]. apply (inline_node_marked t Strong). }
  destruct (double_delimited TILDE s) as [[t k]|] eqn:E2.
  { intros H. injection H as <- <-.
    apply double_delimited_spec in E2 as (Ht & rest & Hs & Hn).
    exists ([TILDE; TILDE] ++ t ++ [TILDE; TILDE]), rest.
    repeat split; auto; try discriminate.
    left. split; [reflexivity|]. apply (inline_node_marked t Strike). }
  destruct (single_delimited STAR s) as [[t k]|] eqn:E3.
  { intros H. injection H as <- <-.
    apply single_delimited_spec in E3 as (Ht & rest & Hs & Hn).
    exists ([STAR] ++ t ++ [STAR]), rest.
    repeat split; auto; try discriminate.
    left. split; [reflexivity|]. apply (inline_node_marked t Emphasis). }
  destruct (md_link s) as [[[t h] k]|] eqn:E4.
  { intros H. injection H as <- <-.
    apply md_link_spec in E4 as (Ht & Hh & rest & Hs & Hn).
    exists (wrap (Link h) t), rest.
    repeat split; auto; try discriminate.
    left. split; [reflexivity|]. apply (inline_node_marked t (Link h)). }
  destruct (pipe_link s) as [[[t h] k]|] eqn:E5.
  { intros H. injection H as <- <-.
    apply pipe_link_spec in E5 as (Ht & Hh & rest & Hs & Hn).
    exists (pipe_form t h), rest.
    repeat split; auto; try discriminate.
    right. split; [reflexivity|]. exists t, h. repeat split; auto.
    apply (inline_node_marked t (Link h)). }
  destruct (single_delimited BACKTICK s) as [[t k]|] eqn:E6.
  { intros H. injection H as <- <-.
    apply single_delimited_spec in E6 as (Ht & rest & Hs & Hn).
    exists ([BACKTICK] ++ t ++ [BACKTICK]), rest.
    repeat split; auto; try discriminate.
    left. split; [reflexivity|]. apply (inline_node_marked t Code). }
  discriminate.
Qed.

Lemma pipe_links_skip (s : str) :
  forall k, pipe_links s k = pipe_links (skipn k s) 0.
Proof.
  induction s as [|c s IH]; intros k.
  - destruct k; reflexivity.
  - destruct k as [|k]; [reflexivity|]. simpl skipn. cbn [pipe_links].
    apply IH.
Qed.

Lemma pipe_links_match (m rest : str) (node : value) :
  m <> [] -> match_at (m ++ rest) = Some (node, length m) ->
  pipe_links (m ++ rest) 0
  = (if pipe_at (m ++ rest) then 1 else 0) + pipe_links rest 0.
Proof.
  intros Hm H. destruct m as [|x m]; [contradiction|].
  change ((x :: m) ++ rest) with (x :: m ++ rest) in *.
  cbn [pipe_links]. rewrite H. f_equal.
  rewrite pipe_links_skip. f_equal. cbn [length].
  rewrite Nat.sub_succ, Nat.sub_0_r. apply skipn_length_app.
Qed.

(** The tokenizer and the renderer on any text. *)
Lemma scan_spans (n : nat) :
  forall s, length s <= n ->
  exists r,
    spans s r (pipe_links s 0)
    /\ forall pending, render_nodes (scan s 0 pending) = Ok (pending ++ r).
Proof.
  induction n as [|n IH]; intros s Hlen.
  - destruct s; [|simpl in Hlen; lia].
    exists []. split; [constructor|]. intros pending. simpl.
    rewrite <- (app_nil_r (flush pending)). now apply render_nodes_flush.
  - destruct s as [|c s'].
    + exists []. split; [constructor|]. intros pending. simpl.
      rewrite <- (app_nil_r (flush pending)). now apply render_nodes_flush.
    + destruct (match_at (c :: s')) as [[node len]|] eqn:E.
      * destruct (match_at_cases _ _ _ E)
          as (m & rest & Hs & Hl & Hm & Hcase).
        subst len.
        assert (Hrest : length rest <= n).
        { apply (f_equal (@length N)) in Hs. rewrite length_app in Hs.
          destruct m; [contradiction|]. simpl in *. lia. }
        destruct (IH rest Hrest) as (r & Hsp & Hr).
        rewrite Hs in *.
        rewrite (pipe_links_match m rest node Hm E).
        destruct Hcase as [[Hp Hnode] | (Hp & t & h & Ht & Hh & -> & Hnode)].
        -- exists (m ++ r). rewrite Hp. split.
           ++ apply spans_kept; auto. now exists node.
           ++ intros pending.
              rewrite (scan_match _ pending _ _ _ eq_refl Hm E).
              apply render_nodes_flush.
              apply render_nodes_cons; [exact Hnode | apply (Hr [])].
        -- exists (wrap (Link h) t ++ r). rewrite Hp. split.
           ++ now apply spans_pipe.
           ++ intros pending.
              rewrite (scan_match _ pending _ _ _ eq_refl Hm E).
              apply render_nodes_flush.
              apply render_nodes_cons; [exact Hnode | apply (Hr [])].
      * assert (Hrest : length s' <= n) by (simpl in Hlen; lia).
        destruct (IH s' Hrest) as (r & Hsp & Hr).
        exists (c :: r). split.
        -- cbn [pipe_links]. rewrite E. now apply spans_unit.
        -- intros pending. rewrite (scan_no_match _ _ _ E).
           rewrite (Hr (pending ++ [c])). now rewrite <- app_assoc.
Qed.

Lemma spans_length (s r : str) (n : nat) :
  spans s r n -> length r = length s + n.
Proof.
  induction 1 as [|c s r n _ _ IH|m rest r n _ _ _ _ IH
                  |t h rest r n _ _ _ _ IH].
  - reflexivity.
  - simpl. now rewrite IH.
  - rewrite !length_app, IH. lia.
  - unfold pipe_form. cbn [wrap]. rewrite !length_app, IH. simpl. lia.
Qed.

Lemma spans_same (s r : str) (n : nat) : spans s r n -> n = 0 -> r = s.
Proof.
  induction 1 as [|c s r n _ _ IH|m rest r n _ _ _ _ IH
                  |t h rest r n _ _ _ _ IH]; intros Hn.
  - reflexivity.
  - now rewrite IH.
  - now rewrite IH.
  - discriminate.
Qed.

Lemma spans_nonempty (s r : str) (n : nat) :
  spans s r n -> s <> [] -> r <> [].
Proof.
  induction 1 as [|c s r n _ _ IH|m rest r n Hm _ _ _ IH
                  |t h rest r n _ _ _ _ IH]; intros Hs.
  - contradiction.
  - discriminate.
  - destruct m; [contradiction | discriminate].
  - discriminate.
Qed.

Lemma spans_nil_inv (s r : str) (n : nat) : spans s r n -> r = [] -> s = [].
Proof.
  induction 1 as [|c s r n _ _ IH|m rest r n Hm _ _ _ IH
                  |t h rest r n _ _ _ _ IH]; intros Hr.
  - reflexivity.
  - discriminate.
  - destruct m; [contradiction | discriminate].
  - discriminate.
Qed.

Lemma spans_from_nil (r : str) (n : nat) : spans [] r n -> r = [].
Proof.
  intros H. remember [] as s eqn:Es.
  destruct H as [|c s r n _ _|m rest r n Hm _ _ _|t h rest r n _ _ _ _];
    try discriminate; [reflexivity|].
  destruct m; [contradiction | discriminate].
Qed.

Lemma rendered_spans (t : str) :
  spans t (rendered t) (pipe_links t 0)
  /\ render_nodes (parseInlineContent t) = Ok (rendered t).
Proof.
  destruct (scan_spans (length t) t (le_n _)) as (r & Hsp & Hr).
  assert (H : render_nodes (parseInlineContent t) = Ok r).
  { unfold parseInlineContent.
    destruct (is_empty t) eqn:E.
    - destruct t; [|discriminate].
      now rewrite (spans_from_nil _ _ Hsp).
    - specialize (Hr []). cbn [app] in Hr.
      destruct (scan t 0 []) eqn:S; [|exact Hr].
      change (render_nodes []) with (Ok (@nil N)) in Hr.
      injection Hr as <-.
      rewrite (spans_nil_inv _ _ _ Hsp eq_refl) in E. discriminate. }
  unfold rendered. rewrite H. split; [exact Hsp | reflexivity].
Qed.

(** The rendering holds the code units of the text and, where a
    pipe-form link was, the brackets and parentheses of the bracket
    form. *)
Lemma spans_forallb (P : N -> bool) (s r : str) (n : nat) :
  P RBRACKET = true -> P LPAREN = true -> P RPAREN = true ->
  spans s r n -> forallb P s = true -> forallb P r = true.
Proof.
  intros Hb Hl Hr.
  induction 1 as [|c s r n _ _ IH|m rest r n _ _ _ _ IH
                  |t h rest r n _ _ _ _ IH]; intros H.
  - reflexivity.
  - cbn [forallb] in *. apply andb_true_iff in H as [Hc H].
    now rewrite Hc, IH.
  - rewrite forallb_app in *. apply andb_true_iff in H as [Hm H].
    now rewrite Hm, IH.
  - unfold pipe_form in H. cbn [wrap].
    rewrite !forallb_app in *.
    apply andb_true_iff in H as [H Hrest].
    apply andb_true_iff in H as [Hlb H].
    apply andb_true_iff in H as [Ht H].
    apply andb_true_iff in H as [_ H].
    apply andb_true_iff in H as [Hh _].
    rewrite Hlb, Ht, Hh, (IH Hrest). cbn [js map list_ascii_of_string forallb].
    change (N_of_ascii "]") with RBRACKET. change (N_of_ascii "(") with LPAREN.
    change (N_of_ascii ")") with RPAREN.
    now rewrite Hb, Hl, Hr.
Qed.

Lemma spans_head (s r : str) (n : nat) :
  spans s r n -> head_ok s = true -> head_ok r = true.
Proof.
  induction 1 as [|c s r n _ _ IH|m rest r n Hm _ _ _ IH
                  |t h rest r n _ _ _ _ IH]; intros H.
  - reflexivity.
  - exact H.
  - destruct m; [contradiction | exact H].
  - reflexivity.
Qed.

Lemma head_ok_rev_cons (c : N) (s : str) :
  head_ok (rev (c :: s))
  = match s with [] => negb (is_ws c) | _ => head_ok (rev s) end.
Proof.
  destruct s as [|d s]; [reflexivity|].
  change (c :: d :: s) with ([c] ++ d :: s).
  apply head_ok_rev_app. discriminate.
Qed.

Lemma spans_last (s r : str) (n : nat) :
  spans s r n -> head_ok (rev s) = true -> head_ok (rev r) = true.
Proof.
  induction 1 as [|c s r n _ Hsp IH|m rest r n Hm _ _ Hsp IH
                  |t h rest r n _ _ _ Hsp IH]; intros H.
  - reflexivity.
  - rewrite head_ok_rev_cons in *.
    destruct r as [|d r].
    + rewrite (spans_nil_inv _ _ _ Hsp eq_refl) in H. exact H.
    + destruct s as [|e s]; [discriminate (spans_from_nil _ _ Hsp)|].
      now apply IH.
  - destruct r as [|d r].
    + rewrite (spans_nil_inv _ _ _ Hsp eq_refl) in H. exact H.
    + destruct rest as [|e rest]; [discriminate (spans_from_nil _ _ Hsp)|].
      rewrite head_ok_rev_app in * by discriminate. now apply IH.
  - destruct r as [|d r].
    + rewrite app_nil_r. cbn [wrap].
      rewrite !app_assoc. rewrite head_ok_rev_app by discriminate.
      reflexivity.
    + destruct rest as [|e rest]; [discriminate (spans_from_nil _ _ Hsp)|].
      rewrite head_ok_rev_app in * by discriminate. now apply IH.
Qed.

(** The rendering is the text itself, or the two agree up to an opening
    bracket. *)
Lemma spans_prefix (s r : str) (n : nat) :
  spans s r n ->
  r = s \/ exists p u v, s = p ++ LBRACKET :: u /\ r = p ++ LBRACKET :: v.
Proof.
  induction 1 as [|c s r n _ _ IH|m rest r n _ _ _ _ IH
                  |t h rest r n _ _ _ _ IH].
  - now left.
  - destruct IH as [-> | (p & u & v & -> & ->)]; [now left|].
    right. now exists (c :: p), u, v.
  - destruct IH as [-> | (p & u & v & -> & ->)]; [now left|].
    right. exists (m ++ p), u, v. now rewrite <- !app_assoc.
  - right. exists [], (t ++ js "|" ++ h ++ js "]" ++ rest),
      (t ++ js "](" ++ h ++ js ")" ++ r).
    unfold pipe_form. cbn [wrap]. rewrite <- !app_assoc. split; reflexivity.
Qed.

Lemma rendered_total (t : str) :
  render_nodes (parseInlineContent t) = Ok (rendered t).
Proof. apply rendered_spans. Qed.

Lemma rendered_length (t : str) :
  length (rendered t) = length t + pipe_links t 0.
Proof. apply (spans_length _ _ _ (proj1 (rendered_spans t))). Qed.

(** A text is rendered as it is exactly when the tokenizer finds no
    pipe-form link in it. *)
Lemma rendered_same (t : str) : rendered t = t <-> pipe_links t 0 = 0.
Proof.
  split.
  - intros H. pose proof (rendered_length t) as L. rewrite H in L. lia.
  - apply (spans_same _ _ _ (proj1 (rendered_spans t))).
Qed.

Lemma rendered_nonempty (t : str) : t <> [] -> rendered t <> [].
Proof. apply (spans_nonempty _ _ _ (proj1 (rendered_spans t))). Qed.

Lemma rendered_head (t : str) : head_ok t = true -> head_ok (rendered t) = true.
Proof. apply (spans_head _ _ _ (proj1 (rendered_spans t))). Qed.

Lemma rendered_last (t : str) :
  head_ok (rev t) = true -> head_ok (rev (rendered t)) = true.
Proof. apply (spans_last _ _ _ (proj1 (rendered_spans t))). Qed.

Lemma rendered_no_lf (t : str) :
  no_char LF t = true -> no_char LF (rendered t) = true.
Proof.
  apply (spans_forallb (is_not LF) _ _ _ eq_refl eq_refl eq_refl
           (proj1 (rendered_spans t))).
Qed.

Lemma rendered_no_lt (t : str) : no_lt t = true -> no_lt (rendered t) = true.
Proof.
  apply (spans_forallb (fun c => negb (is_lt c)) _ _ _ eq_refl eq_refl eq_refl
           (proj1 (rendered_spans t))).
Qed.

Lemma is_empty_false (t : str) : negb (is_empty t) = true <-> t <> [].
Proof. destruct t; split; try discriminate; try contradiction; auto. Qed.

Lemma fair_text_parts (t : str) :
  fair_text t = true <->
  t <> [] /\ no_char LF t = true /\ head_ok (rev t) = true.
Proof.
  unfold fair_text. rewrite !andb_true_iff, is_empty_false. tauto.
Qed.

Lemma fair_text_rendered (t : str) :
  fair_text t = true -> fair_text (rendered t) = true.
Proof.
  rewrite !fair_text_parts. intros (Hne & Hlf & Hl).
  repeat split;
    [now apply rendered_nonempty | now apply rendered_no_lf
     | now apply rendered_last].
Qed.

(* ================================================================== *)
(** * The tests of the line loop up to an opening bracket *)
(* ================================================================== *)

(** No test of the loop reads past an opening bracket: two lines that
    agree up to one fall through the same tests. *)
Lemma span_bracket (P : N -> bool) (p u : str) :
  P LBRACKET = false ->
  span P (p ++ LBRACKET :: u)
  = (fst (span P p), snd (span P p) ++ LBRACKET :: u).
Proof.
  intros Hb. induction p as [|c p IH]; cbn [app span].
  - now rewrite Hb.
  - destruct (P c); [|reflexivity].
    rewrite IH. destruct (span P p). reflexivity.
Qed.

Lemma ws_then_text_bracket (p u : str) :
  ws_then_text (p ++ LBRACKET :: u) = None <-> fst (span is_ws p) = [].
Proof.
  unfold ws_then_text. rewrite span_bracket by reflexivity.
  destruct (span is_ws p) as [w r]. cbn [fst snd].
  destruct w as [|x w]; [tauto|].
  destruct r; cbn [app]; split; discriminate.
Qed.

Lemma ws_then_text_agree (p u v : str) :
  ws_then_text (p ++ LBRACKET :: u) = None ->
  ws_then_text (p ++ LBRACKET :: v) = None.
Proof. rewrite !ws_then_text_bracket. auto. Qed.

Lemma jiraHeading_agree (p u v : str) :
  jiraHeading (p ++ LBRACKET :: u) = None ->
  jiraHeading (p ++ LBRACKET :: v) = None.
Proof.
  destruct p as [|h [|d [|x p]]]; cbn [app].
  - intros _. unfold jiraHeading. destruct v as [|d [|x r]]; reflexivity.
  - intros _. unfold jiraHeading. destruct v as [|x r]; [reflexivity|].
    change (N.leb 49 LBRACKET && N.leb LBRACKET 54) with false.
    now rewrite andb_false_r.
  - intros _. unfold jiraHeading.
    change (N.eqb LBRACKET DOT) with false. now rewrite andb_false_r.
  - unfold jiraHeading.
    destruct (N.eqb h LOWER_H && (N.leb 49 d && N.leb d 54) && N.eqb x DOT);
      [|reflexivity].
    destruct (ws_then_text (p ++ LBRACKET :: u)) eqn:W; [discriminate|].
    intros _. now rewrite (ws_then_text_agree _ _ v W).
Qed.

Lemma mdHeading_agree (p u v : str) :
  mdHeading (p ++ LBRACKET :: u) = None ->
  mdHeading (p ++ LBRACKET :: v) = None.
Proof.
  unfold mdHeading. rewrite !span_bracket by reflexivity.
  destruct (span (N.eqb HASH) p) as [hs r]. cbn [fst snd].
  destruct ((1 <=? length hs) && (length hs <=? 6)); [|reflexivity].
  destruct (ws_then_text (r ++ LBRACKET :: u)) eqn:W; [discriminate|].
  intros _. now rewrite (ws_then_text_agree _ _ v W).
Qed.

Lemma ordered_marker_agree (p u v : str) :
  ordered_marker (p ++ LBRACKET :: u) = None ->
  ordered_marker (p ++ LBRACKET :: v) = None.
Proof.
  unfold ordered_marker. rewrite !span_bracket by reflexivity.
  destruct (span is_digit p) as [ds r]. cbn [fst snd].
  destruct ds as [|d ds]; [reflexivity|].
  destruct r as [|x r]; cbn [app]; [reflexivity|].
  destruct (N.eqb x DOT); [|reflexivity].
  rewrite !span_bracket by reflexivity.
  destruct (span is_ws r) as [w r']. cbn [fst snd].
  destruct w; [reflexivity | discriminate].
Qed.

Lemma startsWith_agree (lit p u v : str) :
  no_char LBRACKET lit = true ->
  startsWith lit (p ++ LBRACKET :: u) = startsWith lit (p ++ LBRACKET :: v).
Proof.
  revert lit; induction p as [|c p IH]; intros lit H.
  - destruct lit as [|x lit]; [reflexivity|]. cbn [app startsWith].
    cbn [no_char forallb] in H. apply andb_true_iff in H as [Hx _].
    unfold is_not in Hx. apply negb_true_iff in Hx. now rewrite Hx.
  - destruct lit as [|x lit]; [reflexivity|]. cbn [app startsWith].
    cbn [no_char forallb] in H. apply andb_true_iff in H as [_ H].
    now rewrite (IH lit H).
Qed.

Lemma str_eqb_bracket (lit p u : str) :
  no_char LBRACKET lit = true -> str_eqb (p ++ LBRACKET :: u) lit = false.
Proof.
  revert lit; induction p as [|c p IH]; intros lit H.
  - destruct lit as [|x lit]; [reflexivity|]. cbn [app str_eqb].
    cbn [no_char forallb] in H. apply andb_true_iff in H as [Hx _].
    unfold is_not in Hx. apply negb_true_iff in Hx.
    rewrite N.eqb_sym, Hx. reflexivity.
  - destruct lit as [|x lit]; [reflexivity|]. cbn [app str_eqb].
    cbn [no_char forallb] in H. apply andb_true_iff in H as [_ H].
    rewrite (IH lit H). apply andb_false_r.
Qed.

Lemma paragraph_line_agree (p u v : str) :
  trimmed (p ++ LBRACKET :: u) = true ->
  trimmed (p ++ LBRACKET :: v) = true ->
  is_paragraph_line (p ++ LBRACKET :: u) = true ->
  is_paragraph_line (p ++ LBRACKET :: v) = true.
Proof.
  intros Hu Hv. unfold is_paragraph_line.
  rewrite !classify_unfold
    by (try (now apply trim_id); destruct p; discriminate).
  destruct (jiraHeading (p ++ LBRACKET :: u)) as [[l t]|] eqn:J;
    [discriminate|].
  rewrite (jiraHeading_agree _ _ v J).
  destruct (mdHeading (p ++ LBRACKET :: u)) as [[l t]|] eqn:M;
    [discriminate|].
  rewrite (mdHeading_agree _ _ v M).
  rewrite (startsWith_agree (js "* ") p v u), (startsWith_agree (js "- ") p v u)
    by reflexivity.
  destruct (startsWith (js "* ") (p ++ LBRACKET :: u)
            || startsWith (js "- ") (p ++ LBRACKET :: u)); [discriminate|].
  destruct (ordered_marker (p ++ LBRACKET :: u)) as [t|] eqn:O;
    [discriminate|].
  rewrite (ordered_marker_agree _ _ v O).
  rewrite (startsWith_agree (js "> ") p v u), (startsWith_agree FENCE p v u)
    by reflexivity.
  destruct (startsWith (js "> ") (p ++ LBRACKET :: u)); [discriminate|].
  rewrite !str_eqb_bracket by reflexivity. cbn [orb].
  destruct (startsWith FENCE (p ++ LBRACKET :: u)); [discriminate|].
  intros _. apply str_eqb_refl.
Qed.

Lemma paragraph_line_rendered (t : str) :
  trimmed t = true -> is_paragraph_line t = true ->
  is_paragraph_line (rendered t) = true.
Proof.
  intros Ht Hp. apply trimmed_parts in Ht as Hparts.
  destruct Hparts as [Hh Hl].
  assert (Hr : trimmed (rendered t) = true).
  { unfold trimmed. now rewrite rendered_head, rendered_last. }
  destruct (spans_prefix _ _ _ (proj1 (rendered_spans t)))
    as [-> | (p & u & v & Es & Er)]; [exact Hp|].
  rewrite Er in *. rewrite Es in Ht, Hp.
  now apply (paragraph_line_agree p u v).
Qed.

(* ================================================================== *)
(** * Rendering the blocks of any document of the parser *)
(* ================================================================== *)

Lemma blockNodeToText_bullets_any (ts : list str) :
  blockNodeToText (list_node "bulletList" (map (run_item RBullet) ts))
  = Ok (join [LF] (run_lines RBullet (map rendered ts))).
Proof.
  change (blockNodeToText (list_node "bulletList" (map (run_item RBullet) ts)))
    with (items <- mapM (fun item =>
             let* ic := item.["content"] in
             parts <- map_or_empty (fun c => blockNodeToText c) ic ;;
             Ok (js "- " ++ join [LF] parts)) (map (run_item RBullet) ts) ;;
          Ok (join [LF] items)).
  set (f := fun item : value => _).
  assert (E : mapM f (map (run_item RBullet) ts)
              = Ok (run_lines RBullet (map rendered ts))).
  { induction ts as [|t ts IH]; [reflexivity|].
    cbn [map mapM run_lines]. cbn [run_lines] in IH. rewrite IH.
    assert (Ef : f (run_item RBullet t) = Ok (js "- " ++ rendered t)).
    { subst f. cbn [run_item].
      change (get (js "content") ?k (listItem ?c)) with (k (VArr [paragraph c])).
      cbn beta. cbn [map_or_empty].
      rewrite (blockNodeToText_listItem_paragraph _ _ (rendered_total t)).
      reflexivity. }
    rewrite Ef. reflexivity. }
  rewrite E. reflexivity.
Qed.

Lemma blockNodeToText_ordered_any (ts : list str) :
  blockNodeToText (list_node "orderedList" (map (run_item ROrdered) ts))
  = Ok (join [LF] (run_lines ROrdered (map rendered ts))).
Proof.
  change (blockNodeToText
            (list_node "orderedList" (map (run_item ROrdered) ts)))
    with (items <- mapiM (fun i item =>
             let* ic := item.["content"] in
             parts <- map_or_empty (fun c => blockNodeToText c) ic ;;
             Ok (decimal (N.of_nat (i + 1)) ++ js ". " ++ join [LF] parts))
             0 (map (run_item ROrdered) ts) ;;
          Ok (join [LF] items)).
  set (f := fun (i : nat) (item : value) => _).
  assert (E : forall start,
             mapiM f start (map (run_item ROrdered) ts)
             = Ok (numbered start (map rendered ts))).
  { induction ts as [|t ts IH]; intros start; [reflexivity|].
    cbn [map mapiM numbered]. rewrite IH.
    assert (Ef : f start (run_item ROrdered t)
                 = Ok (decimal (N.of_nat (start + 1)) ++ js ". "
                       ++ rendered t)).
    { subst f. cbn [run_item].
      change (get (js "content") ?k (listItem ?c)) with (k (VArr [paragraph c])).
      cbn beta. cbn [map_or_empty].
      rewrite (blockNodeToText_listItem_paragraph _ _ (rendered_total t)).
      reflexivity. }
    rewrite Ef. reflexivity. }
  unfold run_lines. rewrite E. reflexivity.
Qed.

Lemma blockNodeToText_quote_any (ts : list str) :
  blockNodeToText (list_node "blockquote" (map (run_item RQuote) ts))
  = Ok (join [LF] (run_lines RQuote (map rendered ts))).
Proof.
  change (blockNodeToText (list_node "blockquote" (map (run_item RQuote) ts)))
    with (items <- mapM (fun c =>
             t <- blockNodeToText c ;; Ok (js "> " ++ t))
             (map (run_item RQuote) ts) ;;
          Ok (join [LF] items)).
  set (f := fun c : value => _).
  assert (E : mapM f (map (run_item RQuote) ts)
              = Ok (run_lines RQuote (map rendered ts))).
  { induction ts as [|t ts IH]; [reflexivity|].
    cbn [map mapM run_lines]. cbn [run_lines] in IH. rewrite IH.
    assert (Ef : f (run_item RQuote t) = Ok (js "> " ++ rendered t)).
    { subst f. cbn [run_item].
      rewrite blockNodeToText_paragraph, (rendered_total t). reflexivity. }
    rewrite Ef. reflexivity. }
  rewrite E. reflexivity.
Qed.

(** What the renderer writes for a block of the parser: the lines of the
    block with each text as rendered. *)
Lemma blockNodeToText_fair (b : sblock) :
  fair b = true ->
  blockNodeToText (to_node b) = Ok (block_text (render_block b)).
Proof.
  destruct b as [t|level t|r ts|text lang|]; cbn [fair to_node render_block];
    intros H.
  - rewrite blockNodeToText_paragraph. apply rendered_total.
  - apply andb_true_iff in H as [H _]. apply andb_true_iff in H as [H _].
    apply andb_true_iff in H as [H _]. apply andb_true_iff in H as [H1 H6].
    apply Z.leb_le in H1, H6.
    rewrite blockNodeToText_heading by lia.
    rewrite (rendered_total t). reflexivity.
  - destruct r;
      [apply blockNodeToText_bullets_any | apply blockNodeToText_ordered_any
       | apply blockNodeToText_quote_any].
  - rewrite blockNodeToText_codeBlock, block_text_code. reflexivity.
  - reflexivity.
Qed.

Lemma forallb_map_rendered (P : str -> bool) (ts : list str) :
  (forall t, P t = true -> P (rendered t) = true) ->
  forallb P ts = true -> forallb P (map rendered ts) = true.
Proof.
  intros HP. induction ts as [|t ts IH]; [reflexivity|].
  cbn [map forallb]. intros H. apply andb_true_iff in H as [Ht Hts].
  now rewrite (HP t Ht), (IH Hts).
Qed.

(** Rendering keeps what the parser will need to read the block
    again. *)
Lemma fair_render_block (b : sblock) :
  fair b = true -> fair (render_block b) = true.
Proof.
  destruct b as [t|level t|r ts|text lang|]; cbn [fair render_block];
    intros H; try exact H.
  - apply andb_true_iff in H as [H Hp]. apply andb_true_iff in H as [Ht Hh].
    rewrite (fair_text_rendered t Ht), (rendered_head t Hh).
    rewrite paragraph_line_rendered; [reflexivity| |exact Hp].
    apply fair_text_parts in Ht as (_ & _ & Hl).
    unfold trimmed. now rewrite Hh, Hl.
  - apply andb_true_iff in H as [H Hh]. apply andb_true_iff in H as [H Hlt].
    apply andb_true_iff in H as [Hl Hne]. rewrite Hl.
    rewrite (rendered_no_lt t Hlt), (rendered_head t Hh).
    apply is_empty_false in Hne.
    rewrite (proj2 (is_empty_false _) (rendered_nonempty t Hne)).
    reflexivity.
  - apply andb_true_iff in H as [Hne H].
    apply andb_true_iff. split; [destruct ts; [discriminate | reflexivity]|].
    apply forallb_map_rendered; [|exact H].
    intros t Ht. apply andb_true_iff in Ht as [Ht Hh].
    rewrite (fair_text_rendered t Ht).
    destruct r; try reflexivity. now rewrite (rendered_head t Hh).
Qed.

Lemma forallb_fair_rev (rbs : list sblock) :
  forallb fair rbs = true -> forallb fair (rev rbs) = true.
Proof.
  rewrite !forallb_forall. intros H b Hb. apply H. now apply in_rev.
Qed.

Lemma forallb_fair_render (bs : list sblock) :
  forallb fair bs = true -> forallb fair (map render_block bs) = true.
Proof.
  induction bs as [|b bs IH]; [reflexivity|]. cbn [map forallb].
  intros H. apply andb_true_iff in H as [Hb Hbs].
  now rewrite (fair_render_block b Hb), (IH Hbs).
Qed.

(** The text rendered for the document of any blocks of the parser. *)
Lemma adfToText_blocks (rbs : list sblock) :
  forallb fair rbs = true ->
  adfToText (doc (nodes_of rbs))
  = Ok (join [LF; LF] (map block_text (map render_block (rev rbs)))).
Proof.
  intros H. rewrite adfToText_doc. unfold nodes_of.
  apply forallb_fair_rev in H.
  assert (E : mapM blockNodeToText (map to_node (rev rbs))
              = Ok (map block_text (map render_block (rev rbs)))).
  { induction (rev rbs) as [|b bs IH]; [reflexivity|].
    cbn [forallb] in H. apply andb_true_iff in H as [Hb Hbs].
    cbn [map mapM]. rewrite (blockNodeToText_fair b Hb), (IH Hbs).
    reflexivity. }
  rewrite E. reflexivity.
Qed.

(* ================================================================== *)
(** * The lines of any rendered document *)
(* ================================================================== *)

Lemma fair_text_no_lf (t : str) : fair_text t = true -> no_char LF t = true.
Proof. intros H. now apply fair_text_parts in H as (_ & H & _). Qed.

Lemma fair_run_texts (r : run_kind) (ts : list str) :
  fair (SRun r ts) = true -> ts <> [] /\ forallb fair_text ts = true.
Proof.
  cbn [fair]. intros H. apply andb_true_iff in H as [Hne H].
  split; [destruct ts; [discriminate | discriminate]|].
  rewrite forallb_forall in *. intros t Ht. specialize (H t Ht).
  now apply andb_true_iff in H as [H _].
Qed.

Lemma numbered_no_lf_any (ts : list str) :
  forallb fair_text ts = true ->
  forall start, forallb (no_char LF) (numbered start ts) = true.
Proof.
  induction ts as [|t ts IH]; intros H start; [reflexivity|].
  cbn [forallb] in H. apply andb_true_iff in H as [Ht Hts].
  cbn [numbered forallb]. rewrite (IH Hts), andb_true_r.
  rewrite !no_char_app, (fair_text_no_lf t Ht).
  rewrite (digits_no_lf _ (decimal_digits _)). reflexivity.
Qed.

Lemma run_lines_no_lf_any (r : run_kind) (ts : list str) :
  forallb fair_text ts = true -> forallb (no_char LF) (run_lines r ts) = true.
Proof.
  intros H. destruct r; cbn [run_lines].
  - rewrite forallb_forall in *. intros l Hl.
    apply in_map_iff in Hl as (t & <- & Ht).
    rewrite no_char_app, (fair_text_no_lf t (H t Ht)). reflexivity.
  - now apply numbered_no_lf_any.
  - rewrite forallb_forall in *. intros l Hl.
    apply in_map_iff in Hl as (t & <- & Ht).
    rewrite no_char_app, (fair_text_no_lf t (H t Ht)). reflexivity.
Qed.

Lemma block_lines_fair (b : sblock) :
  fair b = true ->
  forallb (no_char LF) (block_lines b) = true /\ block_lines b <> [].
Proof.
  destruct b as [t|level t|r ts|text lang|]; intros H.
  - cbn [fair] in H. apply andb_true_iff in H as [H _].
    apply andb_true_iff in H as [H _].
    split; [|discriminate]. cbn [block_lines forallb].
    now rewrite (fair_text_no_lf t H).
  - cbn [fair] in H. apply andb_true_iff in H as [H _].
    apply andb_true_iff in H as [_ H].
    split; [|discriminate]. cbn [block_lines forallb].
    rewrite !no_char_app, repeat_no_lf, (no_lt_no_lf t H). reflexivity.
  - apply fair_run_texts in H as [Hne H]. split.
    + now apply run_lines_no_lf_any.
    + now apply run_lines_nonempty.
  - split; [|discriminate]. cbn [block_lines forallb].
    rewrite forallb_app, split_lines_no_lf. cbn [forallb].
    rewrite no_char_app. cbn [fair] in H.
    apply andb_true_iff in H as [_ H].
    destruct lang as [tag|]; [|reflexivity]. cbn [fence_tag].
    apply andb_true_iff in H as [_ H]. now rewrite H.
  - split; [reflexivity | discriminate].
Qed.

Lemma split_lines_blocks (bs : list sblock) :
  forallb fair bs = true -> bs <> [] ->
  split_lines (join [LF; LF] (map block_text bs)) = doc_lines bs.
Proof.
  induction bs as [|b bs IH]; [contradiction|]. intros H _.
  cbn [forallb] in H. apply andb_true_iff in H as [Hb Hbs].
  destruct (block_lines_fair b Hb) as [Hlf Hne].
  assert (Eb : split_lines (block_text b) = block_lines b)
    by now apply split_lines_join.
  destruct bs as [|b' bs]; [exact Eb|].
  cbn [map]. rewrite join_cons by discriminate.
  change ([LF; LF] ++ ?j) with (LF :: LF :: j).
  rewrite split_lines_app, Eb.
  change (LF :: ?j) with ([] ++ LF :: j).
  rewrite split_lines_app. cbn [split_lines app].
  change (doc_lines (b :: b' :: bs))
    with (block_lines b ++ [] :: doc_lines (b' :: bs)).
  rewrite <- IH by (assumption || discriminate). reflexivity.
Qed.

(* ================================================================== *)
(** * Parsing the lines of any rendered document *)
(* ================================================================== *)

Lemma dropWhile_app_stop (p : N -> bool) (a b : str) :
  dropWhile p a <> [] -> dropWhile p (a ++ b) = dropWhile p a ++ b.
Proof.
  induction a as [|c a IH]; cbn [dropWhile app]; [contradiction|].
  destruct (p c); [exact IH | reflexivity].
Qed.

Lemma dropWhile_rev_head (t : str) :
  t <> [] -> head_ok t = true -> dropWhile is_ws (rev t) <> [].
Proof.
  intros Hne Hh E. apply dropWhile_nil, forallb_rev in E.
  rewrite rev_involutive in E. destruct t as [|c t]; [contradiction|].
  cbn [forallb] in E. apply andb_true_iff in E as [E _].
  cbn [head_ok] in Hh. rewrite E in Hh. discriminate.
Qed.

(** Trimming a line made of a marker and a text trims the text. *)
Lemma trim_marked (c : N) (a t : str) :
  is_ws c = false -> t <> [] -> head_ok t = true ->
  trim ((c :: a) ++ t) = (c :: a) ++ trim t.
Proof.
  intros Hc Hne Hh. unfold trim.
  rewrite (dropWhile_id t Hh).
  assert (E : dropWhile is_ws ((c :: a) ++ t) = (c :: a) ++ t).
  { cbn [app dropWhile]. now rewrite Hc. }
  rewrite E, rev_app_distr.
  rewrite dropWhile_app_stop by now apply dropWhile_rev_head.
  now rewrite rev_app_distr, rev_involutive.
Qed.

Lemma trim_text (t : str) :
  t <> [] -> head_ok t = true ->
  trim t <> [] /\ head_ok (trim t) = true /\ head_ok (rev (trim t)) = true.
Proof.
  intros Hne Hh. pose proof (trim_trimmed t) as Ht.
  apply trimmed_parts in Ht as [H1 H2]. repeat split; auto.
  unfold trim. rewrite (dropWhile_id t Hh). intros E.
  apply (f_equal (@rev N)) in E. rewrite rev_involutive in E. cbn [rev] in E.
  now apply (dropWhile_rev_head t Hne Hh).
Qed.

Lemma classify_heading_trimmed (level : Z) (t : str) :
  (1 <= level <= 6)%Z ->
  t <> [] -> no_lt t = true -> head_ok t = true -> head_ok (rev t) = true ->
  classify (repeat_unit HASH (Z.to_nat level) ++ js " " ++ t)
  = KHeading level t.
Proof.
  intros Hl Hne Hlt Hh Hlast.
  destruct (Z.to_nat level) as [|n] eqn:En; [lia|].
  assert (Hline : repeat_unit HASH (S n) ++ js " " ++ t
                  = (HASH :: repeat_unit HASH n ++ js " ") ++ t).
  { cbn [repeat_unit repeat app]. unfold repeat_unit.
    now rewrite <- app_assoc. }
  rewrite classify_unfold.
  2:{ rewrite Hline. now apply trim_prefixed. }
  2:{ discriminate. }
  cbn [repeat_unit repeat app]. rewrite jiraHeading_first by reflexivity.
  unfold mdHeading.
  change (HASH :: repeat HASH n ++ js " " ++ t)
    with (repeat HASH (S n) ++ SPACE :: t).
  rewrite span_app_stop; [| |reflexivity].
  2:{ clear. induction (S n); simpl; auto. }
  rewrite repeat_length.
  assert (Hn : (1 <=? S n) && (S n <=? 6) = true).
  { apply andb_true_iff. split; apply Nat.leb_le; lia. }
  rewrite Hn, ws_then_text_space by assumption.
  rewrite <- En, Z2Nat.id by lia. reflexivity.
Qed.

(** The line of a heading is read as a heading of the same level with
    the text trimmed. *)
Lemma classify_heading_any (level : Z) (t : str) :
  (1 <= level <= 6)%Z ->
  t <> [] -> no_lt t = true -> head_ok t = true ->
  classify (repeat_unit HASH (Z.to_nat level) ++ js " " ++ t)
  = KHeading level (trim t).
Proof.
  intros Hl Hne Hlt Hh.
  destruct (trim_text t Hne Hh) as (Tne & Th & Tl).
  rewrite <- classify_trim.
  destruct (Z.to_nat level) as [|n] eqn:En; [lia|].
  assert (Hline : repeat_unit HASH (S n) ++ js " " ++ t
                  = (HASH :: repeat_unit HASH n ++ js " ") ++ t).
  { cbn [repeat_unit repeat app]. unfold repeat_unit.
    now rewrite <- app_assoc. }
  rewrite Hline, trim_marked by (reflexivity || assumption).
  replace ((HASH :: repeat_unit HASH n ++ js " ") ++ trim t)
    with (repeat_unit HASH (Z.to_nat level) ++ js " " ++ trim t).
  2:{ rewrite En. cbn [repeat_unit repeat app]. unfold repeat_unit.
      now rewrite <- app_assoc. }
  apply classify_heading_trimmed; try assumption.
  now apply forallb_trim.
Qed.

Lemma classify_bullet_any (t : str) :
  fair_text t = true -> classify (js "- " ++ t) = KBullet t.
Proof.
  intros Ht. apply fair_text_parts in Ht as (Hne & _ & Hlast).
  rewrite classify_unfold.
  2:{ now apply (trim_prefixed DASH [SPACE] t). }
  2:{ discriminate. }
  change (js "- " ++ t) with (DASH :: SPACE :: t).
  rewrite jiraHeading_first, mdHeading_first by reflexivity.
  reflexivity.
Qed.

Lemma classify_quote_any (t : str) :
  fair_text t = true -> classify (js "> " ++ t) = KQuote t.
Proof.
  intros Ht. apply fair_text_parts in Ht as (Hne & _ & Hlast).
  rewrite classify_unfold.
  2:{ now apply (trim_prefixed GT [SPACE] t). }
  2:{ discriminate. }
  change (js "> " ++ t) with (GT :: SPACE :: t).
  rewrite jiraHeading_first, mdHeading_first, ordered_marker_first
    by reflexivity.
  reflexivity.
Qed.

Lemma classify_ordered_any (n : N) (t : str) :
  fair_text t = true -> head_ok t = true ->
  classify (decimal n ++ js ". " ++ t) = KOrdered t.
Proof.
  intros Ht Hh. apply fair_text_parts in Ht as (Hne & _ & Hlast).
  pose proof (decimal_digits n) as Hd.
  pose proof (decimal_nonempty n) as Hdn.
  destruct (decimal n) as [|d ds] eqn:E; [contradiction|].
  cbn [forallb] in Hd. apply andb_true_iff in Hd as [Hd Hds].
  destruct (digit_facts d Hd) as (Hws & Hh' & Hhash & Hstar & Hdash & _ & _).
  assert (Hline : (d :: ds) ++ js ". " ++ t = (d :: ds ++ js ". ") ++ t).
  { cbn [app]. now rewrite <- app_assoc. }
  rewrite classify_unfold.
  2:{ rewrite Hline. now apply trim_prefixed. }
  2:{ discriminate. }
  cbn [app]. rewrite jiraHeading_first, mdHeading_first by assumption.
  change (js "* ") with [STAR; SPACE]. change (js "- ") with [DASH; SPACE].
  rewrite !startsWith_head by assumption. cbn [orb].
  unfold ordered_marker.
  change (d :: ds ++ js ". " ++ t) with ((d :: ds) ++ DOT :: SPACE :: t).
  rewrite span_app_stop; [| |reflexivity].
  2:{ cbn [forallb]. now rewrite Hd, Hds. }
  rewrite N.eqb_refl.
  destruct t as [|c t]; [contradiction|].
  cbn [head_ok] in Hh. apply negb_true_iff in Hh.
  cbn [span]. change (is_ws SPACE) with true. cbv iota.
  rewrite Hh. reflexivity.
Qed.

Lemma classify_code_any (text : str) (lang : option str) :
  fair (SCode text lang) = true ->
  classify (js "```" ++ fence_tag lang) = KFence lang.
Proof.
  cbn [fair]. intros H. apply andb_true_iff in H as [_ H].
  destruct lang as [tag|]; [|reflexivity].
  apply andb_true_iff in H as [H _]. apply andb_true_iff in H as [Hne Htr].
  cbn [fence_tag].
  assert (Hne' : tag <> []) by (destruct tag; [discriminate | discriminate]).
  assert (Hlast : head_ok (rev tag) = true).
  { unfold trimmed in Htr. now apply andb_true_iff in Htr as [_ Htr]. }
  assert (Htrim : trim (js "```" ++ tag) = js "```" ++ tag).
  { now apply (trim_prefixed BACKTICK [BACKTICK; BACKTICK] tag). }
  rewrite classify_fence by (rewrite Htrim; reflexivity).
  rewrite Htrim. unfold fence_lang.
  destruct tag as [|c tag]; [contradiction|].
  cbn [js map list_ascii_of_string app length Nat.ltb Nat.leb substring skipn].
  now rewrite (trim_id _ Htr).
Qed.

Lemma numbered_classify_any (ts : list str) :
  forallb (fun t => fair_text t && head_ok t) ts = true ->
  forall start,
    Forall2 (fun l t => classify l = KOrdered t) (numbered start ts) ts.
Proof.
  induction ts as [|t ts IH]; intros H start; [constructor|].
  cbn [forallb] in H. apply andb_true_iff in H as [Ht Hts].
  apply andb_true_iff in Ht as [Ht Hh].
  cbn [numbered]. constructor; [|now apply IH].
  now apply classify_ordered_any.
Qed.

Lemma run_lines_classify_any (r : run_kind) (ts : list str) :
  fair (SRun r ts) = true ->
  Forall2 (fun l t => classify l = line_kind_of r t) (run_lines r ts) ts.
Proof.
  cbn [fair]. intros H. apply andb_true_iff in H as [_ H].
  destruct r; cbn [run_lines line_kind_of].
  - induction ts as [|t ts IH]; [constructor|].
    cbn [forallb] in H. apply andb_true_iff in H as [Ht Hts].
    rewrite andb_true_r in Ht.
    cbn [map]. constructor; [now apply classify_bullet_any | now apply IH].
  - now apply numbered_classify_any.
  - induction ts as [|t ts IH]; [constructor|].
    cbn [forallb] in H. apply andb_true_iff in H as [Ht Hts].
    rewrite andb_true_r in Ht.
    cbn [map]. constructor; [now apply classify_quote_any | now apply IH].
Qed.

Lemma adjacent_reread (b : sblock) (rbs : list sblock) :
  no_adjacent_runs (reread b :: rbs) = no_adjacent_runs (b :: rbs).
Proof. destruct b; reflexivity. Qed.

(** Parsing the lines a block is rendered as pushes the block as it is
    read. *)
Lemma reparse_block_any (b : sblock) (rbs : list sblock) (rest : list str) :
  fair b = true -> no_adjacent_runs (b :: rbs) = true ->
  parseLines (block_lines b ++ rest) (nodes_of rbs)
  = parseLines rest (nodes_of (reread b :: rbs)).
Proof.
  intros Hg Hadj. destruct b as [t|level t|r ts|text lang|];
    cbn [reread].
  - cbn [block_lines app]. cbn [fair] in Hg.
    apply andb_true_iff in Hg as [_ Hp]. unfold is_paragraph_line in Hp.
    destruct (classify t) as [| | | | | | |t'] eqn:E; try discriminate.
    apply str_eqb_eq in Hp. subst t'.
    now rewrite (parse_line_kind t _ _ _ E) by discriminate.
  - cbn [block_lines app]. cbn [fair] in Hg.
    apply andb_true_iff in Hg as [Hg Hh]. apply andb_true_iff in Hg as [Hg Ht].
    apply andb_true_iff in Hg as [Hg Hne].
    apply andb_true_iff in Hg as [H1 H6]. apply Z.leb_le in H1, H6.
    apply is_empty_false in Hne.
    rewrite (parse_line_kind _ (KHeading level (trim t))); try discriminate;
      [reflexivity|].
    apply classify_heading_any; [lia | assumption | assumption | assumption].
  - pose proof (run_lines_classify_any r ts Hg) as Hc.
    cbn [block_lines]. destruct Hc as [|l t lines ts' Hl Hrest].
    + cbn [fair is_empty_list negb andb] in Hg. discriminate.
    + cbn [app].
      rewrite (parse_line_kind l _ _ _ Hl (line_kind_of_not_fence r t)).
      rewrite (semit_run_first r t (t :: ts') rbs Hadj).
      now rewrite (reparse_run_rest r lines ts' Hrest [t] rbs rest).
  - cbn [block_lines app]. rewrite parseLines_step.
    rewrite (classify_code_any text lang Hg).
    cbn [fair] in Hg. apply andb_true_iff in Hg as [Hbody _].
    assert (Hb : Forall (fun l => trim l <> FENCE) (split_lines text)).
    { apply Forall_forall. intros l Hl. rewrite forallb_forall in Hbody.
      specialize (Hbody l Hl). apply negb_true_iff in Hbody.
      intros E. rewrite E, str_eqb_refl in Hbody. discriminate. }
    rewrite <- app_assoc. cbn [app].
    destruct (fence_body_app (split_lines text) (js "```") rest Hb
                fence_closing) as [-> ->].
    now rewrite join_split, nodes_of_cons.
  - cbn [block_lines app].
    now rewrite (parse_line_kind (js "---") KRule) by
        (reflexivity || discriminate).
Qed.

Lemma reparse_doc_any (bs : list sblock) :
  forall rbs,
    forallb fair bs = true -> no_adjacent_runs (rev bs ++ rbs) = true ->
    parseLines (doc_lines bs) (nodes_of rbs)
    = nodes_of (rev (map reread bs) ++ rbs).
Proof.
  induction bs as [|b bs IH]; intros rbs Hg Hadj; [reflexivity|].
  cbn [forallb] in Hg. apply andb_true_iff in Hg as [Hb Hbs].
  cbn [rev] in Hadj. rewrite <- app_assoc in Hadj. cbn [app] in Hadj.
  pose proof (no_adjacent_runs_app _ _ Hadj) as Hadj'.
  cbn [map rev]. rewrite <- app_assoc. cbn [app].
  destruct bs as [|b' bs].
  - cbn [doc_lines]. rewrite <- (app_nil_r (block_lines b)).
    now rewrite reparse_block_any.
  - change (doc_lines (b :: b' :: bs))
      with (block_lines b ++ [] :: doc_lines (b' :: bs)).
    rewrite reparse_block_any by assumption.
    rewrite parseLines_blank by reflexivity.
    apply IH; [assumption|].
    remember (b' :: bs) as cs.
    clear -Hadj. revert Hadj.
    induction (rev cs) as [|c l IHl]; cbn [app].
    + now rewrite adjacent_reread.
    + cbn [no_adjacent_runs]. intros H. apply andb_true_iff in H as [H1 H2].
      rewrite (IHl H2), andb_true_r.
      destruct l as [|c' l]; cbn [app] in *; [|exact H1].
      destruct c, b; try exact H1; reflexivity.
Qed.

(* ================================================================== *)
(** * The blocks of any text *)
(* ================================================================== *)

Lemma ws_not_lt (c : N) : is_ws c = false -> is_lt c = false.
Proof.
  unfold is_ws. intros H. destruct (is_lt c); [|reflexivity].
  rewrite orb_true_r in H. discriminate.
Qed.

(** The text a heading expression captures on a line that ends with a
    code unit that is not whitespace. *)
Lemma ws_then_text_any (r t : str) :
  ws_then_text r = Some t -> head_ok (rev r) = true ->
  t <> [] /\ head_ok t = true /\ no_lt t = true.
Proof.
  unfold ws_then_text. intros H Hlast.
  destruct (span is_ws r) as [w r'] eqn:S.
  apply span_eq in S as (Hr & Hw & Hr').
  destruct w as [|x w]; [discriminate|].
  destruct r' as [|c r'].
  - exfalso. rewrite app_nil_r in Hr. subst r.
    rewrite (all_ws_last _ Hw) in Hlast by discriminate. discriminate.
  - injection H as <-. cbn [span].
    rewrite (ws_not_lt c Hr'). cbn [negb].
    destruct (span (fun c0 => negb (is_lt c0)) r') as [a b] eqn:S'.
    apply span_eq in S' as (_ & Ha & _). cbn [fst].
    split; [discriminate|]. split; [cbn [head_ok]; now rewrite Hr'|].
    unfold no_lt. cbn [forallb]. now rewrite (ws_not_lt c Hr'), Ha.
Qed.

Lemma jiraHeading_any (line : str) (level : Z) (t : str) :
  jiraHeading line = Some (level, t) -> head_ok (rev line) = true ->
  t <> [] /\ head_ok t = true /\ no_lt t = true.
Proof.
  unfold jiraHeading. intros H Hlast.
  destruct line as [|h [|d [|p r]]]; try discriminate.
  destruct (N.eqb h LOWER_H && (N.leb 49 d && N.leb d 54) && N.eqb p DOT);
    [|discriminate].
  destruct (ws_then_text r) as [t'|] eqn:W; [|discriminate].
  injection H as _ <-.
  assert (Hr : r <> []) by (intros ->; discriminate W).
  apply (ws_then_text_any r t' W).
  now rewrite <- (head_ok_rev_app [h; d; p] r Hr).
Qed.

Lemma mdHeading_any (line : str) (level : Z) (t : str) :
  mdHeading line = Some (level, t) -> head_ok (rev line) = true ->
  t <> [] /\ head_ok t = true /\ no_lt t = true.
Proof.
  unfold mdHeading. intros H Hlast.
  destruct (span (N.eqb HASH) line) as [hs r] eqn:S.
  apply span_eq in S as (Hline & _ & _).
  destruct ((1 <=? length hs) && (length hs <=? 6)); [|discriminate].
  destruct (ws_then_text r) as [t'|] eqn:W; [|discriminate].
  injection H as _ <-.
  assert (Hr : r <> []) by (intros ->; discriminate W).
  apply (ws_then_text_any r t' W).
  rewrite <- (head_ok_rev_app hs r Hr). now rewrite <- Hline.
Qed.

Lemma fair_text_suffix (line a t : str) :
  line = a ++ t -> t <> [] ->
  no_char LF line = true -> head_ok (rev line) = true ->
  fair_text t = true.
Proof.
  intros -> Hne Hlf Hlast. apply fair_text_parts.
  rewrite no_char_app in Hlf. apply andb_true_iff in Hlf as [_ Hlf].
  rewrite head_ok_rev_app in Hlast by assumption. auto.
Qed.

Lemma marker_text_any (line p : str) :
  startsWith p line = true -> length p = 2 ->
  forallb is_ws (skipn 1 p) = true ->
  no_char LF line = true -> head_ok (rev line) = true ->
  fair_text (substring 2 line) = true.
Proof.
  intros Hs Hlen Hws Hlf Hlast.
  apply startsWith_app in Hs as [t ->].
  destruct p as [|x [|y [|z p]]]; try discriminate.
  cbn [app substring skipn].
  assert (Hne : t <> []).
  { intros ->. cbn [app rev] in Hlast. cbn [skipn forallb] in Hws.
    apply andb_true_iff in Hws as [Hy _]. cbn [head_ok] in Hlast.
    rewrite Hy in Hlast. discriminate. }
  now apply (fair_text_suffix ([x; y] ++ t) [x; y] t).
Qed.

Lemma ordered_marker_any (line t : str) :
  ordered_marker line = Some t ->
  no_char LF line = true -> head_ok (rev line) = true ->
  fair_text t = true /\ head_ok t = true.
Proof.
  unfold ordered_marker. intros H Hlf Hlast.
  destruct (span is_digit line) as [ds r] eqn:S.
  apply span_eq in S as (Hline & _ & _).
  destruct ds as [|d ds]; [discriminate|].
  destruct r as [|p r]; [discriminate|].
  destruct (N.eqb p DOT); [|discriminate].
  destruct (span is_ws r) as [w r'] eqn:S'.
  apply span_eq in S' as (Hr & Hw & Hr').
  destruct w as [|x w]; [discriminate|].
  injection H as <-.
  assert (Hl : line = ((d :: ds) ++ p :: x :: w) ++ r').
  { rewrite Hline, Hr, <- app_assoc. reflexivity. }
  assert (Hne : r' <> []).
  { intros ->. rewrite app_nil_r in Hl. rewrite Hl in Hlast.
    replace ((d :: ds) ++ p :: x :: w) with (((d :: ds) ++ [p]) ++ x :: w)
      in Hlast by (now rewrite <- app_assoc).
    rewrite head_ok_rev_app in Hlast by discriminate.
    rewrite (all_ws_last _ Hw) in Hlast by discriminate. discriminate. }
  split.
  - now apply (fair_text_suffix line _ r' Hl).
  - destruct r' as [|c r']; [contradiction|]. cbn [head_ok]. now rewrite Hr'.
Qed.

Lemma fence_lang_any (line : str) :
  startsWith FENCE line = true -> no_char LF line = true ->
  head_ok (rev line) = true ->
  kind_fair (KFence (fence_lang line)) = true.
Proof.
  intros Hs Hlf Hlast. apply startsWith_app in Hs as [r ->].
  unfold fence_lang. cbn [kind_fair].
  destruct (3 <? length (FENCE ++ r)) eqn:L; [|reflexivity].
  change (substring 3 (FENCE ++ r)) with r.
  assert (Hr : r <> []).
  { intros ->. discriminate L. }
  rewrite head_ok_rev_app in Hlast by assumption.
  rewrite trim_trimmed, andb_true_r.
  apply andb_true_iff. split.
  - pose proof (trim_nonempty r Hr Hlast) as Hn.
    destruct (trim r); [contradiction | reflexivity].
  - apply forallb_trim. rewrite no_char_app in Hlf.
    now apply andb_true_iff in Hlf as [_ Hlf].
Qed.

(** Whatever the line is, the block it gives can be read again from the
    lines it is rendered as. *)
Lemma classify_kind_fair (raw : str) :
  no_char LF raw = true -> kind_fair (classify raw) = true.
Proof.
  intros Hlf.
  pose proof (forallb_trim _ raw Hlf) as Hlf'.
  destruct (trimmed_parts _ (trim_trimmed raw)) as [Hhead Hlast].
  pose proof (classify_inv raw) as Hinv.
  pose proof (classify_trim raw) as Htrim.
  destruct (classify raw) as [|level t|t|t|t| |lang|t] eqn:E; cbn [kind_fair].
  - reflexivity.
  - pose proof (classify_heading_level raw level t E) as Hl.
    assert (Hg : t <> [] /\ head_ok t = true /\ no_lt t = true).
    { destruct Hinv as [J | M];
        [eapply jiraHeading_any | eapply mdHeading_any]; eassumption. }
    destruct Hg as (Hne & -> & ->).
    rewrite (proj2 (is_empty_false t) Hne).
    destruct Hl as [H1 H6]. apply Z.leb_le in H1, H6. now rewrite H1, H6.
  - destruct Hinv as [-> [B | B]];
      eapply marker_text_any; try eassumption; reflexivity.
  - apply andb_true_iff. eapply ordered_marker_any; eassumption.
  - destruct Hinv as [-> Q].
    eapply marker_text_any; try eassumption; reflexivity.
  - reflexivity.
  - destruct Hinv as [-> F]. now apply fence_lang_any.
  - destruct Hinv as [-> Hne].
    unfold is_paragraph_line. rewrite Htrim, str_eqb_refl, Hhead.
    rewrite andb_true_r, andb_true_r. apply fair_text_parts. auto.
Qed.

Lemma add_run_fair (r : run_kind) (t : str) (rbs : list sblock) :
  fair_text t && match r with ROrdered => head_ok t | _ => true end = true ->
  forallb fair rbs = true -> forallb fair (add_run r t rbs) = true.
Proof.
  intros Ht H.
  assert (Hnew : fair (SRun r [t]) = true).
  { cbn [fair is_empty_list negb forallb andb]. now rewrite Ht. }
  destruct rbs as [|b rest]; [cbn [add_run forallb]; now rewrite Hnew|].
  destruct b as [t'|level t'|r' ts|text lang|]; cbn [add_run];
    try (cbn [forallb]; rewrite Hnew; exact H).
  destruct (run_eqb r r') eqn:E; [|cbn [forallb]; rewrite Hnew; exact H].
  assert (r = r') as <- by (destruct r, r'; try discriminate; reflexivity).
  cbn [forallb] in *. apply andb_true_iff in H as [Hb Hrest].
  rewrite Hrest, andb_true_r. cbn [fair] in *.
  apply andb_true_iff in Hb as [_ Hts].
  rewrite forallb_app, Hts. cbn [forallb]. rewrite Ht.
  destruct ts; reflexivity.
Qed.

Lemma semit_fair (k : line_kind) (rbs : list sblock) :
  kind_fair k = true -> forallb fair rbs = true ->
  forallb fair (semit k rbs) = true.
Proof.
  intros Hk H. destruct k; cbn [semit kind_fair] in *; try exact H.
  - cbn [forallb fair]. now rewrite Hk.
  - apply add_run_fair; [now rewrite andb_true_r | exact H].
  - now apply add_run_fair.
  - apply add_run_fair; [now rewrite andb_true_r | exact H].
  - cbn [forallb fair]. now rewrite Hk.
Qed.

Lemma fence_body_any (ls : list str) :
  forallb (no_char LF) ls = true ->
  forallb (no_char LF) (fence_body ls) = true
  /\ forallb (fun l => negb (str_eqb (trim l) FENCE)) (fence_body ls) = true.
Proof.
  induction ls as [|l ls IH]; [split; reflexivity|]. intros H.
  cbn [forallb] in H. apply andb_true_iff in H as [Hl Hls].
  cbn [fence_body]. destruct (str_eqb (trim l) FENCE) eqn:E;
    [split; reflexivity|].
  destruct (IH Hls) as [IH1 IH2]. cbn [forallb]. rewrite IH1, IH2, E, Hl.
  split; reflexivity.
Qed.

Lemma fence_rest_any (ls : list str) :
  forallb (no_char LF) ls = true ->
  forallb (no_char LF) (fence_rest ls) = true.
Proof.
  induction ls as [|l ls IH]; [reflexivity|]. intros H.
  cbn [forallb] in H. apply andb_true_iff in H as [_ Hls].
  cbn [fence_rest]. destruct (str_eqb (trim l) FENCE); auto.
Qed.

Lemma fence_text_any (ls : list str) :
  forallb (no_char LF) ls = true ->
  forallb (fun l => negb (str_eqb (trim l) FENCE))
          (split_lines (join [LF] (fence_body ls))) = true.
Proof.
  intros H. destruct (fence_body_any ls H) as [H1 H2].
  destruct (fence_body ls) as [|b body] eqn:E; [reflexivity|].
  rewrite split_lines_join by (assumption || discriminate). exact H2.
Qed.

Lemma sparse_fair (fuel : nat) :
  forall ls rbs,
    forallb (no_char LF) ls = true ->
    forallb fair rbs = true -> no_adjacent_runs rbs = true ->
    forallb fair (sparse fuel ls rbs) = true
    /\ no_adjacent_runs (sparse fuel ls rbs) = true.
Proof.
  induction fuel as [|f IH]; intros ls rbs Hls Hg Hadj; [now split|].
  destruct ls as [|raw rest]; [now split|].
  cbn [forallb] in Hls. apply andb_true_iff in Hls as [Hraw Hrest].
  pose proof (classify_kind_fair raw Hraw) as Hk.
  pose proof (semit_fair _ rbs Hk Hg) as Hsg.
  pose proof (semit_adjacent (classify raw) rbs Hadj) as Hsa.
  cbn [sparse].
  destruct (classify raw) as [|level t|t|t|t| |lang|t] eqn:E;
    try (apply IH; assumption).
  apply IH.
  - now apply fence_rest_any.
  - cbn [forallb fair]. rewrite (fence_text_any rest Hrest), Hg.
    cbn [kind_fair] in Hk. now rewrite Hk.
  - cbn [no_adjacent_runs]. exact Hadj.
Qed.

(** The blocks of a text, whatever the text is. *)
Lemma blocks_of_fair (x : str) :
  forallb fair (blocks_of x) = true
  /\ no_adjacent_runs (blocks_of x) = true.
Proof.
  unfold blocks_of. cbv zeta.
  apply sparse_fair; [apply split_lines_no_lf | reflexivity | reflexivity].
Qed.

(* ================================================================== *)
(** * One pass, and one more *)
(* ================================================================== *)

Lemma createADFDocument_blocks (x : str) :
  createADFDocument (VStr x)
  = doc (if is_empty_list (blocks_of x) then [paragraph []]
         else nodes_of (blocks_of x)).
Proof.
  destruct x as [|c x]; [reflexivity|].
  rewrite createADFDocument_sparse by discriminate. cbv zeta.
  now rewrite nodes_of_nil_iff.
Qed.

(** The text of the first pass: the lines of the blocks of the input,
    each text as rendered. *)
Lemma first_pass (x : str) :
  render_parse x
  = Ok (join [LF; LF]
          (map block_text (map render_block (rev (blocks_of x))))).
Proof.
  unfold render_parse. rewrite createADFDocument_blocks.
  destruct (blocks_of_fair x) as [Hf _].
  destruct (blocks_of x) as [|b rbs] eqn:E; [reflexivity|].
  cbn [is_empty_list]. now apply adfToText_blocks.
Qed.

Lemma fair_reread (b : sblock) : fair b = true -> fair (reread b) = true.
Proof.
  destruct b as [t|level t|r ts|text lang|]; cbn [reread]; auto.
  cbn [fair]. intros H.
  apply andb_true_iff in H as [H Hh]. apply andb_true_iff in H as [H Hlt].
  apply andb_true_iff in H as [Hl Hne]. apply is_empty_false in Hne.
  destruct (trim_text t Hne Hh) as (Tne & Th & _).
  unfold no_lt in *. rewrite Hl, Th, (forallb_trim _ t Hlt).
  now rewrite (proj2 (is_empty_false _) Tne).
Qed.

Lemma forallb_fair_reread (bs : list sblock) :
  forallb fair bs = true -> forallb fair (map reread bs) = true.
Proof.
  induction bs as [|b bs IH]; [reflexivity|]. cbn [map forallb].
  intros H. apply andb_true_iff in H as [Hb Hbs].
  now rewrite (fair_reread b Hb), (IH Hbs).
Qed.

Lemma adjacent_render (rbs : list sblock) :
  no_adjacent_runs (map render_block rbs) = no_adjacent_runs rbs.
Proof.
  induction rbs as [|b rbs IH]; [reflexivity|].
  cbn [map no_adjacent_runs]. rewrite IH. f_equal.
  destruct b; try reflexivity. destruct rbs as [|b' rbs]; [reflexivity|].
  destruct b'; reflexivity.
Qed.

Lemma block_text_nonempty (b : sblock) : fair b = true -> block_text b <> [].
Proof.
  intros H E. destruct (block_lines_fair b H) as [Hlf Hne].
  pose proof (split_lines_join (block_lines b) Hlf Hne) as S.
  fold (block_text b) in S. rewrite E in S. cbn [split_lines] in S.
  destruct b as [t|level t|r ts|text lang|]; cbn [block_lines] in S.
  - injection S as <-. cbn [fair] in H.
    apply andb_true_iff in H as [H _]. apply andb_true_iff in H as [H _].
    now apply fair_text_parts in H as (H & _).
  - injection S as S. destruct (Z.to_nat level); discriminate S.
  - apply fair_run_texts in H as [Hts _].
    destruct ts as [|t ts]; [contradiction|].
    destruct r; cbn [run_lines map numbered] in S; discriminate S.
  - discriminate S.
  - discriminate S.
Qed.

Lemma join_blocks_nonempty (bs : list sblock) :
  forallb fair bs = true -> bs <> [] ->
  join [LF; LF] (map block_text bs) <> [].
Proof.
  intros H Hne. destruct bs as [|b bs]; [contradiction|].
  cbn [forallb] in H. apply andb_true_iff in H as [Hb _].
  pose proof (block_text_nonempty b Hb) as Hb'.
  destruct bs as [|b' bs]; [exact Hb'|].
  cbn [map]. rewrite join_cons by discriminate.
  destruct (block_text b); [contradiction | discriminate].
Qed.

(** The text of the second pass: the blocks of the first, read again
    and rendered again. *)
Lemma second_pass (x : str) :
  render_parse
    (join [LF; LF] (map block_text (map render_block (rev (blocks_of x)))))
  = Ok (join [LF; LF]
          (map block_text
             (map render_block
                (map reread (map render_block (rev (blocks_of x))))))).
Proof.
  destruct (blocks_of_fair x) as [Hf Hadj].
  set (bs := map render_block (rev (blocks_of x))).
  assert (Hbs : forallb fair bs = true).
  { now apply forallb_fair_render, forallb_fair_rev. }
  destruct (blocks_of x) as [|b0 rbs0] eqn:E; [reflexivity|].
  assert (Hne : bs <> []).
  { subst bs. cbn [rev]. rewrite map_app. cbn [map].
    destruct (map render_block (rev rbs0)); discriminate. }
  unfold render_parse.
  pose proof (join_blocks_nonempty bs Hbs Hne) as Hy.
  destruct (join [LF; LF] (map block_text bs)) as [|c y] eqn:Ey;
    [contradiction|].
  unfold createADFDocument. rewrite <- Ey.
  rewrite (split_lines_blocks bs Hbs Hne).
  change (@nil value) with (nodes_of []).
  rewrite (reparse_doc_any bs [] Hbs).
  2:{ rewrite app_nil_r. subst bs. rewrite <- map_rev, rev_involutive.
      now rewrite adjacent_render. }
  rewrite app_nil_r, nodes_of_nil_iff.
  destruct (rev (map reread bs)) as [|b1 r1] eqn:Er.
  { apply (f_equal (@rev sblock)) in Er. rewrite rev_involutive in Er.
    destruct bs; [contradiction | discriminate]. }
  cbn [is_empty_list]. rewrite <- Er.
  rewrite adfToText_blocks.
  - now rewrite rev_involutive.
  - now apply forallb_fair_rev, forallb_fair_reread.
Qed.

(* ================================================================== *)
(** * When the second pass changes nothing *)
(* ================================================================== *)

Lemma spans_last_eq (s r : str) (n : nat) :
  spans s r n -> head_ok (rev r) = head_ok (rev s).
Proof.
  induction 1 as [|c s r n _ Hsp IH|m rest r n Hm _ _ Hsp IH
                  |t h rest r n _ _ _ Hsp IH].
  - reflexivity.
  - rewrite !head_ok_rev_cons.
    destruct r as [|d r].
    + now rewrite (spans_nil_inv _ _ _ Hsp eq_refl).
    + destruct s as [|e s]; [discriminate (spans_from_nil _ _ Hsp)|].
      exact IH.
  - destruct r as [|d r].
    + now rewrite (spans_nil_inv _ _ _ Hsp eq_refl).
    + destruct rest as [|e rest]; [discriminate (spans_from_nil _ _ Hsp)|].
      now rewrite !head_ok_rev_app by discriminate.
  - destruct r as [|d r].
    + rewrite (spans_nil_inv _ _ _ Hsp eq_refl), !app_nil_r.
      unfold pipe_form. cbn [wrap].
      rewrite !app_assoc. now rewrite !head_ok_rev_app by discriminate.
    + destruct rest as [|e rest]; [discriminate (spans_from_nil _ _ Hsp)|].
      now rewrite !head_ok_rev_app by discriminate.
Qed.

Lemma rendered_last_eq (t : str) :
  head_ok (rev (rendered t)) = head_ok (rev t).
Proof. apply (spans_last_eq _ _ _ (proj1 (rendered_spans t))). Qed.

Lemma settled_text_spec (t : str) :
  settled_text t = true <-> rendered (rendered t) = rendered t.
Proof.
  unfold settled_text. rewrite Nat.eqb_eq. symmetry. apply rendered_same.
Qed.

(** A block of the parser is settled exactly when its rendering is
    read and rendered again to the same lines. *)
Lemma settled_block_spec (b : sblock) :
  fair b = true ->
  settled_block b = true
  <-> block_lines (render_block (reread (render_block b)))
      = block_lines (render_block b).
Proof.
  intros Hf. destruct b as [t|level t|r ts|text lang|];
    cbn [settled_block render_block reread block_lines].
  - rewrite settled_text_spec. split; [now intros -> | now intros [= ->]].
  - cbn [fair] in Hf.
    apply andb_true_iff in Hf as [Hf Hh]. apply andb_true_iff in Hf as [Hf _].
    apply andb_true_iff in Hf as [_ Hne]. apply is_empty_false in Hne.
    pose proof (rendered_head t Hh) as Hh'.
    pose proof (rendered_nonempty t Hne) as Hne'.
    rewrite andb_true_iff, settled_text_spec. split.
    + intros [Hl E].
      assert (Ht : trim (rendered t) = rendered t).
      { apply trim_id. unfold trimmed. now rewrite Hh', rendered_last_eq. }
      now rewrite Ht, E.
    + intros E. injection E as E. apply app_inv_head in E.
      injection E as E.
      destruct (trim_text _ Hne' Hh') as (_ & _ & Tl).
      assert (Hl : head_ok (rev (rendered t)) = true).
      { rewrite <- E, rendered_last_eq. exact Tl. }
      assert (Ht : trim (rendered t) = rendered t).
      { apply trim_id. unfold trimmed. now rewrite Hh', Hl. }
      rewrite Ht in E. rewrite rendered_last_eq in Hl. auto.
  - clear Hf. destruct r; cbn [run_lines].
    + induction ts as [|t ts IH]; [split; reflexivity|].
      cbn [forallb map]. rewrite andb_true_iff, settled_text_spec, IH.
      split.
      * intros [-> ->]. reflexivity.
      * intros E. injection E as E1 E2. auto.
    + generalize 0 at 1 2 as start.
      induction ts as [|t ts IH]; intros start; [split; reflexivity|].
      cbn [forallb map numbered].
      rewrite andb_true_iff, settled_text_spec, (IH (S start)).
      split.
      * intros [-> ->]. reflexivity.
      * intros E. injection E as E1 E2. apply app_inv_head in E1.
        injection E1 as E1. auto.
    + induction ts as [|t ts IH]; [split; reflexivity|].
      cbn [forallb map]. rewrite andb_true_iff, settled_text_spec, IH.
      split.
      * intros [-> ->]. reflexivity.
      * intros E. injection E as E1 E2. auto.
  - split; reflexivity.
  - split; reflexivity.
Qed.

Lemma numbered_length (ts : list str) :
  forall start, length (numbered start ts) = length ts.
Proof.
  induction ts as [|t ts IH]; intros start; [reflexivity|].
  cbn [numbered length]. now rewrite IH.
Qed.

Lemma block_lines_length (b : sblock) :
  length (block_lines (render_block (reread b))) = length (block_lines b).
Proof.
  destruct b as [t|level t|r ts|text lang|]; try reflexivity.
  cbn [reread render_block block_lines].
  destruct r; cbn [run_lines];
    rewrite ?numbered_length, ?length_map; reflexivity.
Qed.

Lemma app_inv_length {A} (a a' c c' : list A) :
  length a = length a' -> a ++ c = a' ++ c' -> a = a' /\ c = c'.
Proof.
  revert a'. induction a as [|x a IH]; intros [|y a'] L E;
    try discriminate L.
  - now split.
  - cbn [app] in E. injection E as -> E. injection L as L.
    destruct (IH a' L E) as [-> ->]. now split.
Qed.

(** Two documents with the same lines have the same lines block by
    block, when their blocks have as many lines each. *)
Lemma doc_lines_blockwise (f : sblock -> sblock) (bs : list sblock) :
  (forall b, length (block_lines (f b)) = length (block_lines b)) ->
  doc_lines (map f bs) = doc_lines bs <->
  Forall (fun b => block_lines (f b) = block_lines b) bs.
Proof.
  intros L. induction bs as [|b bs IH]; [split; [constructor | reflexivity]|].
  destruct bs as [|b' bs].
  - cbn [map doc_lines]. split; [intros E; now constructor|].
    intros H. now inversion H.
  - change (doc_lines (map f (b :: b' :: bs)))
      with (block_lines (f b) ++ [] :: doc_lines (map f (b' :: bs))).
    change (doc_lines (b :: b' :: bs))
      with (block_lines b ++ [] :: doc_lines (b' :: bs)).
    split.
    + intros E. apply app_inv_length in E as [E1 E2]; [|apply L].
      injection E2 as E2. constructor; [exact E1 | now apply IH].
    + intros H. inversion H as [|? ? H1 H2]. subst.
      rewrite H1. f_equal. f_equal. now apply IH.
Qed.

Lemma join_blocks_inj (bs bs' : list sblock) :
  forallb fair bs = true -> forallb fair bs' = true ->
  bs <> [] -> bs' <> [] ->
  join [LF; LF] (map block_text bs) = join [LF; LF] (map block_text bs') <->
  doc_lines bs = doc_lines bs'.
Proof.
  intros H H' Hne Hne'.
  rewrite <- (split_lines_blocks bs H Hne), <- (split_lines_blocks bs' H' Hne').
  split; [now intros -> |].
  intros E. rewrite <- (join_split (join [LF; LF] (map block_text bs))), E.
  apply join_split.
Qed.

Lemma settled_blocks (rbs : list sblock) :
  forallb fair rbs = true ->
  forallb settled_block rbs = true <->
  Forall (fun b => block_lines (render_block (reread b)) = block_lines b)
         (map render_block (rev rbs)).
Proof.
  intros Hf. rewrite Forall_map, Forall_forall, forallb_forall.
  rewrite forallb_forall in Hf.
  split; intros H b Hb.
  - apply in_rev in Hb. apply settled_block_spec; auto.
  - apply settled_block_spec; auto. apply H.
    exact (proj1 (in_rev rbs b) Hb).
Qed.

(** A text without vertical bar and without line terminator other than
    the line feed is settled. *)
Lemma stable_input_settled (x : str) :
  stable_input x = true -> settled x = true.
Proof.
  intros Hx. unfold settled, blocks_of. cbv zeta.
  destruct (sparse_good (length (split_lines x)) (split_lines x) []
              (stable_input_lines _ Hx) eq_refl eq_refl) as [Hg _].
  rewrite forallb_forall in *. intros b Hb. specialize (Hg b Hb).
  assert (St : forall t, text_ok t = true ->
                 settled_text t = true /\ head_ok (rev t) = true).
  { intros t Ht. pose proof (render_text_ok t Ht) as R.
    apply text_ok_parts in Ht as (_ & _ & _ & Hl). split; [|exact Hl].
    assert (E : rendered t = t) by (unfold rendered; now rewrite R).
    apply settled_text_spec. now rewrite !E. }
  destruct b as [t|level t|r ts|text lang|]; cbn [good settled_block] in *.
  - apply andb_true_iff in Hg as [Hg _]. apply andb_true_iff in Hg as [Hg _].
    now apply St.
  - apply andb_true_iff in Hg as [Hg _]. apply andb_true_iff in Hg as [_ Hg].
    destruct (St t Hg) as [-> ->]. reflexivity.
  - apply andb_true_iff in Hg as [_ Hg].
    rewrite forallb_forall in *. intros t Ht. specialize (Hg t Ht).
    apply andb_true_iff in Hg as [Hg _]. now apply St.
  - reflexivity.
  - reflexivity.
Qed.

(** C2 (amended): the document of a text is made of its blocks, and
    what the renderer writes for the tokens of a text is its rendering.
    One pass of parsing and rendering always gives a text, and one more
    pass leaves that text as it is exactly when the input is settled:
    no heading text of the input ends in white space, and in no text of
    the input, as the first pass renders it, does the tokenizer find a
    pipe-form link. *)
Theorem one_pass_fixed_point (x : str) :
  createADFDocument (VStr x)
  = doc (if is_empty_list (blocks_of x) then [paragraph []]
         else nodes_of (blocks_of x))
  /\ (forall t, inlineNodesToText (VArr (parseInlineContent t))
                = Ok (rendered t))
  /\ exists y,
       render_parse x = Ok y
       /\ (render_parse y = Ok y <-> settled x = true).
Proof.
  split; [apply createADFDocument_blocks|].
  split; [exact rendered_total|].
  exists (join [LF; LF]
            (map block_text (map render_block (rev (blocks_of x))))).
  split; [apply first_pass|].
  rewrite second_pass.
  destruct (blocks_of_fair x) as [Hf _].
  unfold settled. rewrite (settled_blocks _ Hf).
  set (bs := map render_block (rev (blocks_of x))).
  assert (Hbs : forallb fair bs = true).
  { now apply forallb_fair_render, forallb_fair_rev. }
  rewrite (map_map reread render_block bs).
  rewrite <- (doc_lines_blockwise (fun b => render_block (reread b)) bs
                block_lines_length).
  destruct bs as [|b bs'] eqn:E; [split; reflexivity|].
  rewrite <- E in *.
  assert (Hne : bs <> []) by (rewrite E; discriminate).
  assert (Hbs' : forallb fair (map (fun b => render_block (reread b)) bs)
                 = true).
  { rewrite <- map_map. now apply forallb_fair_render, forallb_fair_reread. }
  assert (Hne' : map (fun b => render_block (reread b)) bs <> []).
  { rewrite E. discriminate. }
  rewrite <- (join_blocks_inj _ _ Hbs' Hbs Hne' Hne).
  split; [now intros [= ->] | now intros ->].
Qed.

Lemma one_pass_fixed_point_witness :
  exists y,
    render_parse
      (js "h2. See [PROJ-7|https://x.org/browse/PROJ-7]" ++ [13%N; LF]
       ++ js "| a | b |" ++ [13%N; LF]
       ++ js "* [docs|https://x.org/wiki/Page_(draft)] and [a|b|c]")
    = Ok y
    /\ render_parse y = Ok y.
Proof.
  destruct (proj2 (proj2 (one_pass_fixed_point
              (js "h2. See [PROJ-7|https://x.org/browse/PROJ-7]" ++ [13%N; LF]
               ++ js "| a | b |" ++ [13%N; LF]
               ++ js "* [docs|https://x.org/wiki/Page_(draft)] and [a|b|c]"))))
    as (y & H1 & H2).
  exists y. split; [exact H1 | apply H2; vm_compute; reflexivity].
Defined.

(* ================================================================== *)
(** * Input validation *)
(* ================================================================== *)

Lemma string_check (v : value) :
  negb (truthy v) || negb (typeof_string v) = false ->
  exists s, v = VStr s /\ s <> [].
Proof.
  destruct v as [| |b|z|s|l|fs]; cbn [truthy typeof_string negb];
    rewrite ?orb_true_r; try discriminate.
  destruct s; [discriminate|]. intros _. eexists. split; [reflexivity|].
  discriminate.
Qed.

Lemma string_check_str (s : str) :
  s <> [] -> negb (truthy (VStr s)) || negb (typeof_string (VStr s)) = false.
Proof. destruct s; [contradiction | reflexivity]. Qed.

(** The test of the issue key expression, as the expression reads: a
    non-empty run of capital letters, a dash, a non-empty run of
    digits, and nothing else. *)
Lemma issue_key_format_spec (key : str) :
  issue_key_format key = true
  <-> exists p n,
        key = p ++ DASH :: n /\ p <> [] /\ n <> []
        /\ forallb is_upper p = true /\ forallb is_digit n = true.
Proof.
  unfold issue_key_format. split.
  - destruct (span is_upper key) as [a b] eqn:E.
    destruct (span_eq _ _ _ _ E) as (Hk & Ha & _).
    destruct a as [|c a]; [discriminate|].
    destruct b as [|d n]; [discriminate|]. intros H.
    apply andb_true_iff in H as [H Hn]. apply andb_true_iff in H as [Hd Hne].
    apply N.eqb_eq in Hd. subst d.
    exists (c :: a), n. repeat split; try assumption; try discriminate.
    destruct n; discriminate.
  - intros (p & n & -> & Hp & Hn & Hup & Hdg).
    rewrite (span_app_stop is_upper p DASH n Hup eq_refl).
    destruct p; [contradiction|]. destruct n; [contradiction|].
    rewrite N.eqb_refl. cbn [is_empty negb andb]. exact Hdg.
Qed.

Lemma forallb_weaken (P Q : N -> bool) (s : str) :
  (forall c, P c = true -> Q c = true) ->
  forallb P s = true -> forallb Q s = true.
Proof.
  intros HPQ. rewrite !forallb_forall. auto.
Qed.

Lemma segment_no_slash (s : str) :
  forallb is_segment_unit s = true -> has_slash s = false.
Proof.
  unfold has_slash.
  induction s as [|c s IH]; [reflexivity|]. cbn [forallb existsb].
  intros H. apply andb_true_iff in H as [Hc Hs]. rewrite (IH Hs).
  rewrite orb_false_r. unfold is_segment_unit, is_upper, is_digit, DASH in Hc.
  apply orb_false_iff. split; apply N.eqb_neq; intros ->; discriminate.
Qed.

Lemma validateIssueKey_inv (key : value) (s : str) :
  validateIssueKey key = Return s <->
  key = VStr s /\ issue_key_format s = true.
Proof.
  unfold validateIssueKey. split.
  - destruct (negb (truthy key) || negb (typeof_string key)) eqn:E;
      [discriminate|].
    destruct (string_check key E) as (t & -> & Ht). cbn [string_of].
    destruct (issue_key_format t) eqn:F; [|discriminate].
    cbn [negb]. intros [= <-]. now split.
  - intros (-> & H). rewrite string_check_str.
    + cbn [string_of]. now rewrite H.
    + intros ->. discriminate.
Qed.

Lemma validateProjectKey_inv (key : value) (s : str) :
  validateProjectKey key = Return s <->
  key = VStr s /\ project_key_format s = true.
Proof.
  unfold validateProjectKey. split.
  - destruct (negb (truthy key) || negb (typeof_string key)) eqn:E;
      [discriminate|].
    destruct (string_check key E) as (t & -> & Ht). cbn [string_of].
    destruct (project_key_format t) eqn:F; [|discriminate].
    cbn [negb]. intros [= <-]. now split.
  - intros (-> & H). rewrite string_check_str.
    + cbn [string_of]. now rewrite H.
    + intros ->. discriminate.
Qed.

Lemma issue_key_segment (s : str) :
  issue_key_format s = true -> forallb is_segment_unit s = true /\ s <> [].
Proof.
  intros H. apply issue_key_format_spec in H
    as (p & n & -> & Hp & _ & Hup & Hdg).
  split; [|destruct p; [contradiction | discriminate]].
  rewrite forallb_app. cbn [forallb].
  apply andb_true_iff. split; [|apply andb_true_iff; split].
  - apply (forallb_weaken is_upper); [|exact Hup].
    intros c Hc. unfold is_segment_unit. now rewrite Hc.
  - reflexivity.
  - apply (forallb_weaken is_digit); [|exact Hdg].
    intros c Hc. unfold is_segment_unit. rewrite Hc.
    now rewrite orb_true_r.
Qed.

Lemma project_key_segment (s : str) :
  project_key_format s = true -> forallb is_segment_unit s = true /\ s <> [].
Proof.
  destruct s as [|c r]; [discriminate|]. cbn [project_key_format].
  intros F. split; [|discriminate].
  apply andb_true_iff in F as [F Hr]. apply andb_true_iff in F as [F _].
  apply andb_true_iff in F as [Hc _]. cbn [forallb].
  apply andb_true_iff. split.
  - unfold is_segment_unit. now rewrite Hc.
  - apply (forallb_weaken is_key_unit); [|exact Hr].
    intros x Hx. unfold is_key_unit in Hx. unfold is_segment_unit.
    apply orb_true_iff in Hx as [Hx | Hx].
    + rewrite Hx. now rewrite !orb_true_l.
    + rewrite Hx. now rewrite !orb_true_r.
Qed.

(** X1: [validateIssueKey] returns exactly for a string that reads as capital
    letters, a dash and digits, each run non-empty, and returns the
    string itself. *)
Theorem validateIssueKey_accepts (key : value) (s : str) :
  validateIssueKey key = Return s
  <-> key = VStr s
      /\ exists p n,
           s = p ++ DASH :: n /\ p <> [] /\ n <> []
           /\ forallb is_upper p = true /\ forallb is_digit n = true.
Proof.
  rewrite validateIssueKey_inv, issue_key_format_spec. reflexivity.
Qed.

(** X2: What [validateIssueKey] or [validateProjectKey] returns holds capital
    letters, digits, dashes and underscores only: no slash, dot,
    question mark, percent sign or whitespace that would change the
    request path the key is put in. *)
Theorem validated_keys_are_path_segments (key : value) (s : str) :
  validateIssueKey key = Return s \/ validateProjectKey key = Return s ->
  forallb is_segment_unit s = true /\ has_slash s = false /\ s <> [].
Proof.
  intros H.
  assert (Hseg : forallb is_segment_unit s = true /\ s <> []).
  { destruct H as [H | H].
    - apply validateIssueKey_inv in H as [_ H]. now apply issue_key_segment.
    - apply validateProjectKey_inv in H as [_ H].
      now apply project_key_segment. }
  destruct Hseg as [Hseg Hne]. repeat split; try assumption.
  now apply segment_no_slash.
Qed.

Lemma validated_keys_are_path_segments_witness :
  forallb is_segment_unit (js "PROJ-123") = true
  /\ has_slash (js "PROJ-123") = false /\ js "PROJ-123" <> [].
Proof.
  apply (validated_keys_are_path_segments (VStr (js "PROJ-123"))).
  left. reflexivity.
Defined.

(** [validateProjectKey] returns its argument for two to ten code units
    only. *)
Lemma validateProjectKey_length (key : value) (s : str) :
  validateProjectKey key = Return s ->
  key = VStr s /\ 2 <= length s <= 10.
Proof.
  unfold validateProjectKey.
  destruct (negb (truthy key) || negb (typeof_string key)) eqn:E;
    [discriminate|].
  destruct (string_check key E) as (t & -> & Ht). cbn [string_of].
  destruct (project_key_format t) eqn:F; [|discriminate].
  cbn [negb]. intros [= <-]. split; [reflexivity|].
  destruct t as [|c r]; [discriminate|]. cbn [project_key_format] in F.
  apply andb_true_iff in F as [F _]. apply andb_true_iff in F as [F H9].
  apply andb_true_iff in F as [_ H1].
  apply Nat.leb_le in H1, H9. cbn [length]. lia.
Qed.

Lemma length_dropWhile (p : N -> bool) (s : str) :
  length (dropWhile p s) <= length s.
Proof.
  induction s as [|c s IH]; [apply le_n|]. cbn [dropWhile].
  destruct (p c); cbn [length]; lia.
Qed.

Lemma length_trim (s : str) : length (trim s) <= length s.
Proof.
  unfold trim. rewrite length_rev.
  etransitivity; [apply length_dropWhile|]. rewrite length_rev.
  apply length_dropWhile.
Qed.


(** X3: What [sanitizeString] returns is the trimmed argument: it has no
    whitespace at either end and is no longer than the limit; unless it
    is empty, the function returns it unchanged when called on it
    again. *)
Theorem sanitizeString_returns_trimmed
  (s : value) (maxLength : option nat) (fieldName : option str) (r : str) :
  sanitizeString s maxLength fieldName = Return r ->
  (exists t, s = VStr t /\ t <> [] /\ r = trim t)
  /\ trimmed r = true
  /\ length r <= limit maxLength 1000
  /\ (r <> [] -> sanitizeString (VStr r) maxLength fieldName = Return r).
Proof.
  unfold sanitizeString. fold (limit maxLength 1000).
  destruct (negb (truthy s) || negb (typeof_string s)) eqn:E; [discriminate|].
  destruct (string_check s E) as (t & -> & Ht). cbn [string_of].
  destruct (limit maxLength 1000 <? length t) eqn:L; [discriminate|].
  intros [= <-]. apply Nat.ltb_ge in L.
  pose proof (length_trim t) as Hlen.
  repeat split.
  - now exists t.
  - apply trim_trimmed.
  - lia.
  - intros Hr. rewrite (string_check_str _ Hr). cbn [string_of].
    replace (limit maxLength 1000 <? length (trim t)) with false
      by (symmetry; apply Nat.ltb_ge; lia).
    now rewrite trim_idem.
Qed.

Lemma sanitizeString_returns_trimmed_witness :
  (exists t, VStr (js "  Fix login ") = VStr t /\ t <> []
             /\ js "Fix login" = trim t)
  /\ trimmed (js "Fix login") = true
  /\ length (js "Fix login") <= limit (Some 500) 1000
  /\ (js "Fix login" <> [] ->
      sanitizeString (VStr (js "Fix login")) (Some 500) (Some (js "summary"))
      = Return (js "Fix login")).
Proof.
  apply (sanitizeString_returns_trimmed (VStr (js "  Fix login "))).
  reflexivity.
Defined.



Lemma existsb_dropWhile (P p : N -> bool) (s : str) :
  existsb P s = false -> existsb P (dropWhile p s) = false.
Proof.
  induction s as [|c s IH]; [reflexivity|]. cbn [existsb dropWhile].
  intros H. apply orb_false_iff in H as [Hc Hs].
  destruct (p c); [now apply IH|]. cbn [existsb]. now rewrite Hc, Hs.
Qed.

Lemma existsb_rev (P : N -> bool) (s : str) :
  existsb P s = false -> existsb P (rev s) = false.
Proof.
  induction s as [|c s IH]; [reflexivity|]. cbn [existsb rev].
  intros H. apply orb_false_iff in H as [Hc Hs].
  rewrite existsb_app, (IH Hs). cbn [existsb]. now rewrite Hc.
Qed.

(** X5: What [validateSafeParam] returns holds neither a slash nor a
    backslash, has no whitespace at either end, and is no longer than
    the limit. *)
Theorem validateSafeParam_returns_safe
  (s : value) (fieldName : str) (maxLength : option nat) (r : str) :
  validateSafeParam s fieldName maxLength = Return r ->
  (exists t, s = VStr t /\ has_slash t = false /\ r = trim t)
  /\ has_slash r = false
  /\ trimmed r = true
  /\ length r <= limit maxLength 100.
Proof.
  unfold validateSafeParam. fold (limit maxLength 100).
  destruct (negb (truthy s) || negb (typeof_string s)) eqn:E; [discriminate|].
  destruct (string_check s E) as (t & -> & Ht). cbn [string_of].
  destruct (limit maxLength 100 <? length t) eqn:L; [discriminate|].
  destruct (has_slash t) eqn:F; [discriminate|].
  intros [= <-]. apply Nat.ltb_ge in L.
  pose proof (length_trim t) as Hlen.
  repeat split.
  - now exists t.
  - unfold has_slash, trim in *.
    now apply existsb_rev, existsb_dropWhile, existsb_rev, existsb_dropWhile.
  - apply trim_trimmed.
  - lia.
Qed.

Lemma validateSafeParam_returns_safe_witness :
  (exists t, VStr (js " High ") = VStr t /\ has_slash t = false
             /\ js "High" = trim t)
  /\ has_slash (js "High") = false
  /\ trimmed (js "High") = true
  /\ length (js "High") <= limit None 100.
Proof.
  apply (validateSafeParam_returns_safe (VStr (js " High ")) (js "priority")).
  reflexivity.
Defined.

(** ** Numbers *)

Lemma ratio_less (n : Z) (d : positive) (k : Z) :
  (n mod Z.pos d = 0)%Z ->
  Z.ltb n (k * Z.pos d) = Z.ltb (n / Z.pos d) k.
Proof.
  intros Hm. pose proof (Z.div_mod n (Z.pos d) ltac:(lia)) as Hn.
  rewrite Hm, Z.add_0_r in Hn.
  destruct (Z.ltb_spec (n / Z.pos d) k); [apply Z.ltb_lt | apply Z.ltb_ge]; nia.
Qed.

(** X6: [validateMaxResults] returns for the integers from 1 on, and what it
    returns is the argument, or 100 when the argument is larger: a
    number from 1 to 100.  Fractions, NaN, the infinities and values
    that are no numbers are refused. *)
Theorem validateMaxResults_clamps (a : arg) :
  match integer_of a with
  | Some z =>
      if Z.ltb z 1
      then validateMaxResults a = Raise (js "maxResults must be a positive integer")
      else exists r, validateMaxResults a = Return r
                     /\ integer_of r = Some (Z.min z 100)
                     /\ (r = a \/ r = Json (VNum 100))
  | None =>
      validateMaxResults a = Raise (js "maxResults must be a positive integer")
  end.
Proof.
  unfold validateMaxResults.
  destruct a as [v|n d| |neg]; try reflexivity.
  - destruct v as [| |b|z|s|l|fs]; try reflexivity.
    cbn [integer_of typeof_number isInteger less negb orb].
    destruct (Z.ltb z 1) eqn:E; [reflexivity|].
    unfold math_min. cbn [less]. apply Z.ltb_ge in E.
    destruct (Z.ltb_spec z 100).
    + eexists. split; [reflexivity|]. cbn [integer_of].
      split; [f_equal; lia | now left].
    + eexists. split; [reflexivity|]. cbn [integer_of].
      split; [f_equal; lia | now right].
  - cbn [integer_of typeof_number isInteger less negb orb].
    destruct (Z.eqb_spec (n mod Z.pos d) 0) as [Hm|Hm]; [|reflexivity].
    cbn [negb orb]. rewrite (ratio_less n d 1 Hm).
    destruct (Z.ltb (n / Z.pos d) 1) eqn:E; [reflexivity|].
    unfold math_min. cbn [less]. rewrite (ratio_less n d 100 Hm).
    apply Z.ltb_ge in E.
    destruct (Z.ltb_spec (n / Z.pos d) 100).
    + eexists. split; [reflexivity|]. cbn [integer_of].
      apply Z.eqb_eq in Hm. rewrite Hm.
      split; [f_equal; lia | now left].
    + eexists. split; [reflexivity|]. cbn [integer_of].
      split; [f_equal; lia | now right].
Qed.

(** X7: [validateStoryPoints] returns its argument unchanged for the numbers
    from 0 to 1000 and for NaN, which no comparison refuses; it throws
    on every other number, the infinities included, and on what is no
    number. *)
Theorem validateStoryPoints_range (a : arg) :
  (a = NaN \/ between 0 1000 a -> validateStoryPoints a = Return a)
  /\ (~ (a = NaN \/ between 0 1000 a) ->
      validateStoryPoints a
      = Raise (js "Story points must be a number between 0 and 1000")).
Proof.
  unfold validateStoryPoints.
  destruct a as [v|n d| |neg].
  - destruct v as [| |b|z|s|l|fs];
      try (split; [intros [H|[]]; discriminate H | reflexivity]).
    cbn [typeof_number less greater negb orb between].
    destruct (Z.ltb_spec z 0) as [H0|H0]; cbn [orb];
      [split; [intros [H|H]; [discriminate | lia] | reflexivity]|].
    destruct (Z.ltb_spec 1000 z) as [H1|H1];
      [split; [intros [H|H]; [discriminate | lia] | reflexivity]|].
    split; [reflexivity|]. intros H. exfalso. apply H. right. lia.
  - cbn [typeof_number less greater negb orb between].
    destruct (Z.ltb_spec n (0 * Z.pos d)) as [H0|H0]; cbn [orb];
      [split; [intros [H|H]; [discriminate | lia] | reflexivity]|].
    destruct (Z.ltb_spec (1000 * Z.pos d) n) as [H1|H1];
      [split; [intros [H|H]; [discriminate | lia] | reflexivity]|].
    split; [reflexivity|]. intros H. exfalso. apply H. right. lia.
  - split; [reflexivity|]. intros H. exfalso. apply H. now left.
  - destruct neg; (split; [intros [H|[]]; discriminate H | reflexivity]).
Qed.

(** ** Labels *)

Lemma check_labels_ok (l : list value) :
  forall index, forallb label_ok l = true -> check_labels index l = Return l.
Proof.
  induction l as [|x l IH]; intros index H; [reflexivity|].
  cbn [forallb] in H. apply andb_true_iff in H as [Hx Hl].
  unfold label_ok in Hx. apply andb_true_iff in Hx as [Hs Hlen].
  cbn [check_labels]. rewrite Hs. cbn [negb].
  apply Nat.leb_le in Hlen.
  replace (255 <? length (string_of x)) with false
    by (symmetry; apply Nat.ltb_ge; lia).
  now rewrite (IH (S index) Hl).
Qed.

Lemma check_labels_first (pre : list value) (bad : value) (post : list value) :
  forall index,
    forallb label_ok pre = true -> label_ok bad = false ->
    check_labels index (pre ++ bad :: post)
    = Raise (js "Label at index " ++ decimal (N.of_nat (index + length pre))
             ++ (if typeof_string bad then
                   js " exceeds maximum length of 255 characters"
                 else js " must be a string")).
Proof.
  induction pre as [|x pre IH]; intros index Hpre Hbad.
  - cbn [app length check_labels]. rewrite Nat.add_0_r.
    unfold label_ok in Hbad.
    destruct (typeof_string bad); [|reflexivity]. cbn [negb andb] in *.
    apply Nat.leb_gt in Hbad.
    now replace (255 <? length (string_of bad)) with true
      by (symmetry; apply Nat.ltb_lt; lia).
  - cbn [forallb] in Hpre. apply andb_true_iff in Hpre as [Hx Hpre].
    unfold label_ok in Hx. apply andb_true_iff in Hx as [Hs Hlen].
    cbn [app check_labels length]. rewrite Hs. cbn [negb].
    apply Nat.leb_le in Hlen.
    replace (255 <? length (string_of x)) with false
      by (symmetry; apply Nat.ltb_ge; lia).
    rewrite (IH (S index) Hpre Hbad).
    cbn [and_then]. now rewrite Nat.add_succ_r.
Qed.

Lemma first_bad_label (l : list value) :
  forallb label_ok l = false ->
  exists pre bad post,
    l = pre ++ bad :: post /\ forallb label_ok pre = true
    /\ label_ok bad = false.
Proof.
  induction l as [|x l IH]; [discriminate|]. cbn [forallb]. intros H.
  destruct (label_ok x) eqn:E.
  - destruct (IH H) as (pre & bad & post & -> & Hpre & Hbad).
    exists (x :: pre), bad, post. cbn [forallb]. now rewrite E.
  - now exists [], x, l.
Qed.

(** X8: [validateLabels] returns an array of the same labels when every
    label is a string of at most 255 code units, so also for the empty
    array; otherwise it throws, and the message names the index of the
    first label that is refused.  What is not an array is refused. *)
Theorem validateLabels_keeps_or_names_first (labels : value) :
  match labels with
  | VArr l =>
      (forallb label_ok l = true /\ validateLabels labels = Return labels)
      \/ exists pre bad post,
           l = pre ++ bad :: post /\ forallb label_ok pre = true
           /\ label_ok bad = false
           /\ validateLabels labels
              = Raise (js "Label at index "
                       ++ decimal (N.of_nat (length pre))
                       ++ (if typeof_string bad then
                             js " exceeds maximum length of 255 characters"
                           else js " must be a string"))
  | _ => validateLabels labels = Raise (js "Labels must be an array")
  end.
Proof.
  destruct labels as [| |b|z|s|l|fs]; try reflexivity.
  unfold validateLabels. cbn [isArray negb].
  destruct (forallb label_ok l) eqn:E.
  - left. split; [reflexivity|]. now rewrite check_labels_ok.
  - right. destruct (first_bad_label l E) as (pre & bad & post & -> & Hp & Hb).
    exists pre, bad, post. repeat split; try assumption.
    now rewrite (check_labels_first pre bad post 0 Hp Hb).
Qed.

(* ================================================================== *)
(** * Configuration *)
(* ================================================================== *)

Lemma getenv_string (name : str) (env : environment) :
  getenv name env = VUndefined \/ exists s, getenv name env = VStr s.
Proof.
  induction env as [|[n v] env IH]; [now left|]. cbn [getenv].
  destruct (str_eqb n name); [right; now exists v | exact IH].
Qed.

Lemma getRequiredEnv_legacy
  (env : environment) (name : str) (fallback : value) :
  string_or_nullish fallback = true ->
  LegacyServer.getRequiredEnv env name fallback
  = getRequiredEnv env name fallback.
Proof.
  intros Hf. unfold getRequiredEnv, LegacyServer.getRequiredEnv.
  destruct (getenv_string name env) as [-> | (s & ->)].
  - destruct fallback as [| |b|z|s|l|fs]; try discriminate;
      try reflexivity.
    destruct s; reflexivity.
  - destruct s as [|c s].
    + destruct fallback as [| |b|z|t|l|fs]; try discriminate;
        try reflexivity.
      destruct t; reflexivity.
    + destruct fallback as [| |b|z|t|l|fs]; try discriminate; reflexivity.
Qed.

(** X9: [getRequiredEnv] returns the value of the variable when it is set
    and not empty; otherwise it returns the fallback, whatever value
    that is, unless the fallback is [null], [undefined] or the empty
    string, and then it throws.  It never returns an empty string.  On
    a fallback that is a string, [null] or [undefined], as the callers
    pass, the older version of [index.js] behaves the same. *)
Theorem getRequiredEnv_nonempty
  (env : environment) (name : str) (fallback : value) :
  match getenv name env with
  | VStr ((_ :: _) as s) =>
      getRequiredEnv env name fallback = Return (VStr s)
  | _ =>
      if is_null fallback || is_undefined fallback || is_str [] fallback
      then getRequiredEnv env name fallback = Raise (not_set name)
      else getRequiredEnv env name fallback = Return fallback
  end
  /\ getRequiredEnv env name fallback <> Return (VStr [])
  /\ (string_or_nullish fallback = true ->
      LegacyServer.getRequiredEnv env name fallback
      = getRequiredEnv env name fallback).
Proof.
  split; [|split; [|apply getRequiredEnv_legacy]].
  - unfold getRequiredEnv.
    destruct (getenv_string name env) as [-> | (s & ->)].
    + destruct fallback as [| |b|z|s|l|fs]; try reflexivity.
      destruct s; reflexivity.
    + destruct s as [|c s]; [|reflexivity].
      destruct fallback as [| |b|z|t|l|fs]; try reflexivity.
      destruct t; reflexivity.
  - unfold getRequiredEnv.
    destruct (getenv_string name env) as [-> | (s & ->)].
    + destruct fallback as [| |b|z|s|l|fs]; try discriminate.
      destruct s; discriminate.
    + destruct s as [|c s]; [|discriminate].
      destruct fallback as [| |b|z|t|l|fs]; try discriminate.
      destruct t; discriminate.
Qed.

Lemma getRequiredEnv_nonempty_witness :
  getRequiredEnv [(js "JIRA_HOST", [])] (js "JIRA_HOST") (VNum 5)
  = Return (VNum 5)
  /\ LegacyServer.getRequiredEnv
       [(js "JIRA_HOST", []); (js "JIRA_URL", js "https://x.atlassian.net")]
       (js "JIRA_HOST") (VStr (js "https://x.atlassian.net"))
     = getRequiredEnv
         [(js "JIRA_HOST", []); (js "JIRA_URL", js "https://x.atlassian.net")]
         (js "JIRA_HOST") (VStr (js "https://x.atlassian.net")).
Proof.
  split.
  - exact (proj1 (getRequiredEnv_nonempty
                    [(js "JIRA_HOST", [])] (js "JIRA_HOST") (VNum 5))).
  - exact (proj2 (proj2 (getRequiredEnv_nonempty
                           [(js "JIRA_HOST", []);
                            (js "JIRA_URL", js "https://x.atlassian.net")]
                           (js "JIRA_HOST")
                           (VStr (js "https://x.atlassian.net")))) eq_refl).
Defined.

Lemma getRequiredEnv_setting (env : environment) (name : string)
  (fallback : value) :
  string_or_nullish fallback = true ->
  forall v, getRequiredEnv env (js name) fallback = Return v ->
  exists s, v = VStr s /\ s <> []
            /\ match setting name env with
               | Some x => s = x
               | None => fallback = VStr s
               end.
Proof.
  intros Hf v. unfold getRequiredEnv, setting.
  destruct (getenv_string (js name) env) as [-> | (s & ->)].
  - destruct fallback as [| |b|z|s|l|fs]; try discriminate.
    destruct s; [discriminate|]. intros [= <-]. eexists.
    repeat split. discriminate.
  - destruct s as [|c s].
    + destruct fallback as [| |b|z|t|l|fs]; try discriminate.
      destruct t; [discriminate|]. intros [= <-]. eexists.
      repeat split. discriminate.
    + intros H. assert (E : v = VStr (c :: s)).
      { destruct fallback; cbn in H; congruence. }
      subst v. eexists. repeat split. discriminate.
Qed.

Lemma getenv_nullish (name : str) (env : environment) :
  string_or_nullish (getenv name env) = true.
Proof. destruct (getenv_string name env) as [-> | (s & ->)]; reflexivity. Qed.

(** X10: When the constants of the module are set, the base address starts
    with [https://], the e-mail address and the token are not empty, and
    the project key has the format of a project key.  The address is
    the value of JIRA_HOST when that is set and not empty, else the
    value of JIRA_URL.  The older [index.js] sets the same constants
    whenever the newer one does; it does not test the project key. *)
Theorem load_config_enforces_https (env : environment) (c : config) :
  load_config env = Return c ->
  startsWith (js "https://") (JIRA_URL c) = true
  /\ JIRA_EMAIL c <> [] /\ JIRA_API_TOKEN c <> []
  /\ project_key_format (JIRA_PROJECT_KEY c) = true
  /\ match setting "JIRA_HOST" env with
     | Some host => JIRA_URL c = host
     | None => setting "JIRA_URL" env = Some (JIRA_URL c)
     end
  /\ LegacyServer.load_config env = Return c.
Proof.
  unfold load_config, LegacyServer.load_config. intros H.
  pose proof (getenv_nullish (js "JIRA_URL") env) as Hfb.
  rewrite !(getRequiredEnv_legacy env _ _ Hfb).
  rewrite !(getRequiredEnv_legacy env _ VUndefined eq_refl).
  destruct (getRequiredEnv env (js "JIRA_HOST") _) as [url|] eqn:Eu;
    [|discriminate].
  destruct (getRequiredEnv_setting env "JIRA_HOST" _ Hfb _ Eu)
    as (u & -> & Hu & Hhost).
  destruct (getRequiredEnv env (js "JIRA_EMAIL") _) as [email|] eqn:Ee;
    [|discriminate].
  destruct (getRequiredEnv_setting env "JIRA_EMAIL" VUndefined eq_refl _ Ee)
    as (e & -> & He & _).
  destruct (getRequiredEnv env (js "JIRA_API_TOKEN") _) as [token|] eqn:Et;
    [|discriminate].
  destruct (getRequiredEnv_setting env "JIRA_API_TOKEN" VUndefined eq_refl _ Et)
    as (t & -> & Ht & _).
  cbn [and_then string_of] in *.
  destruct (validateProjectKey _) as [project|] eqn:Ep; [|discriminate].
  cbn [and_then] in H.
  destruct (startsWith (js "https://") u) eqn:Es; [|discriminate].
  cbn [negb] in *. injection H as <-. cbn [JIRA_URL JIRA_EMAIL JIRA_API_TOKEN
                                        JIRA_PROJECT_KEY].
  pose proof (validateProjectKey_length _ _ Ep) as [Hk _].
  repeat split; try assumption.
  - unfold validateProjectKey in Ep. rewrite Hk in Ep. cbn [string_of] in Ep.
    destruct (negb (truthy (VStr project)) || _); [discriminate|].
    now destruct (project_key_format project).
  - destruct (setting "JIRA_HOST" env); [exact Hhost|].
    unfold setting. rewrite Hhost. destruct u; [contradiction | reflexivity].
  - now rewrite Hk.
Qed.

Lemma load_config_enforces_https_witness :
  load_config sample_environment = Return sample_config
  /\ startsWith (js "https://") (JIRA_URL sample_config) = true
  /\ JIRA_EMAIL sample_config <> [] /\ JIRA_API_TOKEN sample_config <> []
  /\ project_key_format (JIRA_PROJECT_KEY sample_config) = true
  /\ JIRA_URL sample_config = js "https://x.atlassian.net"
  /\ LegacyServer.load_config sample_environment = Return sample_config.
Proof.
  split; [reflexivity|].
  exact (load_config_enforces_https sample_environment sample_config eq_refl).
Defined.

(* ================================================================== *)
(** * The two directions together *)
(* ================================================================== *)

(** Whatever the parser is given, a string or not, it returns a
    well-formed document. *)
Lemma check_doc_createADFDocument (content : value) :
  check_doc (createADFDocument content) = true.
Proof.
  destruct content as [| |b|z|s|l|fs]; try reflexivity.
  destruct s as [|c s]; [reflexivity|].
  rewrite createADFDocument_sparse by discriminate. cbv zeta.
  set (rbs := sparse _ _ _).
  assert (H : forallb check_block (nodes_of rbs) = true).
  { apply check_block_nodes_of. subst rbs. now apply sparse_ok. }
  destruct (nodes_of rbs) as [|n ns]; [reflexivity|].
  cbn [is_empty_list]. unfold doc, check_doc. now rewrite H.
Qed.

Ltac crack H :=
  repeat match type of H with
         | match ?x with _ => _ end = true => destruct x; try discriminate H
         end.

Ltac keys :=
  repeat match goal with
         | H : _ && _ = true |- _ => apply andb_true_iff in H as [? ?]
         | H : key_is ?k _ = true |- _ =>
             unfold key_is in H; apply str_eqb_eq in H; subst k
         end.

Lemma check_mark_shaped (m : value) : check_mark m = true -> shaped m = true.
Proof.
  intros H. unfold check_mark in H. crack H; keys; reflexivity.
Qed.

Lemma check_inline_shaped (n : value) :
  check_inline n = true -> shaped n = true.
Proof.
  intros H. unfold check_inline in H. crack H; keys; try reflexivity.
  match goal with H : check_mark ?m = true |- _ =>
    apply check_mark_shaped in H; cbn; now rewrite H end.
Qed.

Lemma forallb_imp {A} (P Q : A -> bool) (l : list A) :
  (forall x, P x = true -> Q x = true) ->
  forallb P l = true -> forallb Q l = true.
Proof. intros HPQ. rewrite !forallb_forall. auto. Qed.

Lemma shaped_inline_content (t : str) :
  forallb shaped (parseInlineContent t) = true.
Proof.
  apply (forallb_imp _ _ _ check_inline_shaped).
  apply check_inline_parseInlineContent.
Qed.

Lemma shaped_node (ty : string) (c : list value) :
  forallb shaped c = true -> shaped (list_node ty c) = true.
Proof. intros H. cbn. now rewrite H. Qed.

Lemma shaped_paragraph (t : str) :
  shaped (paragraph (parseInlineContent t)) = true.
Proof. apply (shaped_node "paragraph"), shaped_inline_content. Qed.

Lemma shaped_listItem (t : str) :
  shaped (listItem (parseInlineContent t)) = true.
Proof.
  apply (shaped_node "listItem"). cbn [forallb].
  now rewrite shaped_paragraph.
Qed.

Lemma shaped_to_node (b : sblock) :
  sblock_ok b = true -> shaped (to_node b) = true.
Proof.
  destruct b as [t|level t|r ts|text lang|]; cbn [sblock_ok to_node]; intros H.
  - apply shaped_paragraph.
  - pose proof (shaped_inline_content t) as Hc.
    apply andb_true_iff in H as [H1 H6]. apply Z.leb_le in H1, H6.
    cbn. rewrite Hc.
    replace (Z.leb 0 level) with true by (symmetry; apply Z.leb_le; lia).
    replace (Z.leb level 6) with true by (symmetry; apply Z.leb_le; lia).
    reflexivity.
  - apply shaped_node. rewrite forallb_forall. intros x Hx.
    apply in_map_iff in Hx as (t & <- & _).
    destruct r; cbn [run_item];
      [apply shaped_listItem | apply shaped_listItem | apply shaped_paragraph].
  - unfold codeBlock. destruct (is_empty text), lang as [[|c l]|]; reflexivity.
  - reflexivity.
Qed.

Lemma shaped_doc (nodes : list value) :
  forallb shaped nodes = true -> shaped (doc nodes) = true.
Proof. intros H. cbn. now rewrite H. Qed.

(** X12: Rendering what the parser returns never throws: for every value
    handed to [createADFDocument], a string or not, [adfToText] returns
    a text for the document. *)
Theorem render_of_parse_returns (content : value) :
  exists text, adfToText (createADFDocument content) = Ok text.
Proof.
  apply adfToText_shaped.
  destruct content as [| |b|z|s|l|fs]; try reflexivity.
  destruct s as [|c s]; [reflexivity|].
  rewrite createADFDocument_sparse by discriminate. cbv zeta.
  set (rbs := sparse _ _ _).
  assert (H : forallb shaped (nodes_of rbs) = true).
  { assert (Hok : forallb sblock_ok rbs = true)
      by (subst rbs; now apply sparse_ok).
    unfold nodes_of. rewrite forallb_forall in *. intros x Hx.
    apply in_map_iff in Hx as (b & <- & Hb).
    apply shaped_to_node, Hok. now apply in_rev. }
  destruct (nodes_of rbs) as [|n ns]; [reflexivity|].
  cbn [is_empty_list]. now apply shaped_doc.
Qed.

(** X11: Whatever the parser is given, a string or not, it returns a
    well-formed document: one [doc] of version 1 that holds at least one
    block, every block and every inline node of a shape of the document
    format, no text node empty. *)
Theorem createADFDocument_well_formed (content : value) :
  check_doc (createADFDocument content) = true
  /\ exists nodes, createADFDocument content = doc nodes /\ nodes <> [].
Proof.
  split; [apply check_doc_createADFDocument|].
  unfold createADFDocument.
  destruct content as [| |b|z|s|l|fs];
    try (eexists; split; [reflexivity | discriminate]).
  destruct s as [|c s]; [eexists; split; [reflexivity | discriminate]|].
  cbv zeta. eexists. split; [reflexivity|].
  destruct (parseLines _ _); discriminate.
Qed.

(* ================================================================== *)
(** * Lines and indentation *)
(* ================================================================== *)

Lemma createADFDocument_lines (s : str) :
  createADFDocument (VStr s)
  = doc (let nodes := parseLines (split_lines s) [] in
         if is_empty_list nodes then [paragraph []] else nodes).
Proof. destruct s; reflexivity. Qed.

Lemma parseLines_trim (lines : list str) :
  forallb opens_no_fence lines = true ->
  forall nodes, parseLines (map trim lines) nodes = parseLines lines nodes.
Proof.
  induction lines as [|l lines IH]; intros H nodes; [reflexivity|].
  cbn [forallb] in H. apply andb_true_iff in H as [Hl Hls].
  cbn [map]. rewrite !parseLines_step, classify_trim.
  unfold opens_no_fence in Hl.
  destruct (classify l); try discriminate; now rewrite IH.
Qed.

(** X13: Outside a code fence the whitespace around a line carries no
    meaning: a text whose lines open no fence and the same text with
    every line trimmed give the same document.  An indented list item
    is an item of the outer list. *)
Theorem indentation_is_ignored (lines : list str) :
  lines <> [] -> forallb (no_char LF) lines = true ->
  forallb opens_no_fence lines = true ->
  createADFDocument (VStr (join [LF] (map trim lines)))
  = createADFDocument (VStr (join [LF] lines)).
Proof.
  intros Hne Hlf Hf. rewrite !createADFDocument_lines.
  assert (Hne' : map trim lines <> [])
    by (destruct lines; [contradiction | discriminate]).
  assert (Hlf' : forallb (no_char LF) (map trim lines) = true).
  { rewrite forallb_forall in *. intros l Hl.
    apply in_map_iff in Hl as (x & <- & Hx).
    apply forallb_trim. now apply Hlf. }
  rewrite (split_lines_join _ Hlf Hne), (split_lines_join _ Hlf' Hne').
  now rewrite parseLines_trim.
Qed.

Lemma indentation_is_ignored_witness :
  createADFDocument (VStr (unlines ["- a"; "- b"; "c"]%string))
  = createADFDocument (VStr (unlines ["- a"; "    - b"; "  c  "]%string)).
Proof.
  apply (indentation_is_ignored [js "- a"; js "    - b"; js "  c  "]).
  - discriminate.
  - reflexivity.
  - reflexivity.
Defined.

(* ================================================================== *)
(** * Runs of any length *)
(* ================================================================== *)

Lemma line_kind_of_run (r : run_kind) (l : str) :
  blank_or_run r l = true ->
  (classify l = KBlank /\ run_texts r [l] = [])
  \/ exists t, classify l = line_kind_of r t /\ run_texts r [l] = [t].
Proof.
  unfold blank_or_run, run_texts. cbn [flat_map]. rewrite app_nil_r.
  destruct (classify l) eqn:E, r; try discriminate; intros _;
    try (left; split; reflexivity); right; eexists; split; reflexivity.
Qed.

Lemma run_texts_cons (r : run_kind) (l : str) (lines : list str) :
  run_texts r (l :: lines) = run_texts r [l] ++ run_texts r lines.
Proof. unfold run_texts. cbn [flat_map]. now rewrite app_nil_r. Qed.

Lemma parse_run_rest (r : run_kind) (lines : list str) :
  forallb (blank_or_run r) lines = true ->
  forall acc rbs,
    parseLines lines (nodes_of (SRun r acc :: rbs))
    = nodes_of (SRun r (acc ++ run_texts r lines) :: rbs).
Proof.
  induction lines as [|l lines IH]; intros H acc rbs.
  - cbn [run_texts flat_map]. now rewrite app_nil_r.
  - cbn [forallb] in H. apply andb_true_iff in H as [Hl Hls].
    rewrite run_texts_cons.
    destruct (line_kind_of_run r l Hl) as [[Hk ->] | (t & Hk & ->)].
    + rewrite (parse_line_kind l _ _ _ Hk) by discriminate.
      cbn [semit app]. now apply IH.
    + rewrite (parse_line_kind l _ _ _ Hk (line_kind_of_not_fence r t)).
      rewrite semit_run_next, IH by assumption.
      now rewrite <- app_assoc.
Qed.

(** X14: Any number of list lines of one kind, or of quote lines, with blank
    lines anywhere between them, give one node: a blank line does not
    end a list or a quote, and the node holds one item for each line,
    in the order of the lines. *)
Theorem run_of_lines_is_one_node (r : run_kind) (lines : list str) :
  forallb (blank_or_run r) lines = true -> run_texts r lines <> [] ->
  parseLines lines []
  = [list_node (run_type r) (map (run_item r) (run_texts r lines))].
Proof.
  induction lines as [|l lines IH]; intros H Hne; [contradiction|].
  pose proof H as H'. cbn [forallb] in H'.
  apply andb_true_iff in H' as [Hl Hls].
  rewrite run_texts_cons in *.
  destruct (line_kind_of_run r l Hl) as [[Hk E] | (t & Hk & E)];
    rewrite E in *.
  - rewrite parseLines_blank.
    + now apply IH.
    + unfold classify in Hk. destruct (trim l); [reflexivity|].
      cbn [is_empty] in Hk.
      destruct (jiraHeading _) as [[? ?]|]; [discriminate|].
      destruct (mdHeading _) as [[? ?]|]; [discriminate|].
      destruct (_ || _); [discriminate|].
      destruct (ordered_marker _); [discriminate|].
      destruct (startsWith (js "> ") _); [discriminate|].
      destruct (_ || _); [discriminate|].
      destruct (_ || _); discriminate.
  - change (@nil value) with (nodes_of []).
    rewrite (parse_line_kind l _ _ _ Hk (line_kind_of_not_fence r t)).
    assert (Es : semit (line_kind_of r t) [] = [SRun r [t]])
      by (destruct r; reflexivity).
    rewrite Es, parse_run_rest by assumption. reflexivity.
Qed.

Lemma run_of_lines_is_one_node_witness :
  parseLines [js "> one"; js ""; js "  > two"; js "   "; js "> three"] []
  = [list_node "blockquote"
       [paragraph [plain_text (js "one")]; paragraph [plain_text (js "two")];
        paragraph [plain_text (js "three")]]].
Proof.
  apply (run_of_lines_is_one_node RQuote
           [js "> one"; js ""; js "  > two"; js "   "; js "> three"]).
  - reflexivity.
  - discriminate.
Defined.

(* ================================================================== *)
(** * Headings in the two syntaxes *)
(* ================================================================== *)

Lemma classify_hash_heading (level : Z) (t : str) :
  (1 <= level <= 6)%Z -> t <> [] -> trimmed t = true -> no_lt t = true ->
  classify (repeat_unit HASH (Z.to_nat level) ++ js " " ++ t)
  = KHeading level t.
Proof.
  intros Hl Hne Ht Hlt. apply trimmed_parts in Ht as [Hh Hlast].
  destruct (Z.to_nat level) as [|n] eqn:En; [lia|].
  assert (Hline : repeat_unit HASH (S n) ++ js " " ++ t
                  = (HASH :: repeat_unit HASH n ++ js " ") ++ t).
  { cbn [repeat_unit repeat app]. unfold repeat_unit.
    now rewrite <- app_assoc. }
  rewrite classify_unfold.
  2:{ rewrite Hline. now apply trim_prefixed. }
  2:{ discriminate. }
  cbn [repeat_unit repeat app]. rewrite jiraHeading_first by reflexivity.
  unfold mdHeading.
  change (HASH :: repeat HASH n ++ js " " ++ t)
    with (repeat HASH (S n) ++ SPACE :: t).
  rewrite span_app_stop; [| |reflexivity].
  2:{ clear. induction (S n); simpl; auto. }
  rewrite repeat_length.
  assert (Hn : (1 <=? S n) && (S n <=? 6) = true).
  { apply andb_true_iff. split; apply Nat.leb_le; lia. }
  rewrite Hn, ws_then_text_space by assumption.
  rewrite <- En, Z2Nat.id by lia. reflexivity.
Qed.

Lemma classify_wiki_heading (level : Z) (t : str) :
  (1 <= level <= 6)%Z -> t <> [] -> trimmed t = true -> no_lt t = true ->
  classify (js "h" ++ decimal (Z.to_N level) ++ js ". " ++ t)
  = KHeading level t.
Proof.
  intros Hl Hne Ht Hlt. apply trimmed_parts in Ht as [Hh Hlast].
  assert (Hd : exists d, decimal (Z.to_N level) = [d]
                         /\ N.leb 49 d && N.leb d 54 = true
                         /\ Z.of_N (d - 48) = level).
  { assert (Hc : (level = 1 \/ level = 2 \/ level = 3 \/ level = 4
                  \/ level = 5 \/ level = 6)%Z) by lia.
    repeat destruct Hc as [-> | Hc]; try subst level;
      eexists; repeat split; reflexivity. }
  destruct Hd as (d & -> & Hd & Hv).
  change (js "h" ++ [d] ++ js ". " ++ t)
    with ((LOWER_H :: [d; DOT; SPACE]) ++ t).
  rewrite classify_unfold.
  2:{ now apply trim_prefixed. }
  2:{ discriminate. }
  cbn [app]. unfold jiraHeading. rewrite !N.eqb_refl, Hd. cbn [andb].
  rewrite ws_then_text_space by assumption. now rewrite Hv.
Qed.

(** X15: A heading line in the wiki syntax, [h1.] to [h6.], and the line in
    the Markdown syntax, one to six [#], give the same document: one
    heading of that level over the same inline content. *)
Theorem heading_syntaxes_agree (level : Z) (t : str) :
  (1 <= level <= 6)%Z -> t <> [] -> trimmed t = true -> no_lt t = true ->
  createADFDocument
    (VStr (js "h" ++ decimal (Z.to_N level) ++ js ". " ++ t))
  = doc [heading level (parseInlineContent t)]
  /\ createADFDocument
       (VStr (repeat_unit HASH (Z.to_nat level) ++ js " " ++ t))
     = doc [heading level (parseInlineContent t)].
Proof.
  intros Hl Hne Ht Hlt.
  assert (Hlf : no_char LF t = true) by now apply no_lt_no_lf.
  split; rewrite createADFDocument_lines, split_lines_single.
  - rewrite parseLines_step, classify_wiki_heading by assumption.
    reflexivity.
  - rewrite !no_char_app, Hlf, andb_true_r.
    assert (Hc : (level = 1 \/ level = 2 \/ level = 3 \/ level = 4
                  \/ level = 5 \/ level = 6)%Z) by lia.
    repeat destruct Hc as [-> | Hc]; try subst level; reflexivity.
  - rewrite parseLines_step, classify_hash_heading by assumption.
    reflexivity.
  - rewrite !no_char_app, Hlf, andb_true_r.
    assert (Hc : (level = 1 \/ level = 2 \/ level = 3 \/ level = 4
                  \/ level = 5 \/ level = 6)%Z) by lia.
    repeat destruct Hc as [-> | Hc]; try subst level; reflexivity.
Qed.

Lemma heading_syntaxes_agree_witness :
  createADFDocument (VStr (js "h3. Release *notes*"))
  = createADFDocument (VStr (js "### Release *notes*")).
Proof.
  destruct (heading_syntaxes_agree 3 (js "Release *notes*")) as [H1 H2];
    [lia | discriminate | reflexivity | reflexivity |].
  exact (eq_trans H1 (eq_sym H2)).
Defined.

(* ================================================================== *)
(** * Numbered lists *)
(* ================================================================== *)

Lemma ordered_lines_classify (items : list (N * str)) :
  forallb (fun it : N * str => text_ok (snd it) && head_ok (snd it)) items
  = true ->
  Forall2 (fun l t => classify l = line_kind_of ROrdered t)
    (map ordered_line items) (map snd items).
Proof.
  induction items as [|[n t] items IH]; intros H; [constructor|].
  cbn [forallb snd] in H. apply andb_true_iff in H as [Ht Hts].
  apply andb_true_iff in Ht as [Ht Hh].
  cbn [map]. constructor; [|now apply IH].
  unfold ordered_line. cbn [fst snd line_kind_of].
  now apply classify_ordered_line.
Qed.

(** X16: The numbers a writer gives the lines of a numbered list are not
    kept: the lines become one ordered list, and the list is rendered
    with its items numbered from 1 in steps of 1. *)
Theorem ordered_list_is_renumbered (items : list (N * str)) :
  items <> [] ->
  forallb (fun it : N * str => text_ok (snd it) && head_ok (snd it)) items
  = true ->
  createADFDocument (VStr (join [LF] (map ordered_line items)))
  = doc [list_node "orderedList"
           (map (fun it : N * str => listItem (parseInlineContent (snd it)))
              items)]
  /\ render_parse (join [LF] (map ordered_line items))
     = Ok (join [LF] (numbered 0 (map snd items))).
Proof.
  intros Hne Hok.
  assert (Hdoc : createADFDocument (VStr (join [LF] (map ordered_line items)))
                 = doc (nodes_of [SRun ROrdered (map snd items)])).
  { rewrite createADFDocument_lines, split_lines_join.
    - pose proof (ordered_lines_classify items Hok) as HF.
      destruct items as [|[n t] items]; [contradiction|].
      cbn [map] in *. inversion HF as [|? ? ? ? Hl HF']; subst.
      change (@nil value) with (nodes_of []). cbv zeta.
      rewrite (parse_line_kind _ _ _ _ Hl (line_kind_of_not_fence _ _)).
      cbn [line_kind_of semit add_run].
      rewrite <- (app_nil_r (map ordered_line items)).
      rewrite (reparse_run_rest ROrdered _ _ HF').
      cbn [parseLines app]. reflexivity.
    - rewrite forallb_forall in *. intros l Hl.
      apply in_map_iff in Hl as ([n t] & <- & Hit).
      specialize (Hok _ Hit). cbn [snd] in Hok.
      apply andb_true_iff in Hok as [Ht _].
      unfold ordered_line. cbn [fst snd].
      rewrite !no_char_app, (digits_no_lf _ (decimal_digits n)).
      now rewrite (text_ok_no_lf t Ht).
    - destruct items; [contradiction | discriminate]. }
  split.
  - rewrite Hdoc. unfold nodes_of. cbn [rev app map to_node run_type].
    now rewrite map_map.
  - unfold render_parse. rewrite Hdoc, adfToText_nodes_of.
    + reflexivity.
    + cbn [forallb good]. rewrite andb_true_r.
      apply andb_true_iff. split; [destruct items; [contradiction | reflexivity]|].
      rewrite forallb_forall in *. intros t Ht.
      apply in_map_iff in Ht as (it & <- & Hit). now apply Hok.
Qed.

Lemma ordered_list_is_renumbered_witness :
  render_parse (unlines ["7. first"; "7. second"; "1. third"]%string)
  = Ok (unlines ["1. first"; "2. second"; "3. third"]%string).
Proof.
  refine (proj2 (ordered_list_is_renumbered
                   [(7%N, js "first"); (7%N, js "second"); (1%N, js "third")]
                   _ _)).
  - discriminate.
  - reflexivity.
Defined.

(* ================================================================== *)
(** * Inline text *)
(* ================================================================== *)

(** X17: A text that holds no vertical bar is tokenized without loss:
    rendering the inline nodes of the text gives the text back, code
    unit for code unit, whatever spans it holds and whether or not its
    delimiters pair up. *)
Theorem inline_text_round_trip (t : str) :
  no_char PIPE t = true ->
  inlineNodesToText (VArr (parseInlineContent t)) = Ok t.
Proof. apply parseInlineContent_render. Qed.

Lemma inline_text_round_trip_witness :
  inlineNodesToText
    (VArr (parseInlineContent (js "a **b* ~~c~~ [d](e) `f` [g]( *h")))
  = Ok (js "a **b* ~~c~~ [d](e) `f` [g]( *h").
Proof. apply inline_text_round_trip. reflexivity. Defined.

(* ================================================================== *)
(** * The document of a rendered text *)
(* ================================================================== *)

(** X27: Rendering loses nothing the parser would find again: for a text
    that holds no vertical bar and no line terminator other than the
    line feed, the text rendered from its document is parsed to the
    same document. *)
Theorem rendered_text_has_same_document (x : str) :
  stable_input x = true ->
  exists y,
    render_parse x = Ok y
    /\ createADFDocument (VStr y) = createADFDocument (VStr x).
Proof.
  intros Hx. unfold render_parse.
  destruct x as [|c x]; [exists []; split; reflexivity|].
  rewrite createADFDocument_sparse by discriminate. cbv zeta.
  set (ls := split_lines (c :: x)).
  destruct (sparse_good (length ls) ls [] (stable_input_lines _ Hx)
              eq_refl eq_refl) as [Hg Hadj].
  set (rbs := sparse (length ls) ls []) in *.
  rewrite nodes_of_nil_iff.
  destruct rbs as [|b rbs'] eqn:Erbs; [exists []; split; reflexivity|].
  cbn [is_empty_list]. rewrite <- Erbs in *.
  assert (Hne : rbs <> []) by (rewrite Erbs; discriminate).
  exists (join [LF; LF] (map block_text (rev rbs))).
  split; [now apply adfToText_nodes_of|].
  rewrite createADFDocument_lines, (reparse_rendered rbs Hne Hg Hadj).
  cbv zeta. rewrite nodes_of_nil_iff, Erbs. reflexivity.
Qed.

Lemma rendered_text_has_same_document_witness :
  exists y,
    render_parse
      (unlines ["h2.  Notes"; "  * one"; ""; "- two **b**"; "3. c";
                "> q"; "----"; "```"; " x"; "```"]%string)
    = Ok y
    /\ createADFDocument (VStr y)
       = createADFDocument
           (VStr (unlines ["h2.  Notes"; "  * one"; ""; "- two **b**";
                           "3. c"; "> q"; "----"; "```"; " x"; "```"]%string)).
Proof. apply rendered_text_has_same_document. reflexivity. Defined.

(* ================================================================== *)
(** * Tool calls: what is sent *)
(* ================================================================== *)

Lemma always_after {A B} (P : request -> Prop) (m : attempt A)
  (k : A -> task B) :
  (forall a, m = Got a -> always P (k a)) -> always P (after m k).
Proof. destruct m; intros H; [now apply H | exact I | exact I]. Qed.

Lemma always_await {A} (P : request -> Prop) (v : method) (p : str)
  (d : value) (k : value -> task A) :
  P {| verb := v; path := p; payload := d |} ->
  (forall response, always P (k response)) ->
  always P (await v p d k).
Proof.
  intros Hr Hk. split; [exact Hr|]. intros [response|reason];
    [apply Hk | exact I].
Qed.

Lemma always_catch {A} (P : request -> Prop) (m : task A)
  (h : thrown -> task A) :
  always P m -> (forall t, always P (h t)) -> always P (catch m h).
Proof.
  intros Hm Hh. induction m as [r|r k IH]; cbn [catch].
  - destruct r; [exact I | apply Hh | exact I].
  - destruct Hm as [Hr Hk]. split; [exact Hr|]. intros x. now apply IH.
Qed.

Lemma segment_is_path (s : str) :
  forallb is_segment_unit s = true -> forallb is_path_unit s = true.
Proof.
  apply forallb_weaken. intros c. unfold is_segment_unit, is_path_unit.
  intros H. apply orb_true_iff in H as [H|H];
    [apply orb_true_iff in H as [H|H];
     [apply orb_true_iff in H as [H|H]|]|]; rewrite H;
    rewrite ?orb_true_r; reflexivity.
Qed.

Lemma issue_key_text (v : value) (s : str) :
  of_result (validateIssueKey v) = Got s ->
  to_text v = Got s /\ forallb is_path_unit s = true.
Proof.
  destruct (validateIssueKey v) as [k|] eqn:E; [|discriminate].
  intros [= ->]. apply validateIssueKey_inv in E as (-> & H).
  split; [reflexivity | now apply segment_is_path, issue_key_segment].
Qed.

Lemma project_key_text (cfg : config) (args : value) (p : str) :
  project_key_format (JIRA_PROJECT_KEY cfg) = true ->
  project_of cfg args = Got p -> forallb is_path_unit p = true.
Proof.
  intros Hc. unfold project_of, read.
  destruct (not_nullish args); [|discriminate]. cbn [and_also].
  destruct (truthy _).
  - destruct (validateProjectKey _) as [k|] eqn:E; [|discriminate].
    intros [= ->]. apply validateProjectKey_inv in E as (_ & H).
    now apply segment_is_path, project_key_segment.
  - intros [= <-]. now apply segment_is_path, project_key_segment.
Qed.

Lemma valid_project_text (v : value) (s : str) :
  of_result (validateProjectKey v) = Got s ->
  to_text v = Got s /\ forallb is_path_unit s = true.
Proof.
  destruct (validateProjectKey v) as [k|] eqn:E; [|discriminate].
  intros [= ->]. apply validateProjectKey_inv in E as (-> & H).
  split; [reflexivity | now apply segment_is_path, project_key_segment].
Qed.

Lemma forallb_path_app (a b : str) :
  forallb is_path_unit a = true -> forallb is_path_unit b = true ->
  forallb is_path_unit (a ++ b) = true.
Proof. intros Ha Hb. now rewrite forallb_app, Ha, Hb. Qed.

Ltac path_goal :=
  cbn [path];
  repeat (apply forallb_path_app);
  try reflexivity;
  try match goal with
      | H : of_result (validateIssueKey ?v) = Got _,
        K : to_text ?v = Got ?k |- forallb is_path_unit ?k = true =>
          let E := fresh in
          destruct (issue_key_text _ _ H) as [E ?];
          rewrite E in K; injection K as <-; assumption
      | H : of_result (validateProjectKey ?v) = Got _,
        K : to_text ?v = Got ?k |- forallb is_path_unit ?k = true =>
          let E := fresh in
          destruct (valid_project_text _ _ H) as [E ?];
          rewrite E in K; injection K as <-; assumption
      | H : project_of _ _ = Got ?p |- forallb is_path_unit ?p = true =>
          eapply project_key_text; eassumption
      end.

Ltac walk :=
  repeat first
    [ exact I
    | apply always_after; intros ? ?
    | apply always_await; [path_goal | intros ?]
    | match goal with
      | |- always _ (if ?b then _ else _) => destruct b
      end ].

Section Paths.
Variable host : engine.
Variable env : environment.
Variable cfg : config.
Hypothesis Hcfg : project_key_format (JIRA_PROJECT_KEY cfg) = true.

Lemma update_status_paths issueKey key updates status checked :
  of_result (validateIssueKey issueKey) = Got checked ->
  to_text issueKey = Got key ->
  always plain_path (update_status host cfg issueKey key updates status).
Proof. intros Hv Hk. unfold update_status, plain_path. walk. Qed.

Lemma tool_paths (name args : value) :
  always plain_path (tool host cfg name args).
Proof.
  unfold tool.
  repeat match goal with
         | |- always _ (if ?b then _ else _) => destruct b
         end.
  all: try (unfold plain_path; walk; fail).
  - unfold jira_update_issue. walk; now apply update_status_paths with a0.
  - unfold jira_link_issues. walk. split; [reflexivity|].
    intros [response|linkError]; exact I.
Qed.

(** X18: Whatever tool is called with whatever arguments, and whatever the
    replies to its requests are, the path of every request the handler
    sends holds letters, digits, slashes, dashes and underscores only:
    an argument reaches a path only after [validateIssueKey] or
    [validateProjectKey] has accepted it.  The project key of the
    configuration is taken to have passed [validateProjectKey], as it
    has when the module has loaded. *)
Theorem request_paths_are_plain (request : value) :
  always plain_path (callTool host env cfg request).
Proof.
  unfold callTool. apply always_after. intros params _.
  apply always_after. intros params' _.
  apply always_catch; [apply tool_paths | intros t; exact I].
Qed.
End Paths.

Lemma request_paths_are_plain_witness :
  always plain_path
    (callTool sample_engine [] sample_config
       (call (VStr (js "jira_update_issue"))
          (obj ["issueKey" =: VStr (js "PROJ-7");
                "summary" =: VStr (js "New title");
                "status" =: VStr (js "Done")]))).
Proof. apply request_paths_are_plain. reflexivity. Defined.

(* ================================================================== *)
(** * Tool calls: what is refused before anything is sent *)
(* ================================================================== *)

Lemma callTool_call host env cfg (name args : value) :
  callTool host env cfg (call name args)
  = catch (tool host cfg name args)
      (fun error => Finish (handleError host env error)).
Proof. reflexivity. Qed.

Lemma destructure_ok (v : value) :
  not_nullish v = true -> destructure v = Got v.
Proof. unfold destructure. now intros ->. Qed.

Lemma key_arguments_inv (name k : string) :
  In k (key_arguments name) ->
  (k = "issueKey"%string
   /\ In name ["jira_get_issue"; "jira_update_issue"; "jira_add_comment";
               "jira_delete_issue"; "jira_assign_issue";
               "jira_list_transitions"; "jira_add_worklog";
               "jira_get_comments"; "jira_get_worklogs"]%string)
  \/ (name = "jira_link_issues"%string
      /\ (k = "inwardIssue"%string \/ k = "outwardIssue"%string))
  \/ (name = "jira_create_subtask"%string /\ k = "parentKey"%string).
Proof.
  unfold key_arguments.
  destruct (existsb _ _) eqn:E.
  - intros [<- | []]. left. split; [reflexivity|].
    apply existsb_exists in E as (x & Hx & Hn).
    apply String.eqb_eq in Hn. now subst x.
  - destruct (String.eqb_spec name "jira_link_issues") as [-> | _].
    + intros [<- | [<- | []]]; right; left; auto.
    + destruct (String.eqb_spec name "jira_create_subtask") as [-> | _];
        [|intros []].
      intros [<- | []]. right. right. auto.
Qed.

Ltac pick_tool :=
  unfold tool;
  repeat match goal with
         | |- context [is_str ?a (VStr (js ?n))] =>
             let r := eval vm_compute in (is_str a (VStr (js n))) in
             change (is_str a (VStr (js n))) with r
         end;
  cbv iota.

(** X19: A tool that takes an issue key sends nothing when the key is
    refused: the call is answered by the error result of
    [validateIssueKey], and this holds for each of the keys of
    [jira_link_issues] and for the parent key of
    [jira_create_subtask]. *)
Theorem refused_issue_key_sends_nothing host env cfg
  (name k : string) (args : value) (message : str) :
  In k (key_arguments name) -> not_nullish args = true ->
  validateIssueKey (field k args) = Raise message ->
  exists k' message',
    In k' (key_arguments name)
    /\ validateIssueKey (field k' args) = Raise message'
    /\ callTool host env cfg (call (VStr (js name)) args)
       = Finish (handleError host env (Error message')).
Proof.
  intros Hk Hargs Hv. rewrite callTool_call.
  pose proof (destructure_ok args Hargs) as Hd.
  destruct (key_arguments_inv name k Hk)
    as [[-> Hn] | [[-> Hk'] | [-> ->]]].
  - exists "issueKey"%string, message. split; [exact Hk|]. split; [exact Hv|].
    cbn [In] in Hn.
    repeat destruct Hn as [<- | Hn]; try contradiction; pick_tool;
      unfold jira_get_issue, jira_update_issue, jira_add_comment,
        jira_delete_issue, jira_assign_issue, jira_list_transitions,
        jira_add_worklog, jira_get_comments, jira_get_worklogs;
      rewrite Hd; cbn [after]; rewrite Hv; reflexivity.
  - pick_tool. unfold jira_link_issues. rewrite Hd. cbn [after].
    destruct (validateIssueKey (field "inwardIssue" args)) as [inward|m] eqn:E.
    + destruct Hk' as [-> | ->]; [congruence|].
      exists "outwardIssue"%string, message.
      split; [right; now left|]. split; [exact Hv|].
      cbn [after of_result]. rewrite Hv. reflexivity.
    + exists "inwardIssue"%string, m.
      split; [now left|]. split; [exact E|]. reflexivity.
  - exists "parentKey"%string, message.
    split; [now left|]. split; [exact Hv|].
    pick_tool. unfold jira_create_subtask. rewrite Hd. cbn [after].
    rewrite Hv. reflexivity.
Qed.

Lemma refused_issue_key_sends_nothing_witness :
  exists k' message',
    In k' (key_arguments "jira_delete_issue")
    /\ validateIssueKey
         (field k' (obj ["issueKey" =: VStr (js "PROJ-1/../../user")]))
       = Raise message'
    /\ callTool sample_engine [] sample_config
         (call (VStr (js "jira_delete_issue"))
            (obj ["issueKey" =: VStr (js "PROJ-1/../../user")]))
       = Finish (handleError sample_engine [] (Error message')).
Proof.
  apply (refused_issue_key_sends_nothing sample_engine [] sample_config
           "jira_delete_issue" "issueKey" _
           (js "Invalid issue key format: PROJ-1/../../user. Expected format: PROJECT-123")).
  - now left.
  - reflexivity.
  - reflexivity.
Defined.

(** X20: A call of a tool the [switch] has no case for sends nothing and is
    answered by the error result that names the tool. *)
Theorem unknown_tool_sends_nothing host env cfg (name : str) (args : value) :
  existsb (fun n => str_eqb name (js n)) tool_names = false ->
  callTool host env cfg (call (VStr name) args)
  = Finish (handleError host env (Error (js "Unknown tool: " ++ name))).
Proof.
  intros H. rewrite callTool_call. unfold tool, is_str.
  cbn [existsb tool_names] in H.
  repeat match type of H with
         | _ || _ = false =>
             let E := fresh in
             apply orb_false_iff in H as [E H]; rewrite E
         end.
  reflexivity.
Qed.

Lemma unknown_tool_sends_nothing_witness :
  callTool sample_engine [] sample_config
    (call (VStr (js "jira_drop_project")) VUndefined)
  = Finish (handleError sample_engine []
              (Error (js "Unknown tool: jira_drop_project"))).
Proof.
  apply (unknown_tool_sends_nothing sample_engine [] sample_config
           (js "jira_drop_project")).
  reflexivity.
Defined.

(** X21: [jira_update_issue] with a valid key and neither a summary, a
    description nor a status sends nothing and reports that no update
    was provided, with [success] false. *)
Theorem update_without_changes_sends_nothing host env cfg
  (args : value) (key : str) :
  not_nullish args = true ->
  validateIssueKey (field "issueKey" args) = Return key ->
  truthy (field "summary" args) = false ->
  truthy (field "description" args) = false ->
  truthy (field "status" args) = false ->
  callTool host env cfg (call (VStr (js "jira_update_issue")) args)
  = Finish (Got (createSuccessResponse host
                   (obj ["success" =: VBool false;
                         "message" =:
                           VStr (js "No updates provided for " ++ key)]))).
Proof.
  intros Hargs Hv Hs Hd Hst. rewrite callTool_call. pick_tool.
  unfold jira_update_issue. rewrite (destructure_ok args Hargs).
  cbn [after]. rewrite Hv, Hs, Hd. cbn [of_result after orb].
  apply validateIssueKey_inv in Hv as [Hk _]. rewrite Hk.
  cbn [to_text toString of_outcome after].
  unfold update_status. rewrite Hst. unfold update_result. rewrite Hst.
  reflexivity.
Qed.

Lemma update_without_changes_sends_nothing_witness :
  callTool sample_engine [] sample_config
    (call (VStr (js "jira_update_issue"))
       (obj ["issueKey" =: VStr (js "PROJ-7"); "summary" =: VStr []]))
  = Finish (Got (createSuccessResponse sample_engine
                   (obj ["success" =: VBool false;
                         "message" =:
                           VStr (js "No updates provided for "
                                 ++ js "PROJ-7")]))).
Proof.
  apply update_without_changes_sends_nothing; reflexivity.
Defined.

(* ================================================================== *)
(** * Error results *)
(* ================================================================== *)

(** X22: For everything that can be thrown, a rejection with [null] or
    [undefined] apart, [handleError] returns an error result whose data
    say [Operation failed] and carry a message that is not empty; the
    data carry the error messages of Jira when the rejection has some,
    and a stack only when NODE_ENV is [development]. *)
Theorem handleError_result host env (error : thrown) :
  proper error = true ->
  exists data,
    handleError host env error = Got (error_result (stringify host data))
    /\ field "error" data = VStr (js "Operation failed")
    /\ truthy (field "message" data) = true
    /\ has_property "jiraErrors" data = has_length (jira_errors error)
    /\ (has_length (jira_errors error) = true ->
        field "jiraErrors" data = jira_errors error)
    /\ has_property "stack" data
       = is_str (js "development") (getenv (js "NODE_ENV") env).
Proof.
  intros Hp. unfold handleError.
  assert (Hr : exists response,
             response_of error = Got response
             /\ jira_errors error
                = field "errorMessages" (field "data" response)).
  { destruct error as [m|e|v]; try (eexists; split; reflexivity).
    cbn [proper] in Hp. cbn [response_of]. unfold read. rewrite Hp.
    eexists. split; reflexivity. }
  destruct Hr as (response & -> & ->). cbn [and_also].
  set (message := or_else _ _).
  assert (Hm : truthy message = true).
  { subst message. unfold or_else.
    destruct (truthy (message_of host error)) eqn:E; [exact E | reflexivity]. }
  clearbody message.
  eexists. split; [reflexivity|].
  destruct (has_length _), (truthy (field "errors" _) && _),
    (is_str (js "development") _); repeat split; try exact Hm;
    try discriminate; reflexivity.
Qed.

Lemma handleError_result_witness :
  exists data,
    handleError sample_engine [(js "NODE_ENV", js "production")]
      (Error (js "Invalid issue key: must be a string"))
    = Got (error_result (stringify sample_engine data))
    /\ field "error" data = VStr (js "Operation failed")
    /\ truthy (field "message" data) = true
    /\ has_property "jiraErrors" data
       = has_length (jira_errors (Error (js "Invalid issue key: must be a string")))
    /\ (has_length (jira_errors (Error (js "Invalid issue key: must be a string")))
        = true ->
        field "jiraErrors" data
        = jira_errors (Error (js "Invalid issue key: must be a string")))
    /\ has_property "stack" data
       = is_str (js "development")
           (getenv (js "NODE_ENV") [(js "NODE_ENV", js "production")]).
Proof. apply handleError_result. reflexivity. Defined.

(* ================================================================== *)
(** * Tool calls: every failure is answered *)
(* ================================================================== *)

Lemma own_and_also {A B} (m : attempt A) (k : A -> attempt B) :
  own_throw m -> (forall a, m = Got a -> own_throw (k a)) ->
  own_throw (and_also m k).
Proof. destruct m as [a|t|]; intros Hm Hk; [now apply Hk | exact Hm | exact I]. Qed.

Lemma own_of_result {A} (r : result A) : own_throw (of_result r).
Proof. destruct r; exact I. Qed.

Lemma own_of_outcome {A} (o : outcome A) : own_throw (of_outcome o).
Proof. destruct o; exact I. Qed.

Lemma own_read (k : string) (v : value) : own_throw (read k v).
Proof. unfold read. destruct (not_nullish v); exact I. Qed.

Lemma own_destructure (v : value) : own_throw (destructure v).
Proof. unfold destructure. destruct (not_nullish v); exact I. Qed.

Lemma own_number_value (r : result arg) : own_throw (number_value r).
Proof. destruct r as [[v|n d| |neg]|m]; exact I. Qed.

Lemma own_read_key (k : str) (v : value) : own_throw (read_key k v).
Proof.
  destruct v; try exact I. cbn [read_key].
  destruct (has_key k fields); [exact I|]. destruct (inherited k); exact I.
Qed.

Lemma own_includes_opt (lit : str) (v : value) :
  own_throw (includes_opt lit v).
Proof. destruct v; exact I. Qed.

Lemma own_mapA {B} (f : value -> attempt B) (l : list value) :
  (forall x, own_throw (f x)) -> own_throw (mapA f l).
Proof.
  intros Hf. induction l as [|x l IH]; [exact I|]. cbn [mapA].
  apply own_and_also; [apply Hf|]. intros b _.
  apply own_and_also; [exact IH|]. intros r _. exact I.
Qed.

Lemma own_map_array {B} (f : value -> attempt B) (v : value) :
  (forall x, own_throw (f x)) -> own_throw (map_array f v).
Proof. intros Hf. destruct v; try exact I. now apply own_mapA. Qed.

Lemma own_find_named (wanted : value) (l : list value) :
  own_throw (find_named wanted l).
Proof.
  induction l as [|t l IH]; [exact I|]. cbn [find_named].
  apply own_and_also; [apply own_read|]. intros name _.
  destruct (strict_eq name wanted); [exact I | exact IH].
Qed.

Ltac own :=
  repeat first
    [ exact I
    | assumption
    | apply own_of_result
    | apply own_of_outcome
    | apply own_read
    | apply own_destructure
    | apply own_number_value
    | apply own_read_key
    | apply own_includes_opt
    | apply own_find_named
    | apply own_and_also; [|intros ? ?]
    | apply own_map_array; intros ?
    | apply own_mapA; intros ?
    | match goal with
      | |- own_throw (if ?b then _ else _) => destruct b
      | |- own_throw (match ?x with _ => _ end) => destruct x
      end ].

Lemma own_to_text (v : value) : own_throw (to_text v).
Proof. unfold to_text. own. Qed.

Lemma own_createIssueUrl cfg (v : value) : own_throw (createIssueUrl cfg v).
Proof. unfold createIssueUrl. own. Qed.

Lemma own_project_of cfg (args : value) : own_throw (project_of cfg args).
Proof. unfold project_of. own. Qed.

Lemma own_ends {A} (r : attempt A) : own_throw r -> no_empty_reason r.
Proof. destruct r as [a|[m|e|v]|]; intros H; try exact I. contradiction. Qed.

Lemma ends_after {A B} (Q : attempt B -> Prop) (m : attempt A)
  (k : A -> task B) :
  (forall t, m = Threw t -> Q (Threw t)) -> (m = NotModelled -> Q NotModelled) ->
  (forall a, m = Got a -> ends Q (k a)) -> ends Q (after m k).
Proof.
  destruct m as [a|t|]; intros Ht Hn Hk; [now apply Hk | now apply Ht | now apply Hn].
Qed.

Lemma reason_after {A B} (m : attempt A) (k : A -> task B) :
  own_throw m -> (forall a, m = Got a -> ends no_empty_reason (k a)) ->
  ends no_empty_reason (after m k).
Proof.
  intros Hm Hk. apply ends_after; try assumption.
  - intros t ->. now apply own_ends.
  - intros _. exact I.
Qed.

Lemma reason_await {A} (v : method) (p : str) (d : value)
  (k : value -> task A) :
  (forall response, ends no_empty_reason (k response)) ->
  ends no_empty_reason (await v p d k).
Proof. intros Hk. split; [exact Hk|]. intros reason Hr. exact Hr. Qed.

Ltac settle :=
  repeat first
    [ exact I
    | apply reason_after; [own | intros ? ?]
    | apply reason_await; intros ?
    | match goal with
      | |- ends _ (if ?b then _ else _) => destruct b
      | |- ends no_empty_reason (Finish _) => apply own_ends; own
      end ].

Lemma reason_and_also {A B} (m : attempt A) (k : A -> attempt B) :
  own_throw m -> (forall a, no_empty_reason (k a)) ->
  no_empty_reason (and_also m k).
Proof.
  destruct m as [a|t|]; intros Hm Hk; [apply Hk | | exact I].
  destruct t; [exact I | exact I | contradiction].
Qed.

Lemma handleError_got host env (error : thrown) :
  proper error = true -> exists r, handleError host env error = Got r.
Proof.
  intros Hp. unfold handleError.
  destruct error as [m|e|v]; try (eexists; reflexivity).
  cbn [proper] in Hp. cbn [response_of]. unfold read. rewrite Hp.
  eexists. reflexivity.
Qed.

Lemma ends_catch {A} (m : task A) (h : thrown -> attempt A) :
  ends no_empty_reason m ->
  (forall t, proper t = true -> no_throw (h t)) ->
  ends no_throw (catch m (fun t => Finish (h t))).
Proof.
  intros Hm Hh. induction m as [r|r k IH]; cbn [catch].
  - destruct r as [a|t|]; try exact I. cbn [ends]. apply Hh.
    destruct t; try reflexivity. exact Hm.
  - destruct Hm as [Hres Hrej]. split.
    + intros response. apply IH, Hres.
    + intros reason Hr. now apply IH, Hrej.
Qed.

Section Settles.
Variable host : engine.
Variable env : environment.
Variable cfg : config.

Lemma update_status_reasons issueKey key updates status :
  ends no_empty_reason (update_status host cfg issueKey key updates status).
Proof. unfold update_status, update_result. settle. Qed.

Lemma tool_reasons (name args : value) :
  ends no_empty_reason (tool host cfg name args).
Proof.
  unfold tool.
  repeat match goal with
         | |- ends _ (if ?b then _ else _) => destruct b
         end.
  all: unfold jira_create_issue, jira_get_issue, jira_search_issues,
         jira_update_issue, jira_add_comment, jira_link_issues,
         jira_get_project_info, jira_delete_issue, jira_create_subtask,
         jira_assign_issue, jira_list_transitions, jira_add_worklog,
         jira_get_comments, jira_get_worklogs, jira_list_projects,
         jira_get_project_components, jira_get_project_versions,
         jira_get_fields, jira_get_issue_types, jira_get_priorities,
         jira_get_link_types, jira_search_users.
  all: settle.
  - apply update_status_reasons.
  - apply update_status_reasons.
  - split.
    + intros response. apply own_ends. own.
    + intros linkError Hr. cbn [ends].
      apply reason_and_also; [own|]. intros inward.
      apply reason_and_also; [own|]. intros outward.
      unfold link_failed.
      apply reason_and_also; [own|]. intros response.
      apply reason_and_also; [own|]. intros known.
      destruct (truthy known); [exact I | exact Hr].
Qed.

(** X23: The [try] of the handler covers every failure of a tool: called
    with a request of the protocol's shape, whatever the tool name and
    the arguments are and whatever the replies are (a rejection with
    [null] or [undefined] apart), the handler does not end in a throw.
    A refused argument, a rejected request and a response of another
    shape than expected all end in a returned result. *)
Theorem every_failure_is_answered (name args : value) :
  ends no_throw (callTool host env cfg (call name args)).
Proof.
  rewrite callTool_call. apply ends_catch; [apply tool_reasons|].
  intros t Ht. destruct (handleError_got host env t Ht) as [r ->]. exact I.
Qed.
End Settles.

(* ================================================================== *)
(** * Tool calls: the documents sent *)
(* ================================================================== *)

Lemma document_ok (content : value) :
  is_document_or_absent (createADFDocument content) = true.
Proof.
  unfold is_document_or_absent.
  now rewrite check_doc_createADFDocument, orb_true_r.
Qed.

Lemma assoc_assign_other (k k' : str) (x : value) (fs : list (str * value)) :
  str_eqb k' k = false -> assoc k (assign k' x fs) = assoc k fs.
Proof.
  intros Hk. induction fs as [|[n y] fs IH]; cbn [assign assoc].
  - destruct (str_eqb k' k) eqn:E; [discriminate | reflexivity].
  - destruct (str_eqb n k') eqn:E1.
    + apply str_eqb_eq in E1. subst n. cbn [assoc]. now rewrite Hk.
    + cbn [assoc]. destruct (str_eqb n k); [reflexivity | exact IH].
Qed.

Lemma assigned_keeps_description (K : str) (sp : attempt value)
  (guard proto : bool) (fields fields' : list (str * value)) :
  (if guard then
     points <~ sp ;;
     if proto then NotModelled else Got (assign K points fields)
   else Got fields) = Got fields' ->
  str_eqb K (js "description") = false ->
  assoc (js "description") fields' = assoc (js "description") fields.
Proof.
  intros H HK. destruct guard; [|congruence].
  destruct sp as [points| |]; try discriminate.
  cbn [and_also] in H. destruct proto; [discriminate|].
  assert (E : fields' = assign K points fields) by congruence.
  rewrite E. now apply assoc_assign_other.
Qed.

Ltac doc_goal :=
  unfold documents_ok; cbn [payload];
  repeat match goal with
         | |- context [if ?b then _ else _] => destruct b
         end;
  cbn - [createADFDocument is_document_or_absent check_doc];
  rewrite ?document_ok; repeat split; reflexivity.

Ltac walk_docs :=
  repeat first
    [ exact I
    | apply always_after; intros ? ?
    | apply always_await; [try doc_goal | intros ?]
    | match goal with
      | |- always _ (if ?b then _ else _) => destruct b
      end ].

Section Documents.
Variable host : engine.
Variable env : environment.
Variable cfg : config.
Hypothesis Hfield :
  str_eqb (STORY_POINTS_FIELD cfg) (js "description") = false.

Lemma update_status_documents issueKey key updates status :
  always documents_ok (update_status host cfg issueKey key updates status).
Proof. unfold update_status. walk_docs. Qed.

Lemma tool_documents (name args : value) :
  always documents_ok (tool host cfg name args).
Proof.
  unfold tool.
  repeat match goal with
         | |- always _ (if ?b then _ else _) => destruct b
         end.
  all: unfold jira_create_issue, jira_get_issue, jira_search_issues,
         jira_update_issue, jira_add_comment, jira_link_issues,
         jira_get_project_info, jira_delete_issue, jira_create_subtask,
         jira_assign_issue, jira_list_transitions, jira_add_worklog,
         jira_get_comments, jira_get_worklogs, jira_list_projects,
         jira_get_project_components, jira_get_project_versions,
         jira_get_fields, jira_get_issue_types, jira_get_priorities,
         jira_get_link_types, jira_search_users.
  all: walk_docs.
  - match goal with H : _ = Got ?a |- context [VObj ?a] => rename H into Hfs end.
    unfold documents_ok. cbn [payload]. repeat split; try reflexivity.
    change (field "description" (field "fields" (obj ["fields" =: VObj a5])))
      with (assoc (js "description") a5).
    rewrite (assigned_keeps_description _ _ _ _ _ _ Hfs Hfield).
    apply document_ok.
  - match goal with H : _ = Got ?a |- context [?a ++ _] => rename H into Hfs end.
    destruct (truthy (field "summary" a)).
    + destruct (of_result (sanitizeString _ _ _)) as [s| |]; try discriminate.
      injection Hfs as <-. doc_goal.
    + injection Hfs as <-. doc_goal.
  - apply update_status_documents.
  - apply update_status_documents.
  - split; [doc_goal|]. intros [response|linkError]; exact I.
Qed.

(** X24: Whatever tool is called with whatever arguments, and whatever the
    replies are, a request that carries a [body], a
    [fields.description] or a [comment] carries a well-formed document
    there: what reaches Jira as the text of an issue, a comment or a
    work log has passed [createADFDocument], also when the argument was
    missing or no string.  The field of the story points is taken not
    to be called [description]. *)
Theorem sent_documents_are_well_formed (request : value) :
  always documents_ok (callTool host env cfg request).
Proof.
  unfold callTool. apply always_after. intros params _.
  apply always_after. intros params' _.
  apply always_catch; [apply tool_documents | intros t; exact I].
Qed.
End Documents.

Lemma sent_documents_are_well_formed_witness :
  always documents_ok
    (callTool sample_engine [] sample_config
       (call (VStr (js "jira_create_issue"))
          (obj ["summary" =: VStr (js "Crash on start");
                "storyPoints" =: VNum 3]))).
Proof. apply sent_documents_are_well_formed. reflexivity. Defined.

(* ================================================================== *)
(** * Two tools against their replies *)
(* ================================================================== *)

Lemma find_none_names (wanted : value) (l : list value) :
  find_named wanted l = Got VUndefined ->
  forallb truthy l = true ->
  mapA (read "name") l = Got (map (field "name") l).
Proof.
  induction l as [|t l IH]; [reflexivity|]. cbn [find_named mapA map forallb].
  intros H Ht. apply andb_true_iff in Ht as [Ht Hl].
  unfold read in *. destruct (not_nullish t); [|discriminate].
  cbn [and_also] in *.
  destruct (strict_eq (field "name" t) wanted).
  - injection H as ->. discriminate.
  - now rewrite (IH H Hl).
Qed.

(** X25: [jira_update_issue] with a status that names none of the
    transitions Jira lists changes nothing: with no summary and no
    description, the one request sent is the GET of the transitions, no
    transition is posted, and the result has [success] false and one
    warning that names the status and lists the transitions there
    are. *)
Theorem unknown_status_changes_nothing host env cfg
  (args response : value) (key wanted available : str)
  (transitions : list value) :
  not_nullish args = true ->
  validateIssueKey (field "issueKey" args) = Return key ->
  truthy (field "summary" args) = false ->
  truthy (field "description" args) = false ->
  truthy (field "status" args) = true ->
  field "transitions" (field "data" response) = VArr transitions ->
  forallb truthy transitions = true ->
  find_named (field "status" args) transitions = Got VUndefined ->
  join_values (js ", ") (map (field "name") transitions) = Ok available ->
  toString (field "status" args) = Ok wanted ->
  run_task (callTool host env cfg (call (VStr (js "jira_update_issue")) args))
    [Resolved response]
  = ([{| verb := GET;
         path := js "/issue/" ++ key ++ js "/transitions";
         payload := VUndefined |}],
     Some (Got (createSuccessResponse host
                  (obj ["success" =: VBool false;
                        "message" =:
                          VStr (js "Issue " ++ key
                                ++ js " updated with warnings");
                        "url" =:
                          VStr (JIRA_URL cfg ++ js "/browse/" ++ key);
                        "warnings" =:
                          VArr [VStr (js "Transition " ++ [34%N] ++ wanted
                                      ++ [34%N]
                                      ++ js " not found. Available transitions: "
                                      ++ available)]])))).
Proof.
  intros Hargs Hv Hs Hd Hst Hts Hall Hfind Hjoin Hw.
  rewrite callTool_call. pick_tool.
  unfold jira_update_issue. rewrite (destructure_ok args Hargs).
  cbn [after]. rewrite Hv, Hs, Hd. cbn [of_result after orb].
  apply validateIssueKey_inv in Hv as [Hk _]. rewrite Hk in *.
  cbn [to_text toString of_outcome after].
  unfold update_status. rewrite Hst.
  cbn [await catch run_task].
  assert (Hdata : read "data" response = Got (field "data" response)).
  { unfold read. destruct response; try reflexivity; discriminate Hts. }
  rewrite Hdata. cbn [after]. rewrite Hts. cbn [after].
  rewrite Hfind. cbn [after truthy catch run_task].
  rewrite (find_none_names _ _ Hfind Hall). cbn [and_also].
  rewrite Hjoin. cbn [of_outcome and_also]. unfold to_text. rewrite Hw.
  cbn [of_outcome and_also]. unfold update_result. rewrite Hst.
  rewrite andb_false_r. unfold createIssueUrl, to_text.
  cbn [toString of_outcome and_also is_empty_list catch]. reflexivity.
Qed.

Lemma unknown_status_changes_nothing_witness :
  fst (run_task
         (callTool sample_engine [] sample_config
            (call (VStr (js "jira_update_issue"))
               (obj ["issueKey" =: VStr (js "PROJ-7");
                     "status" =: VStr (js "Shipped")])))
         [Resolved
            (obj ["data" =:
                    obj ["transitions" =:
                           VArr [obj ["id" =: VStr (js "11");
                                      "name" =: VStr (js "To Do")];
                                 obj ["id" =: VStr (js "21");
                                      "name" =: VStr (js "Done")]]]])])
  = [{| verb := GET; path := js "/issue/PROJ-7/transitions";
        payload := VUndefined |}].
Proof.
  rewrite (unknown_status_changes_nothing sample_engine [] sample_config
             _ _ (js "PROJ-7") (js "Shipped") (js "To Do, Done")
             [obj ["id" =: VStr (js "11"); "name" =: VStr (js "To Do")];
              obj ["id" =: VStr (js "21"); "name" =: VStr (js "Done")]]);
    reflexivity.
Defined.

(** X26: [jira_link_issues] answers a rejection of status 400 whose error
    messages hold [link already exists] with a success that says so;
    a rejection of another status is handed to [handleError]. *)
Theorem existing_link_is_a_success host env cfg
  (args reason : value) (inward outward type : str) :
  not_nullish args = true ->
  validateIssueKey (field "inwardIssue" args) = Return inward ->
  validateIssueKey (field "outwardIssue" args) = Return outward ->
  validateSafeParam (or_default (VStr (js "Relates")) (field "linkType" args))
    (js "linkType") None = Return type ->
  not_nullish reason = true ->
  let result :=
    snd (run_task
           (callTool host env cfg (call (VStr (js "jira_link_issues")) args))
           [Rejected reason]) in
  (forall messages,
     field "status" (field "response" reason) = VNum 400 ->
     field "errorMessages" (field "data" (field "response" reason))
     = VArr messages ->
     In (VStr (js "link already exists")) messages ->
     result
     = Some (Got (createSuccessResponse host
                    (obj ["success" =: VBool true;
                          "message" =:
                            VStr (js "Link between " ++ inward ++ js " and "
                                  ++ outward ++ js " already exists");
                          "alreadyLinked" =: VBool true]))))
  /\ (strict_eq (field "status" (field "response" reason)) (VNum 400) = false ->
      result = Some (handleError host env (Reason reason))).
Proof.
  intros Hargs Hin Hout Hty Hr result. subst result.
  rewrite callTool_call. pick_tool.
  unfold jira_link_issues. rewrite (destructure_ok args Hargs).
  cbn [after]. rewrite Hin, Hout, Hty. cbn [of_result after].
  apply validateIssueKey_inv in Hin as [Hi _].
  apply validateIssueKey_inv in Hout as [Ho _]. rewrite Hi, Ho.
  cbn [catch run_task to_text toString of_outcome and_also snd].
  unfold link_failed, read. rewrite Hr. cbn [and_also].
  split.
  - intros messages Hs Hm Hin. rewrite Hs, Hm.
    cbn [strict_eq Z.eqb Pos.eqb includes_opt and_also].
    replace (existsb _ messages) with true; [reflexivity|].
    symmetry. apply existsb_exists. exists (VStr (js "link already exists")).
    split; [exact Hin | reflexivity].
  - intros ->. reflexivity.
Qed.

Lemma existing_link_is_a_success_witness :
  snd (run_task
         (callTool sample_engine [] sample_config
            (call (VStr (js "jira_link_issues"))
               (obj ["inwardIssue" =: VStr (js "PROJ-1");
                     "outwardIssue" =: VStr (js "PROJ-2")])))
         [Rejected
            (obj ["response" =:
                    obj ["status" =: VNum 400;
                         "data" =:
                           obj ["errorMessages" =:
                                  VArr [VStr (js "link already exists")]]]])])
  = Some (Got (createSuccessResponse sample_engine
                 (obj ["success" =: VBool true;
                       "message" =:
                         VStr (js "Link between " ++ js "PROJ-1" ++ js " and "
                               ++ js "PROJ-2" ++ js " already exists");
                       "alreadyLinked" =: VBool true]))).
Proof.
  refine (proj1 (existing_link_is_a_success sample_engine [] sample_config
                   _ _ (js "PROJ-1") (js "PROJ-2") (js "Relates")
                   _ _ _ _ _) [VStr (js "link already exists")] _ _ _);
    try reflexivity.
  now left.
Defined.

(** X28: [jira_create_issue] called with a summary alone sends one POST to
    [/issue] for the configured project with the trimmed summary, the
    document of the description, the issue type [Task], the priority
    [Medium] and no labels; the field of the story points is not
    set. *)
Theorem create_issue_defaults host env cfg (args : value) (summary : str) :
  not_nullish args = true ->
  sanitizeString (field "summary" args) (Some 500) (Some (js "summary"))
  = Return summary ->
  truthy (field "projectKey" args) = false ->
  field "issueType" args = VUndefined ->
  field "priority" args = VUndefined ->
  field "labels" args = VUndefined ->
  not_nullish (field "storyPoints" args) = false ->
  fst (run_task
         (callTool host env cfg (call (VStr (js "jira_create_issue")) args))
         [])
  = [{| verb := POST;
        path := js "/issue";
        payload :=
          obj ["fields" =:
                 obj ["project" =: obj ["key" =: VStr (JIRA_PROJECT_KEY cfg)];
                      "summary" =: VStr summary;
                      "description" =:
                        createADFDocument (field "description" args);
                      "issuetype" =: obj ["name" =: VStr (js "Task")];
                      "priority" =: obj ["name" =: VStr (js "Medium")];
                      "labels" =: VArr []]] |}].
Proof.
  intros Hargs Hs Hp Hty Hpr Hl Hsp.
  rewrite callTool_call. pick_tool.
  unfold jira_create_issue. rewrite (destructure_ok args Hargs).
  cbn [after]. unfold project_of, read. rewrite Hargs. cbn [and_also].
  rewrite Hp, Hty, Hpr, Hl, Hs, Hsp. reflexivity.
Qed.

Lemma create_issue_defaults_witness :
  fst (run_task
         (callTool sample_engine [] sample_config
            (call (VStr (js "jira_create_issue"))
               (obj ["summary" =: VStr (js " Crash on start ")])))
         [])
  = [{| verb := POST;
        path := js "/issue";
        payload :=
          obj ["fields" =:
                 obj ["project" =: obj ["key" =: VStr (js "PROJ")];
                      "summary" =: VStr (js "Crash on start");
                      "description" =: empty_doc;
                      "issuetype" =: obj ["name" =: VStr (js "Task")];
                      "priority" =: obj ["name" =: VStr (js "Medium")];
                      "labels" =: VArr []]] |}].
Proof.
  apply (create_issue_defaults sample_engine [] sample_config
           (obj ["summary" =: VStr (js " Crash on start ")])
           (js "Crash on start")); reflexivity.
Defined.

(* ================================================================== *)
(** * The tool calls of the older [index.js] *)
(* ================================================================== *)

Lemma older_callTool_call host env cfg (name args : value) :
  LegacyTools.callTool host env cfg (call name args)
  = catch (LegacyTools.tool host cfg name args)
      (fun error => Finish (LegacyTools.handleError host env error)).
Proof. reflexivity. Qed.

Lemma older_parser_needs_string (content : value) :
  typeof_string content = false ->
  Legacy.createADFDocument content = Throw TypeError.
Proof. destruct content; try reflexivity; discriminate. Qed.

Ltac pick_older :=
  unfold LegacyTools.tool;
  repeat match goal with
         | |- context [is_str ?a (VStr (js ?n))] =>
             let r := eval vm_compute in (is_str a (VStr (js n))) in
             change (is_str a (VStr (js n))) with r
         end;
  cbv iota.

(** Refusal of one step of a tool, as the handler answers it. *)
Ltac refuse :=
  cbn [after of_result of_outcome catch run_task];
  first [ eexists; reflexivity ].

(** X29: In the older [index.js] the description of [jira_create_issue] and
    of [jira_create_subtask] and the comment of [jira_add_comment] must
    be strings: called with another value there, or with none, the tool
    sends nothing and the call is answered by an error result. *)
Theorem older_tools_need_a_text host env cfg (name k : string)
  (args : value) :
  In (name, k) text_arguments ->
  typeof_string (field k args) = false ->
  exists text,
    run_task
      (LegacyTools.callTool host env cfg (call (VStr (js name)) args)) []
    = ([], Some (Got (error_result text))).
Proof.
  intros Hin Hk. rewrite older_callTool_call.
  destruct Hin as [[= <- <-] | [[= <- <-] | [[= <- <-] | []]]]; pick_older.
  - unfold LegacyTools.jira_create_issue, destructure.
    destruct (not_nullish args); [|refuse]. cbn [after].
    destruct (sanitizeString _ _ _); [|refuse]. cbn [after of_result].
    rewrite (older_parser_needs_string _ Hk). refuse.
  - unfold LegacyTools.jira_add_comment, destructure.
    destruct (not_nullish args); [|refuse]. cbn [after].
    destruct (validateIssueKey _) as [key|] eqn:E; [|refuse].
    cbn [after of_result].
    apply validateIssueKey_inv in E as (E & _). rewrite E.
    change (to_text (VStr key)) with (Got (A := str) key). cbn [after].
    rewrite (older_parser_needs_string _ Hk). refuse.
  - unfold LegacyTools.jira_create_subtask, destructure.
    destruct (not_nullish args); [|refuse]. cbn [after].
    destruct (validateIssueKey _); [|refuse]. cbn [after of_result].
    destruct (sanitizeString _ _ _); [|refuse]. cbn [after of_result].
    rewrite (older_parser_needs_string _ Hk). refuse.
Qed.

Lemma older_tools_need_a_text_witness :
  exists text,
    run_task
      (LegacyTools.callTool sample_engine [] sample_config
         (call (VStr (js "jira_create_issue"))
            (obj ["summary" =: VStr (js "Crash on start")]))) []
    = ([], Some (Got (error_result text))).
Proof.
  apply (older_tools_need_a_text sample_engine [] sample_config
           "jira_create_issue" "description");
    [left; reflexivity | reflexivity].
Defined.

Section OlderPaths.
Variable host : engine.
Variable env : environment.
Variable cfg : config.

Lemma older_tool_paths (name args : value) :
  is_str (js "jira_get_project_info") name = false ->
  always plain_path (LegacyTools.tool host cfg name args).
Proof.
  intros Hn. unfold LegacyTools.tool. rewrite Hn.
  repeat match goal with
         | |- always _ (if ?b then _ else _) => destruct b
         end.
  all: try (unfold plain_path; walk; fail).
  - unfold LegacyTools.jira_link_issues. walk. split; [reflexivity|].
    intros [response|linkError]; exact I.
Qed.

(** X30: The older handler validates every issue key before it is put into
    a path, but not the project key.  For every tool but
    [jira_get_project_info], whatever the arguments and the replies
    are, the path of a request holds letters, digits, slashes, dashes
    and underscores only.  [jira_get_project_info] sends its request to
    [/project/] followed by the text of the [projectKey] argument as it
    was given, the configured key when there is none: nothing of the
    argument is refused or changed. *)
Theorem older_paths (name args : value) :
  (is_str (js "jira_get_project_info") name = false ->
   always plain_path (LegacyTools.callTool host env cfg (call name args)))
  /\ (forall key,
        is_str (js "jira_get_project_info") name = true ->
        not_nullish args = true ->
        to_text (or_default (VStr (JIRA_PROJECT_KEY cfg))
                   (field "projectKey" args)) = Got key ->
        fst (run_task
               (LegacyTools.callTool host env cfg (call name args)) [])
        = [{| verb := GET; path := js "/project/" ++ key;
              payload := VUndefined |}]).
Proof.
  split.
  - intros Hn. rewrite older_callTool_call.
    apply always_catch; [now apply older_tool_paths | intros t; exact I].
  - intros key Hn Hargs Hkey. rewrite older_callTool_call.
    destruct name as [| | | |n| |]; try discriminate.
    cbn [is_str] in Hn. apply str_eqb_eq in Hn. subst n. pick_older.
    unfold LegacyTools.jira_get_project_info.
    rewrite (destructure_ok args Hargs). cbn [after].
    rewrite Hkey. reflexivity.
Qed.
End OlderPaths.

Lemma older_paths_witness :
  always plain_path
    (LegacyTools.callTool sample_engine [] sample_config
       (call (VStr (js "jira_delete_issue"))
          (obj ["issueKey" =: VStr (js "PROJ-7")])))
  /\ fst (run_task
            (LegacyTools.callTool sample_engine [] sample_config
               (call (VStr (js "jira_get_project_info"))
                  (obj ["projectKey" =: VStr (js "../../user")]))) [])
     = [{| verb := GET; path := js "/project/../../user";
           payload := VUndefined |}].
Proof.
  split.
  - exact (proj1 (older_paths sample_engine [] sample_config
                    (VStr (js "jira_delete_issue"))
                    (obj ["issueKey" =: VStr (js "PROJ-7")])) eq_refl).
  - exact (proj2 (older_paths sample_engine [] sample_config
                    (VStr (js "jira_get_project_info"))
                    (obj ["projectKey" =: VStr (js "../../user")]))
             (js "../../user") eq_refl eq_refl eq_refl).
Defined.
